(* ===== verification/_CoqProject ===== *)
-Q . S2P
Prelude.v
Crc32c.v
Packet.v
Serialize.v
CircularBuffer.v
Fqueue.v
Mpsc.v
PacketPool.v
Framing.v
Session.v
Groups.v
Offline.v
Network.v
AuthStore.v
Seats.v
Sockets.v
Auth.v
Delivery.v
GroupChat.v
FileTransfer.v
Rounds.v
Upload.v
Download.v
Transfers.v
DownloadThreads.v
Table.v
SignUp.v
Shape.v
Handlers.v
Router.v
Dispatch.v
Worker.v
Lifecycle.v
System.v
Client.v
ClientFiles.v
Threads.v
Menu.v
EndToEnd.v
