(* ===== verification/Prelude.v ===== *)
(** * Verification of the IOCP chat server

    The program is a chat server on Windows I/O completion ports: clients connect over TCP,
    sign up with a one-time password, log in, send private and group messages, and exchange
    files.  This library models its own code (C++ under the repository's root) as
    executable definitions and proves what makes it correct.

    ** How the parts interact

    A worker thread (IOCPManager::workerThread) is told that a socket has data.  It reads
    the data into the connection's circular buffer, cuts complete packets out of it, each
    into an object of the packet pool, finds or creates the session of the socket, checks
    header and checksum of every packet and hands it to MessageRouter::handlePacket.  The
    router lets packets of sessions that are not authenticated through only if they log in,
    sign up or present a token, and calls the manager of the packet's type: AuthManager,
    SignUp, GroupManager, FileTransferManager, or, for messages, ManageOffline, which queues
    the packet for its receiver and sends one packet at a time through
    MessageRouter::routePacket and IOCPManager::initiateSend.  The completion of a send
    drains the next packet of the queue.

    ** The files

    - Prelude: bytes, machine integers ([wrap], [to_int32]), byte-array writes ([blit],
      [slice], [load], [store]), the result type [outcome] ([Ok], [Throw], [UB] for undefined
      behaviour) with its [let!], tactics and hint databases.
    - Crc32c: protocol/CRC32C.cpp, both implementations; the interface [Checksum] and
      [ChecksumLaws] that the packet layer uses.
    - Packet, Serialize: protocol/Packet.cpp, Packet.h, PacketHeader.h, PacketTypes.h,
      ProtocolStructs.h: header, parsers, every serializer and payload reader.
    - CircularBuffer: datastructure/circularBuffer.h.  Framing: the receive branch of
      IOCPManager::workerThread.
    - Fqueue, Mpsc: datastructure/fixedQueue.h and Mpsc.h, lock-free queues as step relations
      over all interleavings.
    - PacketPool: pool/PacketPool.cpp.  Session: session/Session.cpp, SessionManager.cpp,
      pool/SessionPool.cpp and the disconnect handlers of IOCPManager.cpp.  Groups:
      chat/Group.cpp and GroupManager.cpp.
    - Offline: offlineManager/ManageOffline.cpp, over the class [Transport].  Network:
      pool/IOContextPool.h, initiateSend, postRecv and the completions of IOCPManager.cpp,
      Session::sendPacket and MessageRouter::routePacket; it is the instance of [Transport].
    - AuthStore, Auth: authentication/auth_types.h, auth_store.h and AuthManager.cpp.
      libsodium is the class [Sodium], its documented behaviour [SodiumLaws].
    - Seats: the registry of sessions under any input ([seats_ok]) and over any history of
      packets, logins and removals.  Sockets: the life of a connection over such histories.
    - Delivery: the invariant [chat_ok] of pool, contexts, registry and queues together, and
      the operations all handlers share.  GroupChat: MessageRouter::routeGroupMessage.
    - FileTransfer: filetransfer/FileTransferManager.cpp and FIleDownload.cpp.  Rounds: what
      both ends of a file transfer share.  Upload and Download hold the theorems about whole
      files.  Transfers: which handler calls return, who owns a transfer state, and
      stopAllTransfers.  DownloadThreads: the threads of HandleFileTransfer, access by access,
      over the [TransferState] they share.
    - Table: datastructure/table.h with token/userInfo.h and
      AuthManager::LoadUsersFromDatabase.  SignUp: authentication/SignUp.cpp.
    - Shape, Handlers: the memory ([mem_ok]: pool, contexts, queues) whatever a packet
      contains, and that every handler keeps this invariant and [seats_ok].
    - Router: MessageRouter::handlePacket and the dispatch of IOCPManager::workerThread over
      the state [Server] of all components.  Dispatch: lemmas about whole batches.
    - Worker: a turn of IOCPManager::workerThread on any completion and a turn of
      IOCPManager::acceptLoop.  Lifecycle: server/Server.cpp, main.cpp,
      IOCPManager::initialize and shutdown, and the completion port at shut-down.  System:
      the turns of all threads as one relation [server_turn], and [well_formed].
    - Client, ClientFiles: client/Client.cpp; the framing of the receive loop, credentials
      and requests in Client, uploads, downloads, the handling of every packet and the whole
      receive loop in ClientFiles.  Menu: client/main.cpp, and connectToServer and disconnect.
    - Threads: the background threads of SignUp.cpp and FIleDownload.cpp and the wait of the
      client's upload thread, with their condition variables, over all interleavings.
    - EndToEnd: a client's menu and the server's worker thread together.

    A pointer into a pool or a heap is an index or a key, and an access outside is [UB]; a
    class is a record; a mutex-protected method is one function from state to state; what
    the operating system decides (accepted sends, mapped files, clock readings, random
    numbers) is an argument.

    ** What the theorems show

    - Bytes to messages: the checksum loops compute a CRC and detect any one-byte change
      (Crc32c, Packet); every message is serialized to its frame and read back
      ([Serialize.message_roundtrip]); the circular buffer is a byte queue; the receive path
      yields the sent messages however TCP cuts the stream ([Framing.messages_delivered],
      [Framing.reassembly_any_chunking]).
    - The whole server: whatever bytes arrive and in whatever order its threads take turns,
      every reachable state is well formed ([System.server_stays_well_formed]).  The theorems
      about particular messages assume the stronger invariant [chat_ok] and say what exactly
      happens; this one assumes nothing about the packets.
    - Memory and concurrency: pools never hand an object out twice; both lock-free queues
      are FIFO under every interleaving, and the bounded one drops a value only when there
      is no free slot for it ([Fqueue.fqueue_concurrent_fifo]); ids, sockets and pooled
      sessions stay one to one in every history ([Seats.registry_consistent]); every
      accepted socket is closed exactly once ([Sockets.closed_exactly_once]); the handlers of
      file messages return but for two calls that are undefined, their pointers lead to live
      states, and stopAllTransfers deletes each once ([Transfers.transfer_states_owned]).
    - Start and end: the server starts in a state that satisfies the invariants
      ([Lifecycle.new_server_ready]), its worker threads end and the port is closed after
      them ([Lifecycle.shutdown_completes]), the thread of the download links loses no
      wake-up and ends ([Threads.link_thread_finishes]); a client closes what it opened
      ([Menu.client_run_calls]).
    - Delivery: the sends started for a receiver are its queue in order, one at a time
      ([Offline.offline_in_order]); one turn of a worker thread takes a batch of messages
      from the bytes of the socket to the queues of their receivers, in order
      ([Worker.worker_delivers]); a group message is queued once for every other member.
    - Authentication: nothing but authentication happens on an unauthenticated session
      ([Router.unauthenticated_rejected]); who logs in, with which effect on the whole server,
      and which login packets are undefined behaviour ([Auth.login_authenticates],
      [Router.login_registers], and from the first bytes of a connection
      [Worker.worker_first_login]); tokens are unforgeable as far as the MAC is, refresh tokens work once; sign-up persists across a restart; a one-time
      password stands five guesses.
    - Storage: the user table refines a list of records and survives restarts; an
      upload whose sender works round by round is reassembled exactly
      ([Upload.upload_reassembles]); a download ends for every finite course of waits, and
      when it completes it has sent every chunk ([Download.download_sends_file]).  Seen access
      by access, copies of chunks included, a thread that has its file to itself does the
      same, and of several threads all end but those that were overtaken, whose list or chunk
      was replaced while they read it ([DownloadThreads.lone_download_refines],
      [DownloadThreads.downloads_end]).
    - Defects, as theorems about the code as it is: sends that leave out the last 16 bytes of
      a frame, rotated refresh tokens that are never stored, logins that do not register,
      writes that are not indexed, queues that stall after a
      failed completion, a length check that overflows, a logout and a login in one segment
      that authenticate a stranger ([Worker.login_after_logout_leaks]), late completions that
      close the next connection ([Worker.late_completion_closes_successor]), wake-ups and
      acknowledgements that are lost ([Threads.signup_stop_lost],
      [Threads.acknowledgement_lost]), chunks repeated from an earlier round that corrupt an
      upload ([Upload.repeated_chunk_corrupts]), downloads of one file that corrupt each other
      and an acknowledgement that frees a list in use
      ([DownloadThreads.concurrent_downloads_torn],
      [DownloadThreads.double_acknowledgement_undefined]), a listening socket closed twice
      ([Lifecycle.server_calls]).
    - Both ends together: the lines typed at the menu are the commands meant
      ([Menu.typed_roundtrip]) and go out as the frames the server expects
      ([Client.client_sends_frame], [Menu.typed_session_sent]), streams from the server are
      taken apart correctly ([Client.client_receives_messages]); the receive loop ends with
      the result of its handlers, except for one kind of header on which it never ends
      ([ClientFiles.receive_ends_or_hangs]); both agree how long a token is valid
      ([Client.granted_tokens_reconnect]); an upload thread and the server's handlers store
      the file if no acknowledgement is lost ([ClientFiles.client_upload_stored]), and
      downloads and chat messages reach the disk and the screen.  Messages typed at the
      menu of a client end in the queues of their receivers
      ([EndToEnd.typed_messages_queued]).

    ** Bounds and fuel

    Integers keep their width: 32-bit lengths and counters wrap, 64-bit indices wrap, the
    conversion to [int] in parseData is signed.  [Framing.loop_fuel] is 1025: a receive
    buffer of 16384 bytes holds at most 1024 headers, and [frame_loop_spec] shows that the
    loop never runs out.  [FileTransfer.transfer_rounds] gets one unit of fuel more than
    there are waits, and every round uses a wait; the fuel of [ClientFiles.receive_turns] is
    one more than the number of bytes buffered, and a turn that does not hang takes at least
    one of them away.  [DownloadThreads.budget] bounds the steps of a thread by about four
    thousand and twice the number of missing chunks reported.  [k] in [net_ok] and [chat_ok] counts the
    I/O contexts an operation may still take, so that a theorem says what it needs of the
    pool instead of assuming that it is never empty.

    ** Not modelled

    The logger and other output that decides nothing; the sending of mail (whether it
    succeeds is an argument); random generators (what they draw is an argument); data races
    between threads beyond the step relations of Fqueue, Mpsc, Threads, DownloadThreads and
    Lifecycle: a handler is one step elsewhere; weak memory orderings, the atomics being
    sequentially consistent here; the files of the build directory, which the build system
    generates or which were transferred by the program itself. *)

From Stdlib Require Export ZArith Lia.
From coqutil Require Export Byte Word.LittleEndianList.
From stdpp Require Export base tactics list gmap strings numbers option.

#[global] Open Scope Z_scope.

(** ** Bytes and byte strings *)

#[global] Instance byte_eq_decision : EqDecision byte.
Proof.
  intros a b. destruct (Z.eq_dec (byte.unsigned a) (byte.unsigned b)) as [e|n].
  - left. by apply byte.unsigned_inj.
  - right. by intros ->.
Defined.

#[global] Program Instance byte_countable : Countable byte :=
  inj_countable' byte.unsigned byte.of_Z _.
Next Obligation. intros b. apply byte.of_Z_unsigned. Qed.

(** A [std::string] or a [uint8_t] buffer: a sequence of 8-bit characters. *)
Abbreviation bstr := (list byte).

(** A string literal of the source. *)
Definition str (s : string) : bstr := String.list_byte_of_string s.

(** [memset(p, 0, n)]. *)
Definition zeros (n : nat) : bstr := replicate n Byte.x00.

(** ** Machine integers *)

(** Truncation to a [w]-bit unsigned integer. *)
Definition wrap (w z : Z) : Z := z mod 2 ^ w.

(** The conversion of a 32-bit unsigned value to [int]. *)
Definition to_int32 (z : Z) : Z :=
  let u := wrap 32 z in if u <? 2 ^ 31 then u else u - 2 ^ 32.

(** [std::string::length()] and the like, as an integer. *)
Definition len {A : Type} (l : list A) : Z := Z.of_nat (length l).

(** ** Byte order

    The server and the client run on x86: a [w]-byte integer sits in memory in
    little-endian order, and [htons], [htonl] and [htonll] reverse its bytes. *)

Definition bswap (n : nat) (z : Z) : Z := le_combine (reverse (le_split n z)).

Definition htons (z : Z) : Z := bswap 2 z.
Definition ntohs (z : Z) : Z := bswap 2 z.
Definition htonl (z : Z) : Z := bswap 4 z.
Definition ntohl (z : Z) : Z := bswap 4 z.
Definition htonll (z : Z) : Z := bswap 8 z.
Definition ntohll (z : Z) : Z := bswap 8 z.

(** ** Raw memory

    An array is a list of bytes; [blit off src dst] is [memcpy(dst + off, src, |src|)]
    and [slice off n dst] reads [n] bytes from [dst + off]. *)

Definition slice (off n : nat) (l : bstr) : bstr := take n (drop off l).

Definition blit (off : nat) (src dst : bstr) : bstr :=
  take off dst ++ src ++ drop (off + length src) dst.

(** A [w]-byte integer field stored to, or loaded from, memory. *)
Definition store (w off : nat) (v : Z) (dst : bstr) : bstr := blit off (le_split w v) dst.
Definition load (w off : nat) (src : bstr) : Z := le_combine (slice off w src).

Arguments slice : simpl never.
Arguments blit : simpl never.
Arguments store : simpl never.
Arguments load : simpl never.
Arguments zeros : simpl never.
Arguments bswap : simpl never.

(** ** Outcomes

    What a call can do besides returning: throw a C++ exception, or run into
    undefined behaviour (an access outside an object, a null or dangling pointer). *)

Inductive outcome (A : Type) : Type :=
| Ok (a : A)
| Throw
| UB.
Arguments Ok {A} a.
Arguments Throw {A}.
Arguments UB {A}.

Definition obind {A B : Type} (m : outcome A) (f : A -> outcome B) : outcome B :=
  match m with Ok a => f a | Throw => Throw | UB => UB end.

Declare Scope chat_scope.
Delimit Scope chat_scope with chat.
Notation "'let!' x := m 'in' k" := (obind m (fun x => k))
  (at level 10, x pattern, k at level 200) : chat_scope.
#[global] Open Scope chat_scope.

(** ** Tactics and hint databases *)

Create HintDb chat.

(** Split every boolean test and every match of the goal and the hypotheses. *)
Ltac bdestruct_all :=
  repeat match goal with
  | |- context [if decide ?P then _ else _] => destruct (decide P)
  | H : context [if decide ?P then _ else _] |- _ => destruct (decide P)
  | |- context [if ?b then _ else _] => destruct b eqn:?
  | H : context [if ?b then _ else _] |- _ => destruct b eqn:?
  end.

(** Turn boolean comparisons of the hypotheses into propositions. *)
Ltac bool_to_prop :=
  repeat match goal with
  | H : (_ <? _) = true |- _ => apply Z.ltb_lt in H
  | H : (_ <? _) = false |- _ => apply Z.ltb_ge in H
  | H : (_ <=? _) = true |- _ => apply Z.leb_le in H
  | H : (_ <=? _) = false |- _ => apply Z.leb_gt in H
  | H : (_ =? _) = true |- _ => apply Z.eqb_eq in H
  | H : (_ =? _) = false |- _ => apply Z.eqb_neq in H
  | H : (_ <? _)%nat = true |- _ => apply Nat.ltb_lt in H
  | H : (_ <? _)%nat = false |- _ => apply Nat.ltb_ge in H
  | H : (_ <=? _)%nat = true |- _ => apply Nat.leb_le in H
  | H : (_ <=? _)%nat = false |- _ => apply Nat.leb_gt in H
  | H : (_ =? _)%nat = true |- _ => apply Nat.eqb_eq in H
  | H : (_ =? _)%nat = false |- _ => apply Nat.eqb_neq in H
  | H : negb _ = true |- _ => apply negb_true_iff in H
  | H : negb _ = false |- _ => apply negb_false_iff in H
  | H : _ && _ = true |- _ => apply andb_true_iff in H; destruct H
  | H : _ || _ = false |- _ => apply orb_false_iff in H; destruct H
  end.

(** Take the calls of a function that returned apart. *)
Ltac returned H :=
  repeat match type of H with
  | obind ?m _ = Ok _ => let E := fresh "E" in destruct m eqn:E; [cbn [obind] in H|discriminate H|discriminate H]
  | context [let (_, _) := ?x in _] => destruct x
  end.

(** Arithmetic on list lengths. *)
Create Rewrite HintDb lens.
Ltac lens := autorewrite with lens in *; cbn [length] in *; try lia.

(** ** Generic lemmas: lengths *)

#[export] Hint Rewrite @length_app @length_take @length_drop @length_replicate
  @length_insert @length_reverse @length_fmap @length_seq length_le_split : lens.

Lemma length_slice off n l : length (slice off n l) = (n `min` (length l - off))%nat.
Proof. unfold slice. lens. Qed.

Lemma length_zeros n : length (zeros n) = n.
Proof. apply length_replicate. Qed.
#[export] Hint Rewrite length_slice length_zeros : lens.

Lemma length_blit off src dst :
  (off + length src <= length dst)%nat -> length (blit off src dst) = length dst.
Proof. intros H. unfold blit. lens. Qed.

(** Lengths in the presence of nested copies, the innermost first. *)
Ltac blit_lengths d :=
  lazymatch d with
  | blit ?o ?s ?d' =>
      blit_lengths d';
      let H := fresh "Hblit" in
      assert (H : length (blit o s d') = length d')
        by (apply length_blit; autorewrite with lens; cbn [length]; lia)
  | _ => idtac
  end.
Ltac blen :=
  match goal with
  | |- context [length (blit ?o ?s ?d)] => blit_lengths (blit o s d)
  | _ => idtac
  end; lens.

Lemma length_store w off v dst :
  (off + w <= length dst)%nat -> length (store w off v dst) = length dst.
Proof. intros H. apply length_blit. lens. Qed.

(** ** Generic lemmas: machine integers *)

Lemma wrap_range w z : 0 <= w -> 0 <= wrap w z < 2 ^ w.
Proof. intros Hw. apply Z.mod_pos_bound. apply Z.pow_pos_nonneg; lia. Qed.

Lemma wrap_small w z : 0 <= z < 2 ^ w -> wrap w z = z.
Proof. apply Z.mod_small. Qed.

Lemma to_int32_small z : 0 <= z < 2 ^ 31 -> to_int32 z = z.
Proof.
  intros Hz. unfold to_int32. rewrite wrap_small by lia.
  by rewrite (proj2 (Z.ltb_lt _ _)) by lia.
Qed.

(** ** Generic lemmas: byte order *)

Lemma le_split_bswap n z : le_split n (bswap n z) = reverse (le_split n z).
Proof. apply split_le_combine'. lens. Qed.

Lemma bswap_bswap n z : bswap n (bswap n z) = z mod 2 ^ (Z.of_nat n * 8).
Proof.
  unfold bswap at 1. rewrite le_split_bswap, reverse_involutive.
  apply le_combine_split.
Qed.

Lemma bswap_range n z : 0 <= bswap n z < 2 ^ (8 * Z.of_nat n).
Proof.
  unfold bswap. pose proof (le_combine_bound (reverse (le_split n z))) as H.
  autorewrite with lens in H. lia.
Qed.

Lemma ntohs_htons z : 0 <= z < 2 ^ 16 -> ntohs (htons z) = z.
Proof. intros H. unfold ntohs, htons. rewrite bswap_bswap. by apply Z.mod_small. Qed.

Lemma ntohl_htonl z : 0 <= z < 2 ^ 32 -> ntohl (htonl z) = z.
Proof. intros H. unfold ntohl, htonl. rewrite bswap_bswap. by apply Z.mod_small. Qed.

Lemma ntohll_htonll z : 0 <= z < 2 ^ 64 -> ntohll (htonll z) = z.
Proof. intros H. unfold ntohll, htonll. rewrite bswap_bswap. by apply Z.mod_small. Qed.

Lemma ntohl_range z : 0 <= ntohl z < 2 ^ 32.
Proof. apply (bswap_range 4). Qed.

Lemma htonl_range z : 0 <= htonl z < 2 ^ 32.
Proof. apply (bswap_range 4). Qed.

(** ** Generic lemmas: raw memory *)

Lemma slice_app_l off n a b :
  (off + n <= length a)%nat -> slice off n (a ++ b) = slice off n a.
Proof.
  intros H. unfold slice. rewrite drop_app_le by lia.
  rewrite take_app_le by lens. done.
Qed.

Lemma slice_app_r off n a b :
  (length a <= off)%nat -> slice off n (a ++ b) = slice (off - length a) n b.
Proof. intros H. unfold slice. by rewrite drop_app_ge by lia. Qed.

Lemma slice_all l : slice 0 (length l) l = l.
Proof. unfold slice. rewrite drop_0. apply firstn_all. Qed.

Lemma slice_prefix n a b : n = length a -> slice 0 n (a ++ b) = a.
Proof. intros ->. rewrite slice_app_l by lia. apply slice_all. Qed.

Lemma slice_take off n m l : (off + n <= m)%nat -> slice off n (take m l) = slice off n l.
Proof.
  intros H. unfold slice. rewrite skipn_firstn_comm, take_take.
  f_equal. lia.
Qed.

Lemma slice_drop off n m l : slice off n (drop m l) = slice (m + off) n l.
Proof. unfold slice. by rewrite drop_drop. Qed.

Lemma slice_blit_before i n off s d :
  (off <= length d)%nat -> (i + n <= off)%nat ->
  slice i n (blit off s d) = slice i n d.
Proof. intros Hd Hi. unfold blit. rewrite slice_app_l by lens. by apply slice_take. Qed.

Lemma slice_blit_inside i n off s d :
  (off <= length d)%nat -> (off <= i)%nat -> (i + n <= off + length s)%nat ->
  slice i n (blit off s d) = slice (i - off) n s.
Proof.
  intros Hd Ho Hi. unfold blit. rewrite slice_app_r by lens.
  rewrite slice_app_l by lens. f_equal. lens.
Qed.

Lemma slice_blit_after i n off s d :
  (off + length s <= length d)%nat -> (off + length s <= i)%nat ->
  slice i n (blit off s d) = slice i n d.
Proof.
  intros Hd Hi. unfold blit. rewrite slice_app_r by lens.
  rewrite slice_app_r by lens. rewrite slice_drop. f_equal. lens.
Qed.

Lemma slice_blit_eq off n s d :
  (off <= length d)%nat -> n = length s -> slice off n (blit off s d) = s.
Proof.
  intros Hd ->. rewrite slice_blit_inside by lia.
  rewrite Nat.sub_diag. apply slice_all.
Qed.

(** Two adjacent copies are one copy of the concatenation. *)
Lemma blit_blit off a b d off' :
  off' = (off + length a)%nat -> (off + length a <= length d)%nat ->
  blit off' b (blit off a d) = blit off (a ++ b) d.
Proof.
  intros -> Hd. unfold blit.
  rewrite (app_assoc (take off d) a), take_app_length' by lens.
  rewrite <- !app_assoc. do 3 f_equal.
  rewrite app_assoc, drop_app_ge by lens. rewrite drop_drop. f_equal. lens.
Qed.

Lemma blit_prepend off h s d off' :
  off' = (off + length h)%nat -> (off' <= length d)%nat ->
  blit off h (blit off' s d) = blit off (h ++ s) d.
Proof.
  intros -> Hd. unfold blit.
  rewrite take_app_le, take_take by lens. rewrite Nat.min_l by lia.
  rewrite <- app_assoc. do 2 f_equal.
  rewrite drop_app_ge by lens.
  replace (_ - _)%nat with 0%nat by lens. rewrite drop_0. f_equal.
  f_equal. lens.
Qed.

Lemma load_blit_eq w off s d :
  (off <= length d)%nat -> w = length s -> load w off (blit off s d) = le_combine s.
Proof. intros ??. unfold load. by rewrite slice_blit_eq. Qed.

Lemma slice_one i l b : l !! i = Some b -> slice i 1 l = [b].
Proof. intros H. unfold slice. by erewrite drop_S, take_S_r by done. Qed.

(** ** Strings *)

Lemma len_nonneg {A} (l : list A) : 0 <= len l.
Proof. unfold len. lia. Qed.
#[export] Hint Resolve len_nonneg : chat.
