(* ===== verification/Crc32c.v ===== *)
(** The checksum of the wire format: [CRC32C::compute] of protocol/CRC32C.cpp.

    [compute] dispatches on the processor: the table loop [compute_soft] or the
    SSE4.2 loop [computeHardware], whose two instructions are parameters.  Both
    loops are byte-step checksums ([Section ByteStep]); what the packet layer
    needs of either is the interface [Checksum]/[ChecksumLaws]: a 32-bit result,
    continuation over a split buffer, and detection of a one-byte change. *)

From S2P Require Import Prelude.

(** ** Definitions *)

(** [CRC32C::kCrc32cTable], entry by entry. *)
Definition kCrc32cTable : list Z :=
  [0x00000000; 0xF26B8303; 0xE13B70F7; 0x1350F3F4; 0xC2A7E8EE; 0x30CC6BED;
   0x239C9819; 0xD1F71B1A; 0x85AE4EDD; 0x77C5CDDE; 0x64953E2A; 0x96FEBF29;
   0x4709A433; 0xB5622730; 0xA632D4C4; 0x545957C7; 0x0B5D9DAB; 0xF9361EA8;
   0xEA66ED5C; 0x180D6E5F; 0xC9FA7545; 0x3B91F646; 0x28C105B2; 0xDAAA86B1;
   0x8EF3D376; 0x7C985075; 0x6FC8A381; 0x9DA32082; 0x4C543B98; 0xBE3FB89B;
   0xAD6F4B6F; 0x5F04C86C; 0x17BB3B57; 0xE5D0B854; 0xF6804BA0; 0x04EBC8A3;
   0xD51CD3B9; 0x277750BA; 0x3427A34E; 0xC64C204D; 0x9215758A; 0x607EF689;
   0x732E057D; 0x8145867E; 0x50B29D64; 0xA2D91E67; 0xB189ED93; 0x43E26E90;
   0x1CE6A4FC; 0xEE8D27FF; 0xFDDDD40B; 0x0FB65708; 0xDE414C12; 0x2C2ACF11;
   0x3F7A3CE5; 0xCD11BFE6; 0x9948EA21; 0x6B236922; 0x78739AD6; 0x8A1819D5;
   0x5BEF02CF; 0xA98481CC; 0xBAD47238; 0x48BFF13B; 0x2F7676AE; 0xDD1DF5AD;
   0xCE4D0659; 0x3C26855A; 0xEDD19E40; 0x1FBA1D43; 0x0CEAEAB7; 0xFE8169B4;
   0xAAD83C73; 0x58B3BF70; 0x4BE34C84; 0xB988CF87; 0x687FD49D; 0x9A14579E;
   0x8944A46A; 0x7B2F2769; 0x242BED05; 0xD6406E06; 0xC5109DF2; 0x377B1EF1;
   0xE68C05EB; 0x14E786E8; 0x07B7751C; 0xF5DCF61F; 0xA185A3D8; 0x53EE20DB;
   0x40BED32F; 0xB2D5502C; 0x63224B36; 0x9149C835; 0x82193BC1; 0x7072B8C2;
   0x38CD4BF9; 0xCAA6C8FA; 0xD9F63B0E; 0x2B9DB80D; 0xFA6AA317; 0x08012014;
   0x1B51D3E0; 0xE93A50E3; 0xBD630524; 0x4F088627; 0x5C5875D3; 0xAE33F6D0;
   0x7FC4EDCA; 0x8DAF6EC9; 0x9EFF9D3D; 0x6C941E3E; 0x3394D452; 0xC1FF5751;
   0xD2AFA4A5; 0x20C427A6; 0xF1333CBC; 0x0358BFBF; 0x10084C4B; 0xE263CF48;
   0xB63A9A8F; 0x4451198C; 0x5701EA78; 0xA56A697B; 0x749D7261; 0x86F6F162;
   0x95A60296; 0x67CD8195; 0x5EECED5D; 0xAC876E5E; 0xBFD79DAA; 0x4DBC1EA9;
   0x9C4B05B3; 0x6E2086B0; 0x7D707544; 0x8F1BF647; 0xDB42A380; 0x29292083;
   0x3A79D377; 0xC8125074; 0x19E54B6E; 0xEB8EC86D; 0xF8DE3B99; 0x0AB5B89A;
   0x55B172F6; 0xA7DAF1F5; 0xB48A0201; 0x46E18102; 0x97169A18; 0x657D191B;
   0x762DEAFF; 0x844669FC; 0xD01F3C3B; 0x2274BF38; 0x31244CCC; 0xC34FCFCF;
   0x12B8D4D5; 0xE0D357D6; 0xF383A422; 0x01E82721; 0x4975D41A; 0xBB1E5719;
   0xA84EA4ED; 0x5A2527EE; 0x8BD23CF4; 0x79B9BFF7; 0x6AE94C03; 0x9882CF00;
   0xCCDB9AC7; 0x3EB019C4; 0x2DE0EA30; 0xDF8B6933; 0x0E7C7229; 0xFC17F12A;
   0xEF4702DE; 0x1D2C81DD; 0x42284BB1; 0xB043C8B2; 0xA3133B46; 0x5178B845;
   0x808FA35F; 0x72E4205C; 0x61B4D3A8; 0x93DF50AB; 0xC786056C; 0x35ED866F;
   0x26BD759B; 0xD4D6F698; 0x0521ED82; 0xF74A6E81; 0xE41A9D75; 0x16711E76;
   0x71B899E3; 0x83D31AE0; 0x9083E914; 0x62E86A17; 0xB31F710D; 0x4174F20E;
   0x522401FA; 0xA04F82F9; 0xF416D73E; 0x067D543D; 0x152DA7C9; 0xE74624CA;
   0x36B13FD0; 0xC4DABCD3; 0xD78A4F27; 0x25E1CC24; 0x7AE50648; 0x888E854B;
   0x9BDE76BF; 0x69B5F5BC; 0xB842EEA6; 0x4A296DA5; 0x59799E51; 0xAB121D52;
   0xFF4B4895; 0x0D20CB96; 0x1E703862; 0xEC1BBB61; 0x3DECA07B; 0xCF87237C;
   0xDCD7D088; 0x2EBC538B; 0x6613A0B0; 0x947823B3; 0x8728D047; 0x75435344;
   0xA4B4485E; 0x56DFCB5D; 0x458F38A9; 0xB7E4BBAA; 0xE3BDEE6D; 0x11D66D6E;
   0x02869E9A; 0xF0ED1D99; 0x211A0683; 0xD3718580; 0xC0217674; 0x324AF577;
   0x6D4E3F1B; 0x9F25BC18; 0x8C754FEC; 0x7E1ECCEF; 0xAFE9D7F5; 0x5D8254F6;
   0x4ED2A702; 0xBCB92401; 0xE8E071C6; 0x1A8BF2C5; 0x09DB0131; 0xFBB08232;
   0x2A479928; 0xD82C1A2B; 0xCB7CE9DF; 0x39176ADC].

(** Complement of a [uint32_t]. *)
Definition not32 (c : Z) : Z := wrap 32 (Z.lnot c).

(** The [for] loop body of [CRC32C::compute]. *)
Definition crc_step (crc p : Z) : Z :=
  Z.lxor (nth (Z.to_nat (Z.land (Z.lxor crc p) 255)) kCrc32cTable 0) (Z.shiftr crc 8).

(** [CRC32C::compute] without hardware support. *)
Definition compute_soft (data : bstr) (crc : Z) : Z :=
  not32 (fold_left (fun c b => crc_step c (byte.unsigned b)) data (not32 crc)).

Section Hardware.
(** The processor's two CRC32 instructions. *)
Variables (mm_crc32_u8 mm_crc32_u64 : Z -> Z -> Z).

(** The two loops of [CRC32C::computeHardware]: eight bytes at a time while
    eight are left, then the remaining bytes one at a time. *)
Fixpoint hardware_loop (crc : Z) (p : bstr) : Z :=
  match p with
  | b0 :: b1 :: b2 :: b3 :: b4 :: b5 :: b6 :: b7 :: rest =>
      hardware_loop
        (wrap 32 (mm_crc32_u64 crc (le_combine [b0; b1; b2; b3; b4; b5; b6; b7]))) rest
  | _ => fold_left (fun c b => mm_crc32_u8 c (byte.unsigned b)) p crc
  end.

(** [CRC32C::computeHardware]. *)
Definition computeHardware (data : bstr) (crc : Z) : Z :=
  not32 (hardware_loop (not32 crc) data).

(** [CRC32C::compute]; [hw] is what [supportsHardwareAcceleration] answers. *)
Definition compute (hw : bool) (data : bstr) (crc : Z) : Z :=
  if hw then computeHardware data crc else compute_soft data crc.
End Hardware.

(** The Castagnoli polynomial 0x1EDC6F41, bit-reflected, one bit and one byte at
    a time: what Intel documents for the CRC32 instruction. *)
Definition crc_bit (c : Z) : Z :=
  if Z.odd c then Z.lxor (Z.shiftr c 1) 0x82F63B78 else Z.shiftr c 1.
Definition castagnoli_u8 (crc b : Z) : Z := Nat.iter 8 crc_bit (Z.lxor crc b).
Definition castagnoli_u64 (crc x : Z) : Z :=
  fold_left (fun c b => castagnoli_u8 c (byte.unsigned b)) (le_split 8 x) crc.

(** The CRC-32C of the literature, over the whole buffer. *)
Definition castagnoli (data : bstr) (crc : Z) : Z :=
  not32 (fold_left (fun c b => castagnoli_u8 c (byte.unsigned b)) data (not32 crc)).

(** What the packet layer uses of the checksum, and what it relies on. *)
Class Checksum := crc32c : bstr -> Z -> Z.

Class ChecksumLaws (C : Checksum) : Prop := {
  crc32c_range data crc : 0 <= crc32c data crc < 2 ^ 32;
  crc32c_app a b crc : crc32c (a ++ b) crc = crc32c b (crc32c a crc);
  crc32c_one_byte p b b' s crc :
    b <> b' -> crc32c (p ++ b :: s) crc <> crc32c (p ++ b' :: s) crc
}.

(** ** 32-bit words *)

Lemma not32_range c : 0 <= not32 c < 2 ^ 32.
Proof. by apply wrap_range. Qed.

Lemma not32_alt c : 0 <= c < 2 ^ 32 -> not32 c = 2 ^ 32 - 1 - c.
Proof.
  intros H. unfold not32, wrap. pose proof (Z.add_lnot_diag c).
  symmetry. apply (Z.mod_unique_pos _ _ (-1)); lia.
Qed.

Lemma not32_involutive c : 0 <= c < 2 ^ 32 -> not32 (not32 c) = c.
Proof. intros H. rewrite (not32_alt c), not32_alt by lia. lia. Qed.

Lemma bounded_testbit n z : 0 <= n -> 0 <= z < 2 ^ n -> forall i, n <= i -> Z.testbit z i = false.
Proof.
  intros Hn Hz i Hi. destruct (Z.eq_dec z 0) as [->|Hz0]; [apply Z.bits_0|].
  apply Z.bits_above_log2; [lia|]. apply Z.log2_lt_pow2; [lia|].
  pose proof (Z.pow_le_mono_r 2 n i). lia.
Qed.

Lemma testbit_bounded n z :
  0 <= n -> 0 <= z -> (forall i, n <= i -> Z.testbit z i = false) -> z < 2 ^ n.
Proof.
  intros Hn Hz Hb. destruct (Z.eq_dec z 0) as [->|Hz0]; [lia|].
  apply Z.log2_lt_pow2; [lia|]. destruct (Z.lt_ge_cases (Z.log2 z) n) as [|Hge]; [done|].
  specialize (Hb _ Hge). rewrite Z.bit_log2 in Hb by lia. done.
Qed.

Lemma lxor_range n a b : 0 <= n -> 0 <= a < 2 ^ n -> 0 <= b < 2 ^ n -> 0 <= Z.lxor a b < 2 ^ n.
Proof.
  intros Hn Ha Hb. assert (0 <= Z.lxor a b) by (apply Z.lxor_nonneg; lia).
  split; [done|]. apply testbit_bounded; [done..|]. intros i Hi.
  by rewrite Z.lxor_spec, !(bounded_testbit n).
Qed.

Lemma shiftr_range n k a : 0 <= k -> 0 <= n -> 0 <= a < 2 ^ (n + k) -> 0 <= Z.shiftr a k < 2 ^ n.
Proof.
  intros Hk Hn Ha. rewrite Z.shiftr_div_pow2 by done.
  rewrite Z.pow_add_r in Ha by done. pose proof (Z.pow_pos_nonneg 2 k).
  split; [apply Z.div_pos; lia|]. apply Z.div_lt_upper_bound; lia.
Qed.

Lemma lxor_cancel_l a b c : Z.lxor a b = Z.lxor a c -> b = c.
Proof.
  intros H. apply (f_equal (Z.lxor a)) in H.
  by rewrite <- !Z.lxor_assoc, Z.lxor_nilpotent, !Z.lxor_0_l in H.
Qed.

Lemma lxor_cancel_r a b c : Z.lxor b a = Z.lxor c a -> b = c.
Proof. rewrite !(Z.lxor_comm _ a). apply lxor_cancel_l. Qed.

(** ** Byte-step checksums

    A loop that folds a step over the bytes, between two complements. *)
Section ByteStep.
Variable step : Z -> Z -> Z.
Hypothesis step_range : forall c p,
  0 <= c < 2 ^ 32 -> 0 <= p < 2 ^ 8 -> 0 <= step c p < 2 ^ 32.
Hypothesis step_inj : forall c c' p p',
  0 <= c < 2 ^ 32 -> 0 <= c' < 2 ^ 32 -> 0 <= p < 2 ^ 8 -> 0 <= p' < 2 ^ 8 ->
  (c = c' \/ p = p') -> step c p = step c' p' -> c = c' /\ p = p'.

Let steps (data : bstr) (c : Z) : Z := fold_left (fun c b => step c (byte.unsigned b)) data c.
Let checksum (data : bstr) (crc : Z) : Z := not32 (steps data (not32 crc)).

Lemma steps_range data c : 0 <= c < 2 ^ 32 -> 0 <= steps data c < 2 ^ 32.
Proof.
  revert c. induction data as [|b data IH]; intros c Hc; [done|].
  apply IH, step_range; [done|apply byte.unsigned_range].
Qed.

Lemma steps_inj data c c' :
  0 <= c < 2 ^ 32 -> 0 <= c' < 2 ^ 32 -> steps data c = steps data c' -> c = c'.
Proof.
  revert c c'. induction data as [|b data IH]; intros c c' Hc Hc' E; [done|].
  pose proof (byte.unsigned_range b). apply IH in E; [|by apply step_range..].
  by eapply step_inj in E as [? _]; auto.
Qed.

Lemma checksum_app a b crc : checksum (a ++ b) crc = checksum b (checksum a crc).
Proof.
  unfold checksum. rewrite not32_involutive by apply steps_range, not32_range.
  f_equal. apply fold_left_app.
Qed.

Lemma checksum_one_byte p b b' s crc :
  b <> b' -> checksum (p ++ b :: s) crc <> checksum (p ++ b' :: s) crc.
Proof.
  intros Hb E. unfold checksum, steps in E. rewrite !fold_left_app in E. simpl in E.
  fold (steps p (not32 crc)) in E.
  pose proof (steps_range p _ (not32_range crc)) as Hr. set (c := steps p (not32 crc)) in *.
  pose proof (byte.unsigned_range b) as Rb. pose proof (byte.unsigned_range b') as Rb'.
  apply (f_equal not32) in E.
  rewrite !not32_involutive in E by (apply steps_range, step_range; done).
  apply steps_inj in E; [|by apply step_range..].
  apply step_inj in E as [_ E]; auto. by apply byte.unsigned_inj in E.
Qed.
End ByteStep.

(** ** The table loop *)

Lemma table_length : length kCrc32cTable = 256%nat.
Proof. reflexivity. Qed.

Definition tops : list Z := map (fun t => Z.shiftr t 24) kCrc32cTable.

(** The leading bytes of the table entries are pairwise distinct. *)
Lemma tops_NoDup : NoDup tops.
Proof. apply (bool_decide_unpack _). vm_compute. exact I. Qed.

Lemma table_range : Forall (fun t => 0 <= t < 2 ^ 32) kCrc32cTable.
Proof. apply (bool_decide_unpack _). vm_compute. exact I. Qed.

Lemma entry_range i : 0 <= nth i kCrc32cTable 0 < 2 ^ 32.
Proof.
  destruct (decide (i < length kCrc32cTable)%nat) as [Hi|Hi].
  - pose proof table_range as H. rewrite List.Forall_forall in H.
    by apply H, nth_In.
  - rewrite nth_overflow by lia. lia.
Qed.

Lemma entry_top_inj i j :
  0 <= i < 256 -> 0 <= j < 256 ->
  Z.shiftr (nth (Z.to_nat i) kCrc32cTable 0) 24 = Z.shiftr (nth (Z.to_nat j) kCrc32cTable 0) 24 ->
  i = j.
Proof.
  intros Hi Hj E. pose proof tops_NoDup as ND.
  change (Z.shiftr 0 24) with 0 in *.
  assert (Z.to_nat i = Z.to_nat j); [|lia].
  apply NoDup_ListNoDup in ND. rewrite (List.NoDup_nth tops 0) in ND.
  apply ND; unfold tops; rewrite ?length_map, ?table_length; [lia..|].
  etrans; [exact (map_nth (fun t => Z.shiftr t 24) kCrc32cTable 0 _)|]. rewrite E. symmetry.
  exact (map_nth (fun t => Z.shiftr t 24) kCrc32cTable 0 _).
Qed.

Lemma land_255_range z : 0 <= Z.land z 255 < 256.
Proof. change 255 with (Z.ones 8). rewrite Z.land_ones by lia. by apply Z.mod_pos_bound. Qed.

Lemma word_split c : c = Z.shiftl (Z.shiftr c 8) 8 + Z.land c 255.
Proof.
  change 255 with (Z.ones 8). rewrite Z.land_ones, Z.shiftl_mul_pow2, Z.shiftr_div_pow2 by lia.
  pose proof (Z.div_mod c (2 ^ 8)). lia.
Qed.

Lemma land_lxor_distr_l a b m : Z.land (Z.lxor a b) m = Z.lxor (Z.land a m) (Z.land b m).
Proof.
  apply Z.bits_inj'. intros n _. rewrite Z.land_spec, !Z.lxor_spec, !Z.land_spec.
  by destruct (Z.testbit a n), (Z.testbit b n), (Z.testbit m n).
Qed.

Lemma crc_step_range c p : 0 <= c < 2 ^ 32 -> 0 <= p < 2 ^ 8 -> 0 <= crc_step c p < 2 ^ 32.
Proof.
  intros Hc Hp. apply lxor_range; [lia|apply entry_range|].
  apply shiftr_range; lia.
Qed.

(** The two indices of equal steps agree, because the leading byte of a step's
    result is the leading byte of the entry it used. *)
Lemma crc_step_index c c' p p' :
  0 <= c < 2 ^ 32 -> 0 <= c' < 2 ^ 32 -> crc_step c p = crc_step c' p' ->
  Z.land (Z.lxor c p) 255 = Z.land (Z.lxor c' p') 255 /\ Z.shiftr c 8 = Z.shiftr c' 8.
Proof.
  intros Hc Hc' E.
  assert (Hi : Z.land (Z.lxor c p) 255 = Z.land (Z.lxor c' p') 255).
  { apply entry_top_inj; [apply land_255_range..|].
    apply (f_equal (fun z => Z.shiftr z 24)) in E. unfold crc_step in E.
    rewrite !Z.shiftr_lxor, !Z.shiftr_shiftr in E by lia.
    rewrite (Z.shiftr_div_pow2 c), (Z.shiftr_div_pow2 c'), !Z.div_small, !Z.lxor_0_r in E by lia.
    done. }
  split; [done|]. unfold crc_step in E. rewrite Hi in E. by apply lxor_cancel_l in E.
Qed.

Lemma crc_step_inj c c' p p' :
  0 <= c < 2 ^ 32 -> 0 <= c' < 2 ^ 32 -> 0 <= p < 2 ^ 8 -> 0 <= p' < 2 ^ 8 ->
  (c = c' \/ p = p') -> crc_step c p = crc_step c' p' -> c = c' /\ p = p'.
Proof.
  intros Hc Hc' Hp Hp' Hor E. apply crc_step_index in E as [Ei Es]; [|done..].
  change 255 with (Z.ones 8) in Ei. rewrite !land_lxor_distr_l in Ei.
  rewrite !(Z.land_ones p), !(Z.land_ones p'), !(Z.mod_small p), !(Z.mod_small p') in Ei by lia.
  destruct Hor as [->| ->].
  - by apply lxor_cancel_l in Ei.
  - apply lxor_cancel_r in Ei. change (Z.ones 8) with 255 in Ei.
    rewrite (word_split c), (word_split c'), Es, Ei. done.
Qed.

#[export] Instance soft_checksum : Checksum := compute_soft.

#[export] Instance soft_laws : ChecksumLaws soft_checksum.
Proof.
  split.
  - intros. apply not32_range.
  - exact (checksum_app crc_step crc_step_range).
  - exact (checksum_one_byte crc_step crc_step_range crc_step_inj).
Qed.

(** ** The hardware loop *)

Lemma crc_bit_range c : 0 <= c < 2 ^ 32 -> 0 <= crc_bit c < 2 ^ 32.
Proof.
  intros Hc. pose proof (shiftr_range 32 1 c ltac:(lia) ltac:(lia) ltac:(lia)).
  unfold crc_bit. destruct (Z.odd c); [|done]. by apply lxor_range.
Qed.

Lemma crc_bit_inj c c' : 0 <= c < 2 ^ 32 -> 0 <= c' < 2 ^ 32 -> crc_bit c = crc_bit c' -> c = c'.
Proof.
  intros Hc Hc' E.
  assert (T : forall d, 0 <= d < 2 ^ 32 -> Z.testbit (crc_bit d) 31 = Z.odd d).
  { intros d Hd. unfold crc_bit. pose proof (bounded_testbit 32 d ltac:(lia) Hd 32 ltac:(lia)) as B.
    destruct (Z.odd d); rewrite ?Z.lxor_spec, Z.shiftr_spec by lia; change (31 + 1) with 32; by rewrite B. }
  assert (Ho : Z.odd c = Z.odd c') by (rewrite <- !T by done; congruence).
  unfold crc_bit in E. rewrite Ho in E.
  assert (Es : Z.shiftr c 1 = Z.shiftr c' 1) by (destruct (Z.odd c'); [by apply lxor_cancel_r in E|done]).
  rewrite (Zdiv2_odd_eqn c), (Zdiv2_odd_eqn c'), !Z.div2_spec, Es, Ho. done.
Qed.

Lemma iter_crc_bit_range n c : 0 <= c < 2 ^ 32 -> 0 <= Nat.iter n crc_bit c < 2 ^ 32.
Proof. intros Hc. induction n as [|n IH]; simpl; [done|]. by apply crc_bit_range. Qed.

Lemma castagnoli_u8_range c p : 0 <= c < 2 ^ 32 -> 0 <= p < 2 ^ 8 -> 0 <= castagnoli_u8 c p < 2 ^ 32.
Proof. intros. apply iter_crc_bit_range, lxor_range; lia. Qed.

Lemma castagnoli_u8_inj c c' p p' :
  0 <= c < 2 ^ 32 -> 0 <= c' < 2 ^ 32 -> 0 <= p < 2 ^ 8 -> 0 <= p' < 2 ^ 8 ->
  (c = c' \/ p = p') -> castagnoli_u8 c p = castagnoli_u8 c' p' -> c = c' /\ p = p'.
Proof.
  intros Hc Hc' Hp Hp' Hor E.
  assert (I : forall n x y, 0 <= x < 2 ^ 32 -> 0 <= y < 2 ^ 32 ->
    Nat.iter n crc_bit x = Nat.iter n crc_bit y -> x = y).
  { intros n x y Hx Hy. induction n as [|n IH]; simpl; [done|].
    intros D. apply crc_bit_inj in D; auto using iter_crc_bit_range. }
  apply I in E; [|apply lxor_range; lia..].
  destruct Hor as [->| ->]; [apply lxor_cancel_l in E|apply lxor_cancel_r in E]; done.
Qed.

Lemma castagnoli_steps_range data c :
  0 <= c < 2 ^ 32 ->
  0 <= fold_left (fun c b => castagnoli_u8 c (byte.unsigned b)) data c < 2 ^ 32.
Proof. apply (steps_range castagnoli_u8 castagnoli_u8_range). Qed.

Section HardwareProofs.
Variables (mm_crc32_u8 mm_crc32_u64 : Z -> Z -> Z).
(** Intel's description of the two instructions. *)
Hypothesis mm_crc32_u8_doc : forall c b,
  0 <= c < 2 ^ 32 -> 0 <= b < 2 ^ 8 -> mm_crc32_u8 c b = castagnoli_u8 c b.
Hypothesis mm_crc32_u64_doc : forall c x,
  0 <= c < 2 ^ 32 -> 0 <= x < 2 ^ 64 -> mm_crc32_u64 c x = castagnoli_u64 c x.

Lemma tail_loop_castagnoli p c :
  0 <= c < 2 ^ 32 ->
  fold_left (fun c b => mm_crc32_u8 c (byte.unsigned b)) p c =
  fold_left (fun c b => castagnoli_u8 c (byte.unsigned b)) p c.
Proof.
  revert c. induction p as [|b p IH]; intros c Hc; [done|]. simpl.
  pose proof (byte.unsigned_range b).
  rewrite mm_crc32_u8_doc by done. by apply IH, castagnoli_u8_range.
Qed.

Lemma hardware_loop_castagnoli p c :
  0 <= c < 2 ^ 32 ->
  hardware_loop mm_crc32_u8 mm_crc32_u64 c p =
  fold_left (fun c b => castagnoli_u8 c (byte.unsigned b)) p c.
Proof.
  remember (length p) as n eqn:Hn. revert p Hn c.
  induction n as [n IH] using lt_wf_ind. intros p Hn c Hc.
  do 8 (destruct p as [|? p]; [by apply tail_loop_castagnoli|]).
  cbn [hardware_loop]. set (bs := [_; _; _; _; _; _; _; _]).
  pose proof (le_combine_bound bs) as Hx. rewrite mm_crc32_u64_doc by (simpl in Hx; lia).
  unfold castagnoli_u64. rewrite (split_le_combine' bs 8) by done.
  rewrite wrap_small by by apply castagnoli_steps_range.
  rewrite (IH (length p)); [|simpl in Hn; lia|done|by apply castagnoli_steps_range].
  by rewrite <- fold_left_app.
Qed.

Lemma computeHardware_eq data crc :
  computeHardware mm_crc32_u8 mm_crc32_u64 data crc = castagnoli data crc.
Proof.
  unfold computeHardware, castagnoli.
  by rewrite hardware_loop_castagnoli by apply not32_range.
Qed.
End HardwareProofs.

#[export] Instance castagnoli_laws : ChecksumLaws castagnoli.
Proof.
  split.
  - intros. apply not32_range.
  - exact (checksum_app castagnoli_u8 castagnoli_u8_range).
  - exact (checksum_one_byte castagnoli_u8 castagnoli_u8_range castagnoli_u8_inj).
Qed.

(** ** The properties of [CRC32C::compute] *)

(** C36: on a processor with SSE4.2, whose CRC32 instructions behave as documented,
    [CRC32C::compute] returns the CRC-32C (Castagnoli) of the buffer continued from
    [crc]: the eight-byte loop and the byte loop together process every byte once,
    in order. *)
Theorem compute_hardware_is_castagnoli (mm_crc32_u8 mm_crc32_u64 : Z -> Z -> Z)
    (u8_doc : forall c b,
      0 <= c < 2 ^ 32 -> 0 <= b < 2 ^ 8 -> mm_crc32_u8 c b = castagnoli_u8 c b)
    (u64_doc : forall c x,
      0 <= c < 2 ^ 32 -> 0 <= x < 2 ^ 64 -> mm_crc32_u64 c x = castagnoli_u64 c x)
    (data : bstr) (crc : Z) :
  compute mm_crc32_u8 mm_crc32_u64 true data crc = castagnoli data crc.
Proof. by apply computeHardware_eq. Qed.

Lemma compute_hardware_is_castagnoli_witness :
  compute castagnoli_u8 castagnoli_u64 true (str "123456789") 0 = 0xE3069283.
Proof.
  rewrite (compute_hardware_is_castagnoli castagnoli_u8 castagnoli_u64
    ltac:(reflexivity) ltac:(reflexivity)).
  vm_compute. reflexivity.
Defined.

(** Whichever loop runs, the checksum is a 32-bit value, a buffer may be
    checksummed in two pieces (the second call continuing from the first), and two
    buffers of the same length that differ in one byte have different checksums. *)
Theorem compute_laws (mm_crc32_u8 mm_crc32_u64 : Z -> Z -> Z)
    (u8_doc : forall c b,
      0 <= c < 2 ^ 32 -> 0 <= b < 2 ^ 8 -> mm_crc32_u8 c b = castagnoli_u8 c b)
    (u64_doc : forall c x,
      0 <= c < 2 ^ 32 -> 0 <= x < 2 ^ 64 -> mm_crc32_u64 c x = castagnoli_u64 c x)
    (hw : bool) :
  ChecksumLaws (compute mm_crc32_u8 mm_crc32_u64 hw).
Proof.
  destruct hw; [|apply soft_laws].
  split; unfold crc32c, compute; intros; rewrite !computeHardware_eq by done.
  - apply (crc32c_range (C := castagnoli)).
  - apply (crc32c_app (C := castagnoli)).
  - by apply (crc32c_one_byte (C := castagnoli)).
Qed.

Lemma compute_laws_witness :
  compute castagnoli_u8 castagnoli_u64 false (str "hello" ++ str "world") 0
  = compute castagnoli_u8 castagnoli_u64 false (str "world")
      (compute castagnoli_u8 castagnoli_u64 false (str "hello") 0).
Proof.
  exact (crc32c_app (ChecksumLaws := compute_laws castagnoli_u8 castagnoli_u64
    ltac:(reflexivity) ltac:(reflexivity) false) (str "hello") (str "world") 0).
Defined.

(** The two branches of [CRC32C::compute] are not the same function: 252 of the
    256 table entries are not the Castagnoli values the comment above the table
    names, and the CRC-32C check value 0xE3069283 of "123456789" is returned by the
    hardware branch and not by the table branch. *)
Theorem table_is_not_castagnoli :
  length (filter (fun i => nth i kCrc32cTable 0 <> castagnoli_u8 0 (Z.of_nat i)) (seq 0 256)) = 252%nat
  /\ castagnoli (str "123456789") 0 = 0xE3069283
  /\ compute_soft (str "123456789") 0 <> 0xE3069283.
Proof. split_and!; vm_compute; done. Qed.
