(* ===== verification/Packet.v ===== *)
(** The wire packet: protocol/PacketHeader.h, PacketTypes.h, ProtocolStructs.h and
    the [Packet] class of protocol/Packet.h and Packet.cpp.

    A [Packet] is a record with the fields of the class; its 4096-byte [data] array is
    a list of bytes and the pointer [in] the offset it points at.  The serializers
    write the packed payload structs field by field and end in [finalizePacket];
    [frame] is the wire format they are proved to produce. *)

From S2P Require Import Prelude Crc32c.

(** ** Definitions: constants and data *)

Definition HEADER_SIZE : nat := 16.
Definition START_BYTE : Z := 0xD5.
Definition CURRENT_VERSION : Z := 0x01.
Definition UUID_SIZE : nat := 16.

(** [sizeof(Packet::data)] *)
Definition sizeof_data : nat := Z.to_nat 4096.

(** [enum PacketType], in declaration order from 1. *)
Inductive PacketType :=
| PKT_LOGIN | PKT_LOGOUT | PKT_PRIVATE_MESSAGE | PKT_GROUP_MESSAGE | PKT_CREATE_GROUP
| PKT_JOIN_GROUP | PKT_LEAVE_GROUP | PKT_FILE_START | PKT_FILE_CHUNK | PKT_FILE_END
| FILE_DWNLD_DISCONNECT_REQUEST | PKT_ACKNOWLEDGMENT | PKT_RESUME | PKT_STATUS
| FILE_STATUS | ROUND_STATUS | DOWNLOAD_LINK | DOWNLOAD_REQUEST | PKT_ROUND_END
| PKT_FILE_ACK | PKT_FILE_ERROR | FILE_START_RESPONSE | PKT_SIGN_UP | PKT_OTP_REQ
| PKT_OTP_VERIFY | PKT_TOKEN | PKT_REFRESH | PKT_TOKEN_GRANTED | PKT_AUTH_FAIL
| PKT_SIGNUP_PENDING | PKT_USER_ID | PKT_SIGNUP_ERROR | PKT_FILE_STATUS.

Definition all_types : list PacketType :=
  [PKT_LOGIN; PKT_LOGOUT; PKT_PRIVATE_MESSAGE; PKT_GROUP_MESSAGE; PKT_CREATE_GROUP;
   PKT_JOIN_GROUP; PKT_LEAVE_GROUP; PKT_FILE_START; PKT_FILE_CHUNK; PKT_FILE_END;
   FILE_DWNLD_DISCONNECT_REQUEST; PKT_ACKNOWLEDGMENT; PKT_RESUME; PKT_STATUS;
   FILE_STATUS; ROUND_STATUS; DOWNLOAD_LINK; DOWNLOAD_REQUEST; PKT_ROUND_END;
   PKT_FILE_ACK; PKT_FILE_ERROR; FILE_START_RESPONSE; PKT_SIGN_UP; PKT_OTP_REQ;
   PKT_OTP_VERIFY; PKT_TOKEN; PKT_REFRESH; PKT_TOKEN_GRANTED; PKT_AUTH_FAIL;
   PKT_SIGNUP_PENDING; PKT_USER_ID; PKT_SIGNUP_ERROR; PKT_FILE_STATUS].

#[export] Instance PacketType_eq_dec : EqDecision PacketType.
Proof. solve_decision. Defined.

(** The numeric value of an enumerator, and [static_cast<PacketType>] back. *)
Definition type_code (t : PacketType) : Z :=
  match t with
  | PKT_LOGIN => 1 | PKT_LOGOUT => 2 | PKT_PRIVATE_MESSAGE => 3 | PKT_GROUP_MESSAGE => 4
  | PKT_CREATE_GROUP => 5 | PKT_JOIN_GROUP => 6 | PKT_LEAVE_GROUP => 7 | PKT_FILE_START => 8
  | PKT_FILE_CHUNK => 9 | PKT_FILE_END => 10 | FILE_DWNLD_DISCONNECT_REQUEST => 11
  | PKT_ACKNOWLEDGMENT => 12 | PKT_RESUME => 13 | PKT_STATUS => 14 | FILE_STATUS => 15
  | ROUND_STATUS => 16 | DOWNLOAD_LINK => 17 | DOWNLOAD_REQUEST => 18 | PKT_ROUND_END => 19
  | PKT_FILE_ACK => 20 | PKT_FILE_ERROR => 21 | FILE_START_RESPONSE => 22 | PKT_SIGN_UP => 23
  | PKT_OTP_REQ => 24 | PKT_OTP_VERIFY => 25 | PKT_TOKEN => 26 | PKT_REFRESH => 27
  | PKT_TOKEN_GRANTED => 28 | PKT_AUTH_FAIL => 29 | PKT_SIGNUP_PENDING => 30
  | PKT_USER_ID => 31 | PKT_SIGNUP_ERROR => 32 | PKT_FILE_STATUS => 33
  end.

Definition type_of_code (c : Z) : option PacketType :=
  snd <$> list_find (fun t => type_code t = c) all_types.

(** [struct PacketHeader], in host byte order. *)
Record PacketHeader := mkHeader {
  magic : Z;
  version : Z;
  type : Z;
  payload_length : Z;
  sequence_number : Z;
  checksum : Z
}.

Definition zero_header : PacketHeader := mkHeader 0 0 0 0 0 0.

(** [class Packet]. *)
Record Packet := mkPacket {
  header : PacketHeader;
  data : bstr;
  in_ : nat;             (* the pointer [in], as an offset into [data] *)
  writePos : nat;
  parsedHeader : bool;
  parsedData : bool;
  isSent : bool;
  isSending : bool;
  isSentFail : bool;
  bypassQueue : bool;
  pkt_id : nat
}.

Definition set_header v p := mkPacket v (data p) (in_ p) (writePos p) (parsedHeader p)
  (parsedData p) (isSent p) (isSending p) (isSentFail p) (bypassQueue p) (pkt_id p).
Definition set_data v p := mkPacket (header p) v (in_ p) (writePos p) (parsedHeader p)
  (parsedData p) (isSent p) (isSending p) (isSentFail p) (bypassQueue p) (pkt_id p).
Definition set_in v p := mkPacket (header p) (data p) v (writePos p) (parsedHeader p)
  (parsedData p) (isSent p) (isSending p) (isSentFail p) (bypassQueue p) (pkt_id p).
Definition set_writePos v p := mkPacket (header p) (data p) (in_ p) v (parsedHeader p)
  (parsedData p) (isSent p) (isSending p) (isSentFail p) (bypassQueue p) (pkt_id p).
Definition set_parsedHeader v p := mkPacket (header p) (data p) (in_ p) (writePos p) v
  (parsedData p) (isSent p) (isSending p) (isSentFail p) (bypassQueue p) (pkt_id p).
Definition set_parsedData v p := mkPacket (header p) (data p) (in_ p) (writePos p)
  (parsedHeader p) v (isSent p) (isSending p) (isSentFail p) (bypassQueue p) (pkt_id p).
Definition set_sent v p := mkPacket (header p) (data p) (in_ p) (writePos p)
  (parsedHeader p) (parsedData p) v (isSending p) (isSentFail p) (bypassQueue p) (pkt_id p).
Definition set_sending v p := mkPacket (header p) (data p) (in_ p) (writePos p)
  (parsedHeader p) (parsedData p) (isSent p) v (isSentFail p) (bypassQueue p) (pkt_id p).
Definition set_sentFail v p := mkPacket (header p) (data p) (in_ p) (writePos p)
  (parsedHeader p) (parsedData p) (isSent p) (isSending p) v (bypassQueue p) (pkt_id p).
Definition set_bypassQueue v p := mkPacket (header p) (data p) (in_ p) (writePos p)
  (parsedHeader p) (parsedData p) (isSent p) (isSending p) (isSentFail p) v (pkt_id p).
Definition set_pkt_id v p := mkPacket (header p) (data p) (in_ p) (writePos p)
  (parsedHeader p) (parsedData p) (isSent p) (isSending p) (isSentFail p) (bypassQueue p) v.

(** A [Packet] just constructed: the members without an initializer are zero here. *)
Definition new_packet : Packet :=
  mkPacket zero_header (zeros sizeof_data) 0 HEADER_SIZE false false false false false false 0.

(** ** Definitions: receiving *)

Definition clearInPointer (p : Packet) : Packet :=
  mkPacket zero_header (data p) 0 HEADER_SIZE false false false false false false (pkt_id p).

Definition bytesReceived (p : Packet) : Z := to_int32 (Z.of_nat (in_ p)).

Definition isHeaderComplete (p : Packet) : bool := Z.of_nat HEADER_SIZE <=? bytesReceived p.

(** [HEADER_SIZE + header.payload_length] is a 32-bit unsigned sum, cast to [int]. *)
Definition isComplete (p : Packet) : bool :=
  if negb (isHeaderComplete p) then false
  else to_int32 (Z.of_nat HEADER_SIZE + payload_length (header p)) <=? bytesReceived p.

Definition checkPacketVersion (p : Packet) : bool :=
  parsedHeader p && (magic (header p) =? START_BYTE) && (version (header p) =? CURRENT_VERSION).

(** The header struct overlaid on the first 16 bytes of a buffer, as [parseHeader] reads it. *)
Definition read_header (d : bstr) : PacketHeader :=
  mkHeader (load 1 0 d) (load 1 1 d) (ntohs (load 2 2 d)) (ntohl (load 4 4 d))
    (ntohl (load 4 8 d)) (ntohl (load 4 12 d)).

Definition parseHeader (p : Packet) : bool * Packet :=
  if bytesReceived p <? Z.of_nat HEADER_SIZE then (false, p) else
  let p := set_header (read_header (data p)) p in
  if negb (magic (header p) =? START_BYTE) then (false, p) else
  (true, set_parsedHeader true p).

Section WithChecksum.
Context {C : Checksum}.

(** Reading [payload_length] bytes from [data + HEADER_SIZE] is undefined when it
    leaves the array. *)
Definition parseData (p : Packet) : outcome (bool * Packet) :=
  if negb (parsedHeader p) then Ok (false, p) else
  let n := payload_length (header p) in
  if bytesReceived p <? to_int32 (Z.of_nat HEADER_SIZE + n) then Ok (false, p) else
  let computed_crc := crc32c (slice 0 (HEADER_SIZE - 4) (data p)) 0 in
  let! computed_crc :=
    if 0 <? n then
      if Z.of_nat sizeof_data <? Z.of_nat HEADER_SIZE + n then UB
      else Ok (crc32c (slice HEADER_SIZE (Z.to_nat n) (data p)) computed_crc)
    else Ok computed_crc in
  if negb (computed_crc =? checksum (header p)) then Ok (false, p)
  else Ok (true, set_parsedData true p).

(** A packet as IOCPManager::workerThread checks it before it is dispatched: both
    parsers run and both must succeed. *)
Definition accepts (p : Packet) : outcome bool :=
  let (parsed, p) := parseHeader p in
  let! (parsedData, p) := parseData p in
  Ok (parsed && parsedData).

(** ** Definitions: sending *)

Definition resetWritePos (p : Packet) : Packet := set_writePos HEADER_SIZE p.

Definition finalizePacket (type : PacketType) (p : Packet) : bool * Packet :=
  let payload_len := wrap 32 (Z.of_nat (writePos p - HEADER_SIZE)) in
  let d := data p in
  let d := store 1 0 START_BYTE d in
  let d := store 1 1 CURRENT_VERSION d in
  let d := store 2 2 (htons (wrap 16 (type_code type))) d in
  let d := store 4 4 (htonl payload_len) d in
  let d := store 4 8 (htonl 0) d in
  let computed_crc := crc32c (slice 0 (HEADER_SIZE - 4) d) 0 in
  let computed_crc :=
    if 0 <? payload_len
    then crc32c (slice HEADER_SIZE (Z.to_nat payload_len) d) computed_crc
    else computed_crc in
  let d := store 4 12 (htonl computed_crc) d in
  let p := set_data d p in
  let p := set_header (mkHeader START_BYTE CURRENT_VERSION (wrap 16 (type_code type))
                         payload_len 0 computed_crc) p in
  (true, set_in (writePos p) p).
End WithChecksum.

(** ** The wire format

    [be n v] is [v] in [n] bytes, most significant first; [frame t payload] the bytes
    of a packet of type [t]: magic, version, type, payload length, sequence number 0,
    CRC of these twelve bytes continued over the payload, payload. *)

Definition be (n : nat) (v : Z) : bstr := reverse (le_split n v).

Arguments be : simpl never.

Definition header12 (t : PacketType) (n : Z) : bstr :=
  le_split 1 START_BYTE ++ le_split 1 CURRENT_VERSION ++ be 2 (type_code t) ++ be 4 n ++ be 4 0.

Definition frame_crc {C : Checksum} (t : PacketType) (payload : bstr) : Z :=
  let crc := crc32c (header12 t (len payload)) 0 in
  if 0 <? len payload then crc32c payload crc else crc.

Definition frame {C : Checksum} (t : PacketType) (payload : bstr) : bstr :=
  header12 t (len payload) ++ be 4 (frame_crc t payload) ++ payload.

(** The bytes a packet holds, up to [in]. *)
Definition wire (p : Packet) : bstr := take (in_ p) (data p).

(** ** Lemmas *)

Lemma type_code_range t : 0 < type_code t < 2 ^ 16.
Proof. destruct t; simpl; lia. Qed.

Lemma type_of_code_code t : type_of_code (type_code t) = Some t.
Proof. by destruct t. Qed.

Lemma length_be n v : length (be n v) = n.
Proof. unfold be. lens. Qed.
#[export] Hint Rewrite length_be : lens.

Lemma length_header12 t n : length (header12 t n) = 12%nat.
Proof. reflexivity. Qed.
#[export] Hint Rewrite length_header12 : lens.

Lemma length_frame {C : Checksum} t pl : length (frame t pl) = (HEADER_SIZE + length pl)%nat.
Proof. unfold frame, HEADER_SIZE. lens. Qed.
#[export] Hint Rewrite @length_frame : lens.

Lemma le_split_be n z : le_split n (bswap n z) = be n z.
Proof. apply le_split_bswap. Qed.

Lemma store_bswap w off v d : store w off (bswap w v) d = blit off (be w v) d.
Proof. unfold store. by rewrite le_split_bswap. Qed.

(** Normalize a sequence of stores and copies into one copy. *)
Ltac merge_blits :=
  unfold htons, htonl, htonll; rewrite ?store_bswap; unfold store;
  repeat (rewrite blit_blit by blen); rewrite <- ?app_assoc.

Lemma sizeof_data_Z : Z.of_nat sizeof_data = 4096.
Proof. reflexivity. Qed.

#[global] Opaque sizeof_data.

(** What [finalizePacket] leaves in the packet when the payload is in place. *)
Definition finalized {C : Checksum} (t : PacketType) (pl d0 : bstr) (p : Packet) : Packet :=
  mkPacket (mkHeader START_BYTE CURRENT_VERSION (type_code t) (len pl) 0 (frame_crc t pl))
    (blit 0 (frame t pl) d0) (HEADER_SIZE + length pl) (HEADER_SIZE + length pl)
    (parsedHeader p) (parsedData p) (isSent p) (isSending p) (isSentFail p) (bypassQueue p)
    (pkt_id p).

Lemma finalizePacket_eq {C : Checksum} t pl d0 p :
  length d0 = sizeof_data -> (HEADER_SIZE + length pl <= sizeof_data)%nat ->
  data p = blit HEADER_SIZE pl d0 -> writePos p = (HEADER_SIZE + length pl)%nat ->
  finalizePacket t p = (true, finalized t pl d0 p).
Proof.
  intros Hd Hl Ed Ew. pose proof (type_code_range t).
  pose proof sizeof_data_Z. unfold HEADER_SIZE in *.
  assert (En : wrap 32 (Z.of_nat (writePos p - 16)) = len pl).
  { unfold len. rewrite wrap_small; lia. }
  unfold finalizePacket, HEADER_SIZE. rewrite En, (wrap_small 16) by lia.
  set (d1 := store 4 8 (htonl 0) _).
  assert (E1 : d1 = blit 0 (header12 t (len pl)) (blit 16 pl d0)).
  { unfold d1. rewrite Ed. by merge_blits. }
  clearbody d1. subst d1.
  rewrite slice_blit_eq by blen.
  rewrite slice_blit_after by blen.
  rewrite slice_blit_eq by (unfold len; lens).
  change (if 0 <? len pl then _ else _) with (frame_crc t pl).
  unfold htonl. rewrite store_bswap.
  rewrite blit_blit by blen.
  rewrite blit_prepend by lens. rewrite <- app_assoc.
  unfold finalized, set_in, set_header, set_data; simpl. by rewrite Ew.
Qed.

Lemma bswap_be n v : bswap n (le_combine (be n v)) = v mod 2 ^ (Z.of_nat n * 8).
Proof.
  unfold bswap. rewrite split_le_combine' by lens.
  unfold be. rewrite reverse_involutive. apply le_combine_split.
Qed.

Lemma slice_whole off n l : off = 0%nat -> n = length l -> slice off n l = l.
Proof. intros -> ->. apply slice_all. Qed.

(** Read a field out of a concatenation. *)
Ltac slices :=
  repeat first [rewrite slice_app_r by lens | rewrite slice_app_l by lens];
  autorewrite with lens; repeat rewrite slice_whole by lens.

Section Frames.
Context {C : Checksum} {L : ChecksumLaws C}.

Lemma frame_crc_range t pl : 0 <= frame_crc t pl < 2 ^ 32.
Proof. unfold frame_crc. destruct (0 <? len pl); apply crc32c_range. Qed.

(** The header a frame carries. *)
Definition frame_header (t : PacketType) (pl : bstr) : PacketHeader :=
  mkHeader START_BYTE CURRENT_VERSION (type_code t) (len pl) 0 (frame_crc t pl).

Lemma read_header_frame t pl rest :
  (HEADER_SIZE + length pl <= sizeof_data)%nat ->
  read_header (frame t pl ++ rest) = frame_header t pl.
Proof.
  intros Hl. pose proof sizeof_data_Z. pose proof (type_code_range t).
  pose proof (frame_crc_range t pl). unfold HEADER_SIZE in Hl.
  unfold read_header, frame_header, load, ntohs, ntohl, frame, header12.
  rewrite <- !app_assoc.
  f_equal; slices; rewrite ?bswap_be, ?Z.mod_small by (unfold len; lia); reflexivity.
Qed.

(** A packet object that holds exactly one frame. *)
Definition holds_frame (p : Packet) (t : PacketType) (pl : bstr) : Prop :=
  length (data p) = sizeof_data /\ (HEADER_SIZE + length pl <= sizeof_data)%nat /\
  in_ p = (HEADER_SIZE + length pl)%nat /\ wire p = frame t pl.

Lemma holds_frame_data p t pl :
  holds_frame p t pl -> data p = frame t pl ++ drop (HEADER_SIZE + length pl) (data p).
Proof.
  intros (_ & _ & Hi & Hw). rewrite <- Hw. unfold wire. rewrite <- Hi.
  by rewrite take_drop.
Qed.

Lemma bytesReceived_small p :
  (in_ p <= sizeof_data)%nat -> bytesReceived p = Z.of_nat (in_ p).
Proof. intros H. apply to_int32_small. pose proof sizeof_data_Z. lia. Qed.

Lemma parseHeader_frame p t pl :
  holds_frame p t pl ->
  parseHeader p = (true, set_parsedHeader true (set_header (frame_header t pl) p)).
Proof.
  intros Hf. pose proof Hf as (Hd & Hl & Hi & Hw). unfold parseHeader.
  rewrite bytesReceived_small by lia.
  destruct (Z.ltb_spec (Z.of_nat (in_ p)) (Z.of_nat HEADER_SIZE)); [lia|].
  rewrite (holds_frame_data _ _ _ Hf), read_header_frame by done.
  reflexivity.
Qed.

Lemma slice_header_frame t pl rest :
  slice 0 (HEADER_SIZE - 4) (frame t pl ++ rest) = header12 t (len pl).
Proof. unfold frame. rewrite <- !app_assoc. by apply slice_prefix. Qed.

Lemma slice_payload_frame t pl rest :
  slice HEADER_SIZE (length pl) (frame t pl ++ rest) = pl.
Proof. unfold frame, HEADER_SIZE. rewrite <- !app_assoc. by slices. Qed.

Lemma parseData_frame p t pl :
  holds_frame p t pl -> parsedHeader p = true -> header p = frame_header t pl ->
  parseData p = Ok (true, set_parsedData true p).
Proof.
  intros Hf Hp Hh. pose proof Hf as (Hd & Hl & Hi & Hw).
  pose proof sizeof_data_Z. unfold parseData. rewrite Hp, Hh, bytesReceived_small by lia.
  simpl negb. cbv iota. cbn [payload_length checksum frame_header].
  rewrite to_int32_small by (unfold len; lia).
  destruct (Z.ltb_spec (Z.of_nat (in_ p)) (Z.of_nat HEADER_SIZE + len pl));
    [unfold len in *; lia|].
  rewrite (holds_frame_data _ _ _ Hf). unfold len at 3. rewrite Nat2Z.id.
  rewrite slice_header_frame, slice_payload_frame.
  destruct (Z.ltb_spec (Z.of_nat sizeof_data) (Z.of_nat HEADER_SIZE + len pl));
    [unfold len in *; lia|].
  unfold frame_crc. by destruct (0 <? len pl); simpl; rewrite Z.eqb_refl.
Qed.
(** A received buffer that is a header of twelve bytes with the right length field,
    four checksum bytes and a payload. *)
Definition shaped (r : Packet) (h c pl : bstr) : Prop :=
  length (data r) = sizeof_data /\ (HEADER_SIZE + length pl <= sizeof_data)%nat /\
  in_ r = (HEADER_SIZE + length pl)%nat /\ wire r = h ++ c ++ pl /\
  length h = 12%nat /\ length c = 4%nat /\ slice 4 4 h = be 4 (len pl).

(** The checksum of a header and a payload, computed in two calls. *)
Definition crc_of (h pl : bstr) : Z :=
  if 0 <? len pl then crc32c pl (crc32c h 0) else crc32c h 0.

Lemma crc_of_app h pl : pl <> [] -> crc_of h pl = crc32c (h ++ pl) 0.
Proof.
  intros Hpl. unfold crc_of. rewrite crc32c_app.
  destruct (Z.ltb_spec 0 (len pl)); [done|]. destruct pl; [done|]. unfold len in *. simpl in *. lia.
Qed.

Lemma accepts_shaped r h c pl :
  shaped r h c pl -> parsedHeader r = false ->
  accepts r = Ok ((load 1 0 h =? START_BYTE) && (crc_of h pl =? ntohl (le_combine c))).
Proof.
  intros (Hd & Hl & Hi & Hw & Hh & Hc & Hn) Hp. pose proof sizeof_data_Z.
  assert (Ed : data r = h ++ c ++ pl ++ drop (in_ r) (data r)).
  { rewrite (app_assoc c), (app_assoc h), <- Hw. unfold wire. by rewrite take_drop. }
  set (rest := drop (in_ r) (data r)) in Ed. clearbody rest.
  unfold accepts, parseHeader. rewrite bytesReceived_small by lia.
  destruct (Z.ltb_spec (Z.of_nat (in_ r)) (Z.of_nat HEADER_SIZE)); [lia|].
  cbn [header set_header].
  assert (Em : magic (read_header (data r)) = load 1 0 h).
  { unfold read_header, load. cbn [magic]. rewrite Ed. by slices. }
  assert (En : payload_length (read_header (data r)) = len pl).
  { unfold read_header, load, ntohl. cbn [payload_length]. rewrite Ed. slices.
    rewrite Hn, bswap_be. apply Z.mod_small. unfold len. lia. }
  assert (Ec : checksum (read_header (data r)) = ntohl (le_combine c)).
  { unfold read_header, load. cbn [checksum]. rewrite Ed. by slices. }
  rewrite Em. destruct (load 1 0 h =? START_BYTE) eqn:Hm; simpl negb; cbv iota; cbn [andb].
  2: { unfold parseData. cbn [parsedHeader set_header]. by rewrite Hp. }
  unfold parseData. cbn [parsedHeader set_parsedHeader set_header header data negb].
  rewrite En, Ec. change (bytesReceived _) with (bytesReceived r).
  rewrite bytesReceived_small by lia. rewrite to_int32_small by (unfold len; lia).
  destruct (Z.ltb_spec (Z.of_nat (in_ r)) (Z.of_nat HEADER_SIZE + len pl)); [unfold len in *; lia|].
  destruct (Z.ltb_spec (Z.of_nat sizeof_data) (Z.of_nat HEADER_SIZE + len pl));
    [unfold len in *; lia|].
  replace (Z.to_nat (len pl)) with (length pl) by (unfold len; lia).
  rewrite Ed. unfold HEADER_SIZE. rewrite slice_prefix by lia. slices.
  unfold crc_of. destruct (0 <? len pl); cbn [obind]; by destruct (_ =? ntohl _).
Qed.
End Frames.

Section Corruption.
Context {C : Checksum} {L : ChecksumLaws C}.

(** A frame with byte [b] at position [i], split where it changed. *)
Lemma frame_shape t pl :
  frame t pl = header12 t (len pl) ++ be 4 (frame_crc t pl) ++ pl.
Proof. done. Qed.

Lemma crc_of_header_byte h h' pl : forall a x y z,
  h = a ++ x :: z -> h' = a ++ y :: z -> x <> y -> crc_of h pl <> crc_of h' pl.
Proof.
  intros a x y z -> -> Hxy. destruct (decide (pl = [])) as [->|Hpl].
  - by apply crc32c_one_byte.
  - rewrite !crc_of_app, <- !app_assoc by done. by apply crc32c_one_byte.
Qed.

Lemma crc_of_payload_byte h a x y z :
  x <> y -> crc_of h (a ++ x :: z) <> crc_of h (a ++ y :: z).
Proof.
  intros Hxy. rewrite !crc_of_app, !app_assoc by by destruct a.
  by apply crc32c_one_byte.
Qed.

Lemma ntohl_be4_inj c v : length c = 4%nat -> 0 <= v < 2 ^ 32 ->
  ntohl (le_combine c) = v -> c = be 4 v.
Proof.
  intros Hc Hv <-. unfold ntohl, bswap, be.
  rewrite (split_le_combine' (reverse _)) by lens.
  rewrite (split_le_combine' c) by done. by rewrite reverse_involutive.
Qed.

(** Where byte [i] of a concatenation lies. *)
Lemma insert_app_cases (a b : bstr) i x :
  ((i < length a)%nat /\ <[i:=x]> (a ++ b) = <[i:=x]> a ++ b) \/
  ((length a <= i)%nat /\ <[i:=x]> (a ++ b) = a ++ <[(i - length a)%nat:=x]> b).
Proof.
  destruct (Nat.lt_ge_cases i (length a)).
  - left. by rewrite insert_app_l.
  - right. by rewrite insert_app_r_alt.
Qed.

Lemma insert_split (l : bstr) i x :
  (i < length l)%nat ->
  exists a y z, l = a ++ y :: z /\ <[i:=x]> l = a ++ x :: z /\ l !! i = Some y.
Proof.
  intros Hi. destruct (lookup_lt_is_Some_2 l i Hi) as [y Hy].
  exists (take i l), y, (drop (S i) l). split_and!; [by rewrite take_drop_middle| |done].
  by apply insert_take_drop.
Qed.

Lemma slice_insert_out off n i x (l : bstr) :
  ~ (off <= i < off + n)%nat -> slice off n (<[i:=x]> l) = slice off n l.
Proof.
  intros Hi. unfold slice. destruct (Nat.lt_ge_cases i off).
  - by rewrite drop_insert_lt.
  - rewrite drop_insert_ge by done. by rewrite take_insert_ge by lia.
Qed.

Lemma refused r h c pl :
  shaped r h c pl -> parsedHeader r = false -> ntohl (le_combine c) <> crc_of h pl ->
  accepts r = Ok false.
Proof.
  intros Hs Hp Hc. rewrite (accepts_shaped _ _ _ _ Hs Hp).
  destruct (Z.eqb_spec (crc_of h pl) (ntohl (le_combine c))); [congruence|].
  by rewrite andb_false_r.
Qed.

Lemma accepts_one_byte t pl r i x :
  length (data r) = sizeof_data -> (HEADER_SIZE + length pl <= sizeof_data)%nat ->
  in_ r = (HEADER_SIZE + length pl)%nat -> parsedHeader r = false ->
  (i < HEADER_SIZE + length pl)%nat -> ~ (4 <= i < 8)%nat ->
  frame t pl !! i <> Some x -> wire r = <[i:=x]> (frame t pl) ->
  accepts r = Ok false.
Proof.
  intros Hd Hl Hin Hp Hi Hlen Hx Hw. rewrite frame_shape in Hx, Hw.
  pose proof sizeof_data_Z. pose proof (frame_crc_range t pl) as Hr.
  set (h := header12 t (len pl)) in *. set (c := be 4 (frame_crc t pl)) in *.
  assert (Hh : length h = 12%nat) by done. assert (Hc : length c = 4%nat) by apply length_be.
  assert (Hn : slice 4 4 h = be 4 (len pl)) by (unfold h, header12; by slices).
  assert (Hcrc : ntohl (le_combine c) = crc_of h pl).
  { unfold c, ntohl. rewrite bswap_be. by apply Z.mod_small. }
  unfold HEADER_SIZE in *.
  destruct (insert_app_cases h (c ++ pl) i x) as [[Hi1 E]|[Hi1 E]]; rewrite E in Hw; clear E.
  { rewrite lookup_app_l in Hx by done.
    destruct (insert_split h i x Hi1) as (a & y & z & E1 & E2 & Hy).
    apply (refused r (<[i:=x]> h) c pl); [| done |].
    - unfold shaped, HEADER_SIZE. rewrite slice_insert_out by lia. split_and!; lens || done.
    - rewrite Hcrc. eapply crc_of_header_byte; [exact E1|exact E2|congruence]. }
  rewrite lookup_app_r in Hx by done.
  destruct (insert_app_cases c pl (i - length h) x) as [[Hi2 E]|[Hi2 E]]; rewrite E in Hw; clear E.
  { rewrite lookup_app_l in Hx by done.
    apply (refused r h (<[(i - length h)%nat:=x]> c) pl); [| done |].
    - unfold shaped, HEADER_SIZE. split_and!; lens || done.
    - change (crc_of h pl) with (frame_crc t pl). intros Eq.
      apply ntohl_be4_inj in Eq; [|lens|done]. fold c in Eq.
      apply Hx. rewrite <- Eq. by rewrite list_lookup_insert_eq by done. }
  rewrite lookup_app_r in Hx by done.
  destruct (insert_split pl (i - length h - length c) x) as (a & y & z & E1 & E2 & Hy); [lia|].
  apply (refused r h c (<[(i - length h - length c)%nat:=x]> pl)); [| done |].
  - unfold shaped, HEADER_SIZE, len. autorewrite with lens. split_and!; done.
  - rewrite Hcrc, E1, <- E1, E2. rewrite E1. apply crc_of_payload_byte. congruence.
Qed.
End Corruption.

#[global] Opaque be.

(** ** Properties *)

(** C35: a received packet that is the frame of some type and payload with one byte
    changed, anywhere but in the four bytes of the length field, is refused by the
    two parsers the worker thread runs; no read leaves the buffer. *)
Theorem one_byte_corruption_refused {C : Checksum} {L : ChecksumLaws C}
    (t : PacketType) (pl : bstr) (r : Packet) (i : nat) (x : byte) :
  length (data r) = sizeof_data -> (HEADER_SIZE + length pl <= sizeof_data)%nat ->
  in_ r = (HEADER_SIZE + length pl)%nat -> parsedHeader r = false ->
  (i < HEADER_SIZE + length pl)%nat -> ~ (4 <= i < 8)%nat ->
  frame t pl !! i <> Some x -> wire r = <[i:=x]> (frame t pl) ->
  accepts r = Ok false.
Proof. apply accepts_one_byte. Qed.

Lemma one_byte_corruption_refused_witness :
  let bad := <[17%nat:=Byte.x21]> (frame (C := compute_soft) PKT_PRIVATE_MESSAGE (str "hello")) in
  accepts (C := compute_soft) (set_in 21 (set_data (blit 0 bad (zeros sizeof_data)) new_packet))
  = Ok false.
Proof.
  intros bad. apply (one_byte_corruption_refused PKT_PRIVATE_MESSAGE (str "hello") _ 17 Byte.x21);
    try (vm_compute; done).
  - vm_compute. lia.
  - vm_compute. lia.
  - lia.
Defined.

(** C40: [parseData] reads outside [data] for exactly the payload lengths that turn
    negative, or wrap, in its [int] comparison: from 2^31 - 16 on.  For every smaller
    length it stays inside the packet, whatever was received. *)
Theorem parseData_bounds {C : Checksum} (p : Packet) :
  parsedHeader p = true -> (HEADER_SIZE <= in_ p <= sizeof_data)%nat ->
  0 <= payload_length (header p) < 2 ^ 32 ->
  parseData p = UB <-> 2 ^ 31 - 16 <= payload_length (header p).
Proof.
  intros Hp Hi Hn. pose proof sizeof_data_Z. unfold HEADER_SIZE in Hi. unfold parseData.
  rewrite Hp, bytesReceived_small by lia. cbn [negb]. set (n := payload_length (header p)) in *.
  unfold HEADER_SIZE. change (Z.of_nat 16) with 16.
  destruct (Z.lt_ge_cases n (2 ^ 31 - 16)) as [Hs|Hs].
  - rewrite to_int32_small by lia.
    destruct (Z.ltb_spec (Z.of_nat (in_ p)) (16 + n)); [split; [done|lia]|].
    destruct (Z.ltb_spec (Z.of_nat sizeof_data) (16 + n)); [lia|].
    destruct (0 <? n); cbn [obind]; destruct (negb _); (split; [done|lia]).
  - assert (Hle : to_int32 (16 + n) <= Z.of_nat (in_ p)).
    { unfold to_int32, wrap. destruct (Z.lt_ge_cases (16 + n) (2 ^ 32)).
      - rewrite Z.mod_small by lia. destruct (Z.ltb_spec (16 + n) (2 ^ 31)); lia.
      - replace (16 + n) with ((16 + n - 2 ^ 32) + 1 * 2 ^ 32) by lia.
        rewrite Z.mod_add, Z.mod_small by lia. destruct (Z.ltb_spec (16 + n - 2 ^ 32) (2 ^ 31)); lia. }
    destruct (Z.ltb_spec (Z.of_nat (in_ p)) (to_int32 (16 + n))); [lia|].
    destruct (Z.ltb_spec 0 n); [|lia].
    destruct (Z.ltb_spec (Z.of_nat sizeof_data) (16 + n)); [|lia]. by split.
Qed.

Lemma parseData_bounds_witness :
  let p := set_parsedHeader true (set_in 16
             (set_header (mkHeader START_BYTE CURRENT_VERSION 3 0xFFFFFFF0 0 0) new_packet)) in
  parseData (C := compute_soft) p = UB.
Proof.
  intros p. apply (parseData_bounds (C := compute_soft) p).
  - reflexivity.
  - split; vm_compute; lia.
  - split; vm_compute; congruence.
  - vm_compute. congruence.
Defined.
