(* ===== verification/Serialize.v ===== *)
(** The serializers of [Packet] (protocol/Packet.cpp) for every payload struct of
    protocol/ProtocolStructs.h, and the theorems that what they build is the wire
    frame of their arguments and is accepted by [parseHeader] and [parseData]. *)

From S2P Require Import Prelude Crc32c Packet.

(** ** Definitions: writing into the packet

    The members of the payload struct at [data + writePos] are written at their
    packed offsets; the variable parts are appended at [writePos]. *)

Definition field (w off : nat) (v : Z) (p : Packet) : Packet :=
  set_data (store w (writePos p + off) v (data p)) p.

(** [memcpy(p->member, src, 16)] from an array of at least 16 bytes. *)
Definition field_uuid (off : nat) (src : bstr) (p : Packet) : Packet :=
  set_data (blit (writePos p + off) (take UUID_SIZE src) (data p)) p.

Definition advance (n : nat) (p : Packet) : Packet := set_writePos (writePos p + n) p.

(** [memcpy(data + writePos, s, |s|); writePos += |s|]. *)
Definition append (s : bstr) (p : Packet) : Packet :=
  advance (length s) (set_data (blit (writePos p) s (data p)) p).

(** [static_cast<uint16_t>(s.length())] and [static_cast<uint32_t>(s.size())]. *)
Definition len16 {A} (s : list A) : Z := wrap 16 (len s).
Definition len32 {A} (s : list A) : Z := wrap 32 (len s).

(** [sizeof] of the packed payload structs. *)
Definition sizeof_ChatMessagePayload : nat := 48.
Definition sizeof_FileStartPayload : nat := 46.
Definition sizeof_FileStartResponsePayload : nat := 24.
Definition sizeof_FileChunkPayload : nat := 32.
Definition sizeof_RoundEndPayload : nat := 24.
Definition sizeof_FileAckPayload : nat := 24.
Definition sizeof_FileEndPayload : nat := 20.
Definition sizeof_LoginPayload : nat := 4.
Definition sizeof_SignupPayload : nat := 8.
Definition sizeof_OtpReqPayload : nat := 2.
Definition sizeof_OtpVerifyPayload : nat := 4.
Definition sizeof_UserIdPayload : nat := 32.
Definition sizeof_DownloadLinkPayload : nat := 40.
Definition sizeof_DownloadReqPayload : nat := 36.
Definition sizeof_StringPayload : nat := 2.
Definition sizeof_TokenGrantedPayload : nat := 4.

Create HintDb sizes.
#[export] Hint Unfold sizeof_ChatMessagePayload sizeof_FileStartPayload
  sizeof_FileStartResponsePayload sizeof_FileChunkPayload sizeof_RoundEndPayload
  sizeof_FileAckPayload sizeof_FileEndPayload sizeof_LoginPayload sizeof_SignupPayload
  sizeof_OtpReqPayload sizeof_OtpVerifyPayload sizeof_UserIdPayload
  sizeof_DownloadLinkPayload sizeof_DownloadReqPayload sizeof_StringPayload
  sizeof_TokenGrantedPayload : sizes.

Section WithChecksum.
Context {C : Checksum}.

(** [timestamp_ms] is what the system clock returns. *)
Definition serialize (t : PacketType) (sender receiver : bstr) (number : option bstr)
    (username payloadData : bstr) (timestamp_ms : Z) (p : Packet) : bool * Packet :=
  let p := resetWritePos p in
  if (sizeof_data <? writePos p + sizeof_ChatMessagePayload + length username
                     + length payloadData)%nat then (false, p) else
  let p := field_uuid 0 sender p in
  let p := field_uuid 16 receiver p in
  let p := field 8 32 (htonll timestamp_ms) p in
  let num := match number with Some n => le_combine (take 4 n) | None => 0 end in
  let p := field 4 40 (htonl num) p in
  let p := field 2 44 (htons (len16 username)) p in
  let p := field 2 46 (htons (len16 payloadData)) p in
  let p := advance sizeof_ChatMessagePayload p in
  let p := append username p in
  let p := append payloadData p in
  finalizePacket t p.

Definition serializeFileStart (recid uploadId fileName : bstr) (totalSize finalCrc : Z)
    (p : Packet) : bool * Packet :=
  let p := resetWritePos p in
  if (sizeof_data <? writePos p + sizeof_FileStartPayload + length fileName)%nat
  then (false, p) else
  let p := field_uuid 0 recid p in
  let p := field_uuid 16 uploadId p in
  let p := field 8 32 (htonll totalSize) p in
  let p := field 4 40 (htonl finalCrc) p in
  let p := field 2 44 (htons (len16 fileName)) p in
  let p := advance sizeof_FileStartPayload p in
  let p := append fileName p in
  finalizePacket PKT_FILE_START p.

Definition serializeFileStartResponse (uploadId : bstr) (resumeOffset : Z)
    (p : Packet) : bool * Packet :=
  let p := resetWritePos p in
  if (sizeof_data <? writePos p + sizeof_FileStartResponsePayload)%nat then (false, p) else
  let p := field_uuid 0 uploadId p in
  let p := field 8 16 (htonll resumeOffset) p in
  let p := advance sizeof_FileStartResponsePayload p in
  finalizePacket FILE_START_RESPONSE p.

Definition serializeFileChunk (uploadId : bstr) (byteOffset : Z) (chunkData : bstr)
    (p : Packet) : bool * Packet :=
  let p := resetWritePos p in
  if (sizeof_data <? writePos p + sizeof_FileChunkPayload + length chunkData)%nat
  then (false, p) else
  let p := field_uuid 0 uploadId p in
  let p := field 8 16 (htonll byteOffset) p in
  let p := field 4 24 (htonl (len32 chunkData)) p in
  let p := field 4 28 (htonl (crc32c chunkData 0)) p in
  let p := advance sizeof_FileChunkPayload p in
  let p := append chunkData p in
  finalizePacket PKT_FILE_CHUNK p.

Definition serializeRoundEnd (uploadId : bstr) (roundId chunkCount : Z)
    (p : Packet) : bool * Packet :=
  let p := resetWritePos p in
  if (sizeof_data <? writePos p + sizeof_RoundEndPayload)%nat then (false, p) else
  let p := field_uuid 0 uploadId p in
  let p := field 4 16 (htonl roundId) p in
  let p := field 4 20 (htonl chunkCount) p in
  let p := advance sizeof_RoundEndPayload p in
  finalizePacket PKT_ROUND_END p.

Definition serializeFileAck (uploadId : bstr) (roundId : Z) (missingChunks : list Z)
    (p : Packet) : bool * Packet :=
  let p := resetWritePos p in
  if (sizeof_data <? writePos p + sizeof_FileAckPayload + length missingChunks * 4)%nat
  then (false, p) else
  let p := field_uuid 0 uploadId p in
  let p := field 4 16 (htonl roundId) p in
  let p := field 4 20 (htonl (len32 missingChunks)) p in
  let p := advance sizeof_FileAckPayload p in
  let p := fold_left (fun p chunk => append (le_split 4 (htonl chunk)) p) missingChunks p in
  finalizePacket PKT_FILE_ACK p.

Definition serializeFileEnd (uploadId : bstr) (finalCrc : Z) (p : Packet) : bool * Packet :=
  let p := resetWritePos p in
  if (sizeof_data <? writePos p + sizeof_FileEndPayload)%nat then (false, p) else
  let p := field_uuid 0 uploadId p in
  let p := field 4 16 (htonl finalCrc) p in
  let p := advance sizeof_FileEndPayload p in
  finalizePacket PKT_FILE_END p.

Definition serializeLink (senderId uploadId filename : bstr) (totalsize : Z) (timestamp : bstr)
    (p : Packet) : bool * Packet :=
  let p := resetWritePos p in
  if (sizeof_data <? writePos p + sizeof_DownloadLinkPayload + length filename
                     + length timestamp)%nat then (false, p) else
  let p := field_uuid 0 senderId p in
  let p := field_uuid 16 uploadId p in
  let p := field 4 32 (htonl totalsize) p in
  let p := field 2 36 (htons (len16 filename)) p in
  let p := field 2 38 (htons (len16 timestamp)) p in
  let p := advance sizeof_DownloadLinkPayload p in
  let p := append filename p in
  let p := append timestamp p in
  finalizePacket DOWNLOAD_LINK p.

Definition serializeDownloadReq (userId upId : bstr) (bytes : Z) (p : Packet) : bool * Packet :=
  let p := resetWritePos p in
  if (sizeof_data <? writePos p + sizeof_DownloadReqPayload)%nat then (false, p) else
  let p := field_uuid 0 userId p in
  let p := field_uuid 16 upId p in
  let p := field 4 32 (htonl bytes) p in
  let p := advance sizeof_DownloadReqPayload p in
  finalizePacket DOWNLOAD_REQUEST p.

Definition serializeLogin (identifier password : bstr) (p : Packet) : bool * Packet :=
  let p := resetWritePos p in
  if (sizeof_data <? writePos p + sizeof_LoginPayload + length identifier
                     + length password)%nat then (false, p) else
  let p := field 2 0 (htons (len16 identifier)) p in
  let p := field 2 2 (htons (len16 password)) p in
  let p := advance sizeof_LoginPayload p in
  let p := append identifier p in
  let p := append password p in
  finalizePacket PKT_LOGIN p.

Definition serializeOtpRequest (email : bstr) (p : Packet) : bool * Packet :=
  let p := resetWritePos p in
  if (sizeof_data <? writePos p + sizeof_OtpReqPayload + length email)%nat then (false, p) else
  let p := field 2 0 (htons (len16 email)) p in
  let p := advance sizeof_OtpReqPayload p in
  let p := append email p in
  finalizePacket PKT_OTP_REQ p.

Definition serializeOtpVerification (email otp : bstr) (p : Packet) : bool * Packet :=
  let p := resetWritePos p in
  if (sizeof_data <? writePos p + sizeof_OtpVerifyPayload + length email + length otp)%nat
  then (false, p) else
  let p := field 2 0 (htons (len16 email)) p in
  let p := field 2 2 (htons (len16 otp)) p in
  let p := advance sizeof_OtpVerifyPayload p in
  let p := append email p in
  let p := append otp p in
  finalizePacket PKT_OTP_VERIFY p.

Definition serializeSignup (email number username password : bstr) (p : Packet) : bool * Packet :=
  let p := resetWritePos p in
  if (sizeof_data <? writePos p + sizeof_SignupPayload + length email + length number
                     + length username + length password)%nat then (false, p) else
  let p := field 2 0 (htons (len16 email)) p in
  let p := field 2 2 (htons (len16 number)) p in
  let p := field 2 4 (htons (len16 username)) p in
  let p := field 2 6 (htons (len16 password)) p in
  let p := advance sizeof_SignupPayload p in
  let p := append email p in
  let p := append number p in
  let p := append username p in
  let p := append password p in
  finalizePacket PKT_SIGN_UP p.

Definition serializeUserId (userId serverTempId : bstr) (p : Packet) : bool * Packet :=
  let p := resetWritePos p in
  if (sizeof_data <? writePos p + sizeof_UserIdPayload)%nat then (false, p) else
  let p := field_uuid 0 serverTempId p in
  let p := field_uuid 16 userId p in
  let p := advance sizeof_UserIdPayload p in
  finalizePacket PKT_USER_ID p.

Definition serializeToken (t : PacketType) (accessToken refreshToken : bstr)
    (p : Packet) : bool * Packet :=
  let p := resetWritePos p in
  if (sizeof_data <? writePos p + sizeof_TokenGrantedPayload + length accessToken
                     + length refreshToken)%nat then (false, p) else
  let p := field 2 0 (htons (len16 accessToken)) p in
  let p := field 2 2 (htons (len16 refreshToken)) p in
  let p := advance sizeof_TokenGrantedPayload p in
  let p := append accessToken p in
  let p := append refreshToken p in
  finalizePacket t p.

Definition serializeString (t : PacketType) (s : bstr) (p : Packet) : bool * Packet :=
  let p := resetWritePos p in
  if (sizeof_data <? writePos p + sizeof_StringPayload + length s)%nat then (false, p) else
  let p := field 2 0 (htons (len16 s)) p in
  let p := advance sizeof_StringPayload p in
  let p := append s p in
  finalizePacket t p.

Definition serializeRaw (t : PacketType) (rawPayload : bstr) (p : Packet) : bool * Packet :=
  let p := resetWritePos p in
  if (sizeof_data <? writePos p + length rawPayload)%nat then (false, p) else
  let p := append rawPayload p in
  finalizePacket t p.
End WithChecksum.

(** ** Definitions: reading a payload

    What the handlers of the server and the client extract from a received packet:
    [getPayload<T>()] overlays the struct at [data + HEADER_SIZE]; the strings that
    follow it are copied out by pointer and length, which is undefined outside
    [data]. *)

Definition payload_field (w off : nat) (p : Packet) : Z := load w (HEADER_SIZE + off) (data p).

Definition payload_uuid (off : nat) (p : Packet) : bstr :=
  slice (HEADER_SIZE + off) UUID_SIZE (data p).

(** [std::string(payload + off, n)]. *)
Definition payload_string (off : nat) (n : Z) (p : Packet) : outcome bstr :=
  if Z.of_nat sizeof_data <? Z.of_nat (HEADER_SIZE + off) + n then UB
  else Ok (slice (HEADER_SIZE + off) (Z.to_nat n) (data p)).

(** AuthManager::HandleLoginPacket: identifier and password. *)
Definition read_Login (p : Packet) : outcome (bstr * bstr) :=
  let idLen := ntohs (payload_field 2 0 p) in
  let passLen := ntohs (payload_field 2 2 p) in
  let! identifier := payload_string 4 idLen p in
  let! password := payload_string (4 + Z.to_nat idLen) passLen p in
  Ok (identifier, password).

(** SignUp::otpRequestHandler: email. *)
Definition read_OtpReq (p : Packet) : outcome bstr :=
  payload_string 2 (ntohs (payload_field 2 0 p)) p.

(** SignUp::onOtpVerificationRequest: email and code. *)
Definition read_OtpVerify (p : Packet) : outcome (bstr * bstr) :=
  let emailLen := ntohs (payload_field 2 0 p) in
  let otpLen := ntohs (payload_field 2 2 p) in
  let! email := payload_string 4 emailLen p in
  let! otp := payload_string (4 + Z.to_nat emailLen) otpLen p in
  Ok (email, otp).

(** SignUp::signUpRequestHandler: email, number, username, password. *)
Definition read_Signup (p : Packet) : outcome (bstr * bstr * bstr * bstr) :=
  let emailLen := ntohs (payload_field 2 0 p) in
  let numberLen := ntohs (payload_field 2 2 p) in
  let usernameLen := ntohs (payload_field 2 4 p) in
  let passwordLen := ntohs (payload_field 2 6 p) in
  let! email := payload_string 8 emailLen p in
  let! number := payload_string (8 + Z.to_nat emailLen) numberLen p in
  let! username := payload_string (8 + Z.to_nat emailLen + Z.to_nat numberLen) usernameLen p in
  let! password := payload_string (8 + Z.to_nat emailLen + Z.to_nat numberLen
                                   + Z.to_nat usernameLen) passwordLen p in
  Ok (email, number, username, password).

(** Client::handleIncomingPacket, private and group messages: sender, receiver, text. *)
Definition read_ChatMessage (p : Packet) : outcome (bstr * bstr * bstr) :=
  let txtLen := ntohs (payload_field 2 46 p) in
  let! text := payload_string (48 + Z.to_nat (ntohs (payload_field 2 44 p))) txtLen p in
  Ok (payload_uuid 0 p, payload_uuid 16 p, text).

(** FileTransferManager::handleFileStart and Client::handleFileStart, before
    [sanitize]: receiver, upload id, total size, CRC, file name. *)
Definition read_FileStart (p : Packet) : outcome (bstr * bstr * Z * Z * bstr) :=
  let totalSize := ntohll (payload_field 8 32 p) in
  let finalCrc := ntohl (payload_field 4 40 p) in
  let filenameLen := ntohs (payload_field 2 44 p) in
  let! name := payload_string 46 filenameLen p in
  Ok (payload_uuid 0 p, payload_uuid 16 p, totalSize, finalCrc, name).

(** Client::HandleFileStartResponse. *)
Definition read_FileStartResponse (p : Packet) : bstr * Z :=
  (payload_uuid 0 p, ntohll (payload_field 8 16 p)).

(** FileTransferManager::handleFileChunk and Client::handleFileChunk: upload id,
    offset, CRC and chunk. *)
Definition read_FileChunk (p : Packet) : outcome (bstr * Z * Z * bstr) :=
  let byteOffset := ntohll (payload_field 8 16 p) in
  let chunkSize := ntohl (payload_field 4 24 p) in
  let crcReceived := ntohl (payload_field 4 28 p) in
  let! chunkData := payload_string 32 chunkSize p in
  Ok (payload_uuid 0 p, byteOffset, crcReceived, chunkData).

(** FileTransferManager::handleRoundEnd and Client::handleRoundEnd. *)
Definition read_RoundEnd (p : Packet) : bstr * Z * Z :=
  (payload_uuid 0 p, ntohl (payload_field 4 16 p), ntohl (payload_field 4 20 p)).

(** FileTransferManager::onAckReceived and Client::handleFileAck: upload id, round
    and the missing chunk numbers. *)
Definition read_FileAck (p : Packet) : outcome (bstr * Z * list Z) :=
  let missingCount := ntohl (payload_field 4 20 p) in
  if Z.of_nat sizeof_data <? Z.of_nat (HEADER_SIZE + 24) + 4 * missingCount then UB else
  Ok (payload_uuid 0 p, ntohl (payload_field 4 16 p),
      (fun i => ntohl (payload_field 4 (24 + 4 * i) p)) <$> seq 0 (Z.to_nat missingCount)).

(** FileTransferManager::handleFileEnd and Client::handleFileEnd. *)
Definition read_FileEnd (p : Packet) : bstr * Z :=
  (payload_uuid 0 p, ntohl (payload_field 4 16 p)).

(** Client::handleDownloadLink: sender, upload id, file name, size, time. *)
Definition read_DownloadLink (p : Packet) : outcome (bstr * bstr * bstr * Z * bstr) :=
  let totalsize := ntohl (payload_field 4 32 p) in
  let filenameLen := ntohs (payload_field 2 36 p) in
  let timeLen := ntohs (payload_field 2 38 p) in
  let! filename := payload_string 40 filenameLen p in
  let! timestamp := payload_string (40 + Z.to_nat filenameLen) timeLen p in
  Ok (payload_uuid 0 p, payload_uuid 16 p, filename, totalsize, timestamp).

(** FileTransferManager::HandleDownloadRequest. *)
Definition read_DownloadReq (p : Packet) : bstr * bstr * Z :=
  (payload_uuid 0 p, payload_uuid 16 p, ntohl (payload_field 4 32 p)).

(** Client::handleUserIdPacket: user id, server id. *)
Definition read_UserId (p : Packet) : bstr * bstr := (payload_uuid 16 p, payload_uuid 0 p).

(** Client::handleTokenGranted: the two tokens, if the lengths are those of the token
    structs ([sizeof(AccessToken)] and [sizeof(RefreshToken)]). *)
Definition sizeof_AccessToken : nat := 65.
Definition sizeof_RefreshToken : nat := 73.
Definition read_TokenGranted (p : Packet) : option (bstr * bstr) :=
  let accessLen := ntohs (payload_field 2 0 p) in
  let refreshLen := ntohs (payload_field 2 2 p) in
  if negb (accessLen =? Z.of_nat sizeof_AccessToken)
     || negb (refreshLen =? Z.of_nat sizeof_RefreshToken) then None else
  Some (slice (HEADER_SIZE + 4) (Z.to_nat accessLen) (data p),
        slice (HEADER_SIZE + 4 + Z.to_nat accessLen) (Z.to_nat refreshLen) (data p)).

(** Client::handleAuthFail and the other string payloads. *)
Definition read_String (p : Packet) : outcome bstr :=
  payload_string 2 (ntohs (payload_field 2 0 p)) p.

(** AuthManager::HandleTokenPacket and HandleRefreshPacket: the raw payload. *)
Definition read_Raw (p : Packet) : outcome bstr := payload_string 0 (payload_length (header p)) p.

(** ** The messages of the protocol

    One constructor per serializer, with its arguments. *)

Inductive message :=
| Chat (t : PacketType) (sender receiver username text : bstr) (timestamp_ms : Z)
| FileStart (recid uploadId fileName : bstr) (totalSize finalCrc : Z)
| FileStartResponse (uploadId : bstr) (resumeOffset : Z)
| FileChunk (uploadId : bstr) (byteOffset : Z) (chunkData : bstr)
| RoundEnd (uploadId : bstr) (roundId chunkCount : Z)
| FileAck (uploadId : bstr) (roundId : Z) (missingChunks : list Z)
| FileEnd (uploadId : bstr) (finalCrc : Z)
| Link (senderId uploadId filename : bstr) (totalsize : Z) (timestamp : bstr)
| DownloadReq (userId upId : bstr) (bytes : Z)
| Login (identifier password : bstr)
| OtpRequest (email : bstr)
| OtpVerification (email otp : bstr)
| Signup (email number username password : bstr)
| UserId (userId serverTempId : bstr)
| Token (t : PacketType) (accessToken refreshToken : bstr)
| StringMsg (t : PacketType) (s : bstr)
| Raw (t : PacketType) (rawPayload : bstr).

Definition message_type (m : message) : PacketType :=
  match m with
  | Chat t _ _ _ _ _ | Token t _ _ | StringMsg t _ | Raw t _ => t
  | FileStart _ _ _ _ _ => PKT_FILE_START
  | FileStartResponse _ _ => FILE_START_RESPONSE
  | FileChunk _ _ _ => PKT_FILE_CHUNK
  | RoundEnd _ _ _ => PKT_ROUND_END
  | FileAck _ _ _ => PKT_FILE_ACK
  | FileEnd _ _ => PKT_FILE_END
  | Link _ _ _ _ _ => DOWNLOAD_LINK
  | DownloadReq _ _ _ => DOWNLOAD_REQUEST
  | Login _ _ => PKT_LOGIN
  | OtpRequest _ => PKT_OTP_REQ
  | OtpVerification _ _ => PKT_OTP_VERIFY
  | Signup _ _ _ _ => PKT_SIGN_UP
  | UserId _ _ => PKT_USER_ID
  end.

(** The payload bytes of a message on the wire. *)
Definition payload {C : Checksum} (m : message) : bstr :=
  match m with
  | Chat _ s r u txt ts =>
      s ++ r ++ be 8 ts ++ be 4 0 ++ be 2 (len16 u) ++ be 2 (len16 txt) ++ u ++ txt
  | FileStart r u f n c => r ++ u ++ be 8 n ++ be 4 c ++ be 2 (len16 f) ++ f
  | FileStartResponse u o => u ++ be 8 o
  | FileChunk u o d => u ++ be 8 o ++ be 4 (len32 d) ++ be 4 (crc32c d 0) ++ d
  | RoundEnd u r n => u ++ be 4 r ++ be 4 n
  | FileAck u r ms => u ++ be 4 r ++ be 4 (len32 ms) ++ concat (be 4 <$> ms)
  | FileEnd u c => u ++ be 4 c
  | Link s u f n t => s ++ u ++ be 4 n ++ be 2 (len16 f) ++ be 2 (len16 t) ++ f ++ t
  | DownloadReq s u n => s ++ u ++ be 4 n
  | Login i p => be 2 (len16 i) ++ be 2 (len16 p) ++ i ++ p
  | OtpRequest e => be 2 (len16 e) ++ e
  | OtpVerification e o => be 2 (len16 e) ++ be 2 (len16 o) ++ e ++ o
  | Signup e n u p =>
      be 2 (len16 e) ++ be 2 (len16 n) ++ be 2 (len16 u) ++ be 2 (len16 p) ++ e ++ n ++ u ++ p
  | UserId u s => s ++ u
  | Token _ a r => be 2 (len16 a) ++ be 2 (len16 r) ++ a ++ r
  | StringMsg _ s => be 2 (len16 s) ++ s
  | Raw _ s => s
  end.

(** The call of the serializer that a message stands for. *)
Definition send {C : Checksum} (m : message) (p : Packet) : bool * Packet :=
  match m with
  | Chat t s r u txt ts => serialize t s r None u txt ts p
  | FileStart r u f n c => serializeFileStart r u f n c p
  | FileStartResponse u o => serializeFileStartResponse u o p
  | FileChunk u o d => serializeFileChunk u o d p
  | RoundEnd u r n => serializeRoundEnd u r n p
  | FileAck u r ms => serializeFileAck u r ms p
  | FileEnd u c => serializeFileEnd u c p
  | Link s u f n t => serializeLink s u f n t p
  | DownloadReq s u n => serializeDownloadReq s u n p
  | Login i pw => serializeLogin i pw p
  | OtpRequest e => serializeOtpRequest e p
  | OtpVerification e o => serializeOtpVerification e o p
  | Signup e n u pw => serializeSignup e n u pw p
  | UserId u s => serializeUserId u s p
  | Token t a r => serializeToken t a r p
  | StringMsg t s => serializeString t s p
  | Raw t s => serializeRaw t s p
  end.

(** The identifiers are 16-byte arrays, as every caller passes. *)
Definition uuids (m : message) : list bstr :=
  match m with
  | Chat _ s r _ _ _ => [s; r]
  | FileStart r u _ _ _ => [r; u]
  | FileStartResponse u _ | FileChunk u _ _ | RoundEnd u _ _ | FileAck u _ _ | FileEnd u _ => [u]
  | Link s u _ _ _ | DownloadReq s u _ => [s; u]
  | UserId u s => [s; u]
  | _ => []
  end.

Definition uuids_ok (m : message) : Prop := Forall (fun u => length u = UUID_SIZE) (uuids m).

(** The integer arguments fit their C++ types. *)
Definition ints_ok (m : message) : Prop :=
  match m with
  | FileStart _ _ _ n c => 0 <= n < 2 ^ 64 /\ 0 <= c < 2 ^ 32
  | FileStartResponse _ o | FileChunk _ o _ => 0 <= o < 2 ^ 64
  | RoundEnd _ r n => 0 <= r < 2 ^ 32 /\ 0 <= n < 2 ^ 32
  | FileAck _ r ms => 0 <= r < 2 ^ 32 /\ Forall (fun c => 0 <= c < 2 ^ 32) ms
  | FileEnd _ n | Link _ _ _ n _ | DownloadReq _ _ n => 0 <= n < 2 ^ 32
  | _ => True
  end.

(** What the receiving handler reads out of packet [r] when [m] was sent. *)
Definition received {C : Checksum} (m : message) (r : Packet) : Prop :=
  match m with
  | Chat _ s rc _ txt _ => read_ChatMessage r = Ok (s, rc, txt)
  | FileStart rc u f n c => read_FileStart r = Ok (rc, u, n, c, f)
  | FileStartResponse u o => read_FileStartResponse r = (u, o)
  | FileChunk u o d => read_FileChunk r = Ok (u, o, crc32c d 0, d)
  | RoundEnd u rd n => read_RoundEnd r = (u, rd, n)
  | FileAck u rd ms => read_FileAck r = Ok (u, rd, ms)
  | FileEnd u c => read_FileEnd r = (u, c)
  | Link s u f n t => read_DownloadLink r = Ok (s, u, f, n, t)
  | DownloadReq s u n => read_DownloadReq r = (s, u, n)
  | Login i pw => read_Login r = Ok (i, pw)
  | OtpRequest e => read_OtpReq r = Ok e
  | OtpVerification e o => read_OtpVerify r = Ok (e, o)
  | Signup e n u pw => read_Signup r = Ok (e, n, u, pw)
  | UserId u s => read_UserId r = (u, s)
  | Token _ a rf => length a = sizeof_AccessToken -> length rf = sizeof_RefreshToken ->
      read_TokenGranted r = Some (a, rf)
  | StringMsg _ s => read_String r = Ok s
  | Raw _ s => read_Raw r = Ok s
  end.

(** ** Lemmas: the serializers build frames *)

Lemma length_concat_be4 ms : length (concat (be 4 <$> ms)) = (length ms * 4)%nat.
Proof. induction ms as [|m ms IH]; [done|]. csimpl. lens. Qed.
#[export] Hint Rewrite length_concat_be4 : lens.

(** What the writes do to the parts of the packet. *)

Create Rewrite HintDb packet.

Definition flags (p : Packet) := (parsedHeader p, parsedData p, isSent p, isSending p,
  isSentFail p, bypassQueue p, pkt_id p).

Lemma data_field w off v p : data (field w off v p) = store w (writePos p + off) v (data p).
Proof. done. Qed.
Lemma data_field_uuid off u p :
  data (field_uuid off u p) = blit (writePos p + off) (take UUID_SIZE u) (data p).
Proof. done. Qed.
Lemma data_advance n p : data (advance n p) = data p.
Proof. done. Qed.
Lemma data_append s p : data (append s p) = blit (writePos p) s (data p).
Proof. done. Qed.
Lemma data_reset p : data (resetWritePos p) = data p.
Proof. done. Qed.
Lemma writePos_field w off v p : writePos (field w off v p) = writePos p.
Proof. done. Qed.
Lemma writePos_field_uuid off u p : writePos (field_uuid off u p) = writePos p.
Proof. done. Qed.
Lemma writePos_advance n p : writePos (advance n p) = (writePos p + n)%nat.
Proof. done. Qed.
Lemma writePos_append s p : writePos (append s p) = (writePos p + length s)%nat.
Proof. done. Qed.
Lemma writePos_reset p : writePos (resetWritePos p) = 16%nat.
Proof. done. Qed.
Lemma flags_field w off v p : flags (field w off v p) = flags p.
Proof. done. Qed.
Lemma flags_field_uuid off u p : flags (field_uuid off u p) = flags p.
Proof. done. Qed.
Lemma flags_advance n p : flags (advance n p) = flags p.
Proof. done. Qed.
Lemma flags_append s p : flags (append s p) = flags p.
Proof. done. Qed.
#[export] Hint Rewrite data_field data_field_uuid data_advance data_append data_reset
  writePos_field writePos_field_uuid writePos_advance writePos_append writePos_reset
  flags_field flags_field_uuid flags_advance flags_append : packet.

Lemma finalized_flags {C : Checksum} t pl d p q :
  flags p = flags q -> finalized t pl d p = finalized t pl d q.
Proof. unfold flags. intros [= ? ? ? ? ? ? ?]. unfold finalized. congruence. Qed.

Section Build.
Context {C : Checksum}.

Lemma append_chunks ms p :
  (writePos p + 4 * length ms <= length (data p))%nat ->
  fold_left (fun p chunk => append (le_split 4 (htonl chunk)) p) ms p
  = append (concat (be 4 <$> ms)) p.
Proof.
  revert p. induction ms as [|m ms IH]; intros p Hp.
  - cbn. unfold append, advance, set_writePos, set_data. cbn.
    unfold blit. cbn [length app]. rewrite !Nat.add_0_r, take_drop. by destruct p.
  - cbn [length] in Hp. cbn [fold_left].
    unfold htonl at 2. rewrite le_split_be.
    rewrite IH by (cbn; blen).
    change (concat (be 4 <$> m :: ms)) with (be 4 m ++ concat (be 4 <$> ms)).
    unfold append, advance, set_writePos, set_data.
    cbn [data writePos header in_ parsedHeader parsedData isSent isSending isSentFail
         bypassQueue pkt_id].
    rewrite blit_blit by blen. f_equal. rewrite length_app. lens.
Qed.

(** Either the message fits the packet and its frame is built, or nothing is
    written. *)
Definition built (m : message) (p : Packet) : bool * Packet :=
  if (HEADER_SIZE + length (payload m) <=? sizeof_data)%nat
  then (true, finalized (message_type m) (payload m) (data p) (resetWritePos p))
  else (false, resetWritePos p).

(** One serializer: split on its guard; on success its copies merge into one copy
    of the payload. *)
Ltac split_guard :=
  unfold HEADER_SIZE in *; autounfold with sizes; cbv zeta; rewrite writePos_reset;
  match goal with
  | |- context [(sizeof_data <? ?n)%nat] => destruct (Nat.ltb_spec sizeof_data n)
  end;
  match goal with
  | |- context [(?n <=? sizeof_data)%nat] => destruct (Nat.leb_spec n sizeof_data)
  end; try (exfalso; lens; fail); [reflexivity|].
Ltac build_frame :=
  match goal with
  | |- _ = (_, finalized ?t ?pl ?d0 _) =>
      etrans; [apply (finalizePacket_eq t pl d0); unfold HEADER_SIZE;
               [assumption|lens
               |autorewrite with packet; unfold UUID_SIZE; rewrite ?take_ge by lens; by merge_blits
               |autorewrite with packet; lens]
              |f_equal; apply finalized_flags; autorewrite with packet; done]
  end.
Ltac serializer := split_guard; build_frame.

Lemma send_built m p :
  length (data p) = sizeof_data -> uuids_ok m -> send m p = built m p.
Proof.
  intros Hd Hu. unfold uuids_ok, UUID_SIZE in Hu. unfold built, send.
  destruct m; cbn [payload uuids] in *;
    repeat (apply Forall_cons_1 in Hu as [? Hu]).
  - unfold serialize. serializer.
  - unfold serializeFileStart. serializer.
  - unfold serializeFileStartResponse. serializer.
  - unfold serializeFileChunk. serializer.
  - unfold serializeRoundEnd. serializer.
  - unfold serializeFileAck. split_guard.
    rewrite append_chunks
      by (autorewrite with packet; unfold UUID_SIZE, store; rewrite ?take_ge by lens; blen).
    build_frame.
  - unfold serializeFileEnd. serializer.
  - unfold serializeLink. serializer.
  - unfold serializeDownloadReq. serializer.
  - unfold serializeLogin. serializer.
  - unfold serializeOtpRequest. serializer.
  - unfold serializeOtpVerification. serializer.
  - unfold serializeSignup. serializer.
  - unfold serializeUserId. serializer.
  - unfold serializeToken. serializer.
  - unfold serializeString. serializer.
  - unfold serializeRaw. serializer.
Qed.
End Build.

(** ** Lemmas: the handlers read the frames back *)

Section Read.
Context {C : Checksum} {L : ChecksumLaws C}.

Lemma slice_slice i n off m l :
  (i + n <= m)%nat -> slice i n (slice off m l) = slice (off + i) n l.
Proof. intros H. unfold slice at 2. rewrite slice_take by done. apply slice_drop. Qed.

Lemma holds_frame_slice r t pl off n :
  holds_frame r t pl -> (off + n <= length pl)%nat ->
  slice (HEADER_SIZE + off) n (data r) = slice off n pl.
Proof.
  intros Hf Hn. rewrite (holds_frame_data _ _ _ Hf).
  rewrite <- (slice_slice off n HEADER_SIZE (length pl)) by done.
  by rewrite slice_payload_frame.
Qed.

Lemma payload_string_frame r t pl off n :
  holds_frame r t pl -> (off + Z.to_nat n <= length pl)%nat -> 0 <= n ->
  payload_string off n r = Ok (slice off (Z.to_nat n) pl).
Proof.
  intros Hf Hn Hpos. pose proof Hf as (_ & Hl & _). unfold payload_string.
  destruct (Z.ltb_spec (Z.of_nat sizeof_data) (Z.of_nat (HEADER_SIZE + off) + n)); [lia|].
  by erewrite holds_frame_slice.
Qed.

Lemma payload_field_frame r t pl w off :
  holds_frame r t pl -> (off + w <= length pl)%nat ->
  payload_field w off r = le_combine (slice off w pl).
Proof. intros Hf Hn. unfold payload_field, load. by erewrite holds_frame_slice. Qed.

Lemma len16_small {A} (s : list A) : (length s <= sizeof_data)%nat -> len16 s = len s.
Proof. intros H. apply wrap_small. unfold len. pose proof sizeof_data_Z. lia. Qed.

Lemma len32_small {A} (s : list A) : (length s <= sizeof_data)%nat -> len32 s = len s.
Proof. intros H. apply wrap_small. unfold len. pose proof sizeof_data_Z. lia. Qed.

Lemma ntohs_len16 {A} (s : list A) :
  (length s <= sizeof_data)%nat -> ntohs (le_combine (be 2 (len16 s))) = len s.
Proof.
  intros H. unfold ntohs. rewrite bswap_be, len16_small by done.
  apply Z.mod_small. unfold len. pose proof sizeof_data_Z. lia.
Qed.

Lemma ntohl_len32 {A} (s : list A) :
  (length s <= sizeof_data)%nat -> ntohl (le_combine (be 4 (len32 s))) = len s.
Proof.
  intros H. unfold ntohl. rewrite bswap_be, len32_small by done.
  apply Z.mod_small. unfold len. pose proof sizeof_data_Z. lia.
Qed.

Lemma ntohl_be v : 0 <= v < 2 ^ 32 -> ntohl (le_combine (be 4 v)) = v.
Proof. intros H. unfold ntohl. rewrite bswap_be. by apply Z.mod_small. Qed.

Lemma ntohll_be v : 0 <= v < 2 ^ 64 -> ntohll (le_combine (be 8 v)) = v.
Proof. intros H. unfold ntohll. rewrite bswap_be. by apply Z.mod_small. Qed.

Lemma to_nat_len {A} (s : list A) : Z.to_nat (len s) = length s.
Proof. apply Nat2Z.id. Qed.

(** Evaluate the integer fields of a frame, then its strings. *)
Ltac read_fields Hf :=
  unfold payload_uuid, UUID_SIZE;
  repeat (rewrite (payload_field_frame _ _ _ _ _ Hf) by lens);
  repeat (rewrite (holds_frame_slice _ _ _ _ _ Hf) by lens);
  slices;
  repeat first [rewrite ntohs_len16 by lens | rewrite ntohl_len32 by lens
               | rewrite ntohl_be by (apply crc32c_range || lia) | rewrite ntohll_be by lia];
  repeat (rewrite (payload_string_frame _ _ _ _ _ Hf)
            by (rewrite ?to_nat_len; try apply len_nonneg; lens));
  cbn [obind]; rewrite ?to_nat_len; slices.

Lemma slice_chunk ms i c :
  ms !! i = Some c -> slice (4 * i) 4 (concat (be 4 <$> ms)) = be 4 c.
Proof.
  revert i. induction ms as [|m ms IH]; intros i Hc; [done|].
  change (concat (be 4 <$> m :: ms)) with (be 4 m ++ concat (be 4 <$> ms)).
  destruct i as [|i]; simpl in Hc.
  - simplify_eq. by slices.
  - rewrite slice_app_r by lens. rewrite <- (IH i) by done. f_equal. lens.
Qed.

Lemma read_chunks r t pre ms :
  length pre = 24%nat -> Forall (fun c => 0 <= c < 2 ^ 32) ms ->
  holds_frame r t (pre ++ concat (be 4 <$> ms)) ->
  (fun i => ntohl (payload_field 4 (24 + 4 * i) r)) <$> seq 0 (length ms) = ms.
Proof.
  intros Hp Hms Hf. apply list_eq. intros i. rewrite list_lookup_fmap.
  destruct (ms !! i) as [c|] eqn:Hc.
  - pose proof (lookup_lt_Some _ _ _ Hc) as Hi. rewrite lookup_seq_lt by done.
    change (Some (ntohl (payload_field 4 (24 + 4 * i) r)) = Some c).
    rewrite Forall_lookup in Hms. specialize (Hms _ _ Hc).
    rewrite (payload_field_frame _ _ _ _ _ Hf) by lens.
    rewrite slice_app_r by lia. replace (24 + 4 * i - length pre)%nat with (4 * i)%nat by lia.
    rewrite (slice_chunk _ _ c) by done. by rewrite ntohl_be by lia.
  - apply lookup_ge_None in Hc. by rewrite lookup_seq_ge by lia.
Qed.

Lemma received_frame m r :
  uuids_ok m -> ints_ok m -> holds_frame r (message_type m) (payload m) ->
  header r = frame_header (message_type m) (payload m) -> received m r.
Proof.
  intros Hu Hi Hf Hh. pose proof Hf as (_ & Hl & _). unfold HEADER_SIZE in Hl.
  pose proof sizeof_data_Z.
  unfold uuids_ok, UUID_SIZE in Hu.
  destruct m; cbn [payload uuids ints_ok received message_type] in *;
    repeat (apply Forall_cons_1 in Hu as [? Hu]).
  - unfold read_ChatMessage. by read_fields Hf.
  - unfold read_FileStart. by read_fields Hf.
  - unfold read_FileStartResponse. by read_fields Hf.
  - unfold read_FileChunk. by read_fields Hf.
  - unfold read_RoundEnd. by read_fields Hf.
  - destruct Hi as [Hi Hms]. unfold read_FileAck. read_fields Hf.
    destruct (Z.ltb_spec (Z.of_nat sizeof_data) (Z.of_nat (HEADER_SIZE + 24) + 4 * len missingChunks));
      [unfold HEADER_SIZE, len in *; lens|].
    rewrite !app_assoc in Hf. by rewrite (fun H => read_chunks _ _ _ _ H Hms Hf) by lens.
  - unfold read_FileEnd. by read_fields Hf.
  - unfold read_DownloadLink. by read_fields Hf.
  - unfold read_DownloadReq. by read_fields Hf.
  - unfold read_Login. by read_fields Hf.
  - unfold read_OtpReq. by read_fields Hf.
  - unfold read_OtpVerify. by read_fields Hf.
  - unfold read_Signup. by read_fields Hf.
  - unfold read_UserId. by read_fields Hf.
  - intros Ha Hr. unfold read_TokenGranted. read_fields Hf.
    unfold len. rewrite Ha, Hr. simpl orb. cbv iota.
    rewrite <- Nat.add_assoc, !(holds_frame_slice _ _ _ _ _ Hf) by lens.
    unfold sizeof_AccessToken, sizeof_RefreshToken in *. by slices.
  - unfold read_String. by read_fields Hf.
  - unfold read_Raw. rewrite Hh. cbn [frame_header payload_length]. by read_fields Hf.
Qed.
End Read.

(** ** Properties *)

Lemma holds_frame_finalized {C : Checksum} t pl d p :
  length d = sizeof_data -> (HEADER_SIZE + length pl <= sizeof_data)%nat ->
  wire (finalized t pl d p) = frame t pl /\ length (data (finalized t pl d p)) = sizeof_data.
Proof.
  intros Hd Hl. unfold wire, finalized. cbn [data in_]. split.
  - rewrite <- (slice_whole 0 _ _ eq_refl (eq_sym (length_frame t pl))) at 2.
    rewrite <- (slice_blit_inside 0 _ 0 (frame t pl) d) by lens. by unfold slice.
  - rewrite length_blit by lens. done.
Qed.

(** C3: every message that fits is sent and received intact: its serializer returns
    true and leaves exactly the frame of the message in the packet (the bytes behind
    it untouched), and any packet object into which these bytes are received passes
    [parseHeader] and [parseData], carries the type, and yields the original fields to
    the handler that reads it. *)
Theorem message_roundtrip {C : Checksum} {L : ChecksumLaws C} (m : message) (p : Packet) :
  length (data p) = sizeof_data -> uuids_ok m -> ints_ok m ->
  (HEADER_SIZE + length (payload m) <= sizeof_data)%nat ->
  exists p', send m p = (true, p') /\
    wire p' = frame (message_type m) (payload m) /\
    drop (in_ p') (data p') = drop (in_ p') (data p) /\
    forall r, length (data r) = sizeof_data -> in_ r = in_ p' -> wire r = wire p' ->
      exists r1 r2, parseHeader r = (true, r1) /\ parseData r1 = Ok (true, r2) /\
        type_of_code (type (header r2)) = Some (message_type m) /\ received m r2.
Proof.
  intros Hd Hu Hi Hl. rewrite send_built by done. unfold built.
  rewrite (proj2 (Nat.leb_le _ _)) by done. eexists. split; [done|].
  destruct (holds_frame_finalized (message_type m) (payload m) (data p) (resetWritePos p) Hd Hl)
    as [Hw _].
  split; [done|]. split.
  { cbn [finalized in_ data]. unfold blit. rewrite take_0, app_nil_l, drop_app_ge by lens.
    rewrite drop_drop. f_equal. lens. }
  intros r Hr Hin Hwr. rewrite Hw in Hwr.
  assert (Hf : holds_frame r (message_type m) (payload m)) by done.
  do 2 eexists. split; [by apply parseHeader_frame|].
  split; [by apply (parseData_frame _ (message_type m) (payload m))|].
  split; [apply type_of_code_code|]. by apply received_frame.
Qed.

Lemma message_roundtrip_witness :
  exists p', send (C := compute_soft) (Login (str "alice@example.org") (str "s3cret")) new_packet
             = (true, p') /\ in_ p' = 43%nat.
Proof.
  destruct (message_roundtrip (C := compute_soft)
    (Login (str "alice@example.org") (str "s3cret")) new_packet) as (p' & Hs & _).
  - reflexivity.
  - constructor.
  - exact I.
  - vm_compute. lia.
  - exists p'. split; [exact Hs|].
    assert (E : in_ (send (C := compute_soft) (Login (str "alice@example.org") (str "s3cret"))
                       new_packet).2 = 43%nat) by (vm_compute; reflexivity).
    by rewrite Hs in E.
Defined.

(** A message whose header and payload exceed the 4096-byte array is refused by its
    serializer, and no byte of the packet is written. *)
Theorem oversized_message_refused {C : Checksum} (m : message) (p : Packet) :
  length (data p) = sizeof_data -> uuids_ok m ->
  (sizeof_data < HEADER_SIZE + length (payload m))%nat ->
  send m p = (false, resetWritePos p) /\ data (resetWritePos p) = data p.
Proof.
  intros Hd Hu Hl. rewrite send_built by done. unfold built.
  by rewrite (proj2 (Nat.leb_gt _ _)) by done.
Qed.

Lemma oversized_message_refused_witness :
  fst (send (C := compute_soft) (FileAck (zeros 16) 0 (replicate 1024 7)) new_packet) = false.
Proof.
  by rewrite (proj1 (oversized_message_refused (C := compute_soft)
    (FileAck (zeros 16) 0 (replicate 1024 7)) new_packet
    ltac:(reflexivity) ltac:(repeat constructor) ltac:(vm_compute; lia))).
Defined.
