(* ===== verification/CircularBuffer.v ===== *)
(** The per-connection receive buffer: datastructure/circularBuffer.h.

    The two indices are 64-bit and grow without being clamped; a byte's place in the
    array is its index masked.  [contents] is the byte queue the buffer stands for,
    and every operation is proved to be the operation of that queue, also when the
    indices wrap around 2^64. *)

From S2P Require Import Prelude.

(** ** Definitions *)

Definition capacity : Z := 16384.
Definition mask : Z := capacity - 1.

Record CircularBuffer := mkBuffer {
  buffer : bstr;
  stidx : Z;
  endidx : Z
}.

(** [buffer[(idx + i) & mask]]: the array position. *)
Definition pos (idx i : Z) : nat := Z.to_nat (Z.land (wrap 64 (idx + i)) mask).

Definition size (b : CircularBuffer) : Z := wrap 64 (endidx b - stidx b).

Definition freeSpace (b : CircularBuffer) : Z := wrap 64 (capacity - size b).

(** The copying loop of [insert], from iteration [i] on. *)
Fixpoint insert_loop (endidx i : Z) (src buf : bstr) : bstr :=
  match src with
  | [] => buf
  | x :: src => insert_loop endidx (i + 1) src (<[pos endidx i := x]> buf)
  end.

Definition insert (src : bstr) (b : CircularBuffer) : bool * CircularBuffer :=
  if freeSpace b <? len src then (false, b) else
  (true, mkBuffer (insert_loop (endidx b) 0 src (buffer b)) (stidx b)
           (wrap 64 (endidx b + len src))).

Definition erase (length : Z) (b : CircularBuffer) : bool * CircularBuffer :=
  if size b <? length then (false, b) else
  (true, mkBuffer (buffer b) (wrap 64 (stidx b + length)) (endidx b)).

(** The bytes [dest[0 .. length)] the reading loop of [copy] and [consume] stores. *)
Definition read_loop (b : CircularBuffer) (length : Z) : bstr :=
  (fun i => default Byte.x00 (buffer b !! pos (stidx b) (Z.of_nat i))) <$> seq 0 (Z.to_nat length).

Definition copy (length : Z) (b : CircularBuffer) : option bstr :=
  if size b <? length then None else Some (read_loop b length).

Definition consume (length : Z) (b : CircularBuffer) : option bstr * CircularBuffer :=
  if size b <? length then (None, b) else
  (Some (read_loop b length), mkBuffer (buffer b) (wrap 64 (stidx b + length)) (endidx b)).

(** [getWriteBuffers]: the [WSABUF]s filled in, as offset and length. *)
Definition getWriteBuffers (b : CircularBuffer) : list (Z * Z) :=
  if freeSpace b =? 0 then [] else
  let wPhys := Z.land (endidx b) mask in
  let rPhys := Z.land (stidx b) mask in
  if rPhys <=? wPhys then
    let tailSpace := capacity - wPhys in
    if 0 <? rPhys then [(wPhys, tailSpace); (0, rPhys)] else [(wPhys, tailSpace)]
  else [(wPhys, rPhys - wPhys)].

Definition commitWrite (length : Z) (b : CircularBuffer) : CircularBuffer :=
  if freeSpace b <? length then b
  else mkBuffer (buffer b) (stidx b) (wrap 64 (endidx b + length)).

(** A scatter receive, as [WSARecv] documents it: the bytes fill the buffers of the
    array in order, each before the next. *)
Fixpoint scatter (bufs : list (Z * Z)) (bytes buf : bstr) : bstr :=
  match bufs with
  | [] => buf
  | (off, n) :: bufs =>
      scatter bufs (drop (Z.to_nat n) bytes) (blit (Z.to_nat off) (take (Z.to_nat n) bytes) buf)
  end.

(** Receiving [bytes] from the socket: scatter, then commit (workerThread). *)
Definition receive (bytes : bstr) (b : CircularBuffer) : CircularBuffer :=
  commitWrite (len bytes)
    (mkBuffer (scatter (getWriteBuffers b) bytes (buffer b)) (stidx b) (endidx b)).

(** A buffer just constructed. *)
Definition empty_buffer : CircularBuffer := mkBuffer (zeros (Z.to_nat capacity)) 0 0.

(** ** The byte queue a buffer stands for *)

Definition contents (b : CircularBuffer) : bstr := read_loop b (size b).

Definition wf (b : CircularBuffer) : Prop :=
  len (buffer b) = capacity /\ 0 <= stidx b < 2 ^ 64 /\ 0 <= endidx b < 2 ^ 64 /\
  size b <= capacity.

(** ** Lemmas: positions *)

Lemma pos_mod idx i : pos idx i = Z.to_nat ((idx + i) mod capacity).
Proof.
  unfold pos, mask, capacity, wrap. change (16384 - 1) with (Z.ones 14).
  rewrite Z.land_ones by lia. f_equal.
  change (2 ^ 64) with (2 ^ 14 * 2 ^ 50). rewrite Z.rem_mul_r by lia.
  rewrite Z.mul_comm, Z.mod_add by lia. apply Z.mod_mod. lia.
Qed.

Lemma pos_lt idx i : (pos idx i < Z.to_nat capacity)%nat.
Proof. rewrite pos_mod. pose proof (Z.mod_pos_bound (idx + i) capacity). unfold capacity in *. lia. Qed.

Lemma pos_wrap idx n i : pos (wrap 64 (idx + n)) i = pos idx (n + i).
Proof.
  unfold pos, wrap. do 2 f_equal. rewrite Zplus_mod_idemp_l. f_equal. lia.
Qed.

(** Two positions less than [capacity] apart are different. *)
Lemma pos_inj idx i j : pos idx i = pos idx j -> - capacity < i - j < capacity -> i = j.
Proof.
  rewrite !pos_mod. intros E Hd.
  pose proof (Z.mod_pos_bound (idx + i) capacity ltac:(unfold capacity; lia)).
  pose proof (Z.mod_pos_bound (idx + j) capacity ltac:(unfold capacity; lia)).
  assert (E' : (idx + i) mod capacity = (idx + j) mod capacity) by lia.
  pose proof (Z.div_mod (idx + i) capacity). pose proof (Z.div_mod (idx + j) capacity).
  unfold capacity in *. nia.
Qed.

(** ** Lemmas: the loops *)

Lemma length_insert_loop e i src buf : length (insert_loop e i src buf) = length buf.
Proof.
  revert i buf. induction src as [|x src IH]; intros i buf; simpl; [done|].
  rewrite IH. apply length_insert.
Qed.

Lemma insert_loop_other e i src buf p :
  (forall k, 0 <= k < len src -> pos e (i + k) <> p) -> insert_loop e i src buf !! p = buf !! p.
Proof.
  revert i buf. induction src as [|x src IH]; intros i buf Hp; simpl; [done|].
  unfold len in *. simpl length in Hp. rewrite IH.
  - apply list_lookup_insert_ne. specialize (Hp 0). rewrite Z.add_0_r in Hp. apply Hp. lia.
  - intros k Hk. replace (i + 1 + k) with (i + (k + 1)) by lia. apply Hp. lia.
Qed.

Lemma insert_loop_at e i src buf k x :
  len buf = capacity -> len src <= capacity -> src !! k = Some x ->
  insert_loop e i src buf !! pos e (i + Z.of_nat k) = Some x.
Proof.
  revert i k buf. induction src as [|y src IH]; intros i k buf Hb Hs Hk; [done|].
  pose proof (lookup_lt_Some _ _ _ Hk) as Hlt. unfold len in *. simpl length in Hs, Hlt.
  simpl insert_loop. destruct k as [|k]; simpl in Hk.
  - simplify_eq. rewrite insert_loop_other.
    + rewrite Z.add_0_r. apply list_lookup_insert_eq. pose proof (pos_lt e i).
      unfold capacity in *. lia.
    + intros j Hj E. unfold len in Hj. apply pos_inj in E; unfold capacity in *; lia.
  - replace (i + Z.of_nat (S k)) with (i + 1 + Z.of_nat k) by lia.
    apply IH; [rewrite length_insert; lia|lia|done].
Qed.

Lemma length_read_loop b n : length (read_loop b n) = Z.to_nat n.
Proof. unfold read_loop. lens. Qed.
#[export] Hint Rewrite length_read_loop length_insert_loop : lens.

Lemma lookup_read_loop b n i :
  (i < Z.to_nat n)%nat ->
  read_loop b n !! i = Some (default Byte.x00 (buffer b !! pos (stidx b) (Z.of_nat i))).
Proof. intros Hi. unfold read_loop. by rewrite list_lookup_fmap, lookup_seq_lt by done. Qed.

Lemma read_loop_take b n m : 0 <= n <= m -> read_loop b n = take (Z.to_nat n) (read_loop b m).
Proof.
  intros H. apply list_eq. intros i. destruct (Nat.lt_ge_cases i (Z.to_nat n)).
  - rewrite lookup_take_lt, !lookup_read_loop by lia. done.
  - by rewrite !lookup_ge_None_2 by lens.
Qed.

(** ** Lemmas: sizes *)

Lemma size_range b : 0 <= size b < 2 ^ 64.
Proof. by apply wrap_range. Qed.

Lemma freeSpace_eq b : wf b -> freeSpace b = capacity - size b.
Proof.
  intros (_ & _ & _ & Hs). pose proof (size_range b). unfold freeSpace, capacity in *.
  apply wrap_small. lia.
Qed.

Lemma len_contents b : len (contents b) = size b.
Proof. unfold contents, len. rewrite length_read_loop. pose proof (size_range b). lia. Qed.

Lemma endidx_eq b i : pos (endidx b) i = pos (stidx b) (size b + i).
Proof.
  unfold size, pos, wrap. do 2 f_equal.
  replace (stidx b + ((endidx b - stidx b) mod 2 ^ 64 + i))
    with ((endidx b - stidx b) mod 2 ^ 64 + (stidx b + i)) by lia.
  rewrite Zplus_mod_idemp_l. f_equal. lia.
Qed.

Lemma size_advance buf buf' st e e' n :
  0 <= n < 2 ^ 64 -> size (mkBuffer buf st e) + n < 2 ^ 64 -> e' = wrap 64 (e + n) ->
  size (mkBuffer buf' st e') = size (mkBuffer buf st e) + n.
Proof.
  unfold size, wrap. cbn [stidx endidx]. intros Hn Hs ->.
  rewrite Zminus_mod_idemp_l. replace (e + n - st) with (e - st + n) by lia.
  rewrite <- Zplus_mod_idemp_l. apply Z.mod_small.
  pose proof (Z.mod_pos_bound (e - st) (2 ^ 64)). lia.
Qed.

Lemma size_retire buf st e n :
  0 <= n <= size (mkBuffer buf st e) ->
  size (mkBuffer buf (wrap 64 (st + n)) e) = size (mkBuffer buf st e) - n.
Proof.
  unfold size, wrap. cbn [stidx endidx]. intros Hn.
  rewrite Zminus_mod_idemp_r. replace (e - (st + n)) with (e - st - n) by lia.
  rewrite <- Zminus_mod_idemp_l. apply Z.mod_small.
  pose proof (Z.mod_pos_bound (e - st) (2 ^ 64)). lia.
Qed.

Lemma len_buffer_insert b src : len (insert_loop (endidx b) 0 src (buffer b)) = len (buffer b).
Proof. unfold len. by rewrite length_insert_loop. Qed.

(** ** Lemmas: what the loops do to the queue *)

Lemma insert_contents b src :
  wf b -> len src <= freeSpace b ->
  let b' := mkBuffer (insert_loop (endidx b) 0 src (buffer b)) (stidx b)
              (wrap 64 (endidx b + len src)) in
  wf b' /\ contents b' = contents b ++ src.
Proof.
  intros Hwf Hf b'. rewrite freeSpace_eq in Hf by done.
  destruct Hwf as (Hb & Hst & He & Hs). pose proof (size_range b) as Hr.
  pose proof (len_nonneg src) as Hl. unfold capacity in *.
  assert (Hsz : size b' = size b + len src).
  { destruct b. apply size_advance; [lia| |done]. lia. }
  split.
  { unfold wf. rewrite Hsz. unfold b'. cbn [buffer stidx endidx].
    rewrite len_buffer_insert. pose proof (wrap_range 64 (endidx b + len src)).
    unfold capacity. lia. }
  unfold contents. rewrite Hsz. apply list_eq. intros i.
  destruct (Nat.lt_ge_cases i (Z.to_nat (size b))) as [Hi|Hi].
  - rewrite lookup_app_l, !lookup_read_loop by lens. unfold b'. cbn [buffer stidx]. do 2 f_equal.
    apply insert_loop_other. intros k Hk E. rewrite endidx_eq in E.
    apply pos_inj in E; unfold capacity; lia.
  - rewrite lookup_app_r by lens. rewrite length_read_loop.
    destruct (src !! (i - Z.to_nat (size b))%nat) as [x|] eqn:Hx.
    + pose proof (lookup_lt_Some _ _ _ Hx). unfold len in *.
      rewrite lookup_read_loop by lia. unfold b'. cbn [buffer stidx].
      replace (Z.of_nat i) with (size b + (0 + Z.of_nat (i - Z.to_nat (size b)))) by lia.
      rewrite <- endidx_eq. erewrite insert_loop_at; [done| |unfold len, capacity; lia|done].
      done.
    + apply lookup_ge_None in Hx. apply lookup_ge_None. unfold len in *. lens.
Qed.

Lemma retire_contents b n :
  wf b -> 0 <= n <= size b ->
  let b' := mkBuffer (buffer b) (wrap 64 (stidx b + n)) (endidx b) in
  wf b' /\ contents b' = drop (Z.to_nat n) (contents b).
Proof.
  intros (Hb & Hst & He & Hs) Hn b'.
  assert (Hsz : size b' = size b - n) by (destruct b; by apply size_retire).
  split.
  { unfold wf. rewrite Hsz. unfold b'. cbn [buffer stidx endidx].
    pose proof (wrap_range 64 (stidx b + n)). lia. }
  unfold contents. rewrite Hsz. apply list_eq. intros i. rewrite lookup_drop.
  destruct (Nat.lt_ge_cases i (Z.to_nat (size b - n))).
  - rewrite !lookup_read_loop by lia. unfold b'. cbn [buffer stidx].
    rewrite pos_wrap. do 3 f_equal. f_equal. lia.
  - by rewrite !lookup_ge_None_2 by lens.
Qed.

Lemma read_contents b n : 0 <= n <= size b -> read_loop b n = take (Z.to_nat n) (contents b).
Proof. intros H. by apply read_loop_take. Qed.

(** ** Lemmas: the write buffers *)

Lemma insert_loop_app e i a b buf :
  insert_loop e i (a ++ b) buf = insert_loop e (i + len a) b (insert_loop e i a buf).
Proof.
  revert i buf. induction a as [|x a IH]; intros i buf; simpl.
  - f_equal. unfold len. simpl. lia.
  - rewrite IH. f_equal. unfold len. simpl. lia.
Qed.

Lemma insert_is_blit i x (l : bstr) : (i < length l)%nat -> <[i:=x]> l = blit i [x] l.
Proof.
  intros Hi. rewrite insert_take_drop by done. unfold blit. cbn [length app].
  by rewrite Nat.add_1_r.
Qed.

(** A run of the loop that does not pass the end of the array is one copy. *)
Lemma insert_loop_contiguous e i src buf :
  len buf = capacity -> (e + i) mod capacity + len src <= capacity ->
  insert_loop e i src buf = blit (Z.to_nat ((e + i) mod capacity)) src buf.
Proof.
  revert i buf. induction src as [|x src IH]; intros i buf Hb Hs; simpl insert_loop.
  { unfold blit. cbn [length app]. by rewrite Nat.add_0_r, take_drop. }
  pose proof (Z.mod_pos_bound (e + i) capacity ltac:(done)) as Hm.
  unfold len in *. cbn [length] in Hs.
  assert (Hlt : (Z.to_nat ((e + i) mod capacity) < length buf)%nat) by lia.
  rewrite pos_mod, insert_is_blit by done.
  destruct src as [|y src]; [done|].
  assert (E : (e + (i + 1)) mod capacity = (e + i) mod capacity + 1).
  { replace (e + (i + 1)) with (e + i + 1) by lia. rewrite <- Zplus_mod_idemp_l.
    apply Z.mod_small. cbn [length] in Hs. lia. }
  rewrite IH, E.
  - rewrite blit_blit; [done| |]; cbn [length]; lia.
  - rewrite length_blit; cbn [length]; lia.
  - rewrite E. lia.
Qed.

Lemma land_mask z : 0 <= z -> Z.land z mask = z mod capacity.
Proof. intros _. unfold mask, capacity. change (16384 - 1) with (Z.ones 14). by rewrite Z.land_ones. Qed.

Lemma size_phys b :
  wf b -> size b < capacity ->
  size b = (endidx b mod capacity - stidx b mod capacity) mod capacity.
Proof.
  intros (_ & Hst & He & _) Hs. pose proof (size_range b).
  rewrite <- Zminus_mod. rewrite <- (Z.mod_small (size b) capacity) by lia.
  unfold size, wrap, capacity. change (2 ^ 64) with (16384 * 2 ^ 50).
  rewrite Z.rem_mul_r by lia. rewrite Z.mul_comm, Z.mod_add by lia. by rewrite Z.mod_mod.
Qed.

(** The free bytes, in terms of the two physical positions. *)
Lemma free_phys b :
  wf b -> freeSpace b <> 0 ->
  let w := endidx b mod capacity in
  let r := stidx b mod capacity in
  0 <= w < capacity /\ 0 <= r < capacity /\
  freeSpace b = if r <=? w then (capacity - w) + r else r - w.
Proof.
  intros Hwf Hf w r. rewrite freeSpace_eq in * by done.
  pose proof (size_range b). pose proof Hwf as (_ & _ & _ & Hc).
  pose proof (Z.mod_pos_bound (endidx b) capacity ltac:(done)).
  pose proof (Z.mod_pos_bound (stidx b) capacity ltac:(done)).
  assert (Hs : size b = (w - r) mod capacity) by (apply size_phys; [done|lia]).
  split; [done|]. split; [done|]. rewrite Hs.
  destruct (Z.leb_spec r w).
  - rewrite Z.mod_small by lia. lia.
  - rewrite <- (Z.mod_add _ 1) by done. rewrite Z.mod_small by lia. lia.
Qed.

Lemma blit_nil off l : blit off [] l = l.
Proof. unfold blit. cbn [length app]. by rewrite Nat.add_0_r, take_drop. Qed.

Lemma scatter_insert b bytes :
  wf b -> len bytes <= freeSpace b ->
  scatter (getWriteBuffers b) bytes (buffer b) = insert_loop (endidx b) 0 bytes (buffer b).
Proof.
  intros Hwf Hl. pose proof Hwf as (Hb & Hst & He & _). pose proof (len_nonneg bytes).
  unfold getWriteBuffers. destruct (Z.eqb_spec (freeSpace b) 0) as [Hz|Hz].
  { destruct bytes; [done|]. unfold len in *. simpl in Hl. lia. }
  rewrite !land_mask by lia. destruct (free_phys b Hwf Hz) as (Hw & Hr & Hfree).
  set (w := endidx b mod capacity) in *. set (r := stidx b mod capacity) in *.
  assert (Ew : (endidx b + 0) mod capacity = w) by by rewrite Z.add_0_r.
  destruct (Z.leb_spec r w) as [Hrw|Hrw].
  2: { cbn [scatter]. rewrite take_ge, insert_loop_contiguous, Ew by (unfold len in *; lia). done. }
  set (tail := capacity - w) in *. set (n := Z.to_nat tail).
  rewrite <- (take_drop n bytes) at 2. rewrite insert_loop_app.
  rewrite (insert_loop_contiguous _ 0), Ew by (unfold len in *; lens).
  assert (Hb1 : len (blit (Z.to_nat w) (take n bytes) (buffer b)) = capacity).
  { unfold len in *. rewrite length_blit by lens. lia. }
  destruct (Z.le_gt_cases (len bytes) tail) as [Hle|Hgt].
  - rewrite (drop_ge bytes) by (unfold len in *; lia). cbn [insert_loop].
    destruct (0 <? r); cbn [scatter]; fold n; rewrite ?(drop_ge bytes) by (unfold len in *; lia);
      rewrite ?take_nil, ?blit_nil; done.
  - rewrite (proj2 (Z.ltb_lt 0 r)) by lia. cbn [scatter]. fold n.
    assert (Et : (endidx b + (0 + len (take n bytes))) mod capacity = 0).
    { unfold len in *. autorewrite with lens. replace (0 + _) with tail by lia.
      unfold tail, w. rewrite <- Zplus_mod_idemp_l.
      replace (_ + _) with (1 * capacity) by lia. by rewrite Z.mod_mul. }
    rewrite insert_loop_contiguous, Et; [|done|unfold len in *; lens].
    by rewrite (take_ge (drop n bytes)) by (unfold len in *; lens).
Qed.

Lemma receive_insert b bytes :
  wf b -> len bytes <= freeSpace b ->
  receive bytes b = (insert bytes b).2.
Proof.
  intros Hwf Hl. unfold receive, insert, commitWrite.
  change (freeSpace (mkBuffer _ (stidx b) (endidx b))) with (freeSpace b).
  destruct (Z.ltb_spec (freeSpace b) (len bytes)); [lia|].
  cbn [buffer stidx endidx snd]. by rewrite scatter_insert.
Qed.

Lemma receive_contents b bytes :
  wf b -> len bytes <= freeSpace b ->
  wf (receive bytes b) /\ contents (receive bytes b) = contents b ++ bytes.
Proof.
  intros Hwf Hl. rewrite receive_insert by done. unfold insert.
  destruct (Z.ltb_spec (freeSpace b) (len bytes)); [lia|]. by apply insert_contents.
Qed.

(** ** Refinement of a bounded byte queue

    The operations a client may call, run on the buffer and on a plain byte string. *)

Inductive op :=
| OInsert (src : bstr)
| OErase (n : Z)
| OCopy (n : Z)
| OConsume (n : Z)
| OReceive (stream : bstr).  (* as much of [stream] as the write buffers hold *)

Definition bufs_total (bufs : list (Z * Z)) : Z := foldr Z.add 0 (snd <$> bufs).

Definition step_buffer (o : op) (b : CircularBuffer) : option bstr * CircularBuffer :=
  match o with
  | OInsert src => let (ok, b') := insert src b in (if ok then Some [] else None, b')
  | OErase n => let (ok, b') := erase n b in (if ok then Some [] else None, b')
  | OCopy n => (copy n b, b)
  | OConsume n => consume n b
  | OReceive stream =>
      (Some [], receive (take (Z.to_nat (bufs_total (getWriteBuffers b))) stream) b)
  end.

Definition step_queue (o : op) (q : bstr) : option bstr * bstr :=
  match o with
  | OInsert src => if len q + len src <=? capacity then (Some [], q ++ src) else (None, q)
  | OErase n => if n <=? len q then (Some [], drop (Z.to_nat n) q) else (None, q)
  | OCopy n => (if n <=? len q then Some (take (Z.to_nat n) q) else None, q)
  | OConsume n =>
      if n <=? len q then (Some (take (Z.to_nat n) q), drop (Z.to_nat n) q) else (None, q)
  | OReceive stream => (Some [], q ++ take (Z.to_nat (capacity - len q)) stream)
  end.

Fixpoint run {S : Type} (step : op -> S -> option bstr * S) (os : list op) (s : S)
  : list (option bstr) * S :=
  match os with
  | [] => ([], s)
  | o :: os => let (r, s) := step o s in let (rs, s) := run step os s in (r :: rs, s)
  end.

(** The lengths passed are [size_t] values. *)
Definition op_ok (o : op) : Prop :=
  match o with OErase n | OCopy n | OConsume n => 0 <= n | _ => True end.

Lemma bufs_total_free b : wf b -> bufs_total (getWriteBuffers b) = freeSpace b.
Proof.
  intros Hwf. pose proof Hwf as (_ & Hst & He & _).
  unfold getWriteBuffers. destruct (Z.eqb_spec (freeSpace b) 0) as [Hz|Hz]; [by rewrite Hz|].
  rewrite !land_mask by lia. destruct (free_phys b Hwf Hz) as (Hw & Hr & ->).
  destruct (Z.leb_spec (stidx b mod capacity) (endidx b mod capacity)); [|cbn; lia].
  destruct (Z.ltb_spec 0 (stidx b mod capacity)); cbn; lia.
Qed.

Lemma step_refines o b :
  wf b -> op_ok o ->
  let (r, b') := step_buffer o b in wf b' /\ step_queue o (contents b) = (r, contents b').
Proof.
  intros Hwf Ho. pose proof (len_contents b) as Hlen. pose proof (freeSpace_eq b Hwf) as Hfree.
  destruct o as [src|n|n|n|stream]; unfold step_buffer, step_queue; simpl in Ho; rewrite Hlen.
  - unfold insert. destruct (Z.ltb_spec (freeSpace b) (len src)).
    + rewrite (proj2 (Z.leb_gt _ _)) by lia. cbn. by repeat split; try apply Hwf.
    + rewrite (proj2 (Z.leb_le _ _)) by lia.
      destruct (insert_contents b src Hwf) as [? ->]; [lia|done].
  - unfold erase. destruct (Z.ltb_spec (size b) n).
    + rewrite (proj2 (Z.leb_gt _ _)) by lia. cbn. by repeat split; try apply Hwf.
    + rewrite (proj2 (Z.leb_le _ _)) by lia. destruct (retire_contents b n Hwf) as [? ->]; done.
  - unfold copy. split; [done|]. f_equal. destruct (Z.ltb_spec (size b) n).
    + rewrite (proj2 (Z.leb_gt _ _)) by lia. cbn. by repeat split; try apply Hwf.
    + rewrite (proj2 (Z.leb_le _ _)) by lia. by rewrite read_contents.
  - unfold consume. destruct (Z.ltb_spec (size b) n).
    + rewrite (proj2 (Z.leb_gt _ _)) by lia. cbn. by repeat split; try apply Hwf.
    + rewrite (proj2 (Z.leb_le _ _)) by lia. rewrite read_contents by done.
      destruct (retire_contents b n Hwf) as [? ->]; done.
  - rewrite bufs_total_free by done.
    destruct (receive_contents b (take (Z.to_nat (freeSpace b)) stream) Hwf) as [? ->].
    + unfold len. rewrite length_take. pose proof (size_range b). unfold wf in Hwf. lia.
    + split; [done|]. by rewrite Hfree.
Qed.

Lemma run_refines os b :
  wf b -> Forall op_ok os ->
  let (rs, b') := run step_buffer os b in wf b' /\ run step_queue os (contents b) = (rs, contents b').
Proof.
  revert b. induction os as [|o os IH]; intros b Hwf Hos; [done|].
  apply Forall_cons_1 in Hos as [Ho Hos]. cbn [run].
  pose proof (step_refines o b Hwf Ho) as Hstep. destruct (step_buffer o b) as [r b1].
  destruct Hstep as [Hwf1 ->]. specialize (IH b1 Hwf1 Hos).
  destruct (run step_buffer os b1) as [rs b2]. by destruct IH as [? ->].
Qed.

Lemma empty_wf : wf empty_buffer.
Proof. unfold wf. split_and!; vm_compute; congruence. Qed.

(** ** Properties *)

(** C16: the circular buffer is a bounded byte queue: any sequence of insert, erase,
    copy, consume and scatter-receive calls, from any well-formed buffer (indices at
    any distance from the 2^64 wrap-around), returns what a 16384-byte FIFO queue
    returns and leaves its contents, and the buffer stays well formed. *)
Theorem circular_buffer_refines (os : list op) (b : CircularBuffer) :
  wf b -> Forall op_ok os ->
  wf (run step_buffer os b).2 /\
  run step_queue os (contents b) = ((run step_buffer os b).1, contents (run step_buffer os b).2).
Proof.
  intros Hwf Hos. pose proof (run_refines os b Hwf Hos) as H.
  by destruct (run step_buffer os b).
Qed.

Lemma circular_buffer_refines_witness :
  let b := mkBuffer (zeros (Z.to_nat capacity)) (2 ^ 64 - 3) (2 ^ 64 - 3) in
  wf b /\
  run step_queue [OInsert (str "abcdef"); OErase 2; OReceive (str "ghi"); OConsume 7] (contents b)
  = ((run step_buffer [OInsert (str "abcdef"); OErase 2; OReceive (str "ghi"); OConsume 7] b).1, []).
Proof.
  intros b. assert (Hb : wf b) by (unfold wf; split_and!; vm_compute; congruence).
  split; [exact Hb|].
  rewrite (proj2 (circular_buffer_refines
    [OInsert (str "abcdef"); OErase 2; OReceive (str "ghi"); OConsume 7] b Hb
    ltac:(repeat constructor; simpl; lia))).
  vm_compute. reflexivity.
Defined.

(** The write buffers handed to WSARecv are exactly the free space: at most two
    regions, inside the array, whose lengths add up to the free byte count. *)
Theorem write_buffers_exact (b : CircularBuffer) :
  wf b ->
  bufs_total (getWriteBuffers b) = capacity - len (contents b) /\
  (length (getWriteBuffers b) <= 2)%nat /\
  Forall (fun '(off, n) => 0 <= off /\ 0 < n /\ off + n <= capacity) (getWriteBuffers b).
Proof.
  intros Hwf. rewrite bufs_total_free, freeSpace_eq, len_contents by done.
  split; [done|]. unfold getWriteBuffers.
  destruct (Z.eqb_spec (freeSpace b) 0) as [Hz|Hz]; [split; [simpl; lia|constructor]|].
  pose proof Hwf as (_ & Hst & He & _). rewrite !land_mask by lia.
  destruct (free_phys b Hwf Hz) as (Hw & Hr & _).
  destruct (Z.leb_spec (stidx b mod capacity) (endidx b mod capacity)).
  - destruct (Z.ltb_spec 0 (stidx b mod capacity)); (split; [simpl; lia|]);
      repeat constructor; lia.
  - split; [simpl; lia|]. repeat constructor; lia.
Qed.

Lemma write_buffers_exact_witness :
  getWriteBuffers (mkBuffer (zeros (Z.to_nat capacity)) 5 9) = [(9, 16375); (0, 5)] /\
  bufs_total (getWriteBuffers (mkBuffer (zeros (Z.to_nat capacity)) 5 9)) = 16380.
Proof.
  split; [vm_compute; reflexivity|].
  rewrite (proj1 (write_buffers_exact (mkBuffer (zeros (Z.to_nat capacity)) 5 9)
    ltac:(unfold wf; split_and!; vm_compute; congruence))).
  rewrite len_contents. vm_compute. reflexivity.
Defined.
