(* ===== verification/Fqueue.v ===== *)
(** The bounded queue of datastructure/fixedQueue.h, [Fqueue<T>].

    The queue is lock-free and used by every worker thread, so its operations are
    modelled as programs of atomic steps: a [pc] is a thread's place in [push], [pop]
    or [front] with its local variables, [pc_step] executes the next atomic access,
    and a system interleaves any number of threads.  Atomic accesses are sequentially
    consistent here; [compare_exchange_weak] may fail spuriously. *)

From S2P Require Import Prelude.

(** ** Definitions: the capacity *)

Definition round_up_to_power_of_two (n : Z) : Z :=
  if n =? 0 then 2 else
  let n := wrap 64 (n - 1) in
  let n := Z.lor n (Z.shiftr n 1) in
  let n := Z.lor n (Z.shiftr n 2) in
  let n := Z.lor n (Z.shiftr n 4) in
  let n := Z.lor n (Z.shiftr n 8) in
  let n := Z.lor n (Z.shiftr n 16) in
  let n := Z.lor n (Z.shiftr n 32) in
  wrap 64 (n + 1).

(** [static_cast<intptr_t>] of a [size_t]. *)
Definition to_int64 (z : Z) : Z := if z <? 2 ^ 63 then z else z - 2 ^ 64.

Section Fqueue.
Context {T : Type}.

(** ** Definitions: the queue and its operations *)

(** [data] is [None] while no object lives in the slot. *)
Record Slot := mkSlot { sequence : Z; sdata : option T }.

Record Fqueue := mkFqueue { capacity_ : Z; slots : list Slot; qhead : Z; qtail : Z }.

Definition new_fqueue (l : Z) : Fqueue :=
  let c := round_up_to_power_of_two l in
  mkFqueue c ((fun i => mkSlot (Z.of_nat i) None) <$> seq 0 (Z.to_nat c)) 0 0.

Definition set_qhead v q := mkFqueue (capacity_ q) (slots q) v (qtail q).
Definition set_qtail v q := mkFqueue (capacity_ q) (slots q) (qhead q) v.
Definition set_slots v q := mkFqueue (capacity_ q) v (qhead q) (qtail q).

(** [pos & (capacity_ - 1)] *)
Definition slot_of (q : Fqueue) (pos : Z) : nat :=
  Z.to_nat (Z.land pos (wrap 64 (capacity_ q - 1))).

(** Where a thread is; [Crashed] is an access to a slot that does not exist or to an
    object that is not alive. *)
Inductive pc :=
| PushLoad (v : T)
| PushSeq (v : T) (pos : Z)
| PushTest (v : T) (pos seq : Z)
| PushWrite (v : T) (pos : Z)
| PushPublish (v : T) (pos : Z)
| PushDone (pushed : bool)
| PopLoad
| PopSeq (pos : Z)
| PopTest (pos seq : Z)
| PopRead (pos : Z)
| PopRelease (pos : Z) (v : T)
| PopDone (r : option T)
| FrontLoad
| FrontSeq (pos : Z)
| FrontTest (pos seq : Z)
| FrontRead (pos : Z)
| FrontDone (r : option T)
| Crashed.

Definition update_slot (q : Fqueue) (pos : Z) (f : Slot -> Slot) : Fqueue :=
  set_slots (alter f (slot_of q pos) (slots q)) q.

(** The steps of [push]: load head; load the slot's sequence; compare and claim;
    construct the element; publish it. *)
Definition push_step (weak_fail : bool) (q : Fqueue) (p : pc) : Fqueue * pc :=
  match p with
  | PushLoad v => (q, PushSeq v (qhead q))
  | PushSeq v pos =>
      match slots q !! slot_of q pos with
      | None => (q, Crashed)
      | Some sl => (q, PushTest v pos (sequence sl))
      end
  | PushTest v pos seq =>
      let diff := to_int64 seq - to_int64 pos in
      if diff =? 0 then
        if negb weak_fail && (qhead q =? pos)
        then (set_qhead (wrap 64 (pos + 1)) q, PushWrite v pos)
        else (q, PushSeq v (qhead q))
      else if diff <? 0 then (q, PushDone false)
      else (q, PushLoad v)
  | PushWrite v pos =>
      (update_slot q pos (fun sl => mkSlot (sequence sl) (Some v)), PushPublish v pos)
  | PushPublish v pos =>
      (update_slot q pos (fun sl => mkSlot (wrap 64 (pos + 1)) (sdata sl)), PushDone true)
  | _ => (q, p)
  end.

(** The steps of [pop]: load tail; load the slot's sequence; compare and claim; move
    the element out; release the slot. *)
Definition pop_step (weak_fail : bool) (q : Fqueue) (p : pc) : Fqueue * pc :=
  match p with
  | PopLoad => (q, PopSeq (qtail q))
  | PopSeq pos =>
      match slots q !! slot_of q pos with
      | None => (q, Crashed)
      | Some sl => (q, PopTest pos (sequence sl))
      end
  | PopTest pos seq =>
      let diff := to_int64 seq - to_int64 (wrap 64 (pos + 1)) in
      if diff =? 0 then
        if negb weak_fail && (qtail q =? pos)
        then (set_qtail (wrap 64 (pos + 1)) q, PopRead pos)
        else (q, PopSeq (qtail q))
      else if diff <? 0 then (q, PopDone None)
      else (q, PopLoad)
  | PopRead pos =>
      match slots q !! slot_of q pos with
      | Some (mkSlot seq (Some v)) =>
          (update_slot q pos (fun sl => mkSlot (sequence sl) None), PopRelease pos v)
      | _ => (q, Crashed)
      end
  | PopRelease pos v =>
      (update_slot q pos (fun sl => mkSlot (wrap 64 (pos + capacity_ q)) (sdata sl)),
       PopDone (Some v))
  | _ => (q, p)
  end.

(** The steps of [front]; the second load of tail and the copy of the element are two
    accesses. *)
Definition front_step (q : Fqueue) (p : pc) : Fqueue * pc :=
  match p with
  | FrontLoad => (q, FrontSeq (qtail q))
  | FrontSeq pos =>
      match slots q !! slot_of q pos with
      | None => (q, Crashed)
      | Some sl => (q, FrontTest pos (sequence sl))
      end
  | FrontTest pos seq =>
      let diff := to_int64 seq - to_int64 (wrap 64 (pos + 1)) in
      if negb (diff =? 0) then (q, FrontDone None)
      else if qtail q =? pos then (q, FrontRead pos)
      else (q, FrontLoad)
  | FrontRead pos =>
      match slots q !! slot_of q pos with
      | Some (mkSlot seq (Some v)) => (q, FrontDone (Some v))
      | _ => (q, Crashed)
      end
  | _ => (q, p)
  end.

Definition pc_step (weak_fail : bool) (q : Fqueue) (p : pc) : Fqueue * pc :=
  match p with
  | PushLoad _ | PushSeq _ _ | PushTest _ _ _ | PushWrite _ _ | PushPublish _ _ =>
      push_step weak_fail q p
  | PopLoad | PopSeq _ | PopTest _ _ | PopRead _ | PopRelease _ _ => pop_step weak_fail q p
  | FrontLoad | FrontSeq _ | FrontTest _ _ | FrontRead _ => front_step q p
  | _ => (q, p)
  end.

Definition qempty (q : Fqueue) : option bool :=
  sl ← slots q !! slot_of q (qtail q);
  Some (negb (to_int64 (sequence sl) - to_int64 (wrap 64 (qtail q + 1)) =? 0)).

Definition qsize (q : Fqueue) : Z := wrap 64 (qhead q - qtail q).

(** ** Systems of threads

    Two histories that the code does not read: [pushed] is the values of the [push]
    calls in the order in which they claimed a position, [returned] the position and
    the value of every [pop] that returned an element. *)

Record sys := mkSys {
  queue : Fqueue;
  threads : gmap nat pc;
  pushed : list T;
  returned : list (Z * T)
}.

Definition claimed (p p' : pc) : list T :=
  match p, p' with PushTest v _ _, PushWrite _ _ => [v] | _, _ => [] end.

Definition delivered (p : pc) : list (Z * T) :=
  match p with PopRelease pos v => [(pos, v)] | _ => [] end.

Definition finished (p : option pc) : Prop :=
  match p with None | Some (PushDone _) | Some (PopDone _) | Some (FrontDone _) => True | _ => False end.

Inductive sys_step : sys -> sys -> Prop :=
| start_push s t v :
    finished (threads s !! t) ->
    sys_step s (mkSys (queue s) (<[t := PushLoad v]> (threads s)) (pushed s) (returned s))
| start_pop s t :
    finished (threads s !! t) ->
    sys_step s (mkSys (queue s) (<[t := PopLoad]> (threads s)) (pushed s) (returned s))
| run_thread s t p w q' p' :
    threads s !! t = Some p -> pc_step w (queue s) p = (q', p') ->
    sys_step s (mkSys q' (<[t := p']> (threads s)) (pushed s ++ claimed p p')
                (returned s ++ delivered p)).

Definition new_sys (l : Z) : sys := mkSys (new_fqueue l) ∅ [] [].
End Fqueue.
Arguments Slot : clear implicits.
Arguments Fqueue : clear implicits.
Arguments pc : clear implicits.
Arguments sys : clear implicits.

(** ** Lemmas: the capacity *)

(** [x] has bit [i] set when [m] has a bit set among [i .. i + c - 1]. *)
Definition spread (m c x : Z) : Prop :=
  forall i, 0 <= i -> Z.testbit x i = true <-> exists d, 0 <= d < c /\ Z.testbit m (i + d) = true.

Lemma spread_1 m : spread m 1 m.
Proof.
  intros i Hi. split.
  - intros H. exists 0. rewrite Z.add_0_r. split; [lia|done].
  - intros (d & Hd & H). by replace (i + d) with i in H by lia.
Qed.

Lemma spread_double m c x : 0 < c -> spread m c x -> spread m (2 * c) (Z.lor x (Z.shiftr x c)).
Proof.
  intros Hc Hs i Hi. rewrite Z.lor_spec, Z.shiftr_spec, orb_true_iff by done.
  rewrite (Hs i), (Hs (i + c)) by lia. split.
  - intros [(d & ? & ?)|(d & ? & Hd)]; [exists d; split; [lia|done]|].
    exists (c + d). split; [lia|]. by rewrite Z.add_assoc.
  - intros (d & ? & Hd). destruct (Z.lt_ge_cases d c).
    + left. exists d. split; [lia|done].
    + right. exists (d - c). split; [lia|]. by replace (i + c + (d - c)) with (i + d) by lia.
Qed.

Lemma spread_64 m x : 0 < m < 2 ^ 64 -> 0 <= x -> spread m 64 x -> x = Z.ones (Z.log2 m + 1).
Proof.
  intros Hm Hx Hs. pose proof (Z.log2_nonneg m).
  assert (Z.log2 m < 64) by (apply Z.log2_lt_pow2; lia).
  apply Z.bits_inj'. intros i Hi. apply eq_true_iff_eq.
  rewrite (Hs i Hi), Z.ones_spec_iff by lia. split.
  - intros (d & Hd & Hb). split; [lia|]. destruct (Z.le_gt_cases (i + d) (Z.log2 m)); [lia|].
    rewrite Z.bits_above_log2 in Hb by lia. done.
  - intros [_ Hl]. exists (Z.log2 m - i). split; [lia|].
    replace (i + (Z.log2 m - i)) with (Z.log2 m) by lia. apply Z.bit_log2. lia.
Qed.

Lemma round_up_eq n : 0 < n <= 2 ^ 63 -> round_up_to_power_of_two n = 2 ^ Z.log2_up n.
Proof.
  intros Hn. unfold round_up_to_power_of_two. destruct (Z.eqb_spec n 0); [lia|].
  rewrite (wrap_small 64 (n - 1)) by lia. cbv zeta.
  destruct (decide (n = 1)) as [->|]; [done|].
  set (x1 := Z.lor (n - 1) _). set (x2 := Z.lor x1 _). set (x3 := Z.lor x2 _).
  set (x4 := Z.lor x3 _). set (x5 := Z.lor x4 _). set (x6 := Z.lor x5 _).
  assert (Hs : spread (n - 1) 64 x6) by
    (unfold x6, x5, x4, x3, x2, x1;
     apply (spread_double _ 32); [lia|]; apply (spread_double _ 16); [lia|];
     apply (spread_double _ 8); [lia|]; apply (spread_double _ 4); [lia|];
     apply (spread_double _ 2); [lia|]; apply (spread_double _ 1); [lia|]; apply spread_1).
  assert (Hx : 0 <= x6).
  { unfold x6, x5, x4, x3, x2, x1.
    repeat first [apply Z.lor_nonneg; split | apply Z.shiftr_nonneg]; lia. }
  rewrite (spread_64 (n - 1) x6 ltac:(lia) Hx Hs).
  rewrite Z.ones_equiv, Z.log2_up_eqn by lia.
  replace (Z.pred n) with (n - 1) by lia. rewrite <- Z.add_1_r.
  replace (Z.pred _ + 1) with (2 ^ (Z.log2 (n - 1) + 1)) by lia.
  pose proof (Z.log2_nonneg (n - 1)).
  assert (Z.log2 (n - 1) < 63) by (apply Z.log2_lt_pow2; lia).
  apply wrap_small.
  assert (2 ^ (Z.log2 (n - 1) + 1) <= 2 ^ 63) by (apply Z.pow_le_mono_r; lia).
  pose proof (Z.pow_pos_nonneg 2 (Z.log2 (n - 1) + 1)). lia.
Qed.

(** ** The invariant *)

Section Invariant.
Context {T : Type}.
Implicit Types (q : Fqueue T) (p : pc T) (s : sys T).

(** The position a thread has claimed and not yet published, or not yet released. *)
Definition pushpos p : option Z :=
  match p with PushWrite _ k | PushPublish _ k => Some k | _ => None end.
Definition poppos p : option Z :=
  match p with PopRead k | PopRelease k _ => Some k | _ => None end.

Definition owner (pos_of : pc T -> option Z) (thr : gmap nat (pc T)) (k : Z) : Prop :=
  exists t p, thr !! t = Some p /\ pos_of p = Some k.

Definition idx q (k : Z) : nat := Z.to_nat (k mod capacity_ q).

(** A slot is free or being filled for position [k], or holds position [k]. *)
Definition slot_ok s (j : nat) (sl : Slot T) : Prop :=
  let q := queue s in
  exists k, 0 <= k < qtail q + capacity_ q /\ qhead q <= k + capacity_ q /\ idx q k = j /\
    ((sequence sl = k /\ qtail q <= k /\
      (k < qhead q -> owner pushpos (threads s) k)) \/
     (sequence sl = k + 1 /\ k < qhead q /\
      (qtail q <= k -> sdata sl = pushed s !! Z.to_nat k) /\
      (k < qtail q -> owner poppos (threads s) k))).

Definition has_slot q (pos : Z) (P : Slot T -> Prop) : Prop :=
  exists sl, slots q !! idx q pos = Some sl /\ P sl.

Definition pc_ok q (hist : list T) p : Prop :=
  match p with
  | PushSeq _ pos => 0 <= pos <= qhead q
  | PushTest _ pos seq =>
      0 <= pos <= qhead q /\ 0 <= seq /\ has_slot q pos (fun sl => seq <= sequence sl)
  | PushWrite v pos =>
      0 <= pos < qhead q /\ hist !! Z.to_nat pos = Some v /\
      has_slot q pos (fun sl => sequence sl = pos)
  | PushPublish v pos =>
      0 <= pos < qhead q /\ hist !! Z.to_nat pos = Some v /\
      has_slot q pos (fun sl => sequence sl = pos /\ sdata sl = Some v)
  | PopSeq pos => 0 <= pos <= qtail q
  | PopTest pos seq =>
      0 <= pos <= qtail q /\ 0 <= seq /\ has_slot q pos (fun sl => seq <= sequence sl)
  | PopRead pos =>
      0 <= pos < qtail q /\ exists v, hist !! Z.to_nat pos = Some v /\
      has_slot q pos (fun sl => sequence sl = pos + 1 /\ sdata sl = Some v)
  | PopRelease pos v =>
      0 <= pos < qtail q /\ hist !! Z.to_nat pos = Some v /\
      has_slot q pos (fun sl => sequence sl = pos + 1)
  | PushLoad _ | PopLoad | PushDone _ | PopDone _ => True
  | _ => False
  end.

Definition unique (pos_of : pc T -> option Z) (thr : gmap nat (pc T)) : Prop :=
  forall t t' p p' k,
    thr !! t = Some p -> thr !! t' = Some p' -> pos_of p = Some k -> pos_of p' = Some k -> t = t'.

Record inv s : Prop := mkInv {
  inv_cap : exists c, 1 <= c <= 62 /\ capacity_ (queue s) = 2 ^ c;
  inv_len : len (slots (queue s)) = capacity_ (queue s);
  inv_counters : 0 <= qtail (queue s) <= qhead (queue s) /\
    qhead (queue s) <= qtail (queue s) + capacity_ (queue s) /\ len (pushed s) = qhead (queue s);
  inv_slots : forall j sl, slots (queue s) !! j = Some sl -> slot_ok s j sl;
  inv_threads : forall t p, threads s !! t = Some p -> pc_ok (queue s) (pushed s) p;
  inv_push_unique : unique pushpos (threads s);
  inv_pop_unique : unique poppos (threads s);
  inv_returned : NoDup (returned s).*1 /\
    Forall (fun kv => 0 <= kv.1 < qtail (queue s) /\ pushed s !! Z.to_nat kv.1 = Some kv.2)
      (returned s) /\
    (forall k, owner poppos (threads s) k -> k ∉ (returned s).*1);
  inv_no_loss : forall k, 0 <= k < qtail (queue s) ->
    k ∈ (returned s).*1 \/ owner poppos (threads s) k
}.

(** *** Positions and slots *)

Definition good q : Prop :=
  (exists c, 1 <= c <= 62 /\ capacity_ q = 2 ^ c) /\ len (slots q) = capacity_ q.

Lemma cap_ge_2 q : good q -> 2 <= capacity_ q < 2 ^ 63.
Proof.
  intros [(c & Hc & ->) _].
  assert (2 ^ 1 <= 2 ^ c) by (apply Z.pow_le_mono_r; lia).
  assert (2 ^ c < 2 ^ 63) by (apply Z.pow_lt_mono_r; lia). lia.
Qed.

Lemma slot_of_idx q k : good q -> slot_of q k = idx q k.
Proof.
  intros Hq. pose proof (cap_ge_2 q Hq). destruct Hq as [(c & Hc & E) _].
  unfold slot_of, idx. rewrite wrap_small by lia. rewrite E.
  replace (2 ^ c - 1) with (Z.ones c) by (rewrite Z.ones_equiv; lia).
  by rewrite Z.land_ones by lia.
Qed.

Lemma idx_lookup q k : good q -> exists sl, slots q !! idx q k = Some sl.
Proof.
  intros Hq. pose proof (cap_ge_2 q Hq). apply lookup_lt_is_Some.
  destruct Hq as [_ Hl]. unfold len, idx in *.
  pose proof (Z.mod_pos_bound k (capacity_ q)). lia.
Qed.

(** Positions of one slot are a multiple of the capacity apart. *)
Lemma idx_eq q k k' : good q -> idx q k = idx q k' -> exists m, k = k' + m * capacity_ q.
Proof.
  intros Hq. pose proof (cap_ge_2 q Hq) as Hc. unfold idx. intros E.
  pose proof (Z.mod_pos_bound k (capacity_ q) ltac:(lia)).
  pose proof (Z.mod_pos_bound k' (capacity_ q) ltac:(lia)).
  exists (k / capacity_ q - k' / capacity_ q).
  pose proof (Z.div_mod k (capacity_ q) ltac:(lia)).
  pose proof (Z.div_mod k' (capacity_ q) ltac:(lia)). nia.
Qed.

Lemma idx_close q k k' : good q -> idx q k = idx q k' -> - capacity_ q < k - k' < capacity_ q -> k = k'.
Proof.
  intros Hq E Hd. pose proof (cap_ge_2 q Hq). destruct (idx_eq q k k' Hq E) as [m ->].
  assert (m = 0) by nia. lia.
Qed.

Lemma to_int64_small z : 0 <= z < 2 ^ 63 -> to_int64 z = z.
Proof. intros H. unfold to_int64. by rewrite (proj2 (Z.ltb_lt _ _)) by lia. Qed.

Lemma inv_good s : inv s -> good (queue s).
Proof. intros H. split; apply H. Qed.

Lemma slot_bound s j sl :
  inv s -> slots (queue s) !! j = Some sl ->
  0 <= sequence sl <= qtail (queue s) + capacity_ (queue s).
Proof. intros H Hl. destruct (inv_slots s H j sl Hl) as (k & Hk & _ & _ & [(-> & _)|(-> & _)]); lia. Qed.

(** *** Threads *)

Lemma owner_keep pos_of thr t p' k :
  owner pos_of thr k -> (thr !! t ≫= pos_of = Some k -> pos_of p' = Some k) ->
  owner pos_of (<[t := p']> thr) k.
Proof.
  intros (t0 & p0 & Ht & Hp) Hk. destruct (decide (t0 = t)) as [->|Hne].
  - exists t, p'. rewrite lookup_insert_eq. split; [done|]. apply Hk. by rewrite Ht.
  - exists t0, p0. by rewrite lookup_insert_ne.
Qed.

Lemma owner_new pos_of thr t p' k : pos_of p' = Some k -> owner pos_of (<[t := p']> thr) k.
Proof. intros H. exists t, p'. by rewrite lookup_insert_eq. Qed.

Lemma owner_insert_inv pos_of thr t p' k :
  owner pos_of (<[t := p']> thr) k -> pos_of p' = Some k \/ owner pos_of (delete t thr) k.
Proof.
  intros (t0 & p0 & Ht & Hp). destruct (decide (t0 = t)) as [->|Hne].
  - rewrite lookup_insert_eq in Ht. simplify_eq. by left.
  - rewrite lookup_insert_ne in Ht by done. right. exists t0, p0. by rewrite lookup_delete_ne.
Qed.

Lemma owner_delete pos_of thr t k : owner pos_of (delete t thr) k -> owner pos_of thr k.
Proof.
  intros (t0 & p0 & Ht & Hp). apply lookup_delete_Some in Ht as [? ?]. by exists t0, p0.
Qed.

Lemma owner_delete_ne pos_of thr t k :
  unique pos_of thr -> owner pos_of (delete t thr) k -> thr !! t ≫= pos_of <> Some k.
Proof.
  intros Hu (t0 & p0 & Ht & Hp) E. apply lookup_delete_Some in Ht as [Hne Ht].
  destruct (thr !! t) as [p|] eqn:Hp'; simpl in E; [|done].
  by pose proof (Hu t t0 p p0 k Hp' Ht E Hp).
Qed.

Lemma unique_insert pos_of thr t p' :
  unique pos_of thr ->
  (forall k, pos_of p' = Some k -> thr !! t ≫= pos_of = Some k \/ ~ owner pos_of thr k) ->
  unique pos_of (<[t := p']> thr).
Proof.
  intros Hu Hk t1 t2 p1 p2 k H1 H2 E1 E2.
  destruct (decide (t1 = t)) as [->|N1], (decide (t2 = t)) as [->|N2]; [done| | |].
  - rewrite lookup_insert_eq in H1. rewrite lookup_insert_ne in H2 by done. simplify_eq.
    destruct (Hk k E1) as [H|H]; [|by destruct H; exists t2, p2].
    destruct (thr !! t) as [p|] eqn:Ht; [|done]. by eapply Hu.
  - rewrite lookup_insert_eq in H2. rewrite lookup_insert_ne in H1 by done. simplify_eq.
    destruct (Hk k E2) as [H|H]; [|by destruct H; exists t1, p1].
    destruct (thr !! t) as [p|] eqn:Ht; [|done]. symmetry. by eapply Hu.
  - rewrite lookup_insert_ne in H1, H2 by done. by eapply Hu.
Qed.

Lemma pc_ok_grow q q' hist hist' p :
  capacity_ q' = capacity_ q -> slots q' = slots q -> qhead q <= qhead q' ->
  qtail q <= qtail q' -> hist `prefix_of` hist' -> pc_ok q hist p -> pc_ok q' hist' p.
Proof.
  intros Ec Es Hh Ht Hp. unfold pc_ok, has_slot, idx. rewrite Ec, Es.
  destruct p; try done; try lia; naive_solver (eauto using prefix_lookup_Some || lia).
Qed.

(** A thread that owns nothing moves and the queue stays the same. *)
Lemma inv_idle s t p' :
  inv s -> threads s !! t ≫= pushpos = None -> threads s !! t ≫= poppos = None ->
  pushpos p' = None -> poppos p' = None -> pc_ok (queue s) (pushed s) p' ->
  inv (mkSys (queue s) (<[t := p']> (threads s)) (pushed s) (returned s)).
Proof.
  intros Hi Hp Hq Hp' Hq' Hok. destruct Hi. constructor; cbn [queue threads pushed returned]; try done.
  - intros j sl Hj. destruct (inv_slots0 j sl Hj) as (k & ? & ? & ? & Hk).
    exists k. cbn. split_and!; try done; try lia.
    destruct Hk as [(? & ? & Ho)|(? & ? & ? & Ho)]; [left|right]; split_and!; try done;
      intros Hlt; (eapply owner_keep; [by apply Ho|]); intros; congruence.
  - intros t0 p0. destruct (decide (t0 = t)) as [->|]; [rewrite lookup_insert_eq|rewrite lookup_insert_ne by done]; naive_solver.
  - apply unique_insert; [done|congruence].
  - apply unique_insert; [done|congruence].
  - destruct inv_returned0 as (? & ? & Hr). split_and!; try done.
    intros k [?|?%owner_delete]%owner_insert_inv; [congruence|by apply Hr].
  - intros k Hk. destruct (inv_no_loss0 k Hk) as [?|Ho]; [by left|right].
    eapply owner_keep; [done|]. congruence.
Qed.

(** *** Claims *)

(** A slot whose sequence has reached the head position is free for it. *)
Lemma head_slot s sl :
  inv s -> slots (queue s) !! idx (queue s) (qhead (queue s)) = Some sl ->
  qhead (queue s) <= sequence sl ->
  sequence sl = qhead (queue s) /\ qhead (queue s) < qtail (queue s) + capacity_ (queue s).
Proof.
  intros Hi Hsl Hle. pose proof (inv_good s Hi) as Hg. pose proof (cap_ge_2 _ Hg).
  pose proof (inv_counters s Hi). destruct (inv_slots s Hi _ _ Hsl) as (k & Hk & Hw & Hidx & Hst).
  destruct Hst as [(E & ? & _)|(E & ? & _)].
  - assert (k = qhead (queue s)) by (eapply idx_close; eauto; lia). lia.
  - assert (k = qhead (queue s)) by (eapply idx_close; eauto; lia). lia.
Qed.

(** A slot whose sequence has passed the tail position holds its element. *)
Lemma tail_slot s sl :
  inv s -> slots (queue s) !! idx (queue s) (qtail (queue s)) = Some sl ->
  qtail (queue s) + 1 <= sequence sl ->
  sequence sl = qtail (queue s) + 1 /\ qtail (queue s) < qhead (queue s) /\
  sdata sl = pushed s !! Z.to_nat (qtail (queue s)).
Proof.
  intros Hi Hsl Hle. pose proof (inv_good s Hi) as Hg. pose proof (cap_ge_2 _ Hg).
  pose proof (inv_counters s Hi). destruct (inv_slots s Hi _ _ Hsl) as (k & Hk & Hw & Hidx & Hst).
  destruct Hst as [(E & ? & _)|(E & ? & Hd & _)].
  - assert (k = qtail (queue s)) by (eapply idx_close; eauto; lia). lia.
  - assert (k = qtail (queue s)) by (eapply idx_close; eauto; lia). subst k.
    split_and!; [done|done|apply Hd; lia].
Qed.

Lemma owner_lt pos_of s k :
  inv s -> owner pos_of (threads s) k ->
  (pos_of = pushpos -> k < qhead (queue s)) /\ (pos_of = poppos -> k < qtail (queue s)).
Proof.
  intros Hi (t & p & Ht & Hp). pose proof (inv_threads s Hi t p Ht) as Hok.
  split; intros ->; destruct p; simplify_eq/=; naive_solver lia.
Qed.

Lemma insert_claim s t v pos q' :
  inv s -> threads s !! t ≫= pushpos = None -> threads s !! t ≫= poppos = None ->
  pos = qhead (queue s) -> q' = set_qhead (pos + 1) (queue s) ->
  has_slot (queue s) pos (fun sl => pos <= sequence sl) ->
  inv (mkSys q' (<[t := PushWrite v pos]> (threads s)) (pushed s ++ [v]) (returned s)).
Proof.
  intros Hi Hp Hq -> -> (sl & Hsl & Hle).
  destruct (head_slot s sl Hi Hsl Hle) as [Eseq Hroom].
  pose proof (inv_good s Hi) as Hg. pose proof (cap_ge_2 _ Hg). pose proof (inv_counters s Hi) as Hc.
  pose proof Hi as Hi'. destruct Hi'. set (h := qhead (queue s)) in *.
  assert (Hh : Z.to_nat h = length (pushed s)) by (unfold len in *; lia).
  constructor; cbn [queue threads pushed returned set_qhead capacity_ slots qhead qtail]; try done.
  - unfold len in *. rewrite length_app. cbn [length]. lia.
  - intros j sl' Hj. destruct (inv_slots0 j sl' Hj) as (k & Hk & Hw & Hidx & Hst).
    exists k. cbn [queue set_qhead capacity_ slots qhead qtail pushed threads].
    destruct (decide (h = k + capacity_ (queue s))) as [E|].
    { assert (j = idx (queue s) h) as ->.
      { rewrite <- Hidx. unfold idx. rewrite E. f_equal.
        replace (k + _) with (k + 1 * capacity_ (queue s)) by lia. by rewrite Z.mod_add by lia. }
      rewrite Hsl in Hj. simplify_eq. lia. }
    split_and!; try done; try lia. destruct Hst as [(? & ? & Ho)|(? & ? & Hd & Ho)]; [left|right].
    + split_and!; try done. intros Hlt. destruct (decide (k = h)) as [->|]; [by apply owner_new|].
      eapply owner_keep; [apply Ho; lia|]. rewrite Hp. done.
    + split_and!; [done|lia| |].
      * intros Hle'. rewrite lookup_app_l by lia. by apply Hd.
      * intros Hlt. eapply owner_keep; [by apply Ho|]. rewrite Hq. done.
  - intros t0 p0. destruct (decide (t0 = t)) as [->|].
    + rewrite lookup_insert_eq. intros [= <-]. cbn. split_and!; [lia|lia| |].
      * rewrite Hh. by rewrite lookup_app_r, Nat.sub_diag by lia.
      * by exists sl.
    + rewrite lookup_insert_ne by done. intros Ht0.
      eapply pc_ok_grow; [..|by eapply inv_threads0]; cbn; try done; [lia|by apply prefix_app_r].
  - apply unique_insert; [done|]. cbn. intros k [= <-]. right. intros Ho.
    pose proof (proj1 (owner_lt pushpos s h Hi Ho) eq_refl). lia.
  - apply unique_insert; [done|]. done.
  - destruct inv_returned0 as (? & Hf & Hr). split_and!; try done.
    + eapply Forall_impl; [|exact Hf]. cbn. intros [k w] [? ?]. split; [done|].
      by apply lookup_app_l_Some.
    + intros k [?|?%owner_delete]%owner_insert_inv; [done|by apply Hr].
  - intros k Hk. destruct (inv_no_loss0 k Hk) as [?|Ho]; [by left|right].
    eapply owner_keep; [done|]. by rewrite Hq.
Qed.

Lemma pop_claim s t pos q' :
  inv s -> threads s !! t ≫= pushpos = None -> threads s !! t ≫= poppos = None ->
  pos = qtail (queue s) -> q' = set_qtail (pos + 1) (queue s) ->
  has_slot (queue s) pos (fun sl => pos + 1 <= sequence sl) ->
  inv (mkSys q' (<[t := PopRead pos]> (threads s)) (pushed s) (returned s)).
Proof.
  intros Hi Hp Hq -> -> (sl & Hsl & Hle).
  destruct (tail_slot s sl Hi Hsl Hle) as (Eseq & Hne & Hdata).
  pose proof (inv_good s Hi) as Hg. pose proof (cap_ge_2 _ Hg). pose proof (inv_counters s Hi) as Hc.
  pose proof Hi as Hi'. destruct Hi'. set (l := qtail (queue s)) in *.
  constructor; cbn [queue threads pushed returned set_qtail capacity_ slots qhead qtail]; try done.
  - lia.
  - intros j sl' Hj. destruct (inv_slots0 j sl' Hj) as (k & Hk & Hw & Hidx & Hst).
    exists k. cbn [queue set_qtail capacity_ slots qhead qtail pushed threads].
    split_and!; try done; try lia. destruct Hst as [(? & ? & Ho)|(? & ? & Hd & Ho)]; [left|right].
    + assert (k <> l). { intros ->. rewrite <- Hidx, Hsl in Hj. simplify_eq. lia. }
      split_and!; [done|lia|]. intros Hlt. eapply owner_keep; [by apply Ho|]. by rewrite Hp.
    + split_and!; [done|done|intros; apply Hd; lia|]. intros Hlt.
      destruct (decide (k = l)) as [->|]; [by apply owner_new|].
      eapply owner_keep; [apply Ho; lia|]. by rewrite Hq.
  - intros t0 p0. destruct (decide (t0 = t)) as [->|].
    + rewrite lookup_insert_eq. intros [= <-]. cbn. split; [lia|].
      destruct (lookup_lt_is_Some_2 (pushed s) (Z.to_nat l)) as [v Hv]; [unfold len in *; lia|].
      exists v. split; [done|]. exists sl. rewrite Hdata. done.
    + rewrite lookup_insert_ne by done. intros Ht0.
      eapply pc_ok_grow; [..|by eapply inv_threads0]; cbn; try done. lia.
  - apply unique_insert; done.
  - apply unique_insert; [done|]. cbn. intros k [= <-]. right. intros Ho.
    pose proof (proj2 (owner_lt poppos s l Hi Ho) eq_refl). lia.
  - destruct inv_returned0 as (? & Hf & Hr). split_and!; try done.
    + eapply Forall_impl; [|exact Hf]. cbn. intros [k w] [? ?]. split; [lia|done].
    + intros k [[= <-]|?%owner_delete]%owner_insert_inv; [|by apply Hr].
      intros ([k' w] & E & Hin)%list_elem_of_fmap. cbn in E. subst k'.
      rewrite Forall_forall in Hf. apply list_elem_of_In in Hin. specialize (Hf _ Hin). cbn in Hf. lia.
  - intros k Hk. destruct (decide (k = l)) as [->|]; [right; by apply owner_new|].
    destruct (inv_no_loss0 k ltac:(lia)) as [?|Ho]; [by left|right].
    eapply owner_keep; [done|]. by rewrite Hq.
Qed.

(** *** Slot accesses of an owner *)

Definition owns p (k : Z) : Prop := pushpos p = Some k \/ poppos p = Some k.

Lemma owns_fun p k k' : owns p k -> owns p k' -> k = k'.
Proof. intros [H|H] [H'|H']; destruct p; simplify_eq/=; done. Qed.

Lemma owns_slot q hist p k :
  owns p k -> pc_ok q hist p ->
  has_slot q k (fun sl => (pushpos p = Some k /\ sequence sl = k) \/
                          (poppos p = Some k /\ sequence sl = k + 1)).
Proof.
  intros [H|H] Hok; destruct p; simplify_eq/=; destruct_and?.
  all: try match goal with Hv : exists v, _ |- _ => destruct Hv as (w & ? & ?) end.
  all: match goal with Hs : has_slot _ _ _ |- _ => destruct Hs as (sl & ? & ?) end.
  all: exists sl; split; [done|]; destruct_and?; auto.
Qed.

(** Two threads never own the same slot. *)
Lemma owns_excl s t t' p p' k k' :
  inv s -> threads s !! t = Some p -> threads s !! t' = Some p' -> owns p k -> owns p' k' ->
  t <> t' -> idx (queue s) k <> idx (queue s) k'.
Proof.
  intros Hi Ht Ht' Ho Ho' Hne E.
  destruct (owns_slot _ _ _ _ Ho (inv_threads s Hi _ _ Ht)) as (sl & Hsl & Hk).
  destruct (owns_slot _ _ _ _ Ho' (inv_threads s Hi _ _ Ht')) as (sl' & Hsl' & Hk').
  rewrite <- E, Hsl in Hsl'. simplify_eq.
  pose proof (inv_good s Hi) as Hg. pose proof (cap_ge_2 _ Hg).
  assert (k = k') by (eapply idx_close; [done|done|lia]). subst k'.
  destruct Hk as [[? ?]|[? ?]], Hk' as [[? ?]|[? ?]]; [| lia | lia |].
  - by apply Hne, (inv_push_unique s Hi t t' p p' k).
  - by apply Hne, (inv_pop_unique s Hi t t' p p' k).
Qed.

Lemma update_slot_idx q pos f :
  good q -> update_slot q pos f = set_slots (alter f (idx q pos) (slots q)) q.
Proof. intros Hg. unfold update_slot. by rewrite slot_of_idx. Qed.

Lemma has_slot_update q pos f k (P Q : Slot T -> Prop) :
  has_slot q k P -> (idx q k = idx q pos -> forall sl, P sl -> Q (f sl)) ->
  (idx q k <> idx q pos -> forall sl, P sl -> Q sl) ->
  has_slot (set_slots (alter f (idx q pos) (slots q)) q) k Q.
Proof.
  intros (sl & Hsl & HP) Heq Hne. unfold has_slot. cbn [set_slots slots].
  change (idx (set_slots _ q) k) with (idx q k).
  destruct (decide (idx q k = idx q pos)) as [E|N].
  - exists (f sl). rewrite <- E, list_lookup_alter_eq, Hsl. split; [reflexivity|]. by apply Heq.
  - exists sl. rewrite list_lookup_alter_ne by done. split; [done|]. by apply Hne.
Qed.

Lemma pc_ok_update q pos f hist p :
  (forall sl, slots q !! idx q pos = Some sl -> sequence sl <= sequence (f sl)) ->
  (forall k, owns p k -> idx q k <> idx q pos) ->
  pc_ok q hist p -> pc_ok (set_slots (alter f (idx q pos) (slots q)) q) hist p.
Proof.
  intros Hf Hx. unfold owns in Hx.
  destruct p; cbn [pushpos poppos pc_ok] in *; try done; intros Hok; destruct_and?;
    try match goal with Hv : exists v, _ |- _ => destruct Hv as (w & ? & ?) end;
    split_and?; try done; try (exists w; split; [done|]).
  1,4: match goal with Hs : has_slot _ _ _ |- _ => destruct Hs as (sl & Hsl & Hle) end; unfold has_slot; cbn [set_slots slots];
    change (idx (set_slots _ q) pos0) with (idx q pos0);
    (destruct (decide (idx q pos0 = idx q pos)) as [E|N];
      [exists (f sl); rewrite <- E, list_lookup_alter_eq, Hsl; split; [done|];
       rewrite E in Hsl; specialize (Hf _ Hsl); lia
      |exists sl; by rewrite list_lookup_alter_ne]).
  all: eapply has_slot_update; [done|intros E; by destruct (Hx pos0); auto|done].
Qed.

Lemma inv_update s t p p' pos f ret' :
  inv s -> threads s !! t = Some p -> owns p pos ->
  (pushpos p' = pushpos p \/ pushpos p' = None) -> (poppos p' = poppos p \/ poppos p' = None) ->
  let s' := mkSys (update_slot (queue s) pos f) (<[t := p']> (threads s)) (pushed s) ret' in
  (forall sl, slots (queue s) !! idx (queue s) pos = Some sl ->
     sequence sl <= sequence (f sl) /\ slot_ok s' (idx (queue s) pos) (f sl)) ->
  pc_ok (queue s') (pushed s) p' ->
  (NoDup ret'.*1 /\
    Forall (fun kv => 0 <= kv.1 < qtail (queue s) /\ pushed s !! Z.to_nat kv.1 = Some kv.2) ret' /\
    (forall k, owner poppos (threads s') k -> k ∉ ret'.*1)) ->
  (forall k, 0 <= k < qtail (queue s) -> k ∈ ret'.*1 \/ owner poppos (threads s') k) ->
  inv s'.
Proof.
  intros Hi Ht Hown Hp1 Hp2 s' Hf Hok Hret Hloss.
  pose proof (inv_good s Hi) as Hg. pose proof Hi as Hi'. destruct Hi'.
  unfold s' in *. rewrite update_slot_idx in * by done.
  constructor; cbn [queue threads pushed returned set_slots capacity_ slots qhead qtail]; try done.
  - unfold len in *. by rewrite length_alter.
  - intros j sl' Hj. destruct (decide (j = idx (queue s) pos)) as [->|N].
    { rewrite list_lookup_alter_eq in Hj.
      destruct (slots (queue s) !! idx (queue s) pos) as [sl|] eqn:Hsl; simplify_eq/=.
      by apply Hf. }
    rewrite list_lookup_alter_ne in Hj by done.
    destruct (inv_slots0 j sl' Hj) as (k & Hk & Hw & Hidx & Hst). exists k.
    cbn [queue set_slots capacity_ slots qhead qtail pushed threads].
    change (idx (set_slots _ (queue s)) k) with (idx (queue s) k).
    assert (Hnk : ~ owns p k).
    { intros Ho. apply N. rewrite <- Hidx. f_equal. by eapply owns_fun. }
    unfold owns in Hnk. split_and!; try done; try lia.
    destruct Hst as [(? & ? & Ho)|(? & ? & Hd & Ho)]; [left|right]; split_and!; try done;
      intros Hlt; (eapply owner_keep; [by apply Ho|]); rewrite Ht; cbn; naive_solver.
  - intros t0 p0. destruct (decide (t0 = t)) as [->|].
    + rewrite lookup_insert_eq. by intros [= <-].
    + rewrite lookup_insert_ne by done. intros Ht0. apply pc_ok_update; [|intros|by eapply inv_threads0].
      * intros sl Hsl. by apply Hf.
      * by eapply (owns_excl s t0 t p0 p).
  - apply unique_insert; [done|]. intros k Hk. left. rewrite Ht. cbn. destruct Hp1; congruence.
  - apply unique_insert; [done|]. intros k Hk. left. rewrite Ht. cbn. destruct Hp2; congruence.
Qed.

Lemma push_window s t p k :
  inv s -> threads s !! t = Some p -> pushpos p = Some k ->
  0 <= k < qtail (queue s) + capacity_ (queue s) /\ qtail (queue s) <= k < qhead (queue s) /\
  qhead (queue s) <= k + capacity_ (queue s).
Proof.
  intros Hi Ht Hp. destruct (owns_slot _ _ p k (or_introl Hp) (inv_threads s Hi t p Ht))
    as (sl & Hsl & [[_ E]|[E _]]); [|by destruct p].
  pose proof (proj1 (owner_lt pushpos s k Hi ltac:(by exists t, p)) eq_refl).
  pose proof (cap_ge_2 _ (inv_good s Hi)).
  destruct (inv_slots s Hi _ _ Hsl) as (k' & ? & ? & Hidx & [(? & ? & _)|(? & ? & _)]); [lia|].
  assert (k' = k) by (eapply idx_close; [by apply inv_good|done|lia]). lia.
Qed.

Lemma pop_window s t p k :
  inv s -> threads s !! t = Some p -> poppos p = Some k ->
  0 <= k < qtail (queue s) /\ qhead (queue s) <= k + capacity_ (queue s).
Proof.
  intros Hi Ht Hp. destruct (owns_slot _ _ p k (or_intror Hp) (inv_threads s Hi t p Ht))
    as (sl & Hsl & [[E _]|[_ E]]); [by destruct p|].
  pose proof (proj2 (owner_lt poppos s k Hi ltac:(by exists t, p)) eq_refl).
  pose proof (cap_ge_2 _ (inv_good s Hi)).
  destruct (inv_slots s Hi _ _ Hsl) as (k' & ? & ? & Hidx & [(? & ? & _)|(? & ? & _)]); [|lia].
  assert (k' = k) by (eapply idx_close; [by apply inv_good|done|lia]). lia.
Qed.

(** What an access by the owner leaves unchanged: nothing was returned. *)
Lemma kept_history s t p p' :
  inv s -> threads s !! t = Some p -> poppos p' = poppos p ->
  let thr' := <[t := p']> (threads s) in
  (NoDup (returned s).*1 /\
    Forall (fun kv => 0 <= kv.1 < qtail (queue s) /\ pushed s !! Z.to_nat kv.1 = Some kv.2)
      (returned s) /\
    (forall k, owner poppos thr' k -> k ∉ (returned s).*1)) /\
  (forall k, 0 <= k < qtail (queue s) -> k ∈ (returned s).*1 \/ owner poppos thr' k).
Proof.
  intros Hi Ht E thr'. destruct (inv_returned s Hi) as (? & ? & Hr). split; [split_and!; try done|].
  - intros k [Hk|Hk%owner_delete]%owner_insert_inv; apply Hr; [|done].
    exists t, p. split; congruence.
  - intros k Hk. destruct (inv_no_loss s Hi k Hk) as [?|Ho]; [by left|right].
    eapply owner_keep; [done|]. rewrite Ht. cbn. congruence.
Qed.

Lemma inv_write s t v pos :
  inv s -> threads s !! t = Some (PushWrite v pos) ->
  inv (mkSys (update_slot (queue s) pos (fun sl => mkSlot (sequence sl) (Some v)))
         (<[t := PushPublish v pos]> (threads s)) (pushed s) (returned s)).
Proof.
  intros Hi Ht. destruct (kept_history s t _ (PushPublish v pos) Hi Ht eq_refl) as [Hr Hl].
  pose proof (inv_threads s Hi t _ Ht) as (Hb & Hv & (sl0 & Hsl0 & E0)).
  destruct (push_window s t _ pos Hi Ht eq_refl) as (? & ? & ?).
  eapply inv_update; [done|exact Ht|by left|by left|by left| | |exact Hr|exact Hl].
  - intros sl Hsl. rewrite Hsl0 in Hsl. simplify_eq. split; [done|].
    exists (sequence sl). cbn. split_and!; try done; try lia. left.
    split_and!; [done|lia|]. intros _. by apply owner_new.
  - cbn [pc_ok queue]. rewrite update_slot_idx by (by apply inv_good).
    split_and!; [cbn; lia|cbn; lia|done|]. 
    eapply (has_slot_update _ _ _ _ (fun sl => sequence sl = pos)); [by exists sl0|by intros _ ? ->|done].
Qed.

Lemma inv_publish s t v pos :
  inv s -> threads s !! t = Some (PushPublish v pos) -> pos + 1 < 2 ^ 64 ->
  inv (mkSys (update_slot (queue s) pos (fun sl => mkSlot (wrap 64 (pos + 1)) (sdata sl)))
         (<[t := PushDone true]> (threads s)) (pushed s) (returned s)).
Proof.
  intros Hi Ht Hlt. destruct (kept_history s t _ (PushDone true) Hi Ht eq_refl) as [Hr Hl].
  pose proof (inv_threads s Hi t _ Ht) as (Hb & Hv & (sl0 & Hsl0 & E0 & Hd0)).
  destruct (push_window s t _ pos Hi Ht eq_refl) as (? & ? & ?).
  rewrite wrap_small by lia.
  eapply inv_update; [done|exact Ht|by left|by right|by left| |done|exact Hr|exact Hl].
  intros sl Hsl. rewrite Hsl0 in Hsl. simplify_eq. split; [cbn; lia|].
  exists (sequence sl). cbn. split_and!; try done; try lia. right.
  split_and!; [done|lia| |lia]. intros _. by rewrite Hd0.
Qed.

Lemma inv_read s t v pos :
  inv s -> threads s !! t = Some (PopRead pos) -> pushed s !! Z.to_nat pos = Some v ->
  inv (mkSys (update_slot (queue s) pos (fun sl => mkSlot (sequence sl) None))
         (<[t := PopRelease pos v]> (threads s)) (pushed s) (returned s)).
Proof.
  intros Hi Ht Hv. destruct (kept_history s t _ (PopRelease pos v) Hi Ht eq_refl) as [Hr Hl].
  pose proof (inv_threads s Hi t _ Ht) as (Hb & w & Hw & (sl0 & Hsl0 & E0 & Hd0)).
  destruct (pop_window s t _ pos Hi Ht eq_refl) as (? & ?).
  pose proof (cap_ge_2 _ (inv_good s Hi)). pose proof (inv_counters s Hi).
  eapply inv_update; [done|exact Ht|by right|by left|by left| | |exact Hr|exact Hl].
  - intros sl Hsl. rewrite Hsl0 in Hsl. simplify_eq. split; [done|].
    exists pos. cbn. split_and!; try done; try lia. right.
    split_and!; [done|lia|lia|]. intros _. by apply owner_new.
  - cbn [pc_ok queue]. rewrite update_slot_idx by (by apply inv_good).
    split_and!; [cbn; lia|cbn; lia|done|]. 
    eapply (has_slot_update _ _ _ _ (fun sl => sequence sl = pos + 1)); [by exists sl0|by intros _ ? ->|done].
Qed.

Lemma inv_release s t v pos :
  inv s -> threads s !! t = Some (PopRelease pos v) -> pos + capacity_ (queue s) < 2 ^ 64 ->
  inv (mkSys (update_slot (queue s) pos (fun sl => mkSlot (wrap 64 (pos + capacity_ (queue s))) (sdata sl)))
         (<[t := PopDone (Some v)]> (threads s)) (pushed s) (returned s ++ [(pos, v)])).
Proof.
  intros Hi Ht Hlt.
  pose proof (inv_threads s Hi t _ Ht) as (Hb & Hv & (sl0 & Hsl0 & E0)).
  destruct (pop_window s t _ pos Hi Ht eq_refl) as (? & ?).
  pose proof (inv_good s Hi) as Hg. pose proof (cap_ge_2 _ Hg). pose proof (inv_counters s Hi).
  destruct (inv_returned s Hi) as (Hnd & Hf & Hr). rewrite wrap_small by lia.
  assert (Hown : owner poppos (threads s) pos) by (by exists t, (PopRelease pos v)).
  eapply inv_update; [done|exact Ht|by right|by left|by right| |done| |].
  - intros sl Hsl. rewrite Hsl0 in Hsl. simplify_eq. split; [cbn; lia|].
    exists (pos + capacity_ (queue s)). cbn [sequence sdata queue update_slot set_slots capacity_ qtail qhead].
    split_and!; [lia|lia|lia| |left; split_and!; [done|lia|lia]].
    unfold idx. cbn [update_slot set_slots capacity_].
    replace (pos + _) with (pos + 1 * capacity_ (queue s)) by lia. by rewrite Z.mod_add by lia.
  - rewrite fmap_app. split_and!.
    + apply list.NoDup_app. split_and!; [done| |by apply NoDup_singleton].
      intros k Hk ->%list_elem_of_singleton. by apply (Hr pos).
    + apply Forall_app. split; [done|]. repeat constructor; cbn; try lia. done.
    + intros k [?|Hk]%owner_insert_inv; [done|].
      rewrite elem_of_app. intros [Hin| ->%list_elem_of_singleton]; [by apply (Hr k); [eapply owner_delete|]|].
      apply (owner_delete_ne _ _ _ _ (inv_pop_unique s Hi)) in Hk. by rewrite Ht in Hk.
  - intros k Hk. rewrite fmap_app. destruct (decide (k = pos)) as [->|Hne].
    { left. apply elem_of_app. right. by apply list_elem_of_singleton. }
    destruct (inv_no_loss s Hi k Hk) as [?|Ho]; [left; apply elem_of_app; by left|right].
    cbn. eapply owner_keep; [done|]. rewrite Ht. cbn. congruence.
Qed.

(** *** Every step keeps the invariant *)

Lemma finished_owns_nothing (p : option (pc T)) :
  finished p -> p ≫= pushpos = None /\ p ≫= poppos = None.
Proof. by destruct p as [[]|]. Qed.

Lemma has_slot_seq s pos sl :
  inv s -> slots (queue s) !! idx (queue s) pos = Some sl ->
  0 <= sequence sl /\ has_slot (queue s) pos (fun sl' => sequence sl <= sequence sl').
Proof. intros Hi Hsl. split; [by eapply slot_bound|]. by exists sl. Qed.

(** The sequences and positions that are compared are far from the sign bit. *)
Lemma test_small s pos seq :
  inv s -> len (pushed s) + capacity_ (queue s) < 2 ^ 63 ->
  0 <= pos <= qhead (queue s) -> 0 <= seq ->
  has_slot (queue s) pos (fun sl => seq <= sequence sl) ->
  to_int64 seq = seq /\ to_int64 pos = pos /\ wrap 64 (pos + 1) = pos + 1 /\
  to_int64 (pos + 1) = pos + 1.
Proof.
  intros Hi Hb Hp Hs (sl & Hsl & Hle). pose proof (slot_bound _ _ _ Hi Hsl).
  pose proof (inv_counters s Hi) as (? & ? & ?).
  pose proof (cap_ge_2 _ (inv_good s Hi)).
  rewrite !to_int64_small by lia. rewrite wrap_small by lia. done.
Qed.

Lemma step_push s t p w q' p' :
  inv s -> len (pushed s) + capacity_ (queue s) < 2 ^ 63 -> threads s !! t = Some p ->
  push_step w (queue s) p = (q', p') ->
  match p with
  | PushLoad _ | PushSeq _ _ | PushTest _ _ _ | PushWrite _ _ | PushPublish _ _ =>
      inv (mkSys q' (<[t := p']> (threads s)) (pushed s ++ claimed p p') (returned s ++ []))
  | _ => True
  end.
Proof.
  intros Hi Hb Ht Hstep. pose proof (inv_threads s Hi t p Ht) as Hok.
  pose proof (inv_good s Hi) as Hg. pose proof (inv_counters s Hi) as (? & ? & Hlen).
  rewrite (app_nil_r (returned s)).
  destruct p as [v|v pos|v pos seq|v pos|v pos| | | | | | | | | | | | |]; try done;
    cbn [push_step] in Hstep; cbn [pc_ok] in Hok.
  - simplify_eq. cbn [claimed]. rewrite app_nil_r. apply inv_idle; rewrite ?Ht; try done. cbn. lia.
  - rewrite slot_of_idx in Hstep by done. destruct (idx_lookup _ pos Hg) as [sl Hsl].
    rewrite Hsl in Hstep. simplify_eq. cbn [claimed]. rewrite app_nil_r.
    apply inv_idle; rewrite ?Ht; try done. cbn [pc_ok]. split; [done|]. by apply has_slot_seq.
  - destruct Hok as (Hpos & Hseq & Hsl).
    destruct (test_small s pos seq Hi Hb Hpos Hseq Hsl) as (E1 & E2 & E3 & E4).
    rewrite E1, E2, E3 in Hstep. destruct (Z.eqb_spec (seq - pos) 0).
    + assert (seq = pos) as -> by lia. destruct (negb w && (qhead (queue s) =? pos)) eqn:Hc.
      * simplify_eq. bool_to_prop. apply insert_claim; rewrite ?Ht; try done.
      * simplify_eq. cbn [claimed]. rewrite app_nil_r. apply inv_idle; rewrite ?Ht; try done. cbn. lia.
    + destruct (_ <? _); simplify_eq; cbn [claimed]; rewrite app_nil_r;
        apply inv_idle; rewrite ?Ht; done.
  - simplify_eq. cbn [claimed]. rewrite app_nil_r. by apply inv_write.
  - simplify_eq. cbn [claimed]. rewrite app_nil_r. apply inv_publish with v; [done|done|lia].
Qed.

Lemma step_pop s t p w q' p' :
  inv s -> len (pushed s) + capacity_ (queue s) < 2 ^ 63 -> threads s !! t = Some p ->
  pop_step w (queue s) p = (q', p') ->
  match p with
  | PopLoad | PopSeq _ | PopTest _ _ | PopRead _ | PopRelease _ _ =>
      inv (mkSys q' (<[t := p']> (threads s)) (pushed s ++ []) (returned s ++ delivered p))
  | _ => True
  end.
Proof.
  intros Hi Hb Ht Hstep. pose proof (inv_threads s Hi t p Ht) as Hok.
  pose proof (inv_good s Hi) as Hg. pose proof (inv_counters s Hi) as (? & ? & Hlen).
  rewrite (app_nil_r (pushed s)).
  destruct p as [| | | | | | |pos|pos seq|pos|pos v| | | | | | |]; try done;
    cbn [pop_step] in Hstep; cbn [pc_ok] in Hok; cbn [delivered]; rewrite ?(app_nil_r (returned s)).
  - simplify_eq. apply inv_idle; rewrite ?Ht; try done. cbn. lia.
  - rewrite slot_of_idx in Hstep by done. destruct (idx_lookup _ pos Hg) as [sl Hsl].
    rewrite Hsl in Hstep. simplify_eq.
    apply inv_idle; rewrite ?Ht; try done. cbn [pc_ok]. split; [done|]. by apply has_slot_seq.
  - destruct Hok as (Hpos & Hseq & Hsl).
    destruct (test_small s pos seq Hi Hb ltac:(lia) Hseq Hsl) as (E1 & E2 & E3 & E4).
    rewrite E3, E1, E4 in Hstep. destruct (Z.eqb_spec (seq - (pos + 1)) 0).
    + assert (seq = pos + 1) as -> by lia. destruct (negb w && (qtail (queue s) =? pos)) eqn:Hc.
      * simplify_eq. bool_to_prop. apply pop_claim; rewrite ?Ht; try done.
      * simplify_eq. apply inv_idle; rewrite ?Ht; try done. cbn. lia.
    + destruct (_ <? _); simplify_eq; apply inv_idle; rewrite ?Ht; done.
  - destruct Hok as (? & v & Hv & (sl & Hsl & ? & Hd)).
    rewrite slot_of_idx, Hsl in Hstep by done. destruct sl as [sq [v'|]]; simplify_eq/=.
    by apply inv_read.
  - simplify_eq. apply inv_release; [done|done|].
    pose proof (cap_ge_2 _ Hg). lia.
Qed.

Lemma step_inv s s' :
  inv s -> len (pushed s) + capacity_ (queue s) < 2 ^ 63 -> sys_step s s' -> inv s'.
Proof.
  intros Hi Hb Hstep. inversion Hstep as [? t v Hf|? t Hf|? t p w q' p' Ht Hp]; subst.
  - destruct (finished_owns_nothing _ Hf). by apply inv_idle.
  - destruct (finished_owns_nothing _ Hf). by apply inv_idle.
  - pose proof (inv_threads s Hi t p Ht) as Hok.
    destruct p; try done; cbn [pc_step] in Hp;
      first [pose proof (step_push s t _ w q' p' Hi Hb Ht Hp) as Hs; exact Hs
            |pose proof (step_pop s t _ w q' p' Hi Hb Ht Hp) as Hs; exact Hs
            |simplify_eq; cbn [claimed delivered]; rewrite !app_nil_r; apply inv_idle; rewrite ?Ht; done].
Qed.

Lemma step_capacity s s' :
  sys_step s s' -> capacity_ (queue s') = capacity_ (queue s) /\ pushed s `prefix_of` pushed s'.
Proof.
  intros Hstep. inversion Hstep as [| |? t p w q' p' Ht Hp]; subst; [done|done|].
  cbn [queue pushed]. split; [|by apply prefix_app_r].
  destruct p; cbn [pc_step push_step pop_step front_step] in Hp;
    repeat case_match; simplify_eq/=; done.
Qed.

Lemma new_sys_inv l : 2 <= l <= 2 ^ 62 -> inv (new_sys l) /\ capacity_ (queue (@new_sys T l)) = 2 ^ Z.log2_up l.
Proof.
  intros Hl. assert (Hc : round_up_to_power_of_two l = 2 ^ Z.log2_up l) by (apply round_up_eq; lia).
  assert (Hlog : 1 <= Z.log2_up l <= 62).
  { split; [apply (Z.log2_up_le_mono 2 l); lia|].
    rewrite <- (Z.log2_up_pow2 62) by lia. apply Z.log2_up_le_mono. lia. }
  split; [|done].
  assert (Hpos : 0 < 2 ^ Z.log2_up l) by (apply Z.pow_pos_nonneg; lia).
  constructor; cbn [new_sys new_fqueue queue threads pushed returned capacity_ slots qhead qtail]; try done.
  - by exists (Z.log2_up l).
  - unfold len. lens.
  - rewrite Hc. unfold len. cbn. lia.
  - intros j sl Hj. rewrite list_lookup_fmap in Hj. unfold slot_ok.
    cbn [new_sys new_fqueue queue threads pushed returned capacity_ slots qhead qtail].
    apply fmap_Some in Hj as (i & Hi & ->). apply lookup_seq in Hi as [-> Hi].
    exists (Z.of_nat (0 + j)). rewrite Hc in *. cbn [sequence].
    split_and!; [lia|lia|lia| |left; split_and!; [done|lia|lia]].
    unfold idx, new_fqueue. cbn [capacity_]. rewrite Hc, Z.mod_small by lia. by rewrite Nat2Z.id.
  - split_and!; [apply NoDup_nil_2|done|]. intros k (t & p & Ht & _). done.
  - lia.
Qed.

Lemma reachable_inv l s :
  2 <= l <= 2 ^ 62 -> rtc sys_step (new_sys l) s -> len (pushed s) + 2 ^ Z.log2_up l < 2 ^ 63 ->
  inv s /\ capacity_ (queue s) = 2 ^ Z.log2_up l.
Proof.
  intros Hl Hr. revert s Hr. apply (rtc_ind_r (fun s => len (pushed s) + 2 ^ Z.log2_up l < 2 ^ 63 ->
    inv s /\ capacity_ (queue s) = 2 ^ Z.log2_up l)).
  { intros _. by apply new_sys_inv. }
  intros s s' Hr Hstep IH Hb.
  destruct (step_capacity s s' Hstep) as [Ec Hp].
  assert (Hb' : len (pushed s) + 2 ^ Z.log2_up l < 2 ^ 63).
  { unfold len in *. apply prefix_length in Hp. lia. }
  destruct (IH Hb') as [Hi Hc]. split; [|congruence].
  eapply step_inv; [done| |done]. by rewrite Hc.
Qed.

(** *** Answers of the unsuccessful paths *)

Lemma behind_tail s pos sl :
  inv s -> 0 <= pos <= qtail (queue s) -> slots (queue s) !! idx (queue s) pos = Some sl ->
  sequence sl < pos + 1 ->
  pos = qtail (queue s) /\
  (qhead (queue s) = qtail (queue s) \/ owner pushpos (threads s) (qtail (queue s))).
Proof.
  intros Hi Hp Hsl Hlt. pose proof (inv_good s Hi) as Hg. pose proof (cap_ge_2 _ Hg).
  pose proof (inv_counters s Hi) as (? & ? & _).
  destruct (inv_slots s Hi _ _ Hsl) as (k & ? & ? & Hidx & [(E & ? & Ho)|(E & ? & _)]).
  - split; [lia|]. destruct (Z.le_gt_cases (qhead (queue s)) pos); [left; lia|right].
    replace (qtail (queue s)) with k by lia. apply Ho. lia.
  - destruct (idx_eq _ _ _ Hg Hidx) as [m Hm].
    assert (m = -1) by nia. split; [lia|]. left. lia.
Qed.

Lemma behind_head s pos sl :
  inv s -> 0 <= pos <= qhead (queue s) -> slots (queue s) !! idx (queue s) pos = Some sl ->
  sequence sl < pos ->
  pos = qhead (queue s) /\
  (qhead (queue s) = qtail (queue s) + capacity_ (queue s) \/
   owner poppos (threads s) (qhead (queue s) - capacity_ (queue s))).
Proof.
  intros Hi Hp Hsl Hlt. pose proof (inv_good s Hi) as Hg. pose proof (cap_ge_2 _ Hg).
  pose proof (inv_counters s Hi) as (? & ? & _).
  destruct (inv_slots s Hi _ _ Hsl) as (k & ? & ? & Hidx & [(E & ? & Ho)|(E & ? & _ & Ho)]);
    destruct (idx_eq _ _ _ Hg Hidx) as [m Hm]; assert (m = -1) by nia.
  - split; [lia|]. left. lia.
  - split; [lia|]. destruct (Z.le_gt_cases (qtail (queue s)) k); [left; lia|right].
    replace (_ - _) with k by lia. by apply Ho.
Qed.
End Invariant.

(** ** One thread at a time

    A call that no other thread overlaps; [holds q l]: no call is running and [q] holds
    the elements [l], the front first. *)

Section Sequential.
Context {T : Type}.
Implicit Types (q : Fqueue T) (p : pc T).

Fixpoint run_pc (n : nat) q p : Fqueue T * pc T :=
  match n with
  | 0%nat => (q, p)
  | S n => let (q, p) := pc_step false q p in run_pc n q p
  end.

Definition push (v : T) q : Fqueue T := (run_pc 5 q (PushLoad v)).1.

Definition pop q : Fqueue T * option T :=
  let (q, p) := run_pc 5 q PopLoad in (q, match p with PopDone r => r | _ => None end).

Definition idle (thr : gmap nat (pc T)) : Prop := forall t p, thr !! t = Some p -> finished (Some p).

Definition holds q (l : list T) : Prop :=
  exists thr hist ret, idle thr /\ inv (mkSys q thr hist ret) /\ l = drop (Z.to_nat (qtail q)) hist.

Lemma idle_no_owner thr k : idle thr -> owner pushpos thr k \/ owner poppos thr k -> False.
Proof.
  intros Hi [(t & p & Ht & Hp)|(t & p & Ht & Hp)]; specialize (Hi t p Ht); by destruct p.
Qed.

Lemma idle_insert thr t p : idle thr -> finished (Some p) -> idle (<[t := p]> thr).
Proof. intros Hi Hf t' p' [[_ <-]|[_ H]]%lookup_insert_Some; [done|by eapply Hi]. Qed.

Lemma holds_len q l : holds q l -> len l = qhead q - qtail q /\ 0 <= qtail q /\ len l <= capacity_ q.
Proof.
  intros (thr & hist & ret & _ & Hi & ->). pose proof (inv_counters _ Hi) as (? & ? & ?).
  cbn in *. unfold len in *. rewrite length_drop. lia.
Qed.

Lemma run_inv s t p q' p' thr :
  inv s -> len (pushed s) + capacity_ (queue s) < 2 ^ 63 ->
  threads s = <[t := p]> thr -> pc_step false (queue s) p = (q', p') ->
  inv (mkSys q' (<[t := p']> thr) (pushed s ++ claimed p p') (returned s ++ delivered p)).
Proof.
  intros Hi Hb Ht Hstep. replace (<[t := p']> thr) with (<[t := p']> (threads s))
    by (rewrite Ht; apply insert_insert_eq).
  apply (step_inv s); [done|done|]. eapply run_thread; [|done]. rewrite Ht. apply lookup_insert_eq.
Qed.

Lemma start_inv q thr hist ret p :
  inv (mkSys q thr hist ret) -> idle thr -> pc_ok q hist p -> pushpos p = None -> poppos p = None ->
  inv (mkSys q (<[0%nat := p]> thr) hist ret).
Proof.
  intros Hi Hid Hok H1 H2.
  apply (inv_idle (mkSys q thr hist ret) 0); cbn [threads queue pushed]; try done;
    destruct (thr !! 0%nat) as [p0|] eqn:E; try done; specialize (Hid _ _ E); by destruct p0.
Qed.

Lemma push_spec v q l :
  holds q l -> qhead q + 1 + capacity_ q < 2 ^ 63 ->
  capacity_ (push v q) = capacity_ q /\ qhead (push v q) <= qhead q + 1 /\
  if len l <? capacity_ q then holds (push v q) (l ++ [v]) else push v q = q.
Proof.
  intros Hh Hb. pose proof (holds_len q l Hh) as (Hl & Ht0 & Hcap).
  destruct Hh as (thr & hist & ret & Hid & Hi & El).
  pose proof (inv_good _ Hi) as Hg. pose proof (cap_ge_2 _ Hg) as Hc2. cbn [queue] in *.
  pose proof (inv_counters _ Hi) as (Hc & _ & Hlen). cbn [queue pushed] in *.
  destruct (idx_lookup q (qhead q) Hg) as [sl Hsl].
  assert (Hsok := has_slot_seq _ (qhead q) sl Hi Hsl). cbn [queue] in Hsok.
  destruct (test_small _ (qhead q) _ Hi ltac:(cbn [queue pushed]; lia) ltac:(cbn [queue]; lia)
    (proj1 Hsok) (proj2 Hsok)) as (E1 & E2 & E3 & _).
  unfold push. cbn [run_pc pc_step push_step]. rewrite slot_of_idx, Hsl by done.
  cbn [pc_step push_step]. rewrite E1, E2, E3.
  destruct (Z.ltb_spec (len l) (capacity_ q)) as [Hroom|Hfull].
  - assert (Eseq : sequence sl = qhead q).
    { destruct (Z.lt_ge_cases (sequence sl) (qhead q)) as [Hlt|Hge].
      - destruct (behind_head _ (qhead q) sl Hi ltac:(cbn [queue]; lia) Hsl Hlt) as [_ [?|Ho]];
          [cbn [queue] in *; lia|]. destruct (idle_no_owner thr _ Hid (or_intror Ho)).
      - by apply (head_slot _ sl Hi Hsl). }
    rewrite Eseq, Z.sub_diag, Z.eqb_refl. cbn [negb andb]. rewrite Z.eqb_refl.
    cbn [negb andb pc_step push_step].
    assert (I1 : inv (mkSys q (<[0%nat := PushTest v (qhead q) (qhead q)]> thr) hist ret)).
    { apply start_inv; try done. cbn. split_and!; try lia. exists sl. split; [done|lia]. }
    pose proof (run_inv _ 0 _ (set_qhead (qhead q + 1) q) (PushWrite v (qhead q)) thr I1
      ltac:(cbn [queue pushed]; lia) eq_refl) as I2.
    cbn [pc_step push_step] in I2. rewrite E2, E3, Z.sub_diag, Z.eqb_refl in I2.
    cbn [queue pushed negb andb] in I2. rewrite Z.eqb_refl in I2. specialize (I2 eq_refl).
    cbn [queue pushed returned claimed delivered negb andb] in I2.
    assert (Hb2 : len (hist ++ [v]) + capacity_ q < 2 ^ 63) by (unfold len in *; rewrite length_app; cbn; lia).
    pose proof (run_inv _ 0 _ _ _ thr I2 Hb2 eq_refl eq_refl) as I3.
    cbn [queue pushed returned claimed delivered] in I3. rewrite !app_nil_r in I3.
    pose proof (run_inv _ 0 _ _ _ thr I3 Hb2 eq_refl eq_refl) as I4.
    cbn [queue pushed returned claimed delivered] in I4. rewrite !app_nil_r in I4.
    rewrite E3 in I4. cbn [fst]. rewrite E3. split_and!; [done|cbn; lia|].
    eexists _, _, _. split; [|split; [exact I4|]].
    + by apply idle_insert.
    + cbn. rewrite El, drop_app_le by (unfold len in *; lia). done.
  - assert (Hlt : sequence sl < qhead q).
    { destruct (Z.lt_ge_cases (sequence sl) (qhead q)) as [Hlt|Hge]; [done|].
      pose proof (head_slot _ sl Hi Hsl Hge) as [_ ?]. cbn [queue] in *. lia. }
    destruct (Z.eqb_spec (sequence sl - qhead q) 0); [lia|].
    destruct (Z.ltb_spec (sequence sl - qhead q) 0); [|lia].
    cbn. split_and!; [done|lia|done].
Qed.

(** The test of [pop]: the slot at the tail is behind exactly if the queue is empty. *)
Lemma tail_behind q thr hist ret sl :
  idle thr -> inv (mkSys q thr hist ret) -> slots q !! idx q (qtail q) = Some sl ->
  sequence sl < qtail q + 1 <-> qhead q = qtail q.
Proof.
  intros Hid Hi Hsl. pose proof (inv_counters _ Hi) as Hcnt. cbn [queue pushed returned] in Hcnt. split.
  - intros Hlt. destruct (behind_tail _ (qtail q) sl Hi ltac:(cbn [queue]; lia) Hsl Hlt) as [_ [?|Ho]]; [cbn [queue] in *|].
    + lia.
    + destruct (idle_no_owner thr _ Hid (or_introl Ho)).
  - intros He. destruct (Z.lt_ge_cases (sequence sl) (qtail q + 1)) as [Hlt|Hge]; [done|].
    pose proof (tail_slot _ sl Hi Hsl Hge) as (_ & ? & _). cbn [queue] in *. lia.
Qed.

Lemma pop_spec q l :
  holds q l -> qhead q + capacity_ q < 2 ^ 63 ->
  capacity_ (pop q).1 = capacity_ q /\ qhead (pop q).1 = qhead q /\
  match l with
  | [] => pop q = (q, None)
  | v :: l => (pop q).2 = Some v /\ holds (pop q).1 l
  end.
Proof.
  intros Hh Hb. pose proof (holds_len q l Hh) as (Hl & Ht0 & Hcap).
  destruct Hh as (thr & hist & ret & Hid & Hi & El).
  pose proof (inv_good _ Hi) as Hg. pose proof (cap_ge_2 _ Hg) as Hc2. cbn [queue] in *.
  pose proof (inv_counters _ Hi) as (Hc & _ & Hlen). cbn [queue pushed] in *.
  destruct (idx_lookup q (qtail q) Hg) as [sl Hsl].
  pose proof (tail_behind _ _ _ _ _ Hid Hi Hsl) as Hbehind.
  assert (Hsok := has_slot_seq _ (qtail q) sl Hi Hsl). cbn [queue] in Hsok.
  destruct (test_small _ (qtail q) _ Hi ltac:(cbn [queue pushed]; lia) ltac:(cbn [queue]; lia)
    (proj1 Hsok) (proj2 Hsok)) as (E1 & E2 & E3 & E4).
  unfold pop. cbn [run_pc pc_step pop_step]. rewrite slot_of_idx, Hsl by done.
  cbn [pc_step pop_step]. rewrite E3, E1, E4.
  destruct l as [|v l].
  - assert (Hlt : sequence sl < qtail q + 1) by (apply Hbehind; unfold len in Hl; cbn in Hl; lia).
    destruct (Z.eqb_spec (sequence sl - (qtail q + 1)) 0); [lia|].
    destruct (Z.ltb_spec (sequence sl - (qtail q + 1)) 0); [|lia]. done.
  - assert (Hge : qtail q + 1 <= sequence sl) by (apply Z.nlt_ge; rewrite Hbehind; unfold len in Hl; cbn in Hl; lia).
    destruct (tail_slot _ sl Hi Hsl Hge) as (Eseq & _ & Hd). cbn [queue pushed] in Eseq, Hd.
    assert (Hv : hist !! Z.to_nat (qtail q) = Some v).
    { rewrite <- (Nat.add_0_r (Z.to_nat (qtail q))), <- lookup_drop, <- El. done. }
    rewrite Eseq, Z.sub_diag, Z.eqb_refl. cbn [negb andb]. rewrite Z.eqb_refl.
    cbn [negb andb pc_step pop_step].
    change (slot_of (set_qtail _ q)) with (slot_of q).
    change (slots (set_qtail _ q)) with (slots q). rewrite slot_of_idx, Hsl by done.
    destruct sl as [sq od]. cbn [sequence sdata] in *. rewrite Hd, Hv in *. cbn [pc_step pop_step].
    assert (I1 : inv (mkSys q (<[0%nat := PopTest (qtail q) (qtail q + 1)]> thr) hist ret)).
    { apply start_inv; try done. cbn. split_and!; try lia. eexists. split; [done|cbn; lia]. }
    pose proof (run_inv _ 0 _ (set_qtail (qtail q + 1) q) (PopRead (qtail q)) thr I1
      ltac:(cbn [queue pushed]; lia) eq_refl) as I2.
    cbn [pc_step pop_step] in I2. rewrite E3, E4, Z.sub_diag, Z.eqb_refl in I2.
    cbn [queue pushed negb andb] in I2. rewrite Z.eqb_refl in I2. specialize (I2 eq_refl).
    cbn [queue pushed returned claimed delivered negb andb] in I2. rewrite !app_nil_r in I2.
    pose proof (run_inv _ 0 _ (update_slot (set_qtail (qtail q + 1) q) (qtail q)
        (fun sl => mkSlot (sequence sl) None)) (PopRelease (qtail q) v) thr I2
      ltac:(cbn [queue pushed set_qtail capacity_]; lia) eq_refl) as I3.
    cbn [queue pc_step pop_step] in I3.
    change (slot_of (set_qtail _ q)) with (slot_of q) in I3.
    change (slots (set_qtail _ q)) with (slots q) in I3. rewrite slot_of_idx, Hsl in I3 by done.
    specialize (I3 eq_refl).
    cbn [queue pushed returned claimed delivered] in I3. rewrite !app_nil_r in I3.
    pose proof (run_inv _ 0 _ _ _ thr I3
      ltac:(cbn [queue pushed set_qtail capacity_ update_slot set_slots]; lia) eq_refl eq_refl) as I4.
    cbn [queue pushed returned claimed delivered] in I4. rewrite !app_nil_r in I4.
    split_and!; try done. eexists _, _, _. split; [|split; [exact I4|]].
    + by apply idle_insert.
    + cbn. replace (Z.to_nat (qtail q + 1)) with (S (Z.to_nat (qtail q))) by lia.
      by rewrite (drop_S hist v (Z.to_nat (qtail q)) Hv) in El; simplify_eq.
Qed.

Lemma new_fqueue_holds l : 2 <= l <= 2 ^ 62 -> holds (new_fqueue l) [].
Proof.
  intros Hl. exists ∅, [], []. split_and!; [by intros t p|by apply new_sys_inv|done].
Qed.
End Sequential.

(** ** Executable schedules *)

Section Schedules.
Context {T : Type}.

Inductive action :=
| APush (t : nat) (v : T)
| APop (t : nat)
| ARun (t : nat) (weak_fail : bool).

#[global] Instance finished_dec (p : option (pc T)) : Decision (finished p).
Proof. destruct p as [[]|]; cbn; apply _. Defined.

Definition act (s : sys T) (a : action) : option (sys T) :=
  match a with
  | APush t v =>
      if decide (finished (threads s !! t))
      then Some (mkSys (queue s) (<[t := PushLoad v]> (threads s)) (pushed s) (returned s)) else None
  | APop t =>
      if decide (finished (threads s !! t))
      then Some (mkSys (queue s) (<[t := PopLoad]> (threads s)) (pushed s) (returned s)) else None
  | ARun t w =>
      p ← threads s !! t;
      let (q', p') := pc_step w (queue s) p in
      Some (mkSys q' (<[t := p']> (threads s)) (pushed s ++ claimed p p') (returned s ++ delivered p))
  end.

Fixpoint exec (s : sys T) (acts : list action) : option (sys T) :=
  match acts with [] => Some s | a :: acts => act s a ≫= fun s => exec s acts end.

Lemma exec_rtc s acts s' : exec s acts = Some s' -> rtc sys_step s s'.
Proof.
  revert s. induction acts as [|a acts IH]; intros s; cbn [exec].
  { intros [= ->]. constructor. }
  intros (s1 & Ha & He)%bind_Some. apply rtc_l with s1; [|by apply IH].
  destruct a as [t v|t|t w]; cbn [act] in Ha.
  - destruct (decide _); simplify_eq. by constructor.
  - destruct (decide _); simplify_eq. by constructor.
  - apply bind_Some in Ha as (p & Hp & Ha). destruct (pc_step w (queue s) p) as [q' p'] eqn:E.
    simplify_eq. by eapply run_thread.
Qed.
End Schedules.
Arguments action : clear implicits.

(** ** What becomes of every call

    [history l s calls dropped]: the system of capacity [l] reaches [s] by a run in which
    [push] was called with the values [calls], and the calls with the values [dropped] gave
    up because they found the queue full. *)

Section Histories.
Context {T : Type}.

Definition dropped (p p' : pc T) : list T :=
  match p, p' with PushTest v _ _, PushDone false => [v] | _, _ => [] end.

Inductive history (l : Z) : sys T -> list T -> list T -> Prop :=
| history_new : history l (new_sys l) [] []
| history_push s calls ds t v :
    history l s calls ds -> finished (threads s !! t) ->
    history l (mkSys (queue s) (<[t := PushLoad v]> (threads s)) (pushed s) (returned s)) (calls ++ [v]) ds
| history_pop s calls ds t :
    history l s calls ds -> finished (threads s !! t) ->
    history l (mkSys (queue s) (<[t := PopLoad]> (threads s)) (pushed s) (returned s)) calls ds
| history_run s calls ds t p w q' p' :
    history l s calls ds -> threads s !! t = Some p -> pc_step w (queue s) p = (q', p') ->
    history l (mkSys q' (<[t := p']> (threads s)) (pushed s ++ claimed p p') (returned s ++ delivered p))
      calls (ds ++ dropped p p').

(** The value of a call that has not claimed a position yet. *)
Definition undecided (p : pc T) : option T :=
  match p with PushLoad v | PushSeq v _ | PushTest v _ _ => Some v | _ => None end.
Definition pending (thr : gmap nat (pc T)) : list T := omap (fun x => undecided x.2) (map_to_list thr).

Lemma history_rtc l s calls ds : history l s calls ds -> rtc sys_step (new_sys l) s.
Proof. induction 1; [done|..]; (eapply rtc_r; [done|by econstructor]). Qed.

Lemma rtc_history l s : rtc sys_step (new_sys l) s -> exists calls ds, history l s calls ds.
Proof.
  revert s. apply (rtc_ind_r (fun s => exists calls ds, history l s calls ds)); [exists [], []; constructor|].
  intros s s' _ Hstep (calls & ds & Hh). destruct Hstep; eexists _, _; by econstructor.
Qed.

Lemma pending_insert thr t p :
  pending (<[t := p]> thr) ≡ₚ option_list (undecided p) ++ pending (delete t thr).
Proof.
  unfold pending. rewrite <- insert_delete_eq, map_to_list_insert by apply lookup_delete_eq. cbn. by destruct (undecided p).
Qed.

Lemma pending_delete thr t :
  pending thr ≡ₚ option_list (thr !! t ≫= undecided) ++ pending (delete t thr).
Proof.
  destruct (thr !! t) as [p|] eqn:E; cbn; [|by rewrite delete_id].
  unfold pending. rewrite <- (map_to_list_delete _ _ _ E). cbn. by destruct (undecided p).
Qed.

(** A step decides a call or leaves it undecided. *)
Lemma step_decides w q p q' p' :
  pc_step w q p = (q', p') -> p' <> Crashed -> option_list (undecided p) = claimed p p' ++ dropped p p' ++ option_list (undecided p').
Proof.
  intros H Hc. destruct p; cbn in H; repeat case_match; by injection H as <- <-.
Qed.

Lemma finished_decided (o : option (pc T)) : finished o -> o ≫= undecided = None.
Proof. by destruct o as [[]|]. Qed.

Lemma history_calls l s calls ds :
  2 <= l <= 2 ^ 62 -> history l s calls ds -> len (pushed s) + 2 ^ Z.log2_up l < 2 ^ 63 ->
  calls ≡ₚ pushed s ++ ds ++ pending (threads s).
Proof.
  intros Hl. induction 1 as [|s calls ds t v _ IH Hf|s calls ds t _ IH Hf|s calls ds t p w q' p' Hh IH Ht Hs];
    cbn [pushed threads]; intros Hb.
  - done.
  - rewrite pending_insert, IH, (pending_delete _ t), finished_decided by done. cbn. solve_Permutation.
  - rewrite pending_insert, IH, (pending_delete _ t), finished_decided by done. done.
  - assert (Hc : p' <> Crashed).
    { intros ->. pose proof (history_run l s calls ds t p w q' Crashed Hh Ht Hs) as Hh'.
      destruct (reachable_inv l _ Hl (history_rtc _ _ _ _ Hh') Hb) as [Hi _].
      by apply (inv_threads _ Hi t Crashed), lookup_insert_eq. }
    assert (Hb' : len (pushed s) + 2 ^ Z.log2_up l < 2 ^ 63) by (unfold len in *; rewrite length_app in Hb; lia).
    rewrite pending_insert, (IH Hb'), (pending_delete _ t), Ht. cbn. rewrite (step_decides _ _ _ _ _ Hs Hc). solve_Permutation.
Qed.

(** When [push] reads a sequence that makes it drop its value, the queue is full or the pop
    of the element to be overwritten is still running. *)
Lemma drop_justified l (s : sys T) t v pos seq w w' :
  2 <= l <= 2 ^ 62 -> rtc sys_step (new_sys l) s -> len (pushed s) + 2 ^ Z.log2_up l < 2 ^ 63 ->
  threads s !! t = Some (PushSeq v pos) -> pc_step w (queue s) (PushSeq v pos) = (queue s, PushTest v pos seq) ->
  dropped (PushTest v pos seq) (pc_step w' (queue s) (PushTest v pos seq)).2 = [v] ->
  qhead (queue s) = qtail (queue s) + capacity_ (queue s) \/ owner poppos (threads s) (qhead (queue s) - capacity_ (queue s)).
Proof.
  intros Hl Hr Hb Ht. destruct (reachable_inv l s Hl Hr Hb) as [Hi Hc]. rewrite <- Hc in Hb.
  pose proof (inv_good s Hi) as Hg. pose proof (inv_counters s Hi) as (? & ? & _).
  destruct (idx_lookup _ pos Hg) as [sl Hsl]. assert (Hseq := has_slot_seq s pos sl Hi Hsl).
  pose proof (inv_threads s Hi t _ Ht) as Hok. cbn [pc_ok] in Hok. cbn [pc_step push_step].
  rewrite slot_of_idx, Hsl by done. intros [= <-].
  destruct (test_small s pos (sequence sl) Hi Hb ltac:(lia) (proj1 Hseq) (proj2 Hseq)) as (E1 & E2 & E3 & E4); rewrite ?E3, ?E1, ?E2, ?E4.
  destruct (Z.eqb_spec (sequence sl - pos) 0); [by destruct (negb w' && _)|].
  destruct (Z.ltb_spec (sequence sl - pos) 0); [|done]. intros _. by apply (behind_head s pos sl); [..|lia].
Qed.
End Histories.

(** ** Properties *)

(** Round_up_to_power_of_two gives the least power of two that is not below its
    argument, for every capacity up to 2^63, computed with 64-bit arithmetic. *)
Theorem round_up_least_power (n : Z) :
  0 < n <= 2 ^ 63 ->
  exists k, 0 <= k /\ round_up_to_power_of_two n = 2 ^ k /\ n <= 2 ^ k /\
    (forall j, 0 <= j -> n <= 2 ^ j -> 2 ^ k <= 2 ^ j).
Proof.
  intros Hn. exists (Z.log2_up n). pose proof (Z.log2_up_nonneg n).
  split_and!; [done|by apply round_up_eq| |].
  - destruct (decide (n = 1)) as [->|]; [done|]. apply Z.log2_up_spec. lia.
  - intros j Hj Hle. apply Z.pow_le_mono_r; [lia|]. apply Z.log2_up_le_pow2; lia.
Qed.

Lemma round_up_least_power_witness :
  round_up_to_power_of_two 20000 = 32768 /\
  exists k, 0 <= k /\ round_up_to_power_of_two 20000 = 2 ^ k /\ 20000 <= 2 ^ k /\
    (forall j, 0 <= j -> 20000 <= 2 ^ j -> 2 ^ k <= 2 ^ j).
Proof. split; [reflexivity|]. apply (round_up_least_power 20000). lia. Defined.

(** C14: with any number of threads pushing and popping in any interleaving, on a queue of
    at least two slots and for fewer than 2^63 pushes, no thread touches a slot it may not
    touch; every element that a pop returned sits at a position of its own in the order of
    the pushes' claims (no duplicates, first in first out by claim order); every claimed
    position was returned or is held by a running pop; at most capacity elements are in the
    queue.  Of the values [push] was called with, each has claimed a position, has been
    dropped, or its call has not decided yet; and a call decides to drop its value only if,
    when it read the slot, the queue was full or the pop of the element in that slot was
    still running. *)
Theorem fqueue_concurrent_fifo {T : Type} (l : Z) (s : sys T) (calls ds : list T) :
  2 <= l <= 2 ^ 62 -> history l s calls ds -> len (pushed s) + 2 ^ Z.log2_up l < 2 ^ 63 ->
  (forall t, threads s !! t <> Some Crashed) /\
  NoDup (returned s).*1 /\
  (forall k v, (k, v) ∈ returned s -> 0 <= k < qtail (queue s) /\ pushed s !! Z.to_nat k = Some v) /\
  (forall k, 0 <= k < qtail (queue s) ->
     k ∈ (returned s).*1 \/
     exists t p, threads s !! t = Some p /\ (p = PopRead k \/ exists v, p = PopRelease k v)) /\
  qtail (queue s) <= len (pushed s) <= qtail (queue s) + capacity_ (queue s) /\
  calls ≡ₚ pushed s ++ ds ++ pending (threads s) /\
  (forall t v pos seq w w', threads s !! t = Some (PushSeq v pos) ->
     pc_step w (queue s) (PushSeq v pos) = (queue s, PushTest v pos seq) ->
     dropped (PushTest v pos seq) (pc_step w' (queue s) (PushTest v pos seq)).2 = [v] ->
     qhead (queue s) = qtail (queue s) + capacity_ (queue s) \/
     owner poppos (threads s) (qhead (queue s) - capacity_ (queue s))).
Proof.
  intros Hl Hh Hb. pose proof (history_rtc _ _ _ _ Hh) as Hr. destruct (reachable_inv l s Hl Hr Hb) as [Hi _]. split_and!.
  - intros t Ht. by apply (inv_threads s Hi) in Ht.
  - apply Hi.
  - intros k v Hin. destruct (inv_returned s Hi) as (_ & Hf & _).
    rewrite list.Forall_forall in Hf. by apply (Hf (k, v)).
  - intros k Hk. destruct (inv_no_loss s Hi k Hk) as [?|(t & p & Ht & Hp)]; [by left|right].
    exists t, p. split; [done|]. destruct p; simplify_eq/=; eauto.
  - pose proof (inv_counters s Hi). lia.
  - pose proof (inv_counters s Hi). lia.
  - by apply (history_calls l).
  - intros t v pos seq w w'. by eapply drop_justified.
Qed.

(** An unsuccessful pop is justified.  When [pop] reads a sequence that makes it return
    nullopt, then at that moment the queue was empty or the push that claimed the front
    position had not published it. *)
Theorem fqueue_answers {T : Type} (l : Z) (s : sys T) (t : nat) (pos seq : Z) (w : bool) :
  2 <= l <= 2 ^ 62 -> rtc sys_step (new_sys l) s -> len (pushed s) + 2 ^ Z.log2_up l < 2 ^ 63 ->
  threads s !! t = Some (PopSeq pos) ->
  pc_step w (queue s) (PopSeq pos) = (queue s, PopTest pos seq) ->
  pc_step w (queue s) (PopTest pos seq) = (queue s, PopDone None) ->
  qhead (queue s) = qtail (queue s) \/ owner pushpos (threads s) (qtail (queue s)).
Proof.
  intros Hl Hr Hb Ht. destruct (reachable_inv l s Hl Hr Hb) as [Hi Hc]. rewrite <- Hc in Hb.
  pose proof (inv_good s Hi) as Hg. pose proof (inv_counters s Hi) as (? & ? & _).
  destruct (idx_lookup _ pos Hg) as [sl Hsl]. assert (Hseq := has_slot_seq s pos sl Hi Hsl).
  cbn [pc_step push_step pop_step]. pose proof (inv_threads s Hi t _ Ht) as Hok. cbn [pc_ok] in Hok.
  rewrite slot_of_idx, Hsl by done. intros [= <-].
  destruct (test_small s pos (sequence sl) Hi Hb ltac:(lia) (proj1 Hseq) (proj2 Hseq)) as (E1 & E2 & E3 & E4); rewrite ?E3, ?E1, ?E2, ?E4.
  destruct (Z.eqb_spec (sequence sl - (pos + 1)) 0); [by destruct (negb w && _)|].
  destruct (Z.ltb_spec (sequence sl - (pos + 1)) 0); [|done]. intros _.
  by apply (behind_tail s pos sl); [..|lia].
Qed.

(** Two producers and a consumer; the second producer claims first and publishes late,
    one compare-exchange fails spuriously. *)
Definition sample_schedule : list (action Z) :=
  [APush 1 10; APush 2 20; APop 3; ARun 1 false; ARun 1 false; ARun 2 false; ARun 2 false;
   ARun 2 true; ARun 2 false; ARun 2 false; ARun 1 false; ARun 1 false; ARun 1 false;
   ARun 1 false; ARun 1 false; ARun 1 false; ARun 2 false; ARun 2 false;
   ARun 3 false; ARun 3 false; ARun 3 false; ARun 3 false; ARun 3 false].

Definition sample_sys : sys Z := default (new_sys 2) (exec (new_sys 2) sample_schedule).

Lemma sample_reachable : rtc sys_step (new_sys 2) sample_sys.
Proof. apply (exec_rtc _ sample_schedule). vm_compute. reflexivity. Qed.

Lemma sample_history : exists calls ds, history 2 sample_sys calls ds.
Proof. apply rtc_history, sample_reachable. Qed.

Lemma fqueue_concurrent_fifo_witness :
  pushed sample_sys = [20; 10] /\ returned sample_sys = [(0, 20)] /\
  (forall t, threads sample_sys !! t <> Some Crashed) /\ NoDup (returned sample_sys).*1 /\
  exists calls ds, history 2 sample_sys calls ds /\ calls ≡ₚ [20; 10] ++ ds.
Proof.
  destruct sample_history as (calls & ds & Hh).
  pose proof (fqueue_concurrent_fifo 2 sample_sys calls ds ltac:(lia) Hh
    ltac:(vm_compute; reflexivity)) as (H1 & H2 & _ & _ & _ & H3 & _).
  split; [vm_compute; reflexivity|]. split; [vm_compute; reflexivity|]. split; [exact H1|]. split; [exact H2|].
  exists calls, ds. split; [exact Hh|]. replace (pushed sample_sys) with [20; 10] in H3 by (vm_compute; reflexivity).
  replace (pending (threads sample_sys)) with (@nil Z) in H3 by (vm_compute; reflexivity). rewrite app_nil_r in H3. exact H3.
Defined.

(** The state in which the consumer arrives between a claim and its publication. *)
Definition waiting_schedule : list (action Z) :=
  [APush 1 10; ARun 1 false; ARun 1 false; ARun 1 false; APop 3; ARun 3 false].

Definition waiting_sys : sys Z := default (new_sys 2) (exec (new_sys 2) waiting_schedule).

Lemma waiting_reachable : rtc sys_step (new_sys 2) waiting_sys.
Proof. apply (exec_rtc _ waiting_schedule). vm_compute. reflexivity. Qed.

Lemma fqueue_answers_witness :
  pc_step false (queue waiting_sys) (PopTest 0 0) = (queue waiting_sys, PopDone None) /\
  (qhead (queue waiting_sys) = qtail (queue waiting_sys) \/
   owner pushpos (threads waiting_sys) (qtail (queue waiting_sys))).
Proof.
  split; [vm_compute; reflexivity|].
  refine (fqueue_answers 2 waiting_sys 3 0 0 false _ waiting_reachable _ _ _ _);
    [lia|vm_compute; reflexivity..].
Defined.

(** A call that no other call overlaps is an operation of a bounded FIFO queue:
    [push] appends when there is room and otherwise leaves the queue as it was, [pop]
    takes the front element, or returns nullopt when there is none. *)
Theorem fqueue_sequential {T : Type} (q : Fqueue T) (l : list T) (v : T) :
  holds q l -> qhead q + 1 + capacity_ q < 2 ^ 63 ->
  (if len l <? capacity_ q then holds (push v q) (l ++ [v]) else push v q = q) /\
  match l with
  | [] => pop q = (q, None)
  | x :: l => (pop q).2 = Some x /\ holds (pop q).1 l
  end.
Proof.
  intros Hh Hb. split; [by apply push_spec|]. by apply pop_spec; [|lia].
Qed.

Lemma fqueue_sequential_witness :
  holds (push 5 (new_fqueue 4)) [5] /\ pop (new_fqueue (T := Z) 4) = (new_fqueue 4, None).
Proof.
  pose proof (fqueue_sequential (new_fqueue 4) [] 5 (new_fqueue_holds 4 ltac:(lia))
    ltac:(vm_compute; reflexivity)) as [H1 H2].
  split; [exact H1|exact H2].
Defined.

(** [front] is not race-free, although its comment says so: a pop that runs between
    its second load of tail and its copy leaves it reading an element that was moved out
    and destroyed. *)
Theorem front_reads_dead_element :
  let q := push 7 (new_fqueue (T := Z) 2) in
  run_pc 3 q FrontLoad = (q, FrontRead 0) /\
  (pop q).2 = Some 7 /\
  pc_step false (pop q).1 (FrontRead 0) = ((pop q).1, Crashed).
Proof. vm_compute. done. Qed.

(** A queue of capacity 1 loses elements: round_up_to_power_of_two 1 is 1, the
    slot's sequence after a push is the next position to claim, and a second push
    overwrites the element although nothing was popped. *)
Theorem capacity_one_overwrites :
  let q := push 8 (push 7 (new_fqueue (T := Z) 1)) in
  capacity_ q = 1 /\ qtail q = 0 /\ qhead q = 2 /\ (sdata <$> slots q) = [Some 8].
Proof. vm_compute. done. Qed.
