(* ===== verification/Mpsc.v ===== *)
(** The multi-producer single-consumer queue of datastructure/Mpsc.h, [MpscQueue<T>].

    Nodes live in a heap from which [delete] removes them; an access to an address that
    is not there is undefined.  Any number of producers push while one consumer calls
    [pop], [front] and [empty]; the atomic accesses of both are interleaved one at a
    time. *)

From S2P Require Import Prelude.

Section Mpsc.
Context {T : Type}.

(** ** Definitions *)

Record Node := mkNode { ndata : option T; next : option nat }.

Record MpscQueue := mkQueue { nodes : gmap nat Node; mhead : nat; mtail : nat }.

(** The constructor allocates the stub, at any address. *)
Definition new_mpsc (stub : nat) : MpscQueue := mkQueue {[stub := mkNode None None]} stub stub.

(** A producer inside [push]: allocate the node, exchange head, link the previous
    node. *)
Inductive ppc :=
| PushAlloc (v : T)
| PushExchange (v : T) (new_node : nat)
| PushLink (prev new_node : nat)
| PushDone.

(** The consumer: [pop] (load tail, load next, check head, wait, advance, delete),
    [front] and [empty]. *)
Inductive cpc :=
| PopStart
| PopNext (tl : nat)
| PopCheck (tl : nat)
| PopWait (tl : nat)
| PopAdvance (tl nx : nat)
| PopDelete (tl : nat)
| PopDone (popped : bool)
| FrontStart
| FrontNext (tl : nat)
| FrontCheck (tl : nat)
| FrontWait (tl : nat)
| FrontRead (nx : nat)
| FrontDone (v : option T)       (* [None]: a default-constructed value *)
| EmptyStart
| EmptyNext (tl : nat)
| EmptyDone (b : bool)
| Crashed.

Definition set_nodes v q := mkQueue v (mhead q) (mtail q).
Definition set_mhead v q := mkQueue (nodes q) v (mtail q).
Definition set_mtail v q := mkQueue (nodes q) (mhead q) v.

(** A producer's step; [fresh] is the address [new] returns.  [None]: undefined. *)
Definition producer_step (fresh : nat) (q : MpscQueue) (p : ppc) : option (MpscQueue * ppc) :=
  match p with
  | PushAlloc v => Some (set_nodes (<[fresh := mkNode (Some v) None]> (nodes q)) q, PushExchange v fresh)
  | PushExchange v n => Some (set_mhead n q, PushLink (mhead q) n)
  | PushLink prev n =>
      match nodes q !! prev with
      | None => None
      | Some nd => Some (set_nodes (<[prev := mkNode (ndata nd) (Some n)]> (nodes q)) q, PushDone)
      end
  | PushDone => Some (q, PushDone)
  end.

(** Load [tl->next] and go on. *)
Definition load_next (q : MpscQueue) (tl : nat) (k : option nat -> cpc) : MpscQueue * cpc :=
  match nodes q !! tl with None => (q, Crashed) | Some nd => (q, k (next nd)) end.

Definition consumer_step (q : MpscQueue) (c : cpc) : MpscQueue * cpc :=
  match c with
  | PopStart => (q, PopNext (mtail q))
  | PopNext tl =>
      load_next q tl (fun nx => match nx with Some nx => PopAdvance tl nx | None => PopCheck tl end)
  | PopCheck tl => if decide (tl = mhead q) then (q, PopDone false) else (q, PopWait tl)
  | PopWait tl =>
      load_next q tl (fun nx => match nx with Some nx => PopAdvance tl nx | None => PopWait tl end)
  | PopAdvance tl nx => (set_mtail nx q, PopDelete tl)
  | PopDelete tl =>
      match nodes q !! tl with
      | None => (q, Crashed)
      | Some _ => (set_nodes (delete tl (nodes q)) q, PopDone true)
      end
  | FrontStart => (q, FrontNext (mtail q))
  | FrontNext tl =>
      load_next q tl (fun nx => match nx with Some nx => FrontRead nx | None => FrontCheck tl end)
  | FrontCheck tl => if decide (tl = mhead q) then (q, FrontDone None) else (q, FrontWait tl)
  | FrontWait tl =>
      load_next q tl (fun nx => match nx with Some nx => FrontRead nx | None => FrontWait tl end)
  | FrontRead nx =>
      match nodes q !! nx with
      | Some (mkNode (Some v) _) => (q, FrontDone (Some v))
      | _ => (q, Crashed)
      end
  | EmptyStart => (q, EmptyNext (mtail q))
  | EmptyNext tl =>
      load_next q tl (fun nx => EmptyDone (match nx with Some _ => false | None => true end))
  | c => (q, c)
  end.

(** ** Systems

    [hist] is the values pushed, in the order of the exchanges, and [npop] the number
    of pops that advanced; the code reads neither. *)

Record sys := mkSys {
  queue : MpscQueue;
  producers : gmap nat ppc;
  consumer : cpc;
  hist : list T;
  npop : nat
}.

Definition exchanged (p : ppc) : list T := match p with PushExchange v _ => [v] | _ => [] end.
Definition advanced (c : cpc) : nat := match c with PopAdvance _ _ => 1 | _ => 0 end.

Definition resting (c : cpc) : Prop :=
  match c with PopDone _ | FrontDone _ | EmptyDone _ => True | _ => False end.

Inductive sys_step : sys -> sys -> Prop :=
| start_push s t v :
    producers s !! t = None \/ producers s !! t = Some PushDone ->
    sys_step s (mkSys (queue s) (<[t := PushAlloc v]> (producers s)) (consumer s) (hist s) (npop s))
| start_consumer s c :
    resting (consumer s) -> c = PopStart \/ c = FrontStart \/ c = EmptyStart ->
    sys_step s (mkSys (queue s) (producers s) c (hist s) (npop s))
| run_producer s t p fresh q' p' :
    producers s !! t = Some p -> nodes (queue s) !! fresh = None ->
    producer_step fresh (queue s) p = Some (q', p') ->
    sys_step s (mkSys q' (<[t := p']> (producers s)) (consumer s) (hist s ++ exchanged p) (npop s))
| run_consumer s q' c' :
    consumer_step (queue s) (consumer s) = (q', c') ->
    sys_step s (mkSys q' (producers s) c' (hist s) (npop s + advanced (consumer s))%nat).

Definition new_sys (stub : nat) : sys := mkSys (new_mpsc stub) ∅ (PopDone false) [] 0.

(** ** The invariant

    [chain] is the addresses from the stub at the tail to the last exchanged node. *)

Definition linking (thr : gmap nat ppc) (a b : nat) : Prop :=
  exists t, thr !! t = Some (PushLink a b).

Record chain_ok (s : sys) (chain : list nat) : Prop := mkChain {
  ch_nodup : NoDup chain;
  ch_first : chain !! 0%nat = Some (mtail (queue s));
  ch_last : list.last chain = Some (mhead (queue s));
  ch_len : (length chain + npop s = S (length (hist s)))%nat;
  ch_nodes : forall i a, chain !! i = Some a -> exists nd, nodes (queue s) !! a = Some nd /\
    (forall j, i = S j -> ndata nd = hist s !! (npop s + j)%nat) /\
    match chain !! S i with
    | None => next nd = None
    | Some b => next nd = Some b \/ next nd = None /\ linking (producers s) a b
    end
}.

Definition producer_ok (s : sys) (chain : list nat) (p : ppc) : Prop :=
  match p with
  | PushExchange v n => n ∉ chain /\ nodes (queue s) !! n = Some (mkNode (Some v) None)
  | PushLink prev n =>
      exists i nd, chain !! i = Some prev /\ chain !! S i = Some n /\
        nodes (queue s) !! prev = Some nd /\ next nd = None
  | _ => True
  end.

Definition consumer_ok (s : sys) (chain : list nat) : Prop :=
  match consumer s with
  | PopNext tl | PopCheck tl | FrontNext tl | FrontCheck tl | EmptyNext tl => tl = mtail (queue s)
  | PopWait tl | FrontWait tl => tl = mtail (queue s) /\ (2 <= length chain)%nat
  | PopAdvance tl nx =>
      tl = mtail (queue s) /\ chain !! 1%nat = Some nx /\
      exists nd, nodes (queue s) !! tl = Some nd /\ next nd = Some nx
  | PopDelete tl => tl ∉ chain /\ is_Some (nodes (queue s) !! tl)
  | FrontRead nx => chain !! 1%nat = Some nx
  | FrontDone (Some v) => True
  | Crashed => False
  | _ => True
  end.

(** Addresses a thread holds outside the chain. *)
Definition private (p : ppc) : option nat :=
  match p with PushExchange _ n => Some n | _ => None end.
Definition dying (c : cpc) : option nat := match c with PopDelete tl => Some tl | _ => None end.

Record inv (s : sys) (chain : list nat) : Prop := mkInv {
  inv_chain : chain_ok s chain;
  inv_producers : forall t p, producers s !! t = Some p -> producer_ok s chain p;
  inv_consumer : consumer_ok s chain;
  inv_private : forall t t' p p' n, producers s !! t = Some p -> producers s !! t' = Some p' ->
    private p = Some n -> private p' = Some n -> t = t';
  inv_dying : forall t p n, producers s !! t = Some p -> private p = Some n ->
    dying (consumer s) <> Some n;
  inv_links : forall t t' a b b', producers s !! t = Some (PushLink a b) ->
    producers s !! t' = Some (PushLink a b') -> t = t'
}.

(** ** Lemmas *)

Lemma linking_insert thr t p' a b :
  linking thr a b -> thr !! t <> Some (PushLink a b) -> linking (<[t := p']> thr) a b.
Proof.
  intros [t0 H] Hne. exists t0. destruct (decide (t0 = t)) as [->|]; [done|]. by rewrite lookup_insert_ne.
Qed.

Lemma chain_ok_ext s s' chain :
  chain_ok s chain -> mtail (queue s') = mtail (queue s) -> mhead (queue s') = mhead (queue s) ->
  hist s' = hist s -> npop s' = npop s ->
  (forall a, a ∈ chain -> nodes (queue s') !! a = nodes (queue s) !! a) ->
  (forall a b, linking (producers s) a b -> linking (producers s') a b) ->
  chain_ok s' chain.
Proof.
  intros [] Et Eh Ehist En Ha Hl. constructor; rewrite ?Et, ?Eh, ?Ehist, ?En; try done.
  intros i a Hi. rewrite Ha by (by eapply list_elem_of_lookup_2).
  destruct (ch_nodes0 i a Hi) as (nd & ? & ? & Hn). exists nd. split_and!; try done.
  destruct (chain !! S i); [|done]. naive_solver.
Qed.

Lemma producer_ok_ext s s' chain p :
  producer_ok s chain p -> (forall a, a ∈ chain -> nodes (queue s') !! a = nodes (queue s) !! a) ->
  (forall n, private p = Some n -> nodes (queue s') !! n = nodes (queue s) !! n) ->
  producer_ok s' chain p.
Proof.
  intros H Ha Hp. destruct p as [v|v n|prev n|]; cbn in *; try done.
  - by rewrite Hp.
  - destruct H as (i & nd & Hi & ? & ? & ?). exists i, nd. split_and!; try done.
    rewrite Ha; [done|]. by eapply list_elem_of_lookup_2.
Qed.

Lemma consumer_ok_ext s s' chain :
  consumer_ok s chain -> consumer s' = consumer s -> mtail (queue s') = mtail (queue s) ->
  (forall a, a ∈ chain -> nodes (queue s') !! a = nodes (queue s) !! a) ->
  (forall n, dying (consumer s) = Some n -> nodes (queue s') !! n = nodes (queue s) !! n) ->
  chain !! 0%nat = Some (mtail (queue s)) -> consumer_ok s' chain.
Proof.
  intros H Ec Et Ha Hd H0. unfold consumer_ok in *. rewrite Ec, Et.
  destruct (consumer s); cbn in *; try done.
  - destruct H as (-> & ? & Hn). split_and!; try done.
    rewrite Ha; [done|]. by eapply list_elem_of_lookup_2.
  - by rewrite Hd.
Qed.

(** The node of an address of the chain exists. *)
Lemma chain_node s chain a : chain_ok s chain -> a ∈ chain -> is_Some (nodes (queue s) !! a).
Proof.
  intros H [i Hi]%list_elem_of_lookup_1. destruct (ch_nodes s chain H i a Hi) as (nd & -> & _). done.
Qed.

Lemma tail_in_chain s chain : chain_ok s chain -> mtail (queue s) ∈ chain.
Proof. intros []. by eapply list_elem_of_lookup_2. Qed.

(** Only thread [t] and fields outside the chain change. *)
Lemma inv_thread s chain t p' nodes' :
  inv s chain -> (forall a b, producers s !! t <> Some (PushLink a b)) ->
  (forall a b, p' <> PushLink a b) ->
  (forall a, a ∈ chain -> nodes' !! a = nodes (queue s) !! a) ->
  (forall t0 p n, t0 <> t -> producers s !! t0 = Some p -> private p = Some n ->
     nodes' !! n = nodes (queue s) !! n /\ private p' <> Some n) ->
  (forall n, dying (consumer s) = Some n -> nodes' !! n = nodes (queue s) !! n /\ private p' <> Some n) ->
  producer_ok (mkSys (set_nodes nodes' (queue s)) (<[t := p']> (producers s)) (consumer s) (hist s) (npop s)) chain p' ->
  inv (mkSys (set_nodes nodes' (queue s)) (<[t := p']> (producers s)) (consumer s) (hist s) (npop s)) chain.
Proof.
  intros [Hc Hp Hcons Hpr Hd Hl] Hnl Hnl' Ha Hpriv Hdy Hok.
  constructor; cbn [queue producers consumer hist npop].
  - eapply chain_ok_ext; [done|done..|]. cbn. intros a b Hlk. apply linking_insert; auto.
  - intros t0 p. destruct (decide (t0 = t)) as [->|N]; [rewrite lookup_insert_eq; by intros [= <-]|].
    rewrite lookup_insert_ne by done. intros Ht0. eapply producer_ok_ext; [by eapply Hp|done|].
    intros n Hn. by apply (Hpriv t0 p).
  - eapply consumer_ok_ext; [done..| |by apply Hc]. intros n Hn. by apply Hdy.
  - intros t1 t2 p1 p2 n H1 H2 E1 E2.
    destruct (decide (t1 = t)) as [->|N1], (decide (t2 = t)) as [->|N2]; [done| | |].
    + rewrite lookup_insert_eq in H1. rewrite lookup_insert_ne in H2 by done. simplify_eq.
      by destruct (proj2 (Hpriv t2 p2 n N2 H2 E2)).
    + rewrite lookup_insert_eq in H2. rewrite lookup_insert_ne in H1 by done. simplify_eq.
      by destruct (proj2 (Hpriv t1 p1 n N1 H1 E1)).
    + rewrite lookup_insert_ne in H1, H2 by done. by eapply Hpr.
  - intros t0 p n [[<- <-]|[Hne Ht0]]%lookup_insert_Some E; [|by eapply Hd].
    intros Hdn. by destruct (Hdy n Hdn).
  - intros t1 t2 a b b' [[<- E]|[N1 H1]]%lookup_insert_Some [[<- E']|[N2 H2]]%lookup_insert_Some;
      try done; try (by destruct (Hnl' _ _ E)); try (by destruct (Hnl' _ _ E')). by eapply Hl.
Qed.

Lemma set_nodes_same (q : MpscQueue) : set_nodes (nodes q) q = q.
Proof. by destruct q. Qed.

(** *** The exchange makes the new node the last of the chain *)

Definition after_exchange (s : sys) (t : nat) (v : T) (n : nat) : sys :=
  mkSys (set_mhead n (queue s)) (<[t := PushLink (mhead (queue s)) n]> (producers s)) (consumer s) (hist s ++ [v]) (npop s).

Lemma chain_end s chain :
  chain_ok s chain -> (0 < length chain)%nat /\ chain !! (length chain - 1)%nat = Some (mhead (queue s)).
Proof.
  intros [_ H0 Hlast _ _]. assert (Hpos : (0 < length chain)%nat) by (by eapply lookup_lt_Some). split; [done|].
  rewrite last_lookup in Hlast. by replace (length chain - 1)%nat with (pred (length chain)) by lia.
Qed.

Lemma exchange_chain s chain t v n :
  chain_ok s chain -> producers s !! t = Some (PushExchange v n) -> producer_ok s chain (PushExchange v n) ->
  chain_ok (after_exchange s t v n) (chain ++ [n]).
Proof.
  intros Hc Ht [Hnin Hnode]. pose proof (chain_end _ _ Hc) as [Hpos Hend]. destruct Hc as [Hnd H0 Hlast Hlen Hnodes].
  constructor; cbn [after_exchange queue producers consumer hist npop set_mhead mhead mtail nodes].
  - apply list.NoDup_app. split_and!; [done| |by apply NoDup_singleton].
    by intros a Ha ->%list_elem_of_singleton.
  - by rewrite lookup_app_l.
  - by rewrite list.last_snoc.
  - rewrite !length_app. cbn. lia.
  - intros i a [Hi|[Hge Hi]]%lookup_app_Some.
    + pose proof (lookup_lt_Some _ _ _ Hi) as Hlt.
      destruct (Hnodes i a Hi) as (nd & Hnode' & Hdata & Hnext). exists nd. split_and!; [done| |].
      { intros j ->. rewrite lookup_app_l by lia. by apply Hdata. }
      destruct (decide (S i = length chain)) as [E|].
      { rewrite lookup_app_r, E, Nat.sub_diag by lia. cbn. right.
        rewrite lookup_ge_None_2 in Hnext by lia. split; [done|].
        replace (length chain - 1)%nat with i in Hend by lia. rewrite Hi in Hend. simplify_eq.
        exists t. by rewrite lookup_insert_eq. }
      rewrite lookup_app_l by lia. destruct (chain !! S i) as [b|]; [|done].
      destruct Hnext as [?|[? Hlk]]; [by left|right]. split; [done|].
      apply linking_insert; [done|]. by rewrite Ht.
    + apply list_lookup_singleton_Some in Hi as [Ei ->].
      eexists. split_and!; [done| |].
      { intros j ->. cbn. rewrite lookup_app_r by lia.
        by replace (npop s + j - length (hist s))%nat with 0%nat by lia. }
      by rewrite lookup_ge_None_2 by (rewrite length_app; cbn; lia).
Qed.

Lemma exchange_producers s chain t v n t0 p :
  inv s chain -> producers s !! t = Some (PushExchange v n) -> producers (after_exchange s t v n) !! t0 = Some p ->
  producer_ok (after_exchange s t v n) (chain ++ [n]) p.
Proof.
  intros [Hc Hp Hcons Hpr Hd Hl] Ht. pose proof (chain_end _ _ Hc) as [Hpos Hend]. pose proof (ch_nodes _ _ Hc) as Hnodes.
  cbn [after_exchange producers]. intros [[<- <-]|[Hne Ht0]]%lookup_insert_Some.
  - cbn [producer_ok]. destruct (Hnodes _ _ Hend) as (nd & ? & _ & Hnext).
    rewrite lookup_ge_None_2 in Hnext by lia. exists (length chain - 1)%nat, nd.
    rewrite lookup_app_l, lookup_app_r by lia. split_and!; try done.
    by replace (S (length chain - 1) - length chain)%nat with 0%nat by lia.
  - specialize (Hp t0 p Ht0). destruct p as [w|w n'|prev n'|]; cbn in *; try done.
    + destruct Hp as [? ?]. split; [|done]. rewrite elem_of_app, list_elem_of_singleton.
      intros [?| ->]; [done|]. by pose proof (Hpr t t0 _ _ n Ht Ht0 eq_refl eq_refl).
    + destruct Hp as (i & nd & ? & ? & ? & ?). exists i, nd.
      split_and!; try done; by apply lookup_app_l_Some.
Qed.

(** Nobody else links behind the last node. *)
Lemma last_unlinked s chain t b : inv s chain -> producers s !! t <> Some (PushLink (mhead (queue s)) b).
Proof.
  intros [Hc Hp _ _ _ _] Ht. pose proof (chain_end _ _ Hc) as [Hpos Hend]. destruct (Hp t _ Ht) as (i & nd & Hi & Hi' & _).
  assert (i = (length chain - 1)%nat) by (by eapply NoDup_lookup; [apply Hc|..]).
  apply lookup_lt_Some in Hi'. lia.
Qed.

Lemma inv_exchange s chain t v n :
  inv s chain -> producers s !! t = Some (PushExchange v n) -> inv (after_exchange s t v n) (chain ++ [n]).
Proof.
  intros Hinv Ht. pose proof Hinv as [Hc Hp Hcons Hpr Hd Hl].
  constructor.
  - by apply exchange_chain; [| |apply (Hp t)].
  - intros t0 p. by apply exchange_producers.
  - unfold consumer_ok in *. cbn. destruct (consumer s); cbn; try done.
    + rewrite length_app. cbn. lia.
    + destruct Hcons as (? & ? & ?). split_and!; try done. by apply lookup_app_l_Some.
    + destruct Hcons as [? ?]. split; [|done]. rewrite elem_of_app, list_elem_of_singleton.
      intros [?| ->]; [done|]. by destruct (Hd t _ n Ht eq_refl).
    + rewrite length_app. cbn. lia.
    + by apply lookup_app_l_Some.
  - cbn [after_exchange producers]. intros t1 t2 p1 p2 m [[<- <-]|[N1 H1]]%lookup_insert_Some [[<- <-]|[N2 H2]]%lookup_insert_Some E1 E2;
      try done. by eapply Hpr.
  - cbn [after_exchange producers nodes queue set_mhead consumer]. intros t0 p m [[<- <-]|[Hne Ht0]]%lookup_insert_Some E; [done|]. by eapply Hd.
  - cbn [after_exchange producers]. intros t1 t2 a b b' [[<- E]|[N1 H1]]%lookup_insert_Some [[<- E']|[N2 H2]]%lookup_insert_Some; try done.
    + simplify_eq. by destruct (last_unlinked s chain t2 b' Hinv).
    + simplify_eq. by destruct (last_unlinked s chain t1 b Hinv).
    + by eapply Hl.
Qed.

Lemma inv_link s chain t prev n nd :
  inv s chain -> producers s !! t = Some (PushLink prev n) -> nodes (queue s) !! prev = Some nd ->
  inv (mkSys (set_nodes (<[prev := mkNode (ndata nd) (Some n)]> (nodes (queue s))) (queue s))
         (<[t := PushDone]> (producers s)) (consumer s) (hist s) (npop s)) chain.
Proof.
  intros [Hc Hp Hcons Hpr Hd Hl] Ht Hnode. destruct (Hp t _ Ht) as (i & nd' & Hi & Hi' & Hnode' & Hnone).
  rewrite Hnode in Hnode'. simplify_eq. pose proof Hc as [Hnd H0 Hlast Hlen Hnodes].
  assert (Hin : prev ∈ chain) by (by eapply list_elem_of_lookup_2).
  constructor; cbn [queue producers consumer hist npop].
  - constructor; cbn [queue producers consumer hist npop set_nodes mhead mtail nodes]; try done.
    intros k a Hk. destruct (Hnodes k a Hk) as (nd1 & Hnode1 & Hdata & Hnext).
    destruct (decide (a = prev)) as [->|Hne].
    + rewrite lookup_insert_eq. assert (k = i) as -> by (by eapply NoDup_lookup).
      rewrite Hnode in Hnode1. simplify_eq. eexists. split_and!; [done|done|].
      rewrite Hi'. by left.
    + rewrite lookup_insert_ne by done. exists nd1. split_and!; try done.
      destruct (chain !! S k) as [b|]; [|done].
      destruct Hnext as [?|[? Hlk]]; [by left|right]. split; [done|].
      apply linking_insert; [done|]. rewrite Ht. congruence.
  - intros t0 p [[<- <-]|[Hne Ht0]]%lookup_insert_Some; [done|].
    specialize (Hp t0 p Ht0). destruct p as [w|w n'|prev' n'|]; cbn in *; try done.
    + destruct Hp as [? ?]. split; [done|]. rewrite lookup_insert_ne; [done|congruence].
    + destruct Hp as (k & nd1 & ? & ? & ? & ?). exists k, nd1. split_and!; try done.
      rewrite lookup_insert_ne; [done|]. intros ->. apply Hne. by eapply Hl.
  - unfold consumer_ok in *. cbn. destruct (consumer s); cbn; try done.
    + destruct Hcons as (-> & ? & nd1 & ? & ?). split_and!; try done. exists nd1.
      rewrite lookup_insert_ne; [done|]. intros ->. congruence.
    + destruct Hcons as [? ?]. split; [done|]. rewrite lookup_insert_ne; [done|congruence].
  - intros t1 t2 p1 p2 m [[<- <-]|[N1 H1]]%lookup_insert_Some [[<- <-]|[N2 H2]]%lookup_insert_Some E1 E2;
      try done. by eapply Hpr.
  - intros t0 p m [[<- <-]|[Hne Ht0]]%lookup_insert_Some E; [done|]. by eapply Hd.
  - intros t1 t2 a b b' [[<- E]|[N1 H1]]%lookup_insert_Some [[<- E']|[N2 H2]]%lookup_insert_Some; try done.
    by eapply Hl.
Qed.

Lemma inv_advance s chain tl nx :
  inv s chain -> consumer s = PopAdvance tl nx ->
  inv (mkSys (set_mtail nx (queue s)) (producers s) (PopDelete tl) (hist s) (npop s + 1)) (drop 1 chain).
Proof.
  intros [Hc Hp Hcons Hpr Hd Hl] Ec. unfold consumer_ok in Hcons. rewrite Ec in Hcons.
  destruct Hcons as (-> & H1 & nd & Hnode & Hnext). pose proof Hc as [Hnd H0 Hlast Hlen Hnodes].
  destruct chain as [|a [|b rest]]; try done. cbn in H0, H1. simplify_eq.
  cbn [drop]. apply list.NoDup_cons in Hnd as [Hnin Hnd].
  constructor; cbn [queue producers consumer hist npop].
  - constructor; cbn [queue producers consumer hist npop set_mtail mhead mtail nodes]; try done.
    + cbn in *. lia.
    + intros i a Hi. destruct (Hnodes (S i) a Hi) as (nd1 & ? & Hdata & Hn). exists nd1. split_and!; [done| |done].
      intros j ->. rewrite (Hdata (S j) eq_refl). f_equal. lia.
  - intros t p Ht. specialize (Hp t p Ht). destruct p as [v|v n|prev n|]; cbn in *; try done.
    + destruct Hp as [? ?]. split; [|done]. set_solver.
    + destruct Hp as (i & nd1 & Hi & Hi' & Hn1 & Hn2). destruct i as [|i]; cbn in Hi.
      { simplify_eq. }
      by exists i, nd1.
  - unfold consumer_ok. cbn. by rewrite Hnode.
  - done.
  - intros t p n Ht E. cbn. intros [= <-]. specialize (Hp t p Ht). destruct p; simplify_eq/=. set_solver.
  - done.
Qed.

Lemma inv_delete s chain tl :
  inv s chain -> consumer s = PopDelete tl ->
  inv (mkSys (set_nodes (delete tl (nodes (queue s))) (queue s)) (producers s) (PopDone true) (hist s) (npop s)) chain.
Proof.
  intros [Hc Hp Hcons Hpr Hd Hl] Ec. unfold consumer_ok in Hcons. rewrite Ec in Hcons, Hd.
  destruct Hcons as [Hnin _].
  assert (Ha : forall a, a ∈ chain -> delete tl (nodes (queue s)) !! a = nodes (queue s) !! a).
  { intros a Ha. rewrite lookup_delete_ne; [done|congruence]. }
  constructor; cbn [queue producers consumer hist npop]; try done.
  - by eapply chain_ok_ext.
  - intros t p Ht. eapply producer_ok_ext; [by eapply Hp|done|].
    intros n Hn. cbn. rewrite lookup_delete_ne; [done|]. intros ->. by destruct (Hd t p n Ht Hn).
Qed.

Lemma inv_consumer_moves s chain c' :
  inv s chain -> dying c' = None ->
  consumer_ok (mkSys (queue s) (producers s) c' (hist s) (npop s)) chain ->
  inv (mkSys (queue s) (producers s) c' (hist s) (npop s)) chain.
Proof.
  intros [Hc Hp Hcons Hpr Hd Hl] Hdy Hok. constructor; cbn [queue producers consumer hist npop]; try done.
  - by eapply chain_ok_ext.
  - intros t p n Ht Hn. by rewrite Hdy.
Qed.

Lemma tail_node s chain :
  inv s chain -> exists nd, nodes (queue s) !! mtail (queue s) = Some nd /\
    match chain !! 1%nat with
    | None => next nd = None
    | Some b => next nd = Some b \/ next nd = None /\ linking (producers s) (mtail (queue s)) b
    end.
Proof.
  intros [[_ H0 _ _ Hn] _ _ _ _ _]. destruct (Hn _ _ H0) as (nd & ? & _ & ?). by exists nd.
Qed.

Lemma tail_head s chain :
  inv s chain -> mtail (queue s) = mhead (queue s) <-> length chain = 1%nat.
Proof.
  intros [[Hnd H0 Hl _ _] _ _ _ _ _]. rewrite last_lookup in Hl.
  assert (0 < length chain)%nat by (by eapply lookup_lt_Some). split.
  - intros E. rewrite E in H0. pose proof (NoDup_lookup _ _ _ _ Hnd H0 Hl). lia.
  - intros E. rewrite E in Hl. cbn in Hl. congruence.
Qed.

(** A load of [tail->next] finds the second node of the chain, or null. *)
Lemma inv_load s chain k :
  inv s chain ->
  (exists nx nd, chain !! 1%nat = Some nx /\ nodes (queue s) !! mtail (queue s) = Some nd /\
     next nd = Some nx /\ load_next (queue s) (mtail (queue s)) k = (queue s, k (Some nx))) \/
  (load_next (queue s) (mtail (queue s)) k = (queue s, k None) /\
   match chain !! 1%nat with None => True | Some b => linking (producers s) (mtail (queue s)) b end).
Proof.
  intros Hi. destruct (tail_node s chain Hi) as (nd & Hnd & Hnext). unfold load_next. rewrite Hnd.
  destruct (chain !! 1%nat) as [b|] eqn:E.
  - destruct Hnext as [Hn|[Hn Hlk]]; rewrite Hn; [left; by exists b, nd|by right].
  - rewrite Hnext. by right.
Qed.

Lemma consumer_step_inv s chain q' c' :
  inv s chain -> consumer_step (queue s) (consumer s) = (q', c') ->
  exists chain', inv (mkSys q' (producers s) c' (hist s) (npop s + advanced (consumer s))) chain'.
Proof.
  intros Hi Hstep. pose proof (inv_consumer s chain Hi) as Hok. unfold consumer_ok in Hok.
  pose proof (tail_head s chain Hi) as Hth. pose proof (ch_first _ _ (inv_chain _ _ Hi)) as H0.
  assert (Hmove : forall c, dying c = None -> advanced (consumer s) = 0%nat ->
    consumer_ok (mkSys (queue s) (producers s) c (hist s) (npop s)) chain ->
    exists chain', inv (mkSys (queue s) (producers s) c (hist s) (npop s + advanced (consumer s))) chain').
  { intros c Hd Ha Hc. exists chain. rewrite Ha, Nat.add_0_r. by apply inv_consumer_moves. }
  destruct (consumer s) as [|tl|tl|tl|tl nx|tl|b| |tl|tl|tl|nx|v| |tl|b|] eqn:Ec; cbn [consumer_step] in Hstep;
    try (simplify_eq; by apply Hmove); try subst tl.
  - match type of Hstep with load_next _ _ ?k = _ =>
      destruct (inv_load s chain k Hi) as [(nx & nd & ? & ? & ? & E)|[E _]] end;
      rewrite E in Hstep; simplify_eq; apply Hmove; try done. cbn. eauto.
  - destruct (decide _) as [E|E]; simplify_eq; apply Hmove; try done. cbn. split; [done|].
    assert (length chain <> 1)%nat by (rewrite <- Hth; done).
    assert (0 < length chain)%nat by (by eapply lookup_lt_Some). lia.
  - destruct Hok as [-> Hlen].
    match type of Hstep with load_next _ _ ?k = _ =>
      destruct (inv_load s chain k Hi) as [(nx & nd & ? & ? & ? & E)|[E _]] end;
      rewrite E in Hstep; simplify_eq; apply Hmove; try done. cbn. eauto.
  - simplify_eq. exists (drop 1 chain). by apply inv_advance.
  - destruct Hok as [? [nd Hnd]]. rewrite Hnd in Hstep. simplify_eq. exists chain.
    cbn [advanced]. rewrite Nat.add_0_r. by apply inv_delete.
  - match type of Hstep with load_next _ _ ?k = _ =>
      destruct (inv_load s chain k Hi) as [(nx & nd & ? & ? & ? & E)|[E _]] end;
      rewrite E in Hstep; simplify_eq; apply Hmove; done.
  - destruct (decide _) as [E|E]; simplify_eq; apply Hmove; try done. cbn. split; [done|].
    assert (length chain <> 1)%nat by (rewrite <- Hth; done).
    assert (0 < length chain)%nat by (by eapply lookup_lt_Some). lia.
  - destruct Hok as [-> Hlen].
    match type of Hstep with load_next _ _ ?k = _ =>
      destruct (inv_load s chain k Hi) as [(nx & nd & ? & ? & ? & E)|[E _]] end;
      rewrite E in Hstep; simplify_eq; apply Hmove; done.
  - destruct (inv_chain _ _ Hi) as [_ _ _ Hlen Hn]. destruct (Hn _ _ Hok) as (nd & Hnd & Hdata & _).
    specialize (Hdata 0%nat eq_refl). rewrite Nat.add_0_r in Hdata.
    pose proof (lookup_lt_Some _ _ _ Hok).
    destruct (lookup_lt_is_Some_2 (hist s) (npop s)) as [v Hv]; [lia|].
    rewrite Hnd in Hstep. destruct nd as [d nx']. cbn in Hdata. rewrite Hdata, Hv in Hstep.
    simplify_eq. by apply Hmove.
  - match type of Hstep with load_next _ _ ?k = _ =>
      destruct (inv_load s chain k Hi) as [(nx & nd & ? & ? & ? & E)|[E _]] end;
      rewrite E in Hstep; simplify_eq; apply Hmove; done.
Qed.

Lemma producer_step_inv s chain t p fresh q' p' :
  inv s chain -> producers s !! t = Some p -> nodes (queue s) !! fresh = None ->
  producer_step fresh (queue s) p = Some (q', p') ->
  exists chain', inv (mkSys q' (<[t := p']> (producers s)) (consumer s) (hist s ++ exchanged p) (npop s)) chain'.
Proof.
  intros Hi Ht Hfresh Hstep. destruct p as [v|v n|prev n|]; cbn in Hstep; simplify_eq; cbn [exchanged];
    rewrite ?app_nil_r.
  - exists chain. pose proof Hi as [Hc Hp Hcons Hpr Hd Hl].
    assert (Hne : forall a, is_Some (nodes (queue s) !! a) -> a <> fresh) by (intros a [? ?] ->; congruence).
    apply inv_thread; try done.
    + intros a b. by rewrite Ht.
    + intros a Ha. rewrite lookup_insert_ne; [done|]. symmetry. apply Hne. by eapply chain_node.
    + intros t0 p n Hne0 Ht0 Hpn. specialize (Hp t0 p Ht0). destruct p; simplify_eq/=. destruct Hp as [_ Hp].
      assert (n <> fresh) by (apply Hne; by rewrite Hp). rewrite lookup_insert_ne by done. split; congruence.
    + intros n Hdn. unfold consumer_ok in Hcons. destruct (consumer s); simplify_eq/=.
      assert (n <> fresh) by (apply Hne; by destruct Hcons). rewrite lookup_insert_ne by done. split; congruence.
    + cbn. rewrite lookup_insert_eq. split; [|done]. intros Hin.
      by apply (Hne fresh); [eapply chain_node|].
  - exists (chain ++ [n]). by apply inv_exchange.
  - destruct (nodes (queue s) !! prev) as [nd|] eqn:E; simplify_eq. exists chain. by apply inv_link.
  - exists chain. rewrite <- (set_nodes_same (queue s)). apply inv_thread; try done. intros a b. by rewrite Ht.
Qed.

Lemma mpsc_step_inv s s' : (exists chain, inv s chain) -> sys_step s s' -> exists chain, inv s' chain.
Proof.
  intros [chain Hi] Hstep.
  inversion Hstep as [? t v Ht|? c Hrest Hc|? t p fresh q' p' Ht Hf Hp|? q' c' Hc]; subst.
  - exists chain. rewrite <- (set_nodes_same (queue s)).
    apply inv_thread; try done. intros a b. by destruct Ht as [-> | ->].
  - exists chain. apply inv_consumer_moves; [done|by destruct Hc as [->|[->| ->]]|].
    unfold consumer_ok. cbn. by destruct Hc as [->|[->| ->]].
  - by eapply producer_step_inv.
  - by eapply consumer_step_inv.
Qed.

Lemma mpsc_new_sys_inv stub : inv (new_sys stub) [stub].
Proof.
  constructor; cbn [new_sys queue producers consumer hist npop new_mpsc nodes mhead mtail]; try done.
  constructor; cbn [new_sys queue producers consumer hist npop new_mpsc nodes mhead mtail]; try done.
  - by apply NoDup_singleton.
  - intros i a [-> ->]%list_lookup_singleton_Some. exists (mkNode None None).
    rewrite lookup_singleton_eq. split_and!; try done.
Qed.

Lemma mpsc_reachable_inv stub s : rtc sys_step (new_sys stub) s -> exists chain, inv s chain.
Proof.
  revert s. apply (rtc_ind_r (fun s => exists chain, inv s chain)).
  - exists [stub]. apply mpsc_new_sys_inv.
  - intros s s' _ Hstep IH. by eapply mpsc_step_inv.
Qed.
End Mpsc.
Arguments Node : clear implicits.
Arguments MpscQueue : clear implicits.
Arguments ppc : clear implicits.
Arguments cpc : clear implicits.
Arguments sys : clear implicits.

(** ** Properties *)

(** C15: the queue is safe and first in, first out under every interleaving of producers
    with the consumer.  No access touches a freed node; [front] returns the oldest value
    that was pushed and not popped; [pop] answers false, and [front] a default value,
    only when every pushed value was popped; and [empty] answers true only when that is
    so or when the oldest value's producer has exchanged the head and not linked its
    node yet. *)
Theorem mpsc_fifo {T : Type} (stub : nat) (s : sys T) :
  rtc sys_step (new_sys stub) s ->
  consumer s <> Crashed /\
  (forall t p fresh, producers s !! t = Some p -> producer_step fresh (queue s) p <> None) /\
  (npop s <= length (hist s))%nat /\
  (forall nx, consumer s = FrontRead nx ->
     exists v, hist s !! npop s = Some v /\ consumer_step (queue s) (FrontRead nx) = (queue s, FrontDone (Some v))) /\
  (forall tl, consumer s = PopCheck tl -> consumer_step (queue s) (PopCheck tl) = (queue s, PopDone false) ->
     npop s = length (hist s)) /\
  (forall tl, consumer s = FrontCheck tl -> consumer_step (queue s) (FrontCheck tl) = (queue s, FrontDone None) ->
     npop s = length (hist s)) /\
  (forall tl, consumer s = EmptyNext tl -> consumer_step (queue s) (EmptyNext tl) = (queue s, EmptyDone true) ->
     npop s = length (hist s) \/ exists t n, producers s !! t = Some (PushLink (mtail (queue s)) n)).
Proof.
  intros Hr. destruct (mpsc_reachable_inv stub s Hr) as [chain Hi].
  pose proof Hi as [[Hnd H0 Hlast Hlen Hn] Hp Hcons _ _ _]. pose proof (tail_head s chain Hi) as Hth.
  assert (Hpos : (0 < length chain)%nat) by (by eapply lookup_lt_Some).
  unfold consumer_ok in Hcons. split_and!.
  - intros E. by rewrite E in Hcons.
  - intros t p fresh Ht. specialize (Hp t p Ht). destruct p as [v|v n|prev n|]; cbn in *; try done.
    destruct Hp as (i & nd & _ & _ & -> & _). done.
  - lia.
  - intros nx E. rewrite E in Hcons. destruct (Hn _ _ Hcons) as (nd & Hnode & Hdata & _).
    specialize (Hdata 0%nat eq_refl). rewrite Nat.add_0_r in Hdata.
    pose proof (lookup_lt_Some _ _ _ Hcons).
    destruct (lookup_lt_is_Some_2 (hist s) (npop s)) as [v Hv]; [lia|]. exists v. split; [done|].
    cbn. rewrite Hnode. destruct nd as [d nx']. cbn in Hdata. by rewrite Hdata, Hv.
  - intros tl E. rewrite E in Hcons. subst tl. cbn. destruct (decide _) as [E'|]; [|done]. intros _.
    apply Hth in E'. lia.
  - intros tl E. rewrite E in Hcons. subst tl. cbn. destruct (decide _) as [E'|]; [|done]. intros _.
    apply Hth in E'. lia.
  - intros tl E. rewrite E in Hcons. subst tl. cbn.
    match goal with |- load_next _ _ ?k = _ -> _ =>
      destruct (inv_load s chain k Hi) as [(nx & nd & _ & _ & _ & ->)|[-> Hlk]] end; [done|]. intros _.
    destruct (chain !! 1%nat) as [b|] eqn:E1; [right; destruct Hlk as [t Ht]; by exists t, b|left].
    apply lookup_ge_None in E1. lia.
Qed.

(** A consumer that waits in [pop] or [front] is not stuck: either the link it waits
    for is there, and its next step leaves the loop, or the producer that has to set it
    is running and its next step sets it. *)
Theorem mpsc_wait_progress {T : Type} (stub : nat) (s : sys T) (tl : nat) :
  rtc sys_step (new_sys stub) s -> consumer s = PopWait tl \/ consumer s = FrontWait tl ->
  (exists nx, consumer_step (queue s) (consumer s) = (queue s, PopAdvance tl nx) \/
              consumer_step (queue s) (consumer s) = (queue s, FrontRead nx)) \/
  (exists t n q', producers s !! t = Some (PushLink tl n) /\
     producer_step 0 (queue s) (PushLink tl n) = Some (q', PushDone) /\
     exists nd, nodes q' !! tl = Some nd /\ next nd = Some n).
Proof.
  intros Hr Hw. destruct (mpsc_reachable_inv stub s Hr) as [chain Hi].
  pose proof (inv_consumer s chain Hi) as Hcons. pose proof (inv_producers s chain Hi) as Hp.
  unfold consumer_ok in Hcons.
  assert (Hlen : tl = mtail (queue s) /\ (2 <= length chain)%nat) by (by destruct Hw as [E|E]; rewrite E in Hcons).
  destruct Hlen as [-> Hlen].
  destruct (lookup_lt_is_Some_2 chain 1) as [b Hb]; [lia|].
  assert (Hlink : linking (producers s) (mtail (queue s)) b ->
    exists t n q', producers s !! t = Some (PushLink (mtail (queue s)) n) /\
     producer_step 0 (queue s) (PushLink (mtail (queue s)) n) = Some (q', PushDone) /\
     exists nd, nodes q' !! mtail (queue s) = Some nd /\ next nd = Some n).
  { intros [t Ht]. destruct (Hp t _ Ht) as (i & nd & _ & _ & Hnode & _). exists t, b. cbn. rewrite Hnode.
    eexists. split_and!; [done|done|]. eexists. cbn. by rewrite lookup_insert_eq. }
  destruct Hw as [E|E]; rewrite E; cbn [consumer_step];
    match goal with |- context [load_next _ _ ?k] =>
      destruct (inv_load s chain k Hi) as [(nx & nd & _ & _ & _ & ->)|[-> Hlk]] end; eauto;
    rewrite Hb in Hlk; eauto.
Qed.

(** ** Witnesses

    One producer has pushed, a second one has exchanged the head but not linked. *)

Definition mpsc_sample (c : cpc Z) : sys Z :=
  mkSys (mkQueue {[0%nat := mkNode None (Some 1%nat); 1%nat := mkNode (Some 10) None;
                   2%nat := mkNode (Some 20) None]} 2 0)
    {[1%nat := PushDone; 2%nat := PushLink 1 2]} c [10; 20] 0.

Ltac mpsc_run t a :=
  eapply rtc_l; [eapply (run_producer _ t _ a); [reflexivity|reflexivity|reflexivity]|cbn].

Lemma mpsc_sample_reachable : rtc sys_step (new_sys 0) (mpsc_sample (PopDone false)).
Proof.
  eapply rtc_l; [apply (start_push _ 1 10); by left|cbn].
  mpsc_run 1%nat 1%nat. mpsc_run 1%nat 9%nat. mpsc_run 1%nat 9%nat.
  eapply rtc_l; [apply (start_push _ 2 20); by left|cbn].
  mpsc_run 2%nat 2%nat. mpsc_run 2%nat 9%nat.
  match goal with |- rtc _ ?a ?b => replace a with b; [constructor|] end.
  vm_compute. reflexivity.
Qed.

Lemma mpsc_front_reachable : rtc sys_step (new_sys 0) (mpsc_sample (FrontRead 1)).
Proof.
  etrans; [apply mpsc_sample_reachable|].
  eapply rtc_l; [apply (start_consumer _ FrontStart); [done|auto]|cbn].
  eapply rtc_l; [eapply run_consumer; reflexivity|cbn].
  eapply rtc_l; [eapply run_consumer; reflexivity|cbn]. constructor.
Qed.

Lemma mpsc_fifo_witness :
  consumer_step (queue (mpsc_sample (FrontRead 1))) (FrontRead 1) =
    (queue (mpsc_sample (FrontRead 1)), FrontDone (Some 10)).
Proof.
  destruct (mpsc_fifo 0 (mpsc_sample (FrontRead 1)) mpsc_front_reachable) as (_ & _ & _ & H & _).
  destruct (H 1%nat eq_refl) as (v & Hv & E). cbn in Hv. injection Hv as <-. exact E.
Defined.

(** The consumer waits for the first producer's link. *)
Definition mpsc_waiting : sys Z :=
  mkSys (mkQueue {[0%nat := mkNode None None; 1%nat := mkNode (Some 10) None]} 1 0)
    {[1%nat := PushLink 0 1]} (PopWait 0) [10] 0.

Lemma mpsc_waiting_reachable : rtc sys_step (new_sys 0) mpsc_waiting.
Proof.
  eapply rtc_l; [apply (start_push _ 1 10); by left|cbn].
  mpsc_run 1%nat 1%nat. mpsc_run 1%nat 9%nat.
  eapply rtc_l; [apply (start_consumer _ PopStart); [done|auto]|cbn].
  do 3 (eapply rtc_l; [eapply run_consumer; reflexivity|cbn]).
  match goal with |- rtc _ ?a ?b => replace a with b; [constructor|] end.
  vm_compute. reflexivity.
Qed.

Lemma mpsc_wait_progress_witness :
  (exists nx, consumer_step (queue mpsc_waiting) (consumer mpsc_waiting) = (queue mpsc_waiting, PopAdvance 0 nx) \/
              consumer_step (queue mpsc_waiting) (consumer mpsc_waiting) = (queue mpsc_waiting, FrontRead nx)) \/
  (exists t n q', producers mpsc_waiting !! t = Some (PushLink 0 n) /\
     producer_step 0 (queue mpsc_waiting) (PushLink 0 n) = Some (q', PushDone) /\
     exists nd, nodes q' !! 0%nat = Some nd /\ next nd = Some n).
Proof. apply (mpsc_wait_progress 0 mpsc_waiting 0 mpsc_waiting_reachable). left. reflexivity. Defined.
