(* ===== verification/PacketPool.v ===== *)
(** The packet pool, pool/PacketPool.cpp and .h.

    All packets of the server live in one vector and are handed out as pointers into it;
    a [Packet*] is the index of the packet.  The queue of free indices, the [inUse]
    flags and the two counters are the fields of the class; each operation runs under
    the pool's mutex or on a packet only its caller holds. *)

From S2P Require Import Prelude Crc32c Packet.

(** ** Definitions *)

Definition currentSize : nat := Z.to_nat 25000.

Record PacketPool := mkPool {
  pool : list Packet;
  availableIdx : list nat;
  inUse : list bool;
  currentPacketUse : Z;
  peak : Z
}.

Definition new_pool : PacketPool :=
  mkPool (replicate currentSize new_packet) (seq 0 currentSize) (replicate currentSize false) 0 0.

(** The loop of [borrowPacket]: pop indices until one is not in use; [front] of an empty
    queue is undefined. *)
Fixpoint borrow_loop (inUse : list bool) (available : list nat) : outcome (nat * list nat) :=
  match available with
  | [] => UB
  | id :: rest =>
      match inUse !! id with
      | None => UB
      | Some false => Ok (id, rest)
      | Some true => borrow_loop inUse rest
      end
  end.

Definition borrowPacket (pp : PacketPool) : outcome (option nat * PacketPool) :=
  match availableIdx pp with
  | [] => Ok (None, pp)
  | available =>
      let! (id, rest) := borrow_loop (inUse pp) available in
      if (currentSize <=? id)%nat then Throw else
      let newCount := wrap 64 (currentPacketUse pp + 1) in
      Ok (Some id, mkPool (alter (set_pkt_id id) id (pool pp)) rest (<[id := true]> (inUse pp))
                     newCount (Z.max (peak pp) newCount))
  end.

(** What [returnPacket] does to the packet before it is put back. *)
Definition scrub (p : Packet) : Packet := set_data (zeros sizeof_data) (clearInPointer p).

Definition returnPacket (ptr : option nat) (pp : PacketPool) : outcome PacketPool :=
  match ptr with
  | None => Ok pp
  | Some ptr =>
      match pool pp !! ptr with
      | None => UB
      | Some p =>
          let id := pkt_id p in
          if (currentSize <=? id)%nat then Ok pp else
          let pool := <[ptr := scrub p]> (pool pp) in
          match inUse pp !! id with
          | None => UB
          | Some false => Ok (mkPool pool (availableIdx pp) (inUse pp) (currentPacketUse pp) (peak pp))
          | Some true =>
              Ok (mkPool pool (availableIdx pp ++ [id]) (<[id := false]> (inUse pp))
                    (wrap 64 (currentPacketUse pp - 1)) (peak pp))
          end
      end
  end.

Definition returnPeak (pp : PacketPool) : Z := to_int32 (peak pp).

(** A holder writes to a packet through its pointer. *)
Definition write_packet (ptr : nat) (f : Packet -> Packet) (pp : PacketPool) : PacketPool :=
  mkPool (alter f ptr (pool pp)) (availableIdx pp) (inUse pp) (currentPacketUse pp) (peak pp).

(** ** The invariant

    [B] is the set of packets that are borrowed, [E] of those that ever were. *)

Definition clean (p : Packet) : Prop := p = set_pkt_id (pkt_id p) new_packet.

Record pool_inv (pp : PacketPool) (B E : gset nat) : Prop := mkPoolInv {
  pool_len : length (pool pp) = currentSize;
  pool_use_len : length (inUse pp) = currentSize;
  pool_use : forall i, (i < currentSize)%nat -> inUse pp !! i = Some (bool_decide (i ∈ B));
  pool_nodup : NoDup (availableIdx pp);
  pool_avail : forall i, i ∈ availableIdx pp <-> (i < currentSize)%nat /\ i ∉ B;
  pool_sub : B ⊆ E /\ forall i, i ∈ E -> (i < currentSize)%nat;
  pool_id : forall i p, i ∈ E -> pool pp !! i = Some p -> pkt_id p = i;
  pool_clean : forall i p, i ∉ B -> pool pp !! i = Some p -> clean p;
  pool_count : currentPacketUse pp = Z.of_nat (size B) /\
    (size B + length (availableIdx pp) = currentSize)%nat;
  pool_peak : currentPacketUse pp <= peak pp <= Z.of_nat currentSize
}.

(** ** Lemmas *)

Lemma currentSize_Z : Z.of_nat currentSize = 25000.
Proof. reflexivity. Qed.

#[global] Opaque currentSize.

Lemma scrub_clean p : clean (scrub p) /\ pkt_id (scrub p) = pkt_id p.
Proof. done. Qed.

Lemma new_pool_inv : pool_inv new_pool ∅ ∅.
Proof.
  constructor; cbn [new_pool pool availableIdx inUse currentPacketUse peak].
  - lens.
  - lens.
  - intros i Hi. by rewrite lookup_replicate_2.
  - apply NoDup_seq.
  - intros i. rewrite elem_of_seq. set_solver by lia.
  - set_solver.
  - set_solver.
  - intros i p _ Hp. by apply lookup_replicate in Hp as [-> _].
  - rewrite size_empty. lens.
  - lia.
Qed.

Lemma count_small n : (n <= currentSize)%nat -> Z.of_nat n + 1 < 2 ^ 64.
Proof. intros H. pose proof currentSize_Z. lia. Qed.

(** The free queue never holds an index in use: the loop stops at the first one. *)
Lemma borrow_head pp B E id rest :
  pool_inv pp B E -> availableIdx pp = id :: rest ->
  (id < currentSize)%nat /\ id ∉ B /\ borrow_loop (inUse pp) (id :: rest) = Ok (id, rest).
Proof.
  intros H Ha. destruct (proj1 (pool_avail _ _ _ H id)) as [Hlt Hn]; [rewrite Ha; left|].
  split_and!; [done|done|]. cbn [borrow_loop]. rewrite (pool_use _ _ _ H id Hlt).
  by rewrite bool_decide_eq_false_2.
Qed.

Lemma borrow_inv pp B E :
  pool_inv pp B E ->
  (size B = currentSize /\ borrowPacket pp = Ok (None, pp)) \/
  (exists id pp' p, borrowPacket pp = Ok (Some id, pp') /\ id ∉ B /\ (id < currentSize)%nat /\
     pool pp' !! id = Some p /\ p = set_pkt_id id new_packet /\
     pool_inv pp' ({[id]} ∪ B) ({[id]} ∪ E)).
Proof.
  intros H. unfold borrowPacket. destruct (availableIdx pp) as [|id rest] eqn:Ha.
  { left. pose proof (pool_count _ _ _ H) as [_ Hc]. rewrite Ha in Hc. cbn in Hc. split; [lia|done]. }
  right. destruct (borrow_head pp B E id rest H Ha) as (Hlt & Hn & ->). cbn [obind].
  rewrite (proj2 (Nat.leb_gt _ _)) by done.
  destruct (lookup_lt_is_Some_2 (pool pp) id) as [p Hp]; [rewrite (pool_len _ _ _ H); done|].
  destruct H as [Hl Hul Hu Hnd Hav Hsub Hid Hcl [Hc1 Hc2] Hpk]. rewrite Ha in Hc2, Hnd, Hav. cbn in Hc2.
  apply list.NoDup_cons in Hnd as [Hnin Hnd].
  assert (Hw : wrap 64 (currentPacketUse pp + 1) = currentPacketUse pp + 1) by (pose proof (count_small (size B)); apply wrap_small; lia).
  eexists id, _, (set_pkt_id id p). split; [done|]. split_and!; [done|done| | |].
  { cbn [pool]. by rewrite list_lookup_alter_eq, Hp. }
  { by rewrite (Hcl id p Hn Hp). }
  constructor; cbn [pool availableIdx inUse currentPacketUse peak]; rewrite ?Hw.
  - by rewrite length_alter.
  - lens.
  - intros i Hi. destruct (decide (i = id)) as [->|].
    + rewrite list_lookup_insert_eq by lia. f_equal. symmetry. apply bool_decide_eq_true_2. set_solver.
    + rewrite list_lookup_insert_ne, Hu by done. f_equal. apply bool_decide_ext. set_solver.
  - done.
  - intros i. specialize (Hav i). rewrite elem_of_cons in Hav. set_solver.
  - set_solver.
  - intros i p' Hi. destruct (decide (i = id)) as [->|].
    + rewrite list_lookup_alter_eq, Hp. by intros [= <-].
    + rewrite list_lookup_alter_ne by done. apply Hid. set_solver.
  - intros i p' Hi. rewrite list_lookup_alter_ne by set_solver. apply Hcl. set_solver.
  - rewrite size_union, size_singleton by set_solver. lia.
  - lia.
Qed.

Lemma return_inv pp B E ptr :
  pool_inv pp B E -> ptr ∈ E ->
  exists pp', returnPacket (Some ptr) pp = Ok pp' /\ pool_inv pp' (B ∖ {[ptr]}) E.
Proof.
  intros H Hin. pose proof (proj2 (pool_sub _ _ _ H) ptr Hin) as Hlt.
  destruct (lookup_lt_is_Some_2 (pool pp) ptr) as [p Hp]; [rewrite (pool_len _ _ _ H); done|].
  cbn [returnPacket]. rewrite Hp, (pool_id _ _ _ H ptr p Hin Hp).
  rewrite (proj2 (Nat.leb_gt _ _)), (pool_use _ _ _ H ptr Hlt) by done.
  destruct H as [Hl Hul Hu Hnd Hav Hsub Hid Hcl [Hc1 Hc2] Hpk].
  assert (Hid' : forall i p', i ∈ E -> <[ptr := scrub p]> (pool pp) !! i = Some p' -> pkt_id p' = i).
  { intros i p' Hi. destruct (decide (i = ptr)) as [->|].
    - rewrite list_lookup_insert_eq by lia. intros [= <-]. by apply (Hid ptr p).
    - rewrite list_lookup_insert_ne by done. by apply Hid. }
  assert (Hcl' : forall i p', i ∉ B ∖ {[ptr]} -> <[ptr := scrub p]> (pool pp) !! i = Some p' -> clean p').
  { intros i p' Hi. destruct (decide (i = ptr)) as [->|].
    - rewrite list_lookup_insert_eq by lia. by intros [= <-].
    - rewrite list_lookup_insert_ne by done. apply Hcl. set_solver. }
  case_bool_decide as Hb; (eexists; split; [done|]); constructor;
    cbn [pool availableIdx inUse currentPacketUse peak]; rewrite ?length_insert; try done.
  - intros i Hi. destruct (decide (i = ptr)) as [->|].
    + rewrite list_lookup_insert_eq by lia. f_equal. symmetry. apply bool_decide_eq_false_2. set_solver.
    + rewrite list_lookup_insert_ne, Hu by done. f_equal. apply bool_decide_ext. set_solver.
  - apply list.NoDup_app. split_and!; [done| |by apply NoDup_singleton].
    intros i Hi ->%list_elem_of_singleton. apply Hav in Hi. naive_solver.
  - intros i. rewrite elem_of_app, list_elem_of_singleton, Hav. destruct (decide (i = ptr)); set_solver.
  - set_solver.
  - rewrite size_difference, size_singleton, length_app by set_solver. cbn.
    assert (size B <> 0)%nat by (rewrite size_non_empty_iff; set_solver).
    rewrite wrap_small by (pose proof (count_small (size B)); lia). lia.
  - assert (size B <> 0)%nat by (rewrite size_non_empty_iff; set_solver).
    rewrite wrap_small by (pose proof (count_small (size B)); lia). lia.
  - intros i Hi. rewrite Hu by done. f_equal. apply bool_decide_ext. set_solver.
  - intros i. rewrite Hav. set_solver.
  - set_solver.
  - replace (B ∖ {[ptr]}) with B by set_solver. done.
Qed.

Lemma write_inv_at pp B E ptr f :
  pool_inv pp B E -> ptr ∈ B -> (forall p, pool pp !! ptr = Some p -> pkt_id (f p) = pkt_id p) ->
  pool_inv (write_packet ptr f pp) B E.
Proof.
  intros [] Hin Hf. constructor; cbn [write_packet pool availableIdx inUse currentPacketUse peak]; try done.
  - by rewrite length_alter.
  - intros i p Hi. destruct (decide (i = ptr)) as [->|].
    + rewrite list_lookup_alter_eq. intros (p0 & Hp & ->)%fmap_Some. rewrite Hf by done. by apply pool_id0.
    + rewrite list_lookup_alter_ne by done. by apply pool_id0.
  - intros i p Hi. rewrite list_lookup_alter_ne by set_solver. by apply pool_clean0.
Qed.

Lemma write_inv pp B E ptr f :
  pool_inv pp B E -> ptr ∈ B -> (forall p, pkt_id (f p) = pkt_id p) ->
  pool_inv (write_packet ptr f pp) B E.
Proof. intros Hp Hin Hf. by apply write_inv_at. Qed.

(** ** Clients

    Any history of calls by holders that only return what they were given at some time
    (maybe twice) and only write to packets that are out. *)

Inductive pool_history : PacketPool -> gset nat -> gset nat -> Prop :=
| history_new : pool_history new_pool ∅ ∅
| history_borrow pp B E id pp' :
    pool_history pp B E -> borrowPacket pp = Ok (Some id, pp') ->
    pool_history pp' ({[id]} ∪ B) ({[id]} ∪ E)
| history_exhausted pp B E pp' :
    pool_history pp B E -> borrowPacket pp = Ok (None, pp') -> pool_history pp' B E
| history_return pp B E ptr pp' :
    pool_history pp B E -> ptr ∈ E -> returnPacket (Some ptr) pp = Ok pp' ->
    pool_history pp' (B ∖ {[ptr]}) E
| history_write pp B E ptr f :
    pool_history pp B E -> ptr ∈ B -> (forall p, pkt_id (f p) = pkt_id p) ->
    pool_history (write_packet ptr f pp) B E.

Lemma history_inv pp B E : pool_history pp B E -> pool_inv pp B E.
Proof.
  induction 1 as [|pp B E id pp' _ IH Hb|pp B E pp' _ IH Hb|pp B E ptr pp' _ IH Hin Hr
    |pp B E ptr f _ IH Hin Hf].
  - apply new_pool_inv.
  - destruct (borrow_inv pp B E IH) as [[_ ?]|(id' & pp'' & p & Hb' & _ & _ & _ & _ & Hi)]; congruence.
  - destruct (borrow_inv pp B E IH) as [[_ ?]|(id' & pp'' & p & Hb' & _)]; congruence.
  - destruct (return_inv pp B E ptr IH Hin) as (pp'' & Hr' & Hi). congruence.
  - by apply write_inv.
Qed.

(** ** Properties *)

(** C17: whatever its clients did before, double returns included, the packet pool never
    throws or touches memory it may not: [borrowPacket] hands out a packet that nobody
    holds and that is scrubbed, and answers nullptr exactly when all packets are out;
    returning a packet a client was given is safe; and the usage counter is the number
    of packets that are out. *)
Theorem packet_pool_safe (pp : PacketPool) (B E : gset nat) :
  pool_history pp B E ->
  ((size B = currentSize /\ borrowPacket pp = Ok (None, pp)) \/
   (size B < currentSize)%nat /\
   exists id pp', borrowPacket pp = Ok (Some id, pp') /\ id ∉ B /\
     pool pp' !! id = Some (set_pkt_id id new_packet)) /\
  (forall ptr, ptr ∈ E -> exists pp', returnPacket (Some ptr) pp = Ok pp') /\
  currentPacketUse pp = Z.of_nat (size B) /\ currentPacketUse pp <= peak pp <= 25000.
Proof.
  intros Hh. pose proof (history_inv pp B E Hh) as H. split_and!.
  - destruct (borrow_inv pp B E H) as [?|(id & pp' & p & Hb & Hn & Hlt & Hp & -> & H')]; [by left|right].
    split; [|by exists id, pp']. pose proof (pool_count _ _ _ H').
    rewrite size_union, size_singleton in * by set_solver. lia.
  - intros ptr Hin. destruct (return_inv pp B E ptr H Hin) as (pp' & ? & _). by exists pp'.
  - by apply (pool_count _ _ _ H).
  - by apply (pool_peak _ _ _ H).
  - rewrite <- currentSize_Z. by apply (pool_peak _ _ _ H).
Qed.

(** One packet borrowed, returned, and returned again. *)
Lemma double_return_history :
  exists id pp, pool_history pp (({[id]} ∪ ∅) ∖ {[id]} ∖ {[id]}) ({[id]} ∪ ∅).
Proof.
  destruct (borrow_inv new_pool ∅ ∅ new_pool_inv)
    as [[Hs _]|(id & pp1 & p & Hb & _ & _ & _ & _ & H1)].
  { pose proof currentSize_Z. rewrite size_empty in Hs. lia. }
  assert (Hin : id ∈ ({[id]} ∪ ∅ : gset nat)) by set_solver.
  destruct (return_inv pp1 _ _ id H1 Hin) as (pp2 & Hr & H2).
  destruct (return_inv pp2 _ _ id H2 Hin) as (pp3 & Hr' & H3).
  exists id, pp3. eapply history_return; [|done|done]. eapply history_return; [|done|done].
  by eapply history_borrow; [apply history_new|].
Qed.

Lemma packet_pool_safe_witness :
  exists id pp, pool_history pp (({[id]} ∪ ∅) ∖ {[id]} ∖ {[id]}) ({[id]} ∪ ∅) /\
    currentPacketUse pp = 0 /\ exists id' pp', borrowPacket pp = Ok (Some id', pp').
Proof.
  destruct double_return_history as (id & pp & Hh). exists id, pp. split; [exact Hh|].
  destruct (packet_pool_safe pp _ _ Hh) as (Hb & _ & Hc & _).
  assert (E : ({[id]} ∪ ∅) ∖ {[id]} ∖ {[id]} = (∅ : gset nat)) by set_solver.
  rewrite E, size_empty in *. split; [exact Hc|].
  destruct Hb as [[Hs _]|(_ & id' & pp' & Hb & _)].
  - pose proof currentSize_Z. lia.
  - by exists id', pp'.
Defined.
