(* ===== verification/Framing.v ===== *)
(** Packet reassembly: the receive branch of IOCPManager::workerThread.

    A zero-byte-receive completion makes a worker read whatever the socket has into the
    connection's circular buffer and cut complete packets out of it, each into a packet
    borrowed from the pool.  [deframe] is the specification: the packets a byte stream
    consists of, what is left of it, and whether it is malformed. *)

From S2P Require Import Prelude Crc32c Packet Serialize PacketPool CircularBuffer.

(** ** Definitions *)

(** [struct ConnectionBuffer] of IOCPManager.h. *)
Record ConnectionBuffer := mkConn { cbuf : CircularBuffer; disconnected : bool }.

Definition new_connection : ConnectionBuffer := mkConn empty_buffer false.

(** The checks on the header of the next packet: [Some packetSize], or [None] for a
    packet on which the connection is dropped. *)
Definition packet_size (hdr : bstr) : option Z :=
  if negb (load 1 0 hdr =? START_BYTE) || negb (load 1 1 hdr =? CURRENT_VERSION) then None else
  let payloadSize := ntohl (load 4 4 hdr) in
  let packetSize := wrap 32 (Z.of_nat HEADER_SIZE + payloadSize) in
  if packetSize <? Z.of_nat HEADER_SIZE then None else
  if Z.of_nat sizeof_data <? packetSize then None else
  Some packetSize.

(** [consume(p->data, packetSize)] and [p->in = p->data + packetSize]. *)
Definition fill (bytes : bstr) (p : Packet) : Packet :=
  set_in (length bytes) (set_data (blit 0 bytes (data p)) p).

(** The loop, from the state before an iteration: the result is [shouldDisconnect], the
    buffer, the pool and the local queue; [None] when the fuel does not suffice. *)
Fixpoint frame_loop (fuel : nat) (b : CircularBuffer) (pp : PacketPool) (localQueue : list nat)
  : option (outcome (bool * CircularBuffer * PacketPool * list nat)) :=
  match fuel with
  | 0%nat => None
  | S fuel =>
      if CircularBuffer.size b <? Z.of_nat HEADER_SIZE then Some (Ok (false, b, pp, localQueue)) else
      match copy (Z.of_nat HEADER_SIZE) b with
      | None => Some UB
      | Some hdr =>
          match packet_size hdr with
          | None => Some (Ok (true, b, pp, localQueue))
          | Some packetSize =>
              if CircularBuffer.size b <? packetSize then Some (Ok (false, b, pp, localQueue)) else
              match borrowPacket pp with
              | Throw => Some Throw
              | UB => Some UB
              | Ok (None, pp) => Some (Ok (false, b, pp, localQueue))
              | Ok (Some p, pp) =>
                  match consume packetSize b with
                  | (None, b) => Some UB
                  | (Some bytes, b) =>
                      frame_loop fuel b (write_packet p (fill bytes) pp) (localQueue ++ [p])
                  end
              end
          end
      end
  end.

(** Every iteration that goes on consumes at least a header. *)
Definition loop_fuel : nat := Z.to_nat 1025.

(** What the synchronous [WSARecv] can answer. *)
Inductive recv_result :=
| RecvError (would_block : bool)
| RecvBytes (bytes : bstr).

(** The receive branch up to the dispatch: [shouldDisconnect], the connection's buffer,
    the pool and the packets to dispatch. *)
Definition on_recv (conn : option ConnectionBuffer) (r : recv_result) (pp : PacketPool)
  : option (outcome (bool * option ConnectionBuffer * PacketPool * list nat)) :=
  match conn with
  | None => Some (Ok (true, None, pp, []))
  | Some c =>
      if disconnected c then Some (Ok (true, conn, pp, [])) else
      if (0 <? length (getWriteBuffers (cbuf c)))%nat then
        match r with
        | RecvError would_block => Some (Ok (negb would_block, conn, pp, []))
        | RecvBytes [] => Some (Ok (true, conn, pp, []))
        | RecvBytes bytes =>
            let b := receive bytes (cbuf c) in
            match frame_loop loop_fuel b pp [] with
            | None => None
            | Some res =>
                Some (let! (dis, b, pp, q) := res in
                      Ok (dis, Some (mkConn b (disconnected c)), pp, q))
            end
        end
      else Some (Ok (false, conn, pp, []))
  end.

(** ** The specification

    [deframe s]: the packets at the front of [s], whether the next one is malformed,
    and the bytes that remain. *)

Fixpoint deframe_fuel (fuel : nat) (s : bstr) : list bstr * bool * bstr :=
  match fuel with
  | 0%nat => ([], false, s)
  | S fuel =>
      if (length s <? HEADER_SIZE)%nat then ([], false, s) else
      match packet_size (take HEADER_SIZE s) with
      | None => ([], true, s)
      | Some n =>
          if len s <? n then ([], false, s) else
          let '(fs, bad, rest) := deframe_fuel fuel (drop (Z.to_nat n) s) in
          (take (Z.to_nat n) s :: fs, bad, rest)
      end
  end.

Definition deframe (s : bstr) : list bstr * bool * bstr := deframe_fuel (S (length s)) s.

(** A run of receive completions on one connection: [ns] says how many bytes of the
    stream each finds (no more than fit are read); it ends when the connection is to
    be dropped.  The result is the dispatched packets, the verdict, the state, and the
    bytes not read yet. *)
Fixpoint recv_run (ns : list nat) (stream : bstr) (c : ConnectionBuffer) (pp : PacketPool)
  : option (outcome (list nat * bool * ConnectionBuffer * PacketPool * bstr)) :=
  match ns with
  | [] => Some (Ok ([], false, c, pp, stream))
  | n :: ns =>
      let m := (n `min` Z.to_nat (bufs_total (getWriteBuffers (cbuf c))))%nat in
      match on_recv (Some c) (RecvBytes (take m stream)) pp with
      | None => None
      | Some Throw => Some Throw
      | Some UB => Some UB
      | Some (Ok (dis, c', pp, q)) =>
          let c := default c c' in
          if dis then Some (Ok (q, true, c, pp, drop m stream)) else
          match recv_run ns (drop m stream) c pp with
          | None => None
          | Some res => Some (let! (q', dis, c, pp, s) := res in Ok (q ++ q', dis, c, pp, s))
          end
      end
  end.

(** ** Lemmas: the specification *)

Lemma packet_size_bounds hdr n : packet_size hdr = Some n -> 16 <= n <= 4096.
Proof.
  unfold packet_size. pose proof sizeof_data_Z as HZ. unfold HEADER_SIZE.
  destruct (_ || _); [done|]. cbv zeta.
  destruct (_ <? _) eqn:E1; [done|]. destruct (Z.of_nat sizeof_data <? _) eqn:E2; [done|].
  intros [= <-]. bool_to_prop. lia.
Qed.

Lemma deframe_fuel_enough f g s :
  (length s < f)%nat -> (length s < g)%nat -> deframe_fuel f s = deframe_fuel g s.
Proof.
  revert g s. induction f as [|f IH]; intros g s Hf Hg; [lia|]. destruct g as [|g]; [lia|].
  cbn [deframe_fuel]. destruct (length s <? HEADER_SIZE)%nat; [done|].
  destruct (packet_size _) as [n|] eqn:Hn; [|done]. destruct (len s <? n) eqn:Hl; [done|].
  apply packet_size_bounds in Hn. bool_to_prop. unfold len in Hl.
  rewrite (IH g); [done| |]; rewrite length_drop; lia.
Qed.

Lemma deframe_eq s :
  deframe s =
  if (length s <? HEADER_SIZE)%nat then ([], false, s) else
  match packet_size (take HEADER_SIZE s) with
  | None => ([], true, s)
  | Some n =>
      if len s <? n then ([], false, s) else
      let '(fs, bad, rest) := deframe (drop (Z.to_nat n) s) in (take (Z.to_nat n) s :: fs, bad, rest)
  end.
Proof.
  unfold deframe at 1. cbn [deframe_fuel]. destruct (length s <? HEADER_SIZE)%nat; [done|].
  destruct (packet_size _) as [n|] eqn:Hn; [|done]. destruct (len s <? n) eqn:Hl; [done|].
  apply packet_size_bounds in Hn. bool_to_prop. unfold len in Hl. unfold deframe.
  rewrite (deframe_fuel_enough (length s) (S (length (drop (Z.to_nat n) s)))); [done| |];
    rewrite length_drop; lia.
Qed.

(** Induction on the packets of a stream. *)
Lemma deframe_ind (P : bstr -> Prop) :
  (forall s, (forall n, 16 <= n -> n <= len s -> P (drop (Z.to_nat n) s)) -> P s) -> forall s, P s.
Proof.
  intros Hs s. remember (length s) as k eqn:Hk. revert s Hk.
  induction (lt_wf k) as [k _ IH]. intros s ->. apply Hs. intros n Hn Hl. unfold len in Hl.
  eapply IH; [|done]. rewrite length_drop. lia.
Qed.

Lemma deframe_rest_short s fs rest : deframe s = (fs, false, rest) -> len rest < 4096.
Proof.
  revert fs rest. induction s as [s IH] using deframe_ind. intros fs rest. rewrite deframe_eq.
  destruct (Nat.ltb_spec (length s) HEADER_SIZE) as [Hlt|Hge].
  { intros [= <- <-]. unfold len, HEADER_SIZE in *. lia. }
  destruct (packet_size _) as [n|] eqn:Hn; [|done]. apply packet_size_bounds in Hn.
  destruct (Z.ltb_spec (len s) n); [intros [= <- <-]; lia|].
  destruct (deframe (drop (Z.to_nat n) s)) as [[fs' bad] rest'] eqn:E. intros [= <- -> ->].
  by eapply (IH n ltac:(lia) ltac:(lia)).
Qed.

(** Bytes that arrive later do not change the packets already cut. *)
Lemma deframe_app a b fs rest :
  deframe a = (fs, false, rest) ->
  deframe (a ++ b) = let '(fs', bad, rest') := deframe (rest ++ b) in (fs ++ fs', bad, rest').
Proof.
  revert fs rest. induction a as [a IH] using deframe_ind. intros fs rest. rewrite deframe_eq.
  destruct (Nat.ltb_spec (length a) HEADER_SIZE) as [Hlt|Hge].
  { intros [= <- <-]. by destruct (deframe (a ++ b)) as [[? ?] ?]. }
  destruct (packet_size _) as [n|] eqn:Hn; [|done]. pose proof (packet_size_bounds _ _ Hn).
  destruct (Z.ltb_spec (len a) n) as [Hl|Hl].
  { intros [= <- <-]. by destruct (deframe (a ++ b)) as [[? ?] ?]. }
  destruct (deframe (drop (Z.to_nat n) a)) as [[fs' bad] rest'] eqn:E. intros [= <- -> ->].
  specialize (IH n ltac:(lia) ltac:(lia) _ _ E). unfold len in *.
  rewrite deframe_eq, length_app, (proj2 (Nat.ltb_ge _ _)) by lia.
  rewrite take_app_le by lia. rewrite Hn. unfold len. rewrite length_app.
  rewrite (proj2 (Z.ltb_ge _ _)) by lia.
  rewrite drop_app_le, take_app_le by lia. rewrite IH.
  by destruct (deframe (rest ++ b)) as [[? ?] ?].
Qed.

Lemma deframe_app_bad a b fs rest :
  deframe a = (fs, true, rest) -> exists rest', deframe (a ++ b) = (fs, true, rest').
Proof.
  revert fs rest. induction a as [a IH] using deframe_ind. intros fs rest. rewrite deframe_eq.
  destruct (Nat.ltb_spec (length a) HEADER_SIZE) as [Hlt|Hge]; [done|].
  unfold len in *. rewrite (deframe_eq (a ++ b)), length_app, (proj2 (Nat.ltb_ge _ _)) by lia.
  rewrite take_app_le by lia.
  destruct (packet_size _) as [n|] eqn:Hn; [|intros [= <- <-]; eauto].
  pose proof (packet_size_bounds _ _ Hn). unfold len. rewrite length_app.
  destruct (Z.ltb_spec (Z.of_nat (length a)) n) as [Hl|Hl]; [done|].
  destruct (deframe (drop (Z.to_nat n) a)) as [[fs' bad] rest'] eqn:E. intros [= <- -> ->].
  destruct (IH n ltac:(lia) ltac:(lia) _ _ E) as [r Hr]. exists r.
  rewrite (proj2 (Z.ltb_ge _ _)) by lia. by rewrite drop_app_le, take_app_le, Hr by lia.
Qed.

Lemma deframe_frames s fs bad rest :
  deframe s = (fs, bad, rest) ->
  s = concat fs ++ rest /\ Forall (fun f => (16 <= length f <= sizeof_data)%nat) fs.
Proof.
  revert fs bad rest. induction s as [s IH] using deframe_ind. intros fs bad rest. rewrite deframe_eq.
  destruct (length s <? HEADER_SIZE)%nat; [by intros [= <- <- <-]|].
  destruct (packet_size _) as [n|] eqn:Hn; [|by intros [= <- <- <-]].
  pose proof (packet_size_bounds _ _ Hn). pose proof sizeof_data_Z.
  destruct (Z.ltb_spec (len s) n) as [Hl|Hl]; [by intros [= <- <- <-]|].
  destruct (deframe (drop (Z.to_nat n) s)) as [[fs' bad'] rest'] eqn:E. intros [= <- -> ->].
  destruct (IH n ltac:(lia) ltac:(lia) _ _ _ E) as [Hs Hf]. split.
  - cbn [concat]. rewrite <- app_assoc, <- Hs. by rewrite take_drop.
  - constructor; [|done]. unfold len in *. rewrite length_take. lia.
Qed.

(** ** Lemmas: the loop *)

Lemma Forall2_impl_mem {A B} (P Q : A -> B -> Prop) l k :
  Forall2 P l k -> (forall x y, x ∈ l -> P x y -> Q x y) -> Forall2 Q l k.
Proof.
  induction 1 as [|x y l k Hxy _ IH]; intros H; constructor.
  - apply H; [left|done].
  - apply IH. intros. apply H; [by right|done].
Qed.

(** The packets [ids] were borrowed from [pp] and hold [fs]; packets that were out
    before are untouched. *)
Record cut (pp : PacketPool) (B E : gset nat) (pp' : PacketPool) (ids : list nat) (fs : list bstr)
  : Prop := mkCut {
  cut_inv : pool_inv pp' (list_to_set ids ∪ B) (list_to_set ids ∪ E);
  cut_fresh : NoDup ids /\ forall i, i ∈ ids -> i ∉ B;
  cut_data : Forall2 (fun i f => pool pp' !! i = Some (fill f (set_pkt_id i new_packet))) ids fs;
  cut_old : forall i, i ∈ B -> pool pp' !! i = pool pp !! i
}.

Lemma cut_nil pp B E : pool_inv pp B E -> cut pp B E pp [] [].
Proof.
  intros H. split; [|split; [apply NoDup_nil_2|set_solver]|done|done].
  by rewrite list_to_set_nil, !union_empty_l_L.
Qed.

Lemma cut_app pp B E pp1 ids fs pp2 ids' fs' :
  cut pp B E pp1 ids fs -> cut pp1 (list_to_set ids ∪ B) (list_to_set ids ∪ E) pp2 ids' fs' ->
  cut pp B E pp2 (ids ++ ids') (fs ++ fs').
Proof.
  intros [H1 [N1 F1] D1 O1] [H2 [N2 F2] D2 O2]. split.
  - rewrite list_to_set_app_L. 
    replace (list_to_set ids ∪ list_to_set ids' ∪ B) with (list_to_set ids' ∪ (list_to_set ids ∪ B) : gset nat) by set_solver.
    by replace (list_to_set ids ∪ list_to_set ids' ∪ E) with (list_to_set ids' ∪ (list_to_set ids ∪ E) : gset nat) by set_solver.
  - split; [apply list.NoDup_app; split_and!; [done| |done]|].
    + intros i Hi Hi'. apply (F2 i Hi'). set_solver.
    + intros i [?|Hi]%elem_of_app; [by apply F1|]. specialize (F2 i Hi). set_solver.
  - apply Forall2_app; [|done]. eapply Forall2_impl_mem; [done|].
    intros i f Hi <-. apply O2. set_solver.
  - intros i Hi. rewrite O2, O1 by set_solver. done.
Qed.

Lemma fill_id bytes p : pkt_id (fill bytes p) = pkt_id p.
Proof. done. Qed.

(** One packet is cut out. *)
Lemma cut_one pp B E id pp1 f :
  borrowPacket pp = Ok (Some id, pp1) -> id ∉ B ->
  pool pp1 !! id = Some (set_pkt_id id new_packet) ->
  pool_inv pp1 ({[id]} ∪ B) ({[id]} ∪ E) ->
  cut pp B E (write_packet id (fill f) pp1) [id] [f].
Proof.
  intros Hb Hn Hp Hi. split.
  - rewrite list_to_set_singleton_L. apply write_inv; [done|set_solver|done].
  - split; [by apply NoDup_singleton|]. by intros i ->%list_elem_of_singleton.
  - constructor; [|constructor]. cbn [write_packet pool]. by rewrite list_lookup_alter_eq, Hp.
  - intros i HiB. cbn [write_packet pool]. rewrite list_lookup_alter_ne by set_solver.
    unfold borrowPacket in Hb. destruct (availableIdx pp); [done|].
    destruct (borrow_loop _ _) as [[id' rest]| |]; [|done|done]. cbn [obind] in Hb.
    destruct (_ <=? _)%nat; [done|]. simplify_eq. cbn [pool].
    rewrite list_lookup_alter_ne by set_solver. done.
Qed.

Lemma contents_size b : length (contents b) = Z.to_nat (CircularBuffer.size b).
Proof. pose proof (len_contents b) as H. unfold len in H. lia. Qed.

Lemma frame_loop_spec fuel : forall b pp B E q fs bad rest,
  wf b -> pool_inv pp B E -> deframe (contents b) = (fs, bad, rest) ->
  (base.size B + length fs <= currentSize)%nat -> CircularBuffer.size b < 16 * Z.of_nat fuel ->
  exists b' pp' ids,
    frame_loop fuel b pp q = Some (Ok (bad, b', pp', q ++ ids)) /\
    wf b' /\ contents b' = rest /\ cut pp B E pp' ids fs.
Proof.
  induction fuel as [|fuel IH]; intros b pp B E q fs bad rest Hwf Hpool Hd Hroom Hfuel.
  { pose proof (size_range b). lia. }
  cbn [frame_loop]. rewrite deframe_eq in Hd. pose proof (size_range b) as Hsz.
  rewrite contents_size in Hd. unfold HEADER_SIZE in *. 
  assert (Hdone : forall v : bool, exists b' pp' ids,
    Some (Ok (v, b, pp, q)) = Some (Ok (v, b', pp', q ++ ids)) /\
    wf b' /\ contents b' = contents b /\ cut pp B E pp' ids []).
  { intros v. exists b, pp, []. rewrite app_nil_r. split_and!; try done. by apply cut_nil. }
  destruct (Z.ltb_spec (CircularBuffer.size b) (Z.of_nat 16)) as [Hlt|Hge].
  { rewrite (proj2 (Nat.ltb_lt _ _)) in Hd by lia. simplify_eq. apply Hdone. }
  rewrite (proj2 (Nat.ltb_ge _ _)) in Hd by lia.
  unfold copy. rewrite (proj2 (Z.ltb_ge _ _)), read_contents by lia.
  rewrite Nat2Z.id. destruct (packet_size _) as [n|] eqn:Hn; [|simplify_eq; apply Hdone].
  pose proof (packet_size_bounds _ _ Hn) as Hb. rewrite len_contents in Hd.
  destruct (Z.ltb_spec (CircularBuffer.size b) n) as [Hl|Hl]; [simplify_eq; apply Hdone|].
  destruct (deframe (drop (Z.to_nat n) (contents b))) as [[fs' bad'] rest'] eqn:E'.
  simplify_eq. cbn [length] in Hroom.
  destruct (borrow_inv pp B E Hpool) as [[Hfull _]|(id & pp1 & p & Hbp & Hnin & Hlt & Hp & -> & Hpool1)].
  { lia. }
  rewrite Hbp. unfold consume. rewrite (proj2 (Z.ltb_ge _ _)), read_contents by lia.
  destruct (retire_contents b n Hwf ltac:(lia)) as [Hwf1 Hc1].
  pose proof (cut_one pp B E id pp1 (take (Z.to_nat n) (contents b)) Hbp Hnin Hp Hpool1) as Hcut.
  pose proof (cut_inv _ _ _ _ _ _ Hcut) as Hpool2.
  rewrite <- Hc1 in E'.
  destruct (IH _ _ _ _ (q ++ [id]) _ _ _ Hwf1 Hpool2 E') as (b' & pp' & ids & Hrun & ? & ? & Hcut').
  - rewrite list_to_set_singleton_L, size_union, size_singleton by set_solver. lia.
  - pose proof (len_contents b) as L1. pose proof (len_contents
      (mkBuffer (buffer b) (wrap 64 (stidx b + n)) (endidx b))) as L2.
    rewrite Hc1 in L2. unfold len in L1, L2. rewrite length_drop in L2. lia.
  - exists b', pp', (id :: ids). rewrite Hrun, <- app_assoc. split_and!; try done.
    by eapply (cut_app pp B E _ [id] [take (Z.to_nat n) (contents b)] pp' ids fs' Hcut).
Qed.

(** ** Lemmas: one receive completion *)

Lemma deframe_rest_fix s fs rest : deframe s = (fs, false, rest) -> deframe rest = ([], false, rest).
Proof.
  revert fs rest. induction s as [s IH] using deframe_ind. intros fs rest. rewrite deframe_eq.
  destruct (length s <? HEADER_SIZE)%nat eqn:E1.
  { intros [= <- <-]. by rewrite deframe_eq, E1. }
  destruct (packet_size _) as [n|] eqn:Hn; [|done]. pose proof (packet_size_bounds _ _ Hn).
  destruct (Z.ltb_spec (len s) n) as [Hl|Hl].
  { intros [= <- <-]. by rewrite deframe_eq, E1, Hn, (proj2 (Z.ltb_lt _ _)). }
  destruct (deframe (drop (Z.to_nat n) s)) as [[fs' bad'] rest'] eqn:E. intros [= <- -> ->].
  by apply (IH n ltac:(lia) ltac:(lia) fs').
Qed.

Lemma deframe_count s fs bad rest : deframe s = (fs, bad, rest) -> (16 * length fs <= length s)%nat.
Proof.
  intros H. apply deframe_frames in H as [-> Hf]. rewrite length_app.
  induction Hf as [|f fs Hlen _ IH]; cbn [concat length]; [lia|]. rewrite length_app. lia.
Qed.

(** What a connection that is neither dropped nor short of packets holds. *)
Definition settled (c : ConnectionBuffer) : Prop :=
  wf (cbuf c) /\ disconnected c = false /\
  deframe (contents (cbuf c)) = ([], false, contents (cbuf c)).

Lemma settled_free c : settled c ->
  12288 < bufs_total (getWriteBuffers (cbuf c)) /\ getWriteBuffers (cbuf c) <> [].
Proof.
  intros (Hwf & _ & Hd). apply deframe_rest_short in Hd. rewrite len_contents in Hd.
  assert (Hb : 12288 < bufs_total (getWriteBuffers (cbuf c))).
  { rewrite bufs_total_free, freeSpace_eq by done. unfold capacity. lia. }
  split; [done|]. intros E. rewrite E in Hb. cbn in Hb. lia.
Qed.

Lemma on_recv_spec c bytes pp B E fs bad rest :
  settled c -> pool_inv pp B E -> bytes <> [] -> len bytes <= bufs_total (getWriteBuffers (cbuf c)) ->
  deframe (contents (cbuf c) ++ bytes) = (fs, bad, rest) ->
  (base.size B + length fs <= currentSize)%nat ->
  exists c' pp' q,
    on_recv (Some c) (RecvBytes bytes) pp = Some (Ok (bad, Some c', pp', q)) /\
    cut pp B E pp' q fs /\ wf (cbuf c') /\ contents (cbuf c') = rest /\
    (bad = false -> settled c').
Proof.
  intros Hset Hpool Hne Hlen Hd Hroom. pose proof (settled_free c Hset) as [_ Hbufs].
  pose proof Hset as (Hwf & Hdis & Hd0). rewrite bufs_total_free in Hlen by done.
  unfold on_recv. rewrite Hdis.
  destruct (getWriteBuffers (cbuf c)) eqn:Eb; [done|]. cbn [length Nat.ltb Nat.leb].
  destruct bytes as [|x bytes]; [done|].
  destruct (receive_contents (cbuf c) (x :: bytes) Hwf Hlen) as [Hwf1 Hc1]. rewrite <- Hc1 in Hd.
  destruct (frame_loop_spec loop_fuel _ pp B E [] fs bad rest Hwf1 Hpool Hd Hroom)
    as (b' & pp' & ids & -> & Hwf' & Hc' & Hcut).
  { destruct Hwf1 as (_ & _ & _ & Hs). unfold capacity in Hs.
    change (Z.of_nat loop_fuel) with 1025. lia. }
  cbn [app obind]. eexists _, pp', ids. split; [done|].
  split_and!; try done. intros ->. split_and!; [done|done|].
  cbn [cbuf]. rewrite Hc'. by eapply deframe_rest_fix.
Qed.

Lemma recv_run_spec ns : forall stream c pp B E,
  settled c -> pool_inv pp B E -> Forall (fun n => 0 < n)%nat ns -> (sum_list ns <= length stream)%nat ->
  (16 * base.size B + length (contents (cbuf c)) + length stream <= 16 * currentSize)%nat ->
  exists k q dis c' pp' fs rest,
    recv_run ns stream c pp = Some (Ok (q, dis, c', pp', drop k stream)) /\
    deframe (contents (cbuf c) ++ take k stream) = (fs, dis, rest) /\
    contents (cbuf c') = rest /\ cut pp B E pp' q fs /\
    (dis = false -> settled c' /\ (length ns <= k <= sum_list ns)%nat /\
       (Forall (fun n => Z.of_nat n <= 12288) ns -> k = sum_list ns)).
Proof.
  induction ns as [|n ns IH]; intros stream c pp B E Hset Hpool Hns Hsum Hroom.
  { exists 0%nat, [], false, c, pp, [], (contents (cbuf c)). rewrite drop_0, take_0, app_nil_r.
    pose proof Hset as (_ & _ & ?). split_and!; try done. by apply cut_nil. }
  apply Forall_cons_1 in Hns as [Hn Hns]. cbn [sum_list_with] in Hsum. unfold id at 1 in Hsum.
  pose proof (settled_free c Hset) as [Hfree _]. cbn [recv_run].
  set (m := (n `min` Z.to_nat (bufs_total (getWriteBuffers (cbuf c))))%nat).
  assert (Hm : (0 < m <= n)%nat) by lia. assert (Hm' : length (take m stream) = m) by (rewrite length_take; lia).
  destruct (deframe (contents (cbuf c) ++ take m stream)) as [[fs bad] rest] eqn:Hd.
  pose proof (deframe_count _ _ _ _ Hd) as Hcount. rewrite length_app in Hcount.
  destruct (on_recv_spec c (take m stream) pp B E fs bad rest Hset Hpool) as (c1 & pp1 & q1 & -> & Hcut1 & Hwf1 & Hc1 & Hset1).
  { intros E0. rewrite E0 in Hm'. cbn in Hm'. lia. }
  { unfold len. lia. }
  { done. }
  { lia. }
  cbn [default from_option id]. destruct bad.
  { exists m, q1, true, c1, pp1, fs, rest. split_and!; done. }
  specialize (Hset1 eq_refl).
  destruct (IH (drop m stream) c1 pp1 (list_to_set q1 ∪ B) (list_to_set q1 ∪ E) Hset1)
    as (k & q2 & dis & c' & pp' & fs' & rest' & -> & Hd' & Hc' & Hcut' & Hfin).
  { apply Hcut1. } { done. } { rewrite length_drop. lia. }
  { pose proof (cut_fresh _ _ _ _ _ _ Hcut1) as [Hnd Hdis].
    rewrite size_union by set_solver. rewrite size_list_to_set by done.
    rewrite (Forall2_length (cut_data _ _ _ _ _ _ Hcut1)).
    pose proof (deframe_frames _ _ _ _ Hd) as [Hs _]. apply (f_equal length) in Hs.
    rewrite !length_app in Hs. rewrite Hc1, length_drop.
    assert (16 * length fs <= length (concat fs))%nat.
    { pose proof (deframe_frames _ _ _ _ Hd) as [_ Hf]. clear -Hf.
      induction Hf as [|f fs Hlen _ IH]; cbn [concat length]; [lia|]. rewrite length_app. lia. }
    lia. }
  exists (m + k)%nat, (q1 ++ q2), dis, c', pp', (fs ++ fs'), rest'.
  cbn [obind]. rewrite drop_drop. split_and!; try done.
  - rewrite <- take_take_drop, app_assoc, (deframe_app _ _ _ _ Hd), <- Hc1, Hd'. done.
  - by eapply cut_app.
  - intros Hdis. destruct (Hfin Hdis) as (? & ? & Hall). cbn [length].
    change (sum_list (n :: ns)) with (n + sum_list ns)%nat.
    split_and!; [done|lia|lia|]. intros [Hn' Hns']%Forall_cons_1. rewrite (Hall Hns'). lia.
Qed.

(** ** Lemmas: streams of messages *)

Section Messages.
Context {C : Checksum} {L : ChecksumLaws C}.

Definition message_frame (m : message) : bstr := frame (message_type m) (payload m).

Definition fits (m : message) : Prop := (HEADER_SIZE + length (payload m) <= sizeof_data)%nat.

Lemma packet_size_frame t pl rest :
  (HEADER_SIZE + length pl <= sizeof_data)%nat ->
  packet_size (take HEADER_SIZE (frame t pl ++ rest)) = Some (Z.of_nat (HEADER_SIZE + length pl)).
Proof.
  intros Hl. pose proof sizeof_data_Z. pose proof (read_header_frame t pl rest Hl) as Hh.
  pose proof (f_equal magic Hh) as E1. pose proof (f_equal version Hh) as E2.
  pose proof (f_equal payload_length Hh) as E3.
  cbn [read_header frame_header magic version payload_length] in E1, E2, E3.
  unfold packet_size, HEADER_SIZE in *.
  assert (Et : forall w off, (off + w <= 16)%nat ->
    load w off (take 16 (frame t pl ++ rest)) = load w off (frame t pl ++ rest)).
  { intros w off Hw. unfold load. by rewrite slice_take. }
  rewrite !Et, E1, E2, E3 by lia. cbn [orb negb Z.eqb START_BYTE CURRENT_VERSION Pos.eqb].
  unfold len in *. rewrite wrap_small by lia.
  destruct (Z.ltb_spec (Z.of_nat 16 + Z.of_nat (length pl)) (Z.of_nat 16)); [lia|].
  destruct (Z.ltb_spec (Z.of_nat sizeof_data) (Z.of_nat 16 + Z.of_nat (length pl))); [lia|].
  f_equal. lia.
Qed.

Lemma deframe_messages ms :
  Forall fits ms -> deframe (concat (message_frame <$> ms)) = (message_frame <$> ms, false, []).
Proof.
  induction 1 as [|m ms Hm _ IH]; [done|]. rewrite fmap_cons. cbn [concat]. unfold fits in Hm.
  change (message_frame m) with (frame (message_type m) (payload m)).
  rewrite deframe_eq,  packet_size_frame by done.
  pose proof (length_frame (message_type m) (payload m)) as Hlen.
  rewrite (proj2 (Nat.ltb_ge _ _)) by (rewrite length_app; unfold HEADER_SIZE in *; lia).
  rewrite (proj2 (Z.ltb_ge _ _)) by (unfold len; rewrite length_app; lia).
  rewrite Nat2Z.id, <- Hlen, drop_app_length, take_app_length. by rewrite IH.
Qed.

Lemma fill_holds_frame id t pl :
  (HEADER_SIZE + length pl <= sizeof_data)%nat ->
  holds_frame (fill (frame t pl) (set_pkt_id id new_packet)) t pl.
Proof.
  intros Hl. unfold holds_frame, wire, fill, set_in, set_data.
  cbn [data in_ set_pkt_id new_packet]. rewrite length_blit by lens.
  split_and!; [lens|done|by rewrite length_frame|].
  pose proof (slice_blit_eq 0 (length (frame t pl)) (frame t pl) (zeros sizeof_data)) as E.
  unfold slice in E. rewrite drop_0 in E. by apply E; lens.
Qed.

(** A packet as the dispatch finds it: both parsers succeed and a handler of its type
    reads the message. *)
Definition dispatched (m : message) (p : Packet) : Prop :=
  exists r1 r2, parseHeader p = (true, r1) /\ parseData r1 = Ok (true, r2) /\
    type_of_code (type (header r2)) = Some (message_type m) /\ received m r2.

Lemma fill_dispatched id m :
  fits m -> uuids_ok m -> ints_ok m ->
  dispatched m (fill (message_frame m) (set_pkt_id id new_packet)).
Proof.
  intros Hl Hu Hi. pose proof (fill_holds_frame id (message_type m) (payload m) Hl) as Hf.
  do 2 eexists. split; [by apply parseHeader_frame|].
  split; [by apply (parseData_frame _ (message_type m) (payload m))|].
  split; [apply type_of_code_code|]. by apply received_frame.
Qed.
End Messages.

Lemma new_connection_settled : settled new_connection.
Proof.
  unfold settled, new_connection. cbn [cbuf disconnected].
  split_and!; [apply empty_wf|done|vm_compute; reflexivity].
Qed.

Lemma new_connection_contents : contents (cbuf new_connection) = [].
Proof. vm_compute. reflexivity. Qed.

(** ** Properties *)

(** C2: reassembly does not depend on how the stream is cut.  However many bytes each
    receive finds, the worker's loop terminates without undefined behaviour and cuts
    exactly the packets the bytes read so far consist of, in order, each into its own
    borrowed packet, leaving the packets of other holders alone; it drops the
    connection exactly when the bytes read contain a malformed header; and otherwise
    every receive makes progress, so the buffer never fills up. *)
Theorem reassembly_any_chunking (ns : list nat) (stream : bstr) (pp : PacketPool) (B E : gset nat) :
  pool_history pp B E -> Forall (fun n => 0 < n)%nat ns -> (sum_list ns <= length stream)%nat ->
  (16 * base.size B + length stream <= 16 * currentSize)%nat ->
  exists k q dis c' pp' fs rest,
    recv_run ns stream new_connection pp = Some (Ok (q, dis, c', pp', drop k stream)) /\
    deframe (take k stream) = (fs, dis, rest) /\
    contents (cbuf c') = rest /\
    NoDup q /\ Forall2 (fun i f => wire <$> pool pp' !! i = Some f) q fs /\
    (forall i, i ∈ B -> i ∉ q /\ pool pp' !! i = pool pp !! i) /\
    (dis = false -> (length ns <= k)%nat).
Proof.
  intros Hh Hns Hsum Hroom. pose proof (history_inv pp B E Hh) as Hpool.
  destruct (recv_run_spec ns stream new_connection pp B E new_connection_settled Hpool Hns Hsum)
    as (k & q & dis & c' & pp' & fs & rest & Hrun & Hd & Hc & [Hi [Hnd Hfr] Hdata Hold] & Hfin).
  { rewrite new_connection_contents. cbn [length]. lia. }
  rewrite new_connection_contents in Hd. cbn [app] in Hd.
  exists k, q, dis, c', pp', fs, rest. split_and!; try done.
  - apply deframe_frames in Hd as [_ Hf]. clear -Hdata Hf.
    induction Hdata as [|i f q fs Hp _ IH]; constructor; apply Forall_cons_1 in Hf as [Hl Hf]; [|by apply IH].
    rewrite Hp. cbn. f_equal. unfold wire, fill, set_in, set_data. cbn [data in_ set_pkt_id new_packet].
    pose proof (slice_blit_eq 0 (length f) f (zeros sizeof_data)) as E. unfold slice in E.
    rewrite drop_0 in E. by apply E; lens.
  - intros i HiB. split; [|by apply Hold]. intros Hq. by apply (Hfr i).
  - intros Hdis. by destruct (Hfin Hdis) as (_ & [? _] & _).
Qed.

(** A pool right after start, and two small frames cut in the middle of a header. *)
Lemma reassembly_any_chunking_witness :
  let stream := frame (C := compute_soft) PKT_STATUS (str "ok") ++ frame (C := compute_soft) PKT_RESUME [] in
  exists k q dis c' pp' fs rest,
    recv_run [5; 9; 20]%nat stream new_connection new_pool = Some (Ok (q, dis, c', pp', drop k stream)) /\
    deframe (take k stream) = (fs, dis, rest) /\ NoDup q.
Proof.
  intros stream.
  destruct (reassembly_any_chunking [5; 9; 20]%nat stream new_pool ∅ ∅ history_new)
    as (k & q & dis & c' & pp' & fs & rest & H1 & H2 & _ & H3 & _).
  - repeat constructor.
  - vm_compute. lia.
  - rewrite size_empty. apply Nat2Z.inj_le. rewrite !Nat2Z.inj_mul, currentSize_Z.
    vm_compute. congruence.
  - exists k, q, dis, c', pp', fs, rest. split; [exact H1|]. split; [exact H2|exact H3].
Defined.

(** C1: messages survive the network.  A sequence of messages that fit is written to the
    socket frame after frame; the bytes arrive in any pieces of at most 12288; then the
    worker dispatches exactly one packet per message, in the order of sending, every one
    passes both parsers, has the message's type and gives its fields to the handler, and
    no byte is left in the buffer. *)
Theorem messages_delivered {C : Checksum} {L : ChecksumLaws C}
    (ms : list message) (ns : list nat) (pp : PacketPool) (B E : gset nat) :
  pool_history pp B E -> Forall fits ms -> Forall uuids_ok ms -> Forall ints_ok ms ->
  Forall (fun n => (0 < n)%nat /\ Z.of_nat n <= 12288) ns -> sum_list ns = length (concat (message_frame <$> ms)) ->
  (16 * base.size B + sum_list ns <= 16 * currentSize)%nat ->
  exists q c' pp',
    recv_run ns (concat (message_frame <$> ms)) new_connection pp = Some (Ok (q, false, c', pp', [])) /\
    contents (cbuf c') = [] /\
    Forall2 (fun i m => exists p, pool pp' !! i = Some p /\ dispatched m p) q ms.
Proof.
  intros Hh Hfit Huu Hii Hns Hsum Hroom. pose proof (history_inv pp B E Hh) as Hpool.
  pose proof (deframe_messages ms Hfit) as Hall. set (stream := concat (message_frame <$> ms)) in *.
  destruct (recv_run_spec ns stream new_connection pp B E new_connection_settled Hpool)
    as (k & q & dis & c' & pp' & fs & rest & Hrun & Hd & Hc & [Hi [Hnd Hfr] Hdata Hold] & Hfin).
  { eapply list.Forall_impl; [exact Hns|]. cbn. lia. }
  { lia. }
  { rewrite new_connection_contents. cbn [length]. lia. }
  rewrite new_connection_contents in Hd. cbn [app] in Hd.
  assert (dis = false) as ->.
  { destruct dis; [|done]. destruct (deframe_app_bad _ (drop k stream) _ _ Hd) as [r Hr].
    rewrite take_drop in Hr. congruence. }
  destruct (Hfin eq_refl) as (_ & _ & Hk).
  assert (k = sum_list ns) as -> by (apply Hk; eapply list.Forall_impl; [exact Hns|cbn; lia]).
  rewrite Hsum, firstn_all, Hall in Hd. simplify_eq.
  rewrite Hsum, drop_all in Hrun. exists q, c', pp'. split_and!; try done.
  clear -Hdata Hfit Huu Hii L. apply Forall2_fmap_r in Hdata.
  induction Hdata as [|i m q ms Hp _ IH]; constructor;
    apply Forall_cons_1 in Hfit as [? ?], Huu as [? ?], Hii as [? ?]; [|by apply IH].
  exists (fill (message_frame m) (set_pkt_id i new_packet)). split; [done|]. by apply fill_dispatched.
Qed.

Lemma messages_delivered_witness :
  exists q c' pp',
    recv_run [7; 30; 21]%nat
      (concat (message_frame (C := compute_soft) <$>
         [StringMsg PKT_STATUS (str "hello"); Login (str "a@b.c") (str "secret1234")]))
      new_connection new_pool = Some (Ok (q, false, c', pp', [])) /\ length q = 2%nat.
Proof.
  destruct (messages_delivered (C := compute_soft)
    [StringMsg PKT_STATUS (str "hello"); Login (str "a@b.c") (str "secret1234")] [7; 30; 21]%nat
    new_pool ∅ ∅ history_new) as (q & c' & pp' & H & _ & H2).
  - repeat constructor; vm_compute; lia.
  - repeat constructor.
  - repeat constructor.
  - repeat (apply Forall_cons; [split; lia|]). constructor.
  - vm_compute. reflexivity.
  - rewrite size_empty. apply Nat2Z.inj_le. rewrite Nat2Z.inj_add, !Nat2Z.inj_mul, currentSize_Z.
    vm_compute. congruence.
  - exists q, c', pp'. split; [exact H|]. exact (Forall2_length H2).
Defined.

(** A connection whose buffer is full is never read again.  When the packet pool ran
    dry with complete packets in the buffer and the buffer then filled up, no later
    completion reads the socket or cuts a packet, whatever the pool holds by then: the
    loop runs only after bytes were received, and none fit. *)
Theorem full_buffer_never_parsed (c : ConnectionBuffer) (r : recv_result) (pp : PacketPool) :
  wf (cbuf c) -> disconnected c = false -> CircularBuffer.size (cbuf c) = capacity ->
  on_recv (Some c) r pp = Some (Ok (false, Some c, pp, [])).
Proof.
  intros Hwf Hd Hs. unfold on_recv. rewrite Hd. unfold getWriteBuffers.
  by rewrite freeSpace_eq, Hs, Z.sub_diag by done.
Qed.

Lemma full_buffer_never_parsed_witness :
  let c := mkConn (receive (zeros (Z.to_nat capacity)) empty_buffer) false in
  on_recv (Some c) (RecvBytes (str "more")) new_pool = Some (Ok (false, Some c, new_pool, [])).
Proof.
  apply (full_buffer_never_parsed
    (mkConn (receive (zeros (Z.to_nat capacity)) empty_buffer) false) (RecvBytes (str "more")) new_pool).
  - apply receive_contents; [apply empty_wf|]. vm_compute. congruence.
  - reflexivity.
  - vm_compute. reflexivity.
Defined.
