(* ===== verification/Session.v ===== *)
(** Connections and sessions: session/Session.h, session/Session.cpp, pool/SessionPool.cpp,
    session/SessionManager.cpp and the disconnect handlers of network/IOCPManager.cpp.

    A [Session*] is an index into the session pool.  The registry maps user ids to
    sessions and sockets to user ids; its invariant says that the two maps and the
    sessions agree, so that every connected socket has one session, every id one socket,
    and no session is in use and free at once. *)

From stdpp Require Import pretty.
From S2P Require Import Prelude Crc32c Packet PacketPool CircularBuffer Framing.

(** ** Definitions: connections *)

Definition INVALID_SOCKET : Z := 2 ^ 64 - 1.

(** The receive buffers are shared objects: [heap] holds all that were created and
    [socketBuffers] the one of every open socket. *)
Record Connections := mkConns {
  heap : list ConnectionBuffer;
  socketBuffers : gmap Z nat;
  disconnectedSockets : gset Z;
  closed : list Z             (* the calls of [closesocket], newest first *)
}.

Definition no_connections : Connections := mkConns [] ∅ ∅ [].

(** acceptLoop: a new connection. *)
Definition accept (s : Z) (cs : Connections) : Connections :=
  mkConns (heap cs ++ [new_connection]) (<[s := length (heap cs)]> (socketBuffers cs))
    (disconnectedSockets cs ∖ {[s]}) (closed cs).

Definition poison (c : ConnectionBuffer) : ConnectionBuffer := mkConn (cbuf c) true.

Definition HandleDisconnectWithoutLock (s : Z) (cs : Connections) : Connections :=
  if decide (s ∈ disconnectedSockets cs) then cs else
  let heap := match socketBuffers cs !! s with
              | Some b => alter poison b (heap cs)
              | None => heap cs
              end in
  mkConns heap (delete s (socketBuffers cs)) ({[s]} ∪ disconnectedSockets cs) (s :: closed cs).

(** ** Definitions: sessions *)

Record Session := mkSession {
  userId : bstr;
  socket : Z;
  recievingFile : bool;
  iocp : bool;                (* the pointer is not null *)
  sid : nat;
  updated : bool;
  auth_state : Z;
  cached_user_id : bstr;
  cached_expiry : Z
}.

Definition set_userId v s := mkSession v (socket s) (recievingFile s) (iocp s) (sid s)
  (updated s) (auth_state s) (cached_user_id s) (cached_expiry s).
Definition setSocket v s := mkSession (userId s) v (recievingFile s) (iocp s) (sid s)
  (updated s) (auth_state s) (cached_user_id s) (cached_expiry s).
Definition set_recievingFile v s := mkSession (userId s) (socket s) v (iocp s) (sid s)
  (updated s) (auth_state s) (cached_user_id s) (cached_expiry s).
Definition set_iocp v s := mkSession (userId s) (socket s) (recievingFile s) v (sid s)
  (updated s) (auth_state s) (cached_user_id s) (cached_expiry s).
Definition set_sid v s := mkSession (userId s) (socket s) (recievingFile s) (iocp s) v
  (updated s) (auth_state s) (cached_user_id s) (cached_expiry s).
Definition set_updated v s := mkSession (userId s) (socket s) (recievingFile s) (iocp s) (sid s)
  v (auth_state s) (cached_user_id s) (cached_expiry s).
Definition set_auth st u e s := mkSession (userId s) (socket s) (recievingFile s) (iocp s) (sid s)
  (updated s) st u e.

(** A session of a pool just constructed; the socket has no initializer. *)
Definition new_session : Session := mkSession [] 0 false false 0 false 0 (zeros UUID_SIZE) 0.

Definition close (s : Session) : Session :=
  if negb (socket s =? INVALID_SOCKET) then setSocket INVALID_SOCKET s else s.

(** The move constructor: the new session and what is left of the old one.  The characters
    of a string that was moved from are not specified; they are [left].  [updated] is not
    moved. *)
Definition move_session (left : bstr) (other : Session) : Session * Session :=
  (mkSession (userId other) (socket other) (recievingFile other) (iocp other) (sid other) false
     (auth_state other) (cached_user_id other) (cached_expiry other),
   mkSession left INVALID_SOCKET (recievingFile other) false (sid other) (updated other) 0 (cached_user_id other) 0).

(** The move assignment from another object: [this] keeps only its [updated]. *)
Definition move_assign (left : bstr) (this other : Session) : Session * Session :=
  let this := close this in
  (mkSession (userId other) (socket other) (recievingFile other) (iocp other) (sid other) (updated this)
     (auth_state other) (cached_user_id other) (cached_expiry other),
   mkSession left INVALID_SOCKET (recievingFile other) false (sid other) (updated other) 0 (cached_user_id other) 0).

Definition maxSize : nat := Z.to_nat 10000.

Record SessionPool := mkSessionPool { spool : list Session; freeIndices : list nat }.

Definition new_session_pool : SessionPool :=
  mkSessionPool (replicate maxSize new_session) (seq 0 maxSize).

Definition borrowSession (s : Z) (sp : SessionPool) : outcome (option nat * SessionPool) :=
  match freeIndices sp with
  | [] => Ok (None, sp)
  | idx :: rest =>
      if (idx <? length (spool sp))%nat
      then Ok (Some idx, mkSessionPool (alter (fun se => setSocket s (set_sid idx se)) idx (spool sp)) rest)
      else UB
  end.

(** The fields that [returnSession] resets; [updated] and [iocp] are not among them. *)
Definition reset_session (s : Session) : Session :=
  mkSession [] INVALID_SOCKET false (iocp s) (sid s) (updated s) 0 (zeros UUID_SIZE) 0.

Definition returnSession (ptr : option nat) (sp : SessionPool) : outcome SessionPool :=
  match ptr with
  | None => Ok sp
  | Some ptr =>
      match spool sp !! ptr with
      | None => UB
      | Some s =>
          if (maxSize <=? sid s)%nat then Throw else
          Ok (mkSessionPool (<[ptr := reset_session s]> (spool sp)) (freeIndices sp ++ [sid s]))
      end
  end.

(** ** Definitions: the registry *)

Record Registry := mkRegistry {
  sessions : gmap bstr (option nat);   (* [None]: a null pointer *)
  socketToUserId : gmap Z bstr;
  pool_of : SessionPool
}.

Definition new_registry : Registry := mkRegistry ∅ ∅ new_session_pool.

Definition set_pool sp r := mkRegistry (sessions r) (socketToUserId r) sp.

(** The object behind a [Session*]. *)
Definition deref (r : Registry) (ptr : option nat) : outcome Session :=
  match ptr ≫= (spool (pool_of r) !!.) with Some s => Ok s | None => UB end.

Definition update_session (f : Session -> Session) (ptr : nat) (r : Registry) : Registry :=
  set_pool (mkSessionPool (alter f ptr (spool (pool_of r))) (freeIndices (pool_of r))) r.

Definition addSession (id : bstr) (ptr : nat) (r : Registry) : outcome Registry :=
  let! s := deref r (Some ptr) in
  Ok (mkRegistry (<[id := Some ptr]> (sessions r)) (<[socket s := id]> (socketToUserId r)) (pool_of r)).

Definition removeSession (id : bstr) (r : Registry) : outcome Registry :=
  match sessions r !! id with
  | None => Ok r
  | Some ptr =>
      let! s := deref r ptr in
      let! sp := returnSession ptr (pool_of r) in
      Ok (mkRegistry (delete id (sessions r)) (delete (socket s) (socketToUserId r)) sp)
  end.

Definition removeBySocket (s : Z) (r : Registry) : outcome Registry :=
  match socketToUserId r !! s with
  | None => Ok r
  | Some id =>
      let s2u := delete s (socketToUserId r) in
      match sessions r !! id with
      | None => Ok (mkRegistry (sessions r) s2u (pool_of r))
      | Some ptr =>
          let! sp := returnSession ptr (pool_of r) in
          Ok (mkRegistry (delete id (sessions r)) s2u sp)
      end
  end.

Definition findSession (id : bstr) (r : Registry) : option nat := default None (sessions r !! id).

(** [sessions[it->second]] inserts a null pointer when the id is not registered. *)
Definition findBySocket (s : Z) (r : Registry) : option nat * Registry :=
  match socketToUserId r !! s with
  | None => (None, r)
  | Some id =>
      match sessions r !! id with
      | Some ptr => (ptr, r)
      | None => (None, mkRegistry (<[id := None]> (sessions r)) (socketToUserId r) (pool_of r))
      end
  end.

Definition getUserIdBySocket (s : Z) (r : Registry) : bstr := default [] (socketToUserId r !! s).

Definition checkReciever (id : bstr) (r : Registry) : outcome bool :=
  match sessions r !! id with
  | None => Ok false
  | Some ptr => let! s := deref r ptr in Ok (recievingFile s)
  end.

Definition setRecievingFile (v : bool) (id : bstr) (r : Registry) : outcome Registry :=
  match sessions r !! id with
  | None => Ok r
  | Some None => UB
  | Some (Some ptr) => Ok (update_session (set_recievingFile v) ptr r)
  end.
Definition setRecievingFileFalse := setRecievingFile false.
Definition setRecievingFileTrue := setRecievingFile true.

(** The part of [updateNewId] that ends an older session of the same user. *)
Definition displace_old (s : Session) (r : Registry) (cs : Connections)
  : outcome (Registry * Connections) :=
  match sessions r !! userId s with
  | None => Ok (r, cs)
  | Some old =>
      let! o := deref r old in
      if negb (socket s =? socket o) then
        if negb (iocp s) then UB else
        let cs := HandleDisconnectWithoutLock (socket o) cs in
        let! sp := returnSession old (pool_of r) in
        Ok (mkRegistry (delete (userId s) (sessions r)) (delete (socket o) (socketToUserId r)) sp, cs)
      else Ok (r, cs)
  end.

(** [id] is the temporary id under which the session was registered; its new id is in
    the session already. *)
Definition updateNewId (id : bstr) (ptr : nat) (r : Registry) (cs : Connections)
  : outcome (Registry * Connections) :=
  let! s := deref r (Some ptr) in
  let! (r, cs) := displace_old s r cs in
  let r := mkRegistry (<[userId s := Some ptr]> (delete id (sessions r)))
             (<[socket s := userId s]> (socketToUserId r)) (pool_of r) in
  Ok (update_session (set_updated true) ptr r, cs).

Definition handleDisconnect (s : Z) (r : Registry) (cs : Connections) : outcome (Registry * Connections) :=
  if decide (s ∈ disconnectedSockets cs) then Ok (r, cs) else
  let id := getUserIdBySocket s r in
  let! r := if decide (id = []) then Ok r else removeSession id r in
  Ok (r, HandleDisconnectWithoutLock s cs).

(** The temporary id of a connection that has not logged in. *)
Definition temp_id (sk : Z) : bstr := str (pretty (Z.to_N sk)) ++ str "id".

(** The session of a socket, created on its first packet (workerThread). *)
Definition session_for (sk : Z) (r : Registry) : outcome (option nat * Registry) :=
  let (p, r) := findBySocket sk r in
  match p with
  | Some p => Ok (Some p, r)
  | None =>
      let! (p, sp) := borrowSession sk (pool_of r) in
      match p with
      | None => Ok (None, set_pool sp r)
      | Some p =>
          let r := update_session (fun s => set_userId (temp_id sk) (setSocket sk (set_iocp true s)))
                     p (set_pool sp r) in
          let! r := addSession (temp_id sk) p r in
          Ok (Some p, r)
      end
  end.

(** A login that succeeded, on a session that is not [updated]: the handler stores the
    user's id in the session and the router calls [updateNewId] with the id it had before. *)
Definition first_login (newid : bstr) (p : nat) (r : Registry) (cs : Connections)
  : outcome (Registry * Connections) :=
  let! s := deref r (Some p) in
  updateNewId (userId s) p (update_session (set_userId newid) p r) cs.

(** Any login that succeeded: on a session that is [updated], by an earlier login on the
    connection or on an earlier connection that had the same object, only the object gets
    the new id. *)
Definition login (newid : bstr) (p : nat) (r : Registry) (cs : Connections)
  : outcome (Registry * Connections) :=
  let! s := deref r (Some p) in
  if updated s then Ok (update_session (set_userId newid) p r, cs) else first_login newid p r cs.

(** ** The invariant *)

(** An id that is not a temporary one: user ids are 32 hexadecimal digits. *)
Definition real_id (id : bstr) : Prop := id <> [] /\ forall sk, id <> temp_id sk.

(** The session [s] at [p] is registered under [id]. *)
Record registered (r : Registry) (id : bstr) (p : nat) (s : Session) : Prop := mkReg {
  reg_found : sessions r !! id = Some (Some p);
  reg_obj : spool (pool_of r) !! p = Some s;
  reg_sid : sid s = p;
  reg_back : socketToUserId r !! socket s = Some id;
  reg_inuse : p ∉ freeIndices (pool_of r);
  reg_userId : userId s = id;
  reg_iocp : iocp s = true;
  reg_id : (0 <= socket s /\ id = temp_id (socket s)) \/ real_id id
}.

Record registry_inv (r : Registry) : Prop := mkRegInv {
  reg_len : length (spool (pool_of r)) = maxSize;
  reg_sessions : forall id ptr, sessions r !! id = Some ptr -> exists p s, registered r id p s;
  reg_sockets : forall sk id, socketToUserId r !! sk = Some id ->
    exists p s, registered r id p s /\ socket s = sk;
  reg_free : NoDup (freeIndices (pool_of r)) /\ forall i, i ∈ freeIndices (pool_of r) -> (i < maxSize)%nat
}.

(** ** Lemmas *)

Lemma maxSize_Z : Z.of_nat maxSize = 10000.
Proof. reflexivity. Qed.
#[global] Opaque maxSize.

Lemma str_inj a b : str a = str b -> a = b.
Proof.
  unfold str. intros H. apply (f_equal String.string_of_list_byte) in H.
  by rewrite !String.string_of_list_byte_of_string in H.
Qed.

Lemma temp_id_inj a b : 0 <= a -> 0 <= b -> temp_id a = temp_id b -> a = b.
Proof.
  unfold temp_id. intros Ha Hb H. apply app_inj_tail_iff in H || apply app_inv_tail in H.
  apply str_inj in H. apply (inj pretty) in H. lia.
Qed.

Lemma temp_id_nonempty a : temp_id a <> [].
Proof. unfold temp_id. intros H. by apply app_eq_nil in H as [_ H]. Qed.

Lemma registered_id_nonempty r id p s : registered r id p s -> id <> [].
Proof. intros []. destruct reg_id0 as [[_ ->]|[? _]]; [apply temp_id_nonempty|done]. Qed.

(** Registration is one-to-one. *)
Lemma registered_fun r id p p' s s' :
  registered r id p s -> registered r id p' s' -> p = p' /\ s = s'.
Proof. intros [] []. assert (p = p') by congruence. subst. split; congruence. Qed.

Lemma registered_ptr r id id' p s s' :
  registered r id p s -> registered r id' p s' -> id = id'.
Proof. intros [] []. congruence. Qed.

Lemma registered_sock r id id' p p' s s' :
  registered r id p s -> registered r id' p' s' -> socket s = socket s' -> id = id'.
Proof. intros [] []. congruence. Qed.

Lemma deref_registered r id p s : registered r id p s -> deref r (Some p) = Ok s.
Proof. intros []. unfold deref. cbn. by rewrite reg_obj0. Qed.

Lemma return_registered r id p s :
  registry_inv r -> registered r id p s ->
  returnSession (Some p) (pool_of r) =
    Ok (mkSessionPool (<[p := reset_session s]> (spool (pool_of r))) (freeIndices (pool_of r) ++ [p])).
Proof.
  intros Hr []. cbn. rewrite reg_obj0, reg_sid0.
  assert (p < maxSize)%nat by (rewrite <- (reg_len r Hr); by eapply lookup_lt_Some).
  by rewrite (proj2 (Nat.leb_gt _ _)).
Qed.

(** The registry without one registration, its session back in the pool. *)
Definition unregister (id : bstr) (p : nat) (s : Session) (r : Registry) : Registry :=
  mkRegistry (delete id (sessions r)) (delete (socket s) (socketToUserId r))
    (mkSessionPool (<[p := reset_session s]> (spool (pool_of r))) (freeIndices (pool_of r) ++ [p])).

Lemma registered_unregister r id p s id' p' s' :
  registered r id p s -> registered r id' p' s' -> id' <> id ->
  registered (unregister id p s r) id' p' s'.
Proof.
  intros H H' Hne. pose proof (registered_ptr r id id' p s s') as Hp.
  pose proof (registered_sock r id id' p p' s s' H H') as Hs.
  assert (Hpp : p' <> p) by (intros ->; naive_solver).
  destruct H'. constructor; cbn [unregister sessions socketToUserId pool_of spool freeIndices]; try done.
  - by rewrite lookup_delete_ne.
  - by rewrite list_lookup_insert_ne.
  - rewrite lookup_delete_ne; [done|]. intros E. by rewrite Hs in Hne.
  - rewrite elem_of_app, list_elem_of_singleton. naive_solver.
Qed.

Lemma unregister_inv r id p s :
  registry_inv r -> registered r id p s -> registry_inv (unregister id p s r).
Proof.
  intros Hr H. assert (Hlt : (p < maxSize)%nat)
    by (rewrite <- (reg_len r Hr); destruct H; by eapply lookup_lt_Some).
  constructor; cbn [unregister sessions socketToUserId pool_of spool freeIndices].
  - rewrite length_insert. apply Hr.
  - intros id' ptr' [Hne Hl]%lookup_delete_Some.
    destruct (reg_sessions r Hr id' ptr' Hl) as (p' & s' & H'). exists p', s'.
    by apply registered_unregister.
  - intros sk id' [Hne Hl]%lookup_delete_Some.
    destruct (reg_sockets r Hr sk id' Hl) as (p' & s' & H' & <-). exists p', s'. split; [|done].
    apply registered_unregister; [done..|]. intros ->.
    destruct (registered_fun _ _ _ _ _ _ H H') as [_ ->]. done.
  - destruct (reg_free r Hr) as [Hnd Hf]. split.
    + apply list.NoDup_app. split_and!; [done| |by apply NoDup_singleton].
      intros i Hi ->%list_elem_of_singleton. by destruct H.
    + intros i [?| ->%list_elem_of_singleton]%elem_of_app; [by apply Hf|done].
Qed.

Lemma removeSession_eq r id :
  registry_inv r ->
  (sessions r !! id = None /\ removeSession id r = Ok r) \/
  (exists p s, registered r id p s /\ removeSession id r = Ok (unregister id p s r)).
Proof.
  intros Hr. unfold removeSession. destruct (sessions r !! id) as [ptr|] eqn:E; [right|by left].
  destruct (reg_sessions r Hr id ptr E) as (p & s & H). exists p, s. split; [done|].
  pose proof (reg_found _ _ _ _ H) as E'. rewrite E in E'. simplify_eq.
  rewrite (deref_registered _ _ _ _ H). cbn [obind].
  by rewrite (return_registered r id p s Hr H).
Qed.

Lemma removeBySocket_eq r sk :
  registry_inv r ->
  (socketToUserId r !! sk = None /\ removeBySocket sk r = Ok r) \/
  (exists id p s, registered r id p s /\ socket s = sk /\ removeBySocket sk r = Ok (unregister id p s r)).
Proof.
  intros Hr. unfold removeBySocket. destruct (socketToUserId r !! sk) as [id|] eqn:E; [right|by left].
  destruct (reg_sockets r Hr sk id E) as (p & s & H & <-). exists id, p, s. split_and!; [done|done|].
  rewrite (reg_found _ _ _ _ H), (return_registered r id p s Hr H). done.
Qed.

(** *** A new session *)

Lemma findBySocket_eq r sk :
  registry_inv r ->
  (socketToUserId r !! sk = None /\ findBySocket sk r = (None, r)) \/
  (exists id p s, registered r id p s /\ socket s = sk /\ findBySocket sk r = (Some p, r)).
Proof.
  intros Hr. unfold findBySocket. destruct (socketToUserId r !! sk) as [id|] eqn:E; [right|by left].
  destruct (reg_sockets r Hr sk id E) as (p & s & H & <-). exists id, p, s.
  by rewrite (reg_found _ _ _ _ H).
Qed.

Lemma temp_id_free r sk :
  registry_inv r -> 0 <= sk -> socketToUserId r !! sk = None -> sessions r !! temp_id sk = None.
Proof.
  intros Hr Hsk Hn. destruct (sessions r !! temp_id sk) as [ptr|] eqn:E; [|done].
  destruct (reg_sessions r Hr _ _ E) as (p & s & H).
  destruct (reg_id _ _ _ _ H) as [[Hs Hid]|[_ Hid]]; [|by destruct (Hid sk)].
  apply temp_id_inj in Hid; [|done|done]. subst sk. pose proof (reg_back _ _ _ _ H). congruence.
Qed.

Lemma session_for_spec r sk :
  registry_inv r -> 0 <= sk ->
  exists ptr r', session_for sk r = Ok (ptr, r') /\ registry_inv r' /\
    match ptr with
    | None => r' = r /\ freeIndices (pool_of r) = []
    | Some p => exists id s, registered r' id p s /\ socket s = sk
    end /\
    (forall id p s, registered r id p s -> registered r' id p s).
Proof.
  intros Hr Hsk. unfold session_for.
  destruct (findBySocket_eq r sk Hr) as [[Hn ->]|(id & p & s & H & Hs & ->)].
  2: { exists (Some p), r. split_and!; [done|done|by exists id, s|done]. }
  unfold borrowSession. destruct (freeIndices (pool_of r)) as [|p rest] eqn:Hf.
  { exists None, r. cbn [obind]. split_and!; [by destruct r|done|done|done|done]. }
  destruct (reg_free r Hr) as [Hnd Hlt]. rewrite Hf in Hnd, Hlt. apply list.NoDup_cons in Hnd as [Hnin Hnd].
  assert (Hp : (p < maxSize)%nat) by (apply Hlt; left).
  rewrite (proj2 (Nat.ltb_lt _ _)) by (rewrite (reg_len r Hr); done). cbn [obind].
  destruct (lookup_lt_is_Some_2 (spool (pool_of r)) p) as [s0 Hs0]; [rewrite (reg_len r Hr); done|].
  set (s := set_userId (temp_id sk) (setSocket sk (set_iocp true (setSocket sk (set_sid p s0))))).
  unfold addSession, deref, update_session, set_pool. cbn [pool_of spool sessions socketToUserId freeIndices mbind option_bind].
  rewrite !list_lookup_alter_eq, Hs0. cbn [fmap option_fmap option_map obind]. fold s.
  change (socket s) with sk. eexists _, _. split; [done|].
  set (r' := mkRegistry _ _ _).
  assert (Hpool : spool (pool_of r') !! p = Some s).
  { unfold r'. cbn [pool_of spool]. rewrite !list_lookup_alter_eq, Hs0. done. }
  assert (Hold : forall id p' s', registered r id p' s' -> registered r' id p' s').
  { intros id p' s' H. assert (Hne : p' <> p).
    { intros ->. destruct H. rewrite Hf in reg_inuse0. by destruct reg_inuse0; left. }
    assert (Hid : id <> temp_id sk).
    { intros ->. destruct H. rewrite (temp_id_free r sk Hr Hsk Hn) in reg_found0. done. }
    destruct H. constructor; unfold r'; cbn [pool_of spool sessions socketToUserId freeIndices]; try done.
    - by rewrite lookup_insert_ne.
    - by rewrite !list_lookup_alter_ne.
    - rewrite lookup_insert_ne; [done|]. intros E. rewrite <- E, Hn in reg_back0. done.
    - rewrite Hf in reg_inuse0. intros Hin. apply reg_inuse0. by right. }
  assert (Hnew : registered r' (temp_id sk) p s).
  { constructor; try done; unfold r'; cbn [pool_of spool sessions socketToUserId freeIndices].
    - by rewrite lookup_insert_eq.
    - by rewrite lookup_insert_eq.
    - left. done. }
  split_and!; [|by exists (temp_id sk), s|done]. constructor.
  - unfold r'. cbn [pool_of spool]. rewrite !length_alter. apply Hr.
  - unfold r'. cbn [sessions]. intros id ptr [[<- _]|[_ Hl]]%lookup_insert_Some; [by exists p, s|].
    destruct (reg_sessions r Hr id ptr Hl) as (p' & s' & H). exists p', s'. by apply Hold.
  - unfold r' at 1. cbn [socketToUserId]. intros sk' id [[<- <-]|[_ Hl]]%lookup_insert_Some; [by exists p, s|].
    destruct (reg_sockets r Hr sk' id Hl) as (p' & s' & H & ?). exists p', s'. split; [by apply Hold|done].
  - unfold r'. cbn [pool_of freeIndices]. split; [done|]. intros i Hi. apply Hlt. by right.
Qed.

(** *** A login *)

(** The registry with the session [p] under a new id. *)
Definition rename (id newid : bstr) (p : nat) (s : Session) (r : Registry) : Registry :=
  mkRegistry (<[newid := Some p]> (delete id (sessions r))) (<[socket s := newid]> (socketToUserId r))
    (mkSessionPool (<[p := set_updated true (set_userId newid s)]> (spool (pool_of r)))
       (freeIndices (pool_of r))).

Lemma rename_spec r id newid p s :
  registry_inv r -> registered r id p s -> real_id newid ->
  sessions r !! newid = None \/ newid = id ->
  registry_inv (rename id newid p s r) /\
  registered (rename id newid p s r) newid p (set_updated true (set_userId newid s)) /\
  (forall id' p' s', registered r id' p' s' -> id' <> id -> registered (rename id newid p s r) id' p' s').
Proof.
  intros Hr H Hnew Hfree. set (r' := rename id newid p s r).
  assert (Hlt : (p < length (spool (pool_of r)))%nat) by (destruct H; by eapply lookup_lt_Some).
  assert (Hn : registered r' newid p (set_updated true (set_userId newid s))).
  { destruct H. constructor; unfold r'; cbn [rename sessions socketToUserId pool_of spool freeIndices
      set_updated set_userId sid socket userId iocp]; try done.
    - by rewrite lookup_insert_eq.
    - by rewrite list_lookup_insert_eq.
    - by rewrite lookup_insert_eq.
    - by right. }
  assert (Ho : forall id' p' s', registered r id' p' s' -> id' <> id -> registered r' id' p' s').
  { intros id' p' s' H' Hne. pose proof (registered_sock r id id' p p' s s' H H') as Hs.
    assert (p' <> p) by (intros ->; by rewrite (registered_ptr r id id' p s s' H H') in Hne).
    assert (id' <> newid).
    { intros ->. destruct H', Hfree; congruence. }
    destruct H'. constructor; unfold r'; cbn [rename sessions socketToUserId pool_of spool freeIndices]; try done.
    - by rewrite lookup_insert_ne, lookup_delete_ne by done.
    - by rewrite list_lookup_insert_ne.
    - rewrite lookup_insert_ne; [done|]. intros E. by rewrite Hs in Hne. }
  split_and!; [|done|done]. constructor.
  - unfold r'. cbn [rename pool_of spool]. rewrite length_insert. apply Hr.
  - unfold r' at 1. cbn [rename sessions].
    intros id' ptr' [[<- _]|[_ [Hne Hl]%lookup_delete_Some]]%lookup_insert_Some; [by eexists _, _|].
    destruct (reg_sessions r Hr id' ptr' Hl) as (p' & s' & H'). exists p', s'. by apply Ho.
  - unfold r' at 1. cbn [rename socketToUserId].
    intros sk id' [[<- <-]|[Hne Hl]]%lookup_insert_Some; [by eexists p, _|].
    destruct (reg_sockets r Hr sk id' Hl) as (p' & s' & H' & <-). exists p', s'. split; [|done].
    apply Ho; [done|]. intros ->. destruct (registered_fun _ _ _ _ _ _ H H') as [_ ->]. done.
  - apply Hr.
Qed.

Lemma alter_insert_same {A} (f : A -> A) i (l : list A) x : l !! i = Some x -> alter f i l = <[i := f x]> l.
Proof.
  intros H. apply list_eq. intros j. destruct (decide (j = i)) as [->|].
  - rewrite list_lookup_alter_eq, H, list_lookup_insert_eq by (by eapply lookup_lt_Some). done.
  - by rewrite list_lookup_alter_ne, list_lookup_insert_ne by done.
Qed.

(** The registry with the new id in the session, before the maps change. *)
Definition renamed_object (newid : bstr) (p : nat) (s : Session) (r : Registry) : Registry :=
  set_pool (mkSessionPool (<[p := set_userId newid s]> (spool (pool_of r))) (freeIndices (pool_of r))) r.

Lemma login_unfold r cs id newid p s :
  registered r id p s ->
  first_login newid p r cs =
    (let! (r, cs) := displace_old (set_userId newid s) (renamed_object newid p s r) cs in
     Ok (update_session (set_updated true) p
           (mkRegistry (<[newid := Some p]> (delete id (sessions r)))
              (<[socket s := newid]> (socketToUserId r)) (pool_of r)), cs)).
Proof.
  intros H. assert (Hlt : (p < length (spool (pool_of r)))%nat) by (destruct H; by eapply lookup_lt_Some).
  unfold first_login. rewrite (deref_registered _ _ _ _ H). cbn [obind]. rewrite (reg_userId _ _ _ _ H).
  assert (E : update_session (set_userId newid) p r = renamed_object newid p s r).
  { unfold update_session. rewrite (alter_insert_same _ p _ s) by apply H. done. }
  assert (D : deref (renamed_object newid p s r) (Some p) = Ok (set_userId newid s)).
  { unfold deref. cbn [renamed_object set_pool pool_of spool mbind option_bind].
    by rewrite list_lookup_insert_eq. }
  unfold updateNewId. by rewrite E, D.
Qed.

Lemma login_first r cs id newid p s :
  registered r id p s -> updated s = false -> login newid p r cs = first_login newid p r cs.
Proof. intros H Hu. unfold login. rewrite (deref_registered _ _ _ _ H). cbn [obind]. by rewrite Hu. Qed.

Lemma login_eq r cs id newid p s :
  registry_inv r -> registered r id p s -> real_id newid ->
  (sessions r !! newid = None \/ newid = id) /\ first_login newid p r cs = Ok (rename id newid p s r, cs) \/
  exists old o, registered r newid old o /\ newid <> id /\
    first_login newid p r cs = Ok (rename id newid p s (unregister newid old o r),
                             HandleDisconnectWithoutLock (socket o) cs).
Proof.
  intros Hr H Hnew. rewrite (login_unfold r cs id newid p s H). pose proof H as H0. destruct H0.
  assert (Hlt : (p < length (spool (pool_of r)))%nat) by (by eapply lookup_lt_Some).
  assert (Hdone : Ok (update_session (set_updated true) p
      (mkRegistry (<[newid := Some p]> (delete id (sessions (renamed_object newid p s r))))
         (<[socket s := newid]> (socketToUserId (renamed_object newid p s r)))
         (pool_of (renamed_object newid p s r))), cs) = Ok (rename id newid p s r, cs)).
  { unfold update_session, renamed_object, rename, set_pool. cbn [sessions socketToUserId pool_of spool freeIndices].
    erewrite alter_insert_same by (by apply list_lookup_insert_eq). by rewrite list_insert_insert_eq. }
  assert (Hdisp : displace_old (set_userId newid s) (renamed_object newid p s r) cs =
    match sessions r !! newid with
    | None => Ok (renamed_object newid p s r, cs)
    | Some old =>
        let! o := deref (renamed_object newid p s r) old in
        if negb (socket s =? socket o) then
          if negb (iocp s) then UB else
          let! sp := returnSession old (pool_of (renamed_object newid p s r)) in
          Ok (mkRegistry (delete newid (sessions r)) (delete (socket o) (socketToUserId r)) sp,
              HandleDisconnectWithoutLock (socket o) cs)
        else Ok (renamed_object newid p s r, cs)
    end) by done.
  rewrite Hdisp. destruct (sessions r !! newid) as [ptr|] eqn:E.
  2: { left. split; [by left|]. exact Hdone. }
  destruct (reg_sessions r Hr newid ptr E) as (old & o & Hold).
  pose proof (reg_found _ _ _ _ Hold) as E'. rewrite E in E'. injection E' as ->.
  destruct (decide (newid = id)) as [->|Hne].
  - left. split; [by right|]. destruct (registered_fun _ _ _ _ _ _ H Hold) as [<- <-].
    unfold deref at 1. cbn [renamed_object set_pool pool_of spool mbind option_bind].
    rewrite list_lookup_insert_eq by done. cbn [obind set_userId socket]. rewrite Z.eqb_refl. exact Hdone.
  - right. exists old, o. split_and!; [done|done|].
    assert (Hpo : old <> p).
    { intros ->. apply Hne. symmetry. by apply (registered_ptr r _ _ _ s o H). }
    unfold deref at 1. cbn [renamed_object set_pool pool_of spool mbind option_bind].
    rewrite list_lookup_insert_ne by done. rewrite (reg_obj _ _ _ _ Hold). cbn [obind].
    rewrite reg_iocp0. destruct (Z.eqb_spec (socket s) (socket o)) as [Es|Es].
    { destruct Hne. symmetry. by apply (registered_sock r _ _ _ _ s o H Hold). }
    cbn [negb returnSession spool]. rewrite list_lookup_insert_ne, (reg_obj _ _ _ _ Hold) by done.
    assert (old < maxSize)%nat by (rewrite <- (reg_len r Hr); destruct Hold; by eapply lookup_lt_Some).
    rewrite (reg_sid _ _ _ _ Hold), (proj2 (Nat.leb_gt _ _)) by done.
    unfold update_session, rename, unregister, set_pool.
    cbn [obind sessions socketToUserId pool_of spool freeIndices].
    rewrite (list_insert_insert_ne _ old) by done.
    erewrite alter_insert_same by (apply list_lookup_insert_eq; by rewrite length_insert).
    by rewrite list_insert_insert_eq.
Qed.

(** *** Updates of a session in place *)

Lemma update_session_inv r p f :
  registry_inv r ->
  (forall s, sid (f s) = sid s /\ socket (f s) = socket s /\ userId (f s) = userId s /\ iocp (f s) = iocp s) ->
  registry_inv (update_session f p r) /\
  (forall id p' s, registered r id p' s ->
     registered (update_session f p r) id p' (if decide (p' = p) then f s else s)).
Proof.
  intros Hr Hf.
  assert (Ho : forall id p' s, registered r id p' s ->
     registered (update_session f p r) id p' (if decide (p' = p) then f s else s)).
  { intros id p' s []. destruct (decide (p' = p)) as [->|Hne];
      [destruct (Hf s) as (E1 & E2 & E3 & E4)|];
      constructor; unfold update_session, set_pool; cbn [sessions socketToUserId pool_of spool freeIndices];
      rewrite ?E1, ?E2, ?E3, ?E4; try done.
    - by rewrite list_lookup_alter_eq, reg_obj0.
    - by rewrite list_lookup_alter_ne. }
  split; [|done]. constructor; unfold update_session, set_pool at 1; cbn [sessions socketToUserId pool_of spool freeIndices].
  - rewrite length_alter. apply Hr.
  - intros id ptr Hl. destruct (reg_sessions r Hr id ptr Hl) as (p' & s & H). eexists p', _. by apply Ho.
  - intros sk id Hl. destruct (reg_sockets r Hr sk id Hl) as (p' & s & H & <-). eexists p', _.
    split; [by apply Ho|]. destruct (decide (p' = p)); [by apply Hf|done].
  - apply Hr.
Qed.

Lemma setRecievingFile_inv r v id :
  registry_inv r -> exists r', setRecievingFile v id r = Ok r' /\ registry_inv r'.
Proof.
  intros Hr. unfold setRecievingFile. destruct (sessions r !! id) as [ptr|] eqn:E; [|by exists r].
  destruct (reg_sessions r Hr id ptr E) as (p & s & H). pose proof (reg_found _ _ _ _ H) as E'.
  rewrite E in E'. injection E' as ->. eexists. split; [done|]. by apply update_session_inv.
Qed.

Lemma handleDisconnect_eq r cs sk :
  registry_inv r ->
  handleDisconnect sk r cs = Ok (r, cs) /\ sk ∈ disconnectedSockets cs \/
  sk ∉ disconnectedSockets cs /\
  (socketToUserId r !! sk = None /\ handleDisconnect sk r cs = Ok (r, HandleDisconnectWithoutLock sk cs) \/
   exists id p s, registered r id p s /\ socket s = sk /\
     handleDisconnect sk r cs = Ok (unregister id p s r, HandleDisconnectWithoutLock sk cs)).
Proof.
  intros Hr. unfold handleDisconnect. destruct (decide (sk ∈ disconnectedSockets cs)); [by left|right].
  split; [done|]. unfold getUserIdBySocket.
  destruct (socketToUserId r !! sk) as [id|] eqn:E; [right|left; by split].
  destruct (reg_sockets r Hr sk id E) as (p & s & H & <-). exists id, p, s. split_and!; [done|done|].
  change (default [] (Some id)) with id. rewrite decide_False by (by eapply registered_id_nonempty).
  destruct (removeSession_eq r id Hr) as [[E' _]|(p' & s' & H' & ->)].
  - pose proof (reg_found _ _ _ _ H). congruence.
  - destruct (registered_fun _ _ _ _ _ _ H H') as [<- <-]. done.
Qed.

Lemma new_registry_inv : registry_inv new_registry.
Proof.
  constructor; cbn [new_registry sessions socketToUserId pool_of new_session_pool spool freeIndices].
  - lens.
  - done.
  - done.
  - split; [apply NoDup_seq|]. intros i Hi. apply elem_of_seq in Hi. lia.
Qed.

(** ** Histories of the registry *)

Inductive reg_op :=
| OpAccept (sk : Z)                     (* acceptLoop *)
| OpPacket (sk : Z)                     (* packets arrived: find or create the session *)
| OpLogin (p : nat) (newid : bstr)
| OpLogout (id : bstr)
| OpRemoveSocket (sk : Z)
| OpDisconnect (sk : Z)
| OpReceiving (v : bool) (id : bstr).

Definition run_reg_op (o : reg_op) (r : Registry) (cs : Connections) : outcome (Registry * Connections) :=
  match o with
  | OpAccept sk => Ok (r, accept sk cs)
  | OpPacket sk => let! (_, r) := session_for sk r in Ok (r, cs)
  | OpLogin p newid => login newid p r cs
  | OpLogout id => let! r := removeSession id r in Ok (r, cs)
  | OpRemoveSocket sk => let! r := removeBySocket sk r in Ok (r, cs)
  | OpDisconnect sk => handleDisconnect sk r cs
  | OpReceiving v id => let! r := setRecievingFile v id r in Ok (r, cs)
  end.

(** Sockets are handles; a login concerns a registered session that has not logged in yet,
    and gives a user id.  Seats.v has the histories with every login. *)
Definition reg_op_ok (o : reg_op) (r : Registry) : Prop :=
  match o with
  | OpPacket sk => 0 <= sk
  | OpLogin p newid => real_id newid /\ exists id s, registered r id p s /\ updated s = false
  | _ => True
  end.

Inductive reg_history : Registry -> Connections -> Prop :=
| reg_history_new : reg_history new_registry no_connections
| reg_history_op r cs o r' cs' :
    reg_history r cs -> reg_op_ok o r -> run_reg_op o r cs = Ok (r', cs') -> reg_history r' cs'.

Lemma run_reg_op_inv o r cs :
  registry_inv r -> reg_op_ok o r ->
  exists r' cs', run_reg_op o r cs = Ok (r', cs') /\ registry_inv r'.
Proof.
  intros Hr Ho. destruct o as [sk|sk|p newid|id|sk|sk|v id]; cbn [run_reg_op reg_op_ok] in *.
  - by eexists _, _.
  - destruct (session_for_spec r sk Hr Ho) as (ptr & r' & -> & ? & _). by eexists _, _.
  - destruct Ho as [Hn (id & s & H & Hu)]. rewrite (login_first r cs id newid p s H Hu). destruct (login_eq r cs id newid p s Hr H Hn)
      as [[Hfree ->]|(old & o & Hold & Hne & ->)]; (eexists _, _; split; [done|]).
    + by apply rename_spec.
    + apply rename_spec; [by apply unregister_inv| |done|].
      * apply registered_unregister; [done..|congruence].
      * left. cbn. by rewrite lookup_delete_eq.
  - destruct (removeSession_eq r id Hr) as [[_ ->]|(p & s & H & ->)]; (eexists _, _; split; [done|]); [done|].
    by apply unregister_inv.
  - destruct (removeBySocket_eq r sk Hr) as [[_ ->]|(id & p & s & H & _ & ->)]; (eexists _, _; split; [done|]); [done|].
    by apply unregister_inv.
  - destruct (handleDisconnect_eq r cs sk Hr) as [[-> _]|[_ [[_ ->]|(id & p & s & H & _ & ->)]]];
      (eexists _, _; split; [done|]); [done|done|]. by apply unregister_inv.
  - destruct (setRecievingFile_inv r v id Hr) as (r' & -> & ?). by eexists _, _.
Qed.

Lemma reg_history_inv r cs : reg_history r cs -> registry_inv r.
Proof.
  induction 1 as [|r cs o r' cs' _ IH Ho Hrun]; [apply new_registry_inv|].
  destruct (run_reg_op_inv o r cs IH Ho) as (r2 & cs2 & E & ?). congruence.
Qed.

(** ** Properties *)

(** The first login moves the connection's session from its temporary id to the user's id,
    and a session the user still had on another socket is ended first: its socket is
    marked disconnected, closed, and unmapped, and its session returned to the pool;
    every other registration stays as it was. *)
Theorem login_displaces (r : Registry) (cs : Connections) (id newid : bstr) (p : nat) (s : Session) :
  reg_history r cs -> registered r id p s -> updated s = false -> real_id newid ->
  exists r' cs', login newid p r cs = Ok (r', cs') /\
    findSession newid r' = Some p /\ getUserIdBySocket (socket s) r' = newid /\
    (id <> newid -> findSession id r' = None) /\
    (forall old o, registered r newid old o -> newid <> id ->
       socketToUserId r' !! socket o = None /\ old ∈ freeIndices (pool_of r') /\
       socket o ∈ disconnectedSockets cs') /\
    (forall id' p' s', registered r id' p' s' -> id' <> id -> id' <> newid -> registered r' id' p' s').
Proof.
  intros Hh H Hu Hn. pose proof (reg_history_inv r cs Hh) as Hr. unfold findSession, getUserIdBySocket.
  rewrite (login_first r cs id newid p s H Hu).
  destruct (login_eq r cs id newid p s Hr H Hn) as [[Hfree ->]|(old & o & Hold & Hne & ->)];
    (eexists _, _; split; [done|]); cbn [rename unregister sessions socketToUserId pool_of freeIndices].
  - destruct (rename_spec r id newid p s Hr H Hn Hfree) as (_ & _ & Ho).
    rewrite !lookup_insert_eq. split_and!; [done|done| | |auto].
    + intros Hne. by rewrite lookup_insert_ne, lookup_delete_eq.
    + intros old o Hold Hne. destruct Hold, Hfree; congruence.
  - assert (H1 : registered (unregister newid old o r) id p s)
      by (apply registered_unregister; [done..|congruence]).
    destruct (rename_spec (unregister newid old o r) id newid p s) as (_ & _ & Ho);
      [by apply unregister_inv|done|done|left; cbn; by rewrite lookup_delete_eq|].
    rewrite !lookup_insert_eq. split_and!; [done|done| | |].
    + intros _. by rewrite lookup_insert_ne, lookup_delete_eq.
    + intros old' o' Hold' _. destruct (registered_fun _ _ _ _ _ _ Hold Hold') as [<- <-].
      assert (socket s <> socket o) by (intros E; by rewrite (registered_sock r id newid p old s o H Hold E) in Hne).
      split_and!.
      * by rewrite lookup_insert_ne, lookup_delete_eq by congruence.
      * apply elem_of_app. right. by apply list_elem_of_singleton.
      * unfold HandleDisconnectWithoutLock. destruct (decide _); [done|]. cbn. set_solver.
    + intros id' p' s' H' Hne1 Hne2. apply Ho; [|done]. by apply registered_unregister.
Qed.

(** One user logged in on socket 100, then a new connection on socket 104. *)
Definition after (o : reg_op) (st : Registry * Connections) : Registry * Connections :=
  match run_reg_op o st.1 st.2 with Ok st' => st' | _ => st end.

Definition two_connections : Registry * Connections :=
  after (OpPacket 104) (after (OpLogin 0 (str "00ff")) (after (OpPacket 100) (new_registry, no_connections))).

Lemma after_history o st : reg_history st.1 st.2 -> reg_op_ok o st.1 -> reg_history (after o st).1 (after o st).2.
Proof.
  intros Hh Ho. destruct (run_reg_op_inv o st.1 st.2 (reg_history_inv _ _ Hh) Ho) as (r' & cs' & E & _).
  unfold after. rewrite E. by eapply reg_history_op.
Qed.

Lemma real_id_00ff : real_id (str "00ff").
Proof.
  split; [done|]. intros sk E. apply (f_equal reverse) in E. unfold temp_id in E.
  by rewrite reverse_app in E.
Qed.

Lemma registered_found r id p :
  registry_inv r -> sessions r !! id = Some (Some p) -> exists s, registered r id p s.
Proof.
  intros Hr E. destruct (reg_sessions r Hr id _ E) as (p' & s & H). exists s.
  assert (p' = p) as -> by (destruct H; congruence). done.
Qed.

Lemma first_connection_history :
  reg_history (after (OpPacket 100) (new_registry, no_connections)).1 (after (OpPacket 100) (new_registry, no_connections)).2.
Proof. apply after_history; [apply reg_history_new|cbn; lia]. Qed.

Lemma fresh_object r id p s :
  registered r id p s -> updated <$> spool (pool_of r) !! p = Some false -> updated s = false.
Proof. intros H Hu. rewrite (reg_obj _ _ _ _ H) in Hu. by injection Hu. Qed.

Lemma two_connections_history : reg_history two_connections.1 two_connections.2.
Proof.
  apply after_history; [|cbn; lia]. apply after_history; [apply first_connection_history|].
  split; [apply real_id_00ff|]. exists (str "100id").
  destruct (registered_found _ (str "100id") 0 (reg_history_inv _ _ first_connection_history)) as [s H]; [vm_compute; reflexivity|].
  exists s. split; [exact H|]. by apply (fresh_object (after (OpPacket 100) (new_registry, no_connections)).1 (str "100id") 0).
Qed.

Lemma login_displaces_witness :
  exists s r' cs', registered two_connections.1 (str "104id") 1 s /\
    login (str "00ff") 1 two_connections.1 two_connections.2 = Ok (r', cs') /\
    findSession (str "00ff") r' = Some 1%nat /\ socketToUserId r' !! 100 = None.
Proof.
  pose proof (reg_history_inv _ _ two_connections_history) as Hr.
  destruct (registered_found _ (str "104id") 1 Hr) as [s H]; [vm_compute; reflexivity|].
  destruct (registered_found _ (str "00ff") 0 Hr) as [o Ho]; [vm_compute; reflexivity|].
  destruct (login_displaces _ _ _ (str "00ff") 1 s two_connections_history H (fresh_object _ _ _ _ H ltac:(vm_compute; reflexivity)) real_id_00ff)
    as (r' & cs' & E & F & _ & _ & D & _).
  exists s, r', cs'. split; [exact H|]. split; [exact E|]. split; [exact F|].
  destruct (D 0%nat o Ho ltac:(vm_compute; congruence)) as [D1 _].
  assert (K : socket o = 100).
  { assert (K : socket <$> spool (pool_of two_connections.1) !! 0%nat = Some 100) by (vm_compute; reflexivity).
    rewrite (reg_obj _ _ _ _ Ho) in K. by injection K. }
  by rewrite K in D1.
Defined.
