(* ===== verification/Groups.v ===== *)
(** Chat groups: chat/Group.cpp and chat/GroupManager.cpp.

    A group's members are a vector in joining order.  The specification keeps, per
    group, the set of members; the operations are proved to answer and to change the
    groups as the specification does. *)

From S2P Require Import Prelude.

(** ** Definitions *)

Record Group := mkGroup { group_id : bstr; admin_id : bstr; members : list bstr }.

Definition isMember (userId : bstr) (g : Group) : bool := bool_decide (userId ∈ members g).

Definition addMember (userId : bstr) (g : Group) : Group :=
  if negb (isMember userId g) then mkGroup (group_id g) (admin_id g) (members g ++ [userId]) else g.

(** [std::find] and [erase]: the first occurrence goes. *)
Fixpoint erase_first (x : bstr) (l : list bstr) : list bstr :=
  match l with
  | [] => []
  | y :: l => if decide (y = x) then l else y :: erase_first x l
  end.

Definition removeMember (userId : bstr) (g : Group) : Group :=
  mkGroup (group_id g) (admin_id g) (erase_first userId (members g)).

Abbreviation GroupManager := (gmap bstr Group).

Definition createGroup (groupId adminId : bstr) (gs : GroupManager) : bool * GroupManager :=
  match gs !! groupId with
  | Some _ => (false, gs)
  | None => (true, <[groupId := addMember adminId (mkGroup groupId adminId [])]> gs)
  end.

Definition joinGroup (groupId userId : bstr) (gs : GroupManager) : bool * GroupManager :=
  match gs !! groupId with
  | None => (false, gs)
  | Some g => if isMember userId g then (false, gs) else (true, <[groupId := addMember userId g]> gs)
  end.

Definition leaveGroup (groupId userId : bstr) (gs : GroupManager) : bool * GroupManager :=
  match gs !! groupId with
  | None => (false, gs)
  | Some g =>
      if negb (isMember userId g) then (false, gs) else
      let g := removeMember userId g in
      match members g with
      | [] => (true, delete groupId gs)
      | _ => (true, <[groupId := g]> gs)
      end
  end.

Definition getGroup (groupId : bstr) (gs : GroupManager) : option Group := gs !! groupId.

(** ** The specification *)

Abbreviation GroupSpec := (gmap bstr (gset bstr)).

Inductive group_op :=
| OCreate (groupId adminId : bstr)
| OJoin (groupId userId : bstr)
| OLeave (groupId userId : bstr).

Definition run_op (o : group_op) (gs : GroupManager) : bool * GroupManager :=
  match o with
  | OCreate g u => createGroup g u gs
  | OJoin g u => joinGroup g u gs
  | OLeave g u => leaveGroup g u gs
  end.

(** A group exists as long as it has a member. *)
Definition spec_op (o : group_op) (sp : GroupSpec) : bool * GroupSpec :=
  match o with
  | OCreate g u => match sp !! g with Some _ => (false, sp) | None => (true, <[g := {[u]}]> sp) end
  | OJoin g u =>
      match sp !! g with
      | Some ms => if decide (u ∈ ms) then (false, sp) else (true, <[g := {[u]} ∪ ms]> sp)
      | None => (false, sp)
      end
  | OLeave g u =>
      match sp !! g with
      | Some ms =>
          if decide (u ∈ ms) then
            if decide (ms ∖ {[u]} = ∅) then (true, delete g sp) else (true, <[g := ms ∖ {[u]}]> sp)
          else (false, sp)
      | None => (false, sp)
      end
  end.

Fixpoint run_ops {S} (step : group_op -> S -> bool * S) (os : list group_op) (s : S) : list bool * S :=
  match os with
  | [] => ([], s)
  | o :: os => let (b, s) := step o s in let (bs, s) := run_ops step os s in (b :: bs, s)
  end.

(** The specification's view of a manager, and the invariant of its groups. *)
Definition view (gs : GroupManager) : GroupSpec := (fun g => list_to_set (members g)) <$> gs.

Definition group_ok (gid : bstr) (g : Group) : Prop :=
  group_id g = gid /\ NoDup (members g) /\ members g <> [].

Definition groups_ok (gs : GroupManager) : Prop := map_Forall group_ok gs.

(** ** Lemmas *)

Lemma erase_first_spec x l :
  NoDup l -> NoDup (erase_first x l) /\ forall y, y ∈ erase_first x l <-> y ∈ l /\ y <> x.
Proof.
  induction 1 as [|z l Hz Hnd [IH1 IH2]]; cbn [erase_first]; [split; [constructor|set_solver]|].
  destruct (decide (z = x)) as [->|Hne].
  - split; [done|]. intros y. rewrite elem_of_cons. naive_solver.
  - split.
    + apply list.NoDup_cons. split; [|done]. rewrite IH2. naive_solver.
    + intros y. rewrite !elem_of_cons, IH2. naive_solver.
Qed.

Lemma isMember_view u g : isMember u g = bool_decide (u ∈ (list_to_set (members g) : gset bstr)).
Proof. unfold isMember. apply bool_decide_ext. set_solver. Qed.

Lemma addMember_ok gid u g :
  group_id g = gid -> NoDup (members g) -> group_ok gid (addMember u g) /\
  (list_to_set (members (addMember u g)) : gset bstr) = {[u]} ∪ list_to_set (members g).
Proof.
  intros Hid Hnd. unfold addMember, isMember. case_bool_decide as Hu; cbn [negb].
  - split; [|set_solver]. split_and!; try done. intros E. rewrite E in Hu. set_solver.
  - cbn [members group_id]. split; [|rewrite list_to_set_app_L, list_to_set_singleton_L; set_solver].
    split_and!; [done| |by destruct (members g)]. apply list.NoDup_app.
    split_and!; [done| |apply NoDup_singleton]. cbn. intros x Hx ->%list_elem_of_singleton. done.
Qed.

Lemma group_step_refines o gs :
  groups_ok gs -> groups_ok (run_op o gs).2 /\ spec_op o (view gs) = ((run_op o gs).1, view (run_op o gs).2).
Proof.
  intros Hok. destruct o as [gid u|gid u|gid u]; cbn [run_op spec_op];
    unfold createGroup, joinGroup, leaveGroup; unfold view at 1; rewrite lookup_fmap;
    destruct (gs !! gid) as [g|] eqn:Hg; cbn [fmap option_fmap option_map fst snd]; try done.
  - destruct (addMember_ok gid u (mkGroup gid u []) eq_refl (NoDup_nil_2)) as [Hg' Hs].
    split; [by apply map_Forall_insert_2|]. unfold view. rewrite fmap_insert, Hs.
    cbn [members]. by rewrite list_to_set_nil, union_empty_r_L.
  - destruct (Hok gid g Hg) as (Hid & Hnd & Hne). rewrite isMember_view.
    case_bool_decide as Hu; cbn [fst snd]; [by rewrite decide_True|rewrite decide_False by done].
    destruct (addMember_ok gid u g Hid Hnd) as [Hg' Hs].
    split; [by apply map_Forall_insert_2|]. unfold view. by rewrite fmap_insert, Hs.
  - destruct (Hok gid g Hg) as (Hid & Hnd & Hne). rewrite isMember_view.
    case_bool_decide as Hu; cbn [negb fst snd]; [rewrite decide_True by done|by rewrite decide_False].
    destruct (erase_first_spec u (members g) Hnd) as [Hnd' Hel].
    assert (Hs : (list_to_set (members g) ∖ {[u]} : gset bstr) = list_to_set (erase_first u (members g))).
    { apply set_eq. intros y. rewrite elem_of_difference, !elem_of_list_to_set, Hel, elem_of_singleton. done. }
    cbn [removeMember members]. rewrite Hs. destruct (erase_first u (members g)) as [|m ms] eqn:E; cbn [fst snd].
    + rewrite decide_True by done. split; [by apply map_Forall_delete|]. unfold view. by rewrite fmap_delete.
    + rewrite decide_False by set_solver. split.
      * apply map_Forall_insert_2; [|done]. split_and!; cbn; try done; by rewrite E.
      * unfold view. rewrite fmap_insert. cbn. by rewrite E.
Qed.

(** ** Properties *)

(** Any sequence of create, join and leave requests is answered, and leaves the
    groups, as the set specification says: a group is created once and with its admin as
    the first member, joins and leaves succeed exactly when they change the membership,
    a group disappears with its last member; and in every group the member vector has
    no duplicates, so that a group message goes to a member once. *)
Theorem groups_refine (os : list group_op) (gs : GroupManager) :
  groups_ok gs ->
  groups_ok (run_ops run_op os gs).2 /\
  run_ops spec_op os (view gs) = ((run_ops run_op os gs).1, view (run_ops run_op os gs).2).
Proof.
  revert gs. induction os as [|o os IH]; intros gs Hok; [done|]. cbn [run_ops].
  destruct (group_step_refines o gs Hok) as [Hok' Hs]. rewrite Hs.
  destruct (run_op o gs) as [b gs1]. cbn [fst snd] in *. destruct (IH gs1 Hok') as [? Hs'].
  rewrite Hs'. destruct (run_ops run_op os gs1) as [bs gs2]. done.
Qed.

Definition sample_ops : list group_op :=
  [OCreate (str "g") (str "ann"); OJoin (str "g") (str "bob"); OJoin (str "g") (str "bob");
   OLeave (str "g") (str "ann"); OLeave (str "g") (str "bob"); OJoin (str "g") (str "ann")].

Lemma groups_refine_witness :
  groups_ok (run_ops run_op sample_ops ∅).2 /\
  (run_ops spec_op sample_ops ∅).1 = [true; true; false; true; true; false].
Proof.
  destruct (groups_refine sample_ops ∅ ltac:(apply map_Forall_empty)) as [H E].
  split; [exact H|]. change (view ∅) with (∅ : GroupSpec) in E.
  rewrite E. vm_compute. reflexivity.
Defined.
