(* ===== verification/Offline.v ===== *)
(** Per-receiver send queues: offlineManager/ManageOffline.cpp.

    Every receiver has a queue of packets and a flag that says a packet is in flight.
    The queue is the [MpscQueue] of Mpsc.v, used here through its FIFO contract as a list
    of packets.  How a packet is sent is the business of MessageRouter and IOCPManager:
    the class [Transport] is what this component asks of them. *)

From S2P Require Import Prelude.

(** ** The interface to the router and the network

    [routePacket p id] sends to the session registered under [id], [initiateSend s p] on
    a socket; both answer whether a send was started. *)

Class Transport (W : Type) := {
  routePacket : nat -> bstr -> W -> outcome (bool * W);
  initiateSend : Z -> nat -> W -> outcome (bool * W)
}.

(** What the queues rely on.  [started w] is the list of sends started so far: a call
    that answers true starts exactly one, of the packet it was given; one that answers
    false starts none; and a call on a packet that is ready to be sent returns. *)
Class TransportLaws (W : Type) (T : Transport W) := {
  started : W -> list nat;
  transport_ok : W -> Prop;
  ready : nat -> W -> Prop;
  route_law p id w b w' : transport_ok w -> routePacket p id w = Ok (b, w') ->
    transport_ok w' /\ started w' = started w ++ (if b then [p] else []);
  send_law s p w b w' : transport_ok w -> initiateSend s p w = Ok (b, w') ->
    transport_ok w' /\ started w' = started w ++ (if b then [p] else []);
  route_returns p id w : transport_ok w -> ready p w -> exists b w', routePacket p id w = Ok (b, w');
  send_returns s p w : transport_ok w -> ready p w -> exists b w', initiateSend s p w = Ok (b, w')
}.

(** ** Definitions *)

Record WorkItem := mkItem { recId : bstr; packet : nat }.

Record clientQueue := mkCq { cqueue : list WorkItem; flag : bool }.

Abbreviation ManageOffline := (gmap bstr clientQueue).

(** The atomic accesses to one receiver's entry. *)
Definition cq_push (it : WorkItem) (cq : clientQueue) : clientQueue := mkCq (cqueue cq ++ [it]) (flag cq).
Definition cq_claim (cq : clientQueue) : bool * clientQueue :=
  if flag cq then (false, cq) else (true, mkCq (cqueue cq) true).
Definition cq_clear (cq : clientQueue) : clientQueue := mkCq (cqueue cq) false.
Definition cq_pop (cq : clientQueue) : clientQueue := mkCq (drop 1 (cqueue cq)) (flag cq).
Definition cq_empty (cq : clientQueue) : bool := bool_decide (cqueue cq = []).

Section Offline.
Context {W : Type} {T : Transport W}.

Definition State : Type := ManageOffline * W.

(** The send of the front item by whoever owns the flag; [front] of an empty queue
    gives a default item, whose packet is a null pointer. *)
Definition send_front (id : bstr) (cq : clientQueue) (st : State) : outcome State :=
  match cqueue cq with
  | [] => UB
  | front :: _ =>
      let! (routed, w) := routePacket (packet front) id st.2 in
      Ok (<[id := if negb routed then cq_clear cq else cq]> st.1, w)
  end.

Definition ManageCompletePacket (p : nat) (recvId : bstr) (st : State) : outcome State :=
  let cq := cq_push (mkItem recvId p) (default (mkCq [] false) (st.1 !! recvId)) in
  let (owner, cq) := cq_claim cq in
  if owner then send_front recvId cq st else Ok (<[recvId := cq]> st.1, st.2).

Definition drainNext (recvId : bstr) (socket : Z) (st : State) : outcome State :=
  match st.1 !! recvId with
  | None => Ok st
  | Some cq =>
      let cq := if negb (cq_empty cq) then cq_pop cq else cq in
      if negb (cq_empty cq) then
        match cqueue cq with
        | [] => UB
        | next :: _ =>
            let! (sent, w) := initiateSend socket (packet next) st.2 in
            Ok (<[recvId := if negb sent then cq_clear cq else cq]> st.1, w)
        end
      else Ok (<[recvId := cq_clear cq]> st.1, st.2)
  end.

Definition clearFlag (recvId : bstr) (st : State) : State :=
  match st.1 !! recvId with
  | None => st
  | Some cq => (<[recvId := cq_clear cq]> st.1, st.2)
  end.

Definition notifySend (id : bstr) (st : State) : outcome State :=
  match st.1 !! id with
  | None => Ok st
  | Some cq =>
      if negb (cq_empty cq) then
        let (owner, cq) := cq_claim cq in
        if owner then send_front id cq st else Ok (<[id := cq]> st.1, st.2)
      else Ok st
  end.

(** ** One receiver's life

    [accepted] is the packets given to the queue, [delivered] those whose send
    completed, [failed] those whose send failed, once for every failure, and [outstanding]
    all sends that were started and have neither completed nor failed. *)

Record life := mkLife {
  state : State;
  accepted : list nat;
  delivered : list nat;
  failed : list nat;
  outstanding : list nat
}.

(** The sends that a call started. *)
Definition new_sends (w w' : list nat) : list nat := drop (length w) w'.
End Offline.
Arguments life : clear implicits.
Arguments send_front : simpl never.

Section Lives.
Context {W : Type} {T : Transport W} {L : TransportLaws W T}.

Definition sent_by (before after : @State W) : list nat := new_sends (started before.2) (started after.2).

(** The events of receiver [id]: a packet for it arrives; a send that is outstanding
    completes and the worker returns the packet and drains; a partial send fails and
    the worker clears the flag; the user logs in. *)
Inductive life_step (id : bstr) : life W -> life W -> Prop :=
| life_accept l p st' :
    ManageCompletePacket p id (state l) = Ok st' ->
    life_step id l (mkLife st' (accepted l ++ [p]) (delivered l) (failed l) (outstanding l ++ sent_by (state l) st'))
| life_complete l xs p ys socket st' :
    outstanding l = xs ++ p :: ys -> drainNext id socket (state l) = Ok st' ->
    life_step id l (mkLife st' (accepted l) (delivered l ++ [p]) (failed l) (xs ++ ys ++ sent_by (state l) st'))
| life_send_failed l xs p ys :
    outstanding l = xs ++ p :: ys ->
    life_step id l (mkLife (clearFlag id (state l)) (accepted l) (delivered l) (failed l ++ [p]) (xs ++ ys))
| life_notify l st' :
    notifySend id (state l) = Ok st' ->
    life_step id l (mkLife st' (accepted l) (delivered l) (failed l) (outstanding l ++ sent_by (state l) st')).

Definition new_life (w : W) : life W := mkLife (∅, w) [] [] [] [].

(** What is in flight when the flag is [b] and [items] are queued. *)
Definition in_flight (b : bool) (items : list WorkItem) : list nat :=
  if b then packet <$> take 1 items else [].

(** Delivered and queued packets are the accepted ones, in order; the flag is set
    exactly while the front packet is outstanding. *)
Record life_inv (id : bstr) (l : life W) : Prop := mkLifeInv {
  life_world : transport_ok (state l).2;
  life_order : let cq := default (mkCq [] false) ((state l).1 !! id) in
    accepted l = delivered l ++ (packet <$> cqueue cq) /\ outstanding l = in_flight (flag cq) (cqueue cq) /\
    (flag cq = true -> cqueue cq <> [])
}.

(** Every send that was started since [w] completed, failed or is outstanding. *)
Definition accounted (w : W) (l : life W) : Prop :=
  started (state l).2 ≡ₚ started w ++ delivered l ++ failed l ++ outstanding l.

Lemma new_sends_app w b (p : nat) :
  new_sends w (w ++ (if b : bool then [p] else [])) = if b then [p] else [].
Proof. unfold new_sends. by rewrite drop_app_length. Qed.

Lemma new_sends_same w : new_sends w w = [].
Proof. unfold new_sends. by rewrite drop_all. Qed.

(** Sending the front packet keeps the queue and sets or clears the flag. *)
Lemma send_front_spec id it items m w st' :
  transport_ok w -> send_front id (mkCq (it :: items) true) (m, w) = Ok st' ->
  exists b w', st' = (<[id := mkCq (it :: items) b]> m, w') /\
    transport_ok w' /\ started w' = started w ++ (if b then [packet it] else []).
Proof.
  intros Hw. unfold send_front. cbn [cqueue snd fst].
  destruct (routePacket (packet it) id w) as [[b w']| |] eqn:E; cbn [obind]; try done. intros [= <-].
  destruct (route_law _ _ _ _ _ Hw E) as [Hw' Hs]. exists b, w'. split_and!; [by destruct b|done|done].
Qed.

(** The sends of a call are added to the record of sends. *)
Lemma started_by st st' b (p : nat) :
  started st'.2 = started st.2 ++ (if b : bool then [p] else []) -> sent_by st st' = if b then [p] else [].
Proof. intros E. unfold sent_by. rewrite E. apply new_sends_app. Qed.

Lemma nothing_sent (st st' : @State W) : st'.2 = st.2 -> sent_by st st' = [].
Proof. intros E. unfold sent_by. rewrite E. apply new_sends_same. Qed.

(** Establish the invariant for a state whose queue of [id] was just written. *)
Lemma life_inv_written id m w items b acc del fa out :
  transport_ok w -> acc = del ++ (packet <$> items) -> out = in_flight b items -> (b = true -> items <> []) ->
  life_inv id (mkLife (<[id := mkCq items b]> m, w) acc del fa out).
Proof.
  intros Hw Ha Ho Hne. constructor; cbn [state accepted delivered outstanding fst snd]; [done|]. by rewrite lookup_insert_eq.
Qed.

(** What the calls of ManageOffline do to the entry of [id] and to the transport. *)
Lemma accept_effect id p m w st' :
  transport_ok w -> ManageCompletePacket p id (m, w) = Ok st' ->
  let cq := default (mkCq [] false) (m !! id) in let items := cqueue cq ++ [mkItem id p] in
  exists b w', st' = (<[id := mkCq items (flag cq || b)]> m, w') /\ transport_ok w' /\
    started w' = started w ++ (if negb (flag cq) && b then packet <$> take 1 items else []).
Proof.
  intros Hw H. cbn zeta. unfold ManageCompletePacket in H. cbn [fst snd] in H.
  destruct (default (mkCq [] false) (m !! id)) as [items f]. unfold cq_push, cq_claim in H. cbn [cqueue flag] in *. destruct f.
  - injection H as <-. exists true, w. split_and!; [done|done|]. by rewrite app_nil_r.
  - destruct (items ++ [mkItem id p]) as [|it items'] eqn:Ei; [by destruct items|].
    destruct (send_front_spec id it items' m w _ Hw H) as (b & w' & -> & Hw' & Hs). exists b, w'. split_and!; [done|done|].
    by destruct b.
Qed.

Lemma notify_effect id m w st' :
  transport_ok w -> notifySend id (m, w) = Ok st' ->
  let cq := default (mkCq [] false) (m !! id) in
  exists b w', default (mkCq [] false) (st'.1 !! id) = mkCq (cqueue cq) (flag cq || b) /\ st'.2 = w' /\ transport_ok w' /\
    (b = true -> cqueue cq <> []) /\
    started w' = started w ++ (if negb (flag cq) && b then packet <$> take 1 (cqueue cq) else []).
Proof.
  intros Hw H. cbn zeta. unfold notifySend in H. cbn [fst snd] in H. destruct (m !! id) as [[items f]|] eqn:Em; cbn [default].
  2: { injection H as <-. exists false, w. cbn [fst snd]. rewrite Em. split_and!; try done. by rewrite app_nil_r. }
  unfold cq_empty, cq_claim in H. cbn [cqueue flag] in *. destruct items as [|it items]; cbn in H.
  { injection H as <-. exists false, w. cbn [fst snd]. rewrite Em. split_and!; try done; cbn; by rewrite ?orb_false_r, ?andb_false_r, ?app_nil_r. }
  destruct f.
  - injection H as <-. exists false, w. cbn [fst snd]. rewrite lookup_insert_eq. split_and!; try done. by rewrite app_nil_r.
  - destruct (send_front_spec id it items m w _ Hw H) as (b & w' & -> & Hw' & Hs). exists b, w'. cbn [fst snd].
    rewrite lookup_insert_eq. split_and!; try done.
Qed.

Lemma drain_effect id sk m w it items st' :
  transport_ok w -> m !! id = Some (mkCq (it :: items) true) -> drainNext id sk (m, w) = Ok st' ->
  exists b w', st' = (<[id := mkCq items b]> m, w') /\ transport_ok w' /\ (b = true -> items <> []) /\
    started w' = started w ++ (if b then packet <$> take 1 items else []).
Proof.
  intros Hw Em H. unfold drainNext in H. cbn [fst snd] in H. rewrite Em in H. destruct items as [|it2 items]; cbn in H.
  - injection H as <-. exists false, w. split_and!; try done. by rewrite app_nil_r.
  - destruct (initiateSend sk (packet it2) w) as [[b w']| |] eqn:Es; cbn in H; try done.
    destruct (send_law _ _ _ _ _ Hw Es) as [Hw' Hs]. injection H as <-. exists b, w'. split_and!; [by destruct b|done|done|].
    by destruct b.
Qed.

Lemma one_in_flight b items xs (p : nat) ys :
  in_flight b items = xs ++ p :: ys ->
  xs = [] /\ ys = [] /\ b = true /\ exists it rest, items = it :: rest /\ packet it = p.
Proof.
  unfold in_flight. destruct b; [|by destruct xs]. destruct items as [|it items]; [by destruct xs|]. cbn.
  destruct xs as [|x xs]; [|by destruct xs]. intros [= <- <-]. split_and!; try done. by exists it, items.
Qed.

Lemma life_step_inv id l l' : life_inv id l -> life_step id l l' -> life_inv id l'.
Proof.
  intros [Hw Ho] Hstep.
  inversion Hstep as [? p st' E|? xs p ys sk st' Eo E|? xs p ys Eo|? st' E]; subst; clear Hstep;
    destruct l as [[m w] acc del fa out]; cbn [state accepted delivered failed outstanding fst snd] in *; destruct Ho as (Ha & Hout & Hne).
  - destruct (accept_effect _ _ _ _ _ Hw E) as (b & w' & -> & Hw' & Hs).
    destruct (default (mkCq [] false) (m !! id)) as [items f]. cbn [cqueue flag] in *. apply life_inv_written; [done| | |].
    + by rewrite Ha, fmap_app, app_assoc.
    + unfold sent_by, new_sends. cbn [snd]. rewrite Hs, drop_app_length, Hout. unfold in_flight. destruct f; cbn [negb andb orb].
      * rewrite app_nil_r. destruct items; [by destruct Hne|done].
      * by destruct b.
    + by destruct items.
  - rewrite Hout in Eo. apply one_in_flight in Eo as (-> & -> & Ef & it & rest & Ei & <-).
    destruct (m !! id) as [[items f]|] eqn:Em; cbn in *; [subst items f|done].
    destruct (drain_effect _ _ _ _ _ _ _ Hw Em E) as (b & w' & -> & Hw' & Hb & Hs). apply life_inv_written; [done| |.. ]; try done.
    + rewrite Ha. cbn. by rewrite <- app_assoc.
    + unfold sent_by, new_sends. cbn [snd]. by rewrite Hs, drop_app_length.
  - rewrite Hout in Eo. apply one_in_flight in Eo as (-> & -> & Ef & it & rest & Ei & <-).
    destruct (m !! id) as [[items f]|] eqn:Em; cbn in *; [subst items f|done].
    unfold clearFlag. cbn [fst snd]. rewrite Em. by apply life_inv_written.
  - destruct (notify_effect _ _ _ _ Hw E) as (b & w' & Hcq & Ew & Hw' & Hb & Hs). constructor; cbn [state]; [by rewrite Ew|].
    cbn [accepted delivered outstanding]. rewrite Hcq. destruct (default (mkCq [] false) (m !! id)) as [items f]. cbn [cqueue flag] in *.
    split_and!; [done| |by destruct f; auto]. unfold sent_by, new_sends. cbn [snd]. rewrite Ew, Hs, drop_app_length, Hout.
    unfold in_flight. destruct f; cbn [negb andb orb]; [by rewrite app_nil_r|by destruct b].
Qed.

(** All sends of a step are recorded. *)
Lemma life_step_accounted id w l l' : life_inv id l -> accounted w l -> life_step id l l' -> accounted w l'.
Proof.
  intros [Hw Ho] Hacc Hstep. unfold accounted in *.
  assert (Hgrow : forall st', (exists s, started st'.2 = started (state l).2 ++ s) ->
    started st'.2 = started (state l).2 ++ sent_by (state l) st').
  { intros st' [s E]. unfold sent_by, new_sends. by rewrite E, drop_app_length. }
  inversion Hstep as [? p st' E|? xs p ys sk st' Eo E|? xs p ys Eo|? st' E]; subst; clear Hstep;
    destruct l as [[m w0] acc del fa out]; cbn [state accepted delivered failed outstanding fst snd] in *; destruct Ho as (Ha & Hout & Hne).
  - destruct (accept_effect _ _ _ _ _ Hw E) as (b & w' & -> & Hw' & Hs). rewrite Hgrow by by eexists. rewrite Hacc. solve_Permutation.
  - rewrite Hout in Eo. apply one_in_flight in Eo as (-> & -> & Ef & it & rest & Ei & <-).
    destruct (m !! id) as [[items f]|] eqn:Em; cbn in *; [subst items f|done].
    destruct (drain_effect _ _ _ _ _ _ _ Hw Em E) as (b & w' & -> & Hw' & Hb & Hs). rewrite Hgrow by by eexists. rewrite Hacc, Hout. cbn. solve_Permutation.
  - replace (started (clearFlag id (m, w0)).2) with (started w0) by (unfold clearFlag; cbn; by destruct (m !! id)).
    rewrite Hacc, Eo. solve_Permutation.
  - destruct (notify_effect _ _ _ _ Hw E) as (b & w' & _ & Ew & _ & _ & Hs). rewrite Hgrow by (rewrite Ew; by eexists). rewrite Hacc. solve_Permutation.
Qed.
End Lives.

(** Calls that can start a send for [id]: a packet arrives, or the user logs in. *)
Fixpoint wake_ups {W} {T : Transport W} (id : bstr) (os : list (option nat)) (st : @State W) : outcome (@State W) :=
  match os with
  | [] => Ok st
  | o :: os =>
      let! st := match o with Some p => ManageCompletePacket p id st | None => notifySend id st end in
      wake_ups id os st
  end.

(** ** Properties *)


(** A transport that only records what it is told to send. *)
#[local] Instance log_transport : Transport (list nat) := {|
  routePacket p _ w := Ok (true, w ++ [p]);
  initiateSend _ p w := Ok (true, w ++ [p])
|}.
#[local] Program Instance log_laws : TransportLaws (list nat) log_transport := {|
  started w := w;
  transport_ok _ := True;
  ready _ _ := True
|}.
Next Obligation. by intros p id w b w' _ [= <- <-]. Qed.
Next Obligation. by intros s p w b w' _ [= <- <-]. Qed.
Next Obligation. intros p id w _ _. by exists true, (w ++ [p]). Qed.
Next Obligation. intros s p w _ _. by exists true, (w ++ [p]). Qed.

Lemma sample_life (id : bstr) :
  exists l, rtc (life_step id) (new_life ([] : list nat)) l /\
    accepted l = [7; 8]%nat /\ delivered l = [7]%nat /\ outstanding l = [8]%nat.
Proof.
  set (m1 := <[id := mkCq [mkItem id 7] true]> (∅ : ManageOffline)).
  set (m2 := <[id := mkCq [mkItem id 7; mkItem id 8] true]> m1).
  set (m3 := <[id := mkCq [mkItem id 8] true]> m2).
  assert (E1 : ManageCompletePacket 7 id (∅, [] : list nat) = Ok (m1, [7]%nat)).
  { unfold ManageCompletePacket. cbn [fst snd]. by rewrite lookup_empty. }
  assert (E2 : ManageCompletePacket 8 id (m1, [7]%nat) = Ok (m2, [7]%nat)).
  { unfold ManageCompletePacket. cbn [fst snd]. unfold m1. by rewrite lookup_insert_eq. }
  assert (E3 : drainNext id 100 (m2, [7]%nat) = Ok (m3, [7; 8]%nat)).
  { unfold drainNext. cbn [fst snd]. unfold m2. by rewrite lookup_insert_eq. }
  clearbody m3 m2 m1.
  exists (mkLife (m3, [7; 8]%nat) [7; 8]%nat [7]%nat [] [8]%nat). split; [|done].
  eapply rtc_l; [exact (life_accept id (new_life []) 7 _ E1)|].
  eapply rtc_l; [exact (life_accept id (mkLife (m1, [7]%nat) [7]%nat [] [] [7]%nat) 8 _ E2)|].
  eapply rtc_l; [exact (life_complete id (mkLife (m2, [7]%nat) [7; 8]%nat [] [] [7]%nat) [] 7 [] 100 _ eq_refl E3)|].
  apply rtc_refl.
Qed.


(** After a send fails asynchronously the receiver's queue is stuck.  The worker
    puts the packet, which is still at the front, into the queue a second time and does
    not clear the flag; from then on no packet that arrives and no login starts a send
    for this receiver again. *)
Theorem failed_completion_stalls {W : Type} {T : Transport W}
    (id : bstr) (p : nat) (rest : list WorkItem) (m : ManageOffline) (w : W) (os : list (option nat)) :
  m !! id = Some (mkCq (mkItem id p :: rest) true) ->
  exists m1 m2 more,
    ManageCompletePacket p id (m, w) = Ok (m1, w) /\
    m1 !! id = Some (mkCq (mkItem id p :: rest ++ [mkItem id p]) true) /\
    wake_ups id os (m1, w) = Ok (m2, w) /\
    m2 !! id = Some (mkCq (mkItem id p :: rest ++ [mkItem id p] ++ more) true).
Proof.
  intros Hm. unfold ManageCompletePacket at 1. cbn [fst snd]. rewrite Hm. cbn.
  exists (<[id := mkCq (mkItem id p :: rest ++ [mkItem id p]) true]> m).
  assert (Hgo : forall os items m1, m1 !! id = Some (mkCq (mkItem id p :: items) true) ->
    exists m2 more, wake_ups id os (m1, w) = Ok (m2, w) /\
      m2 !! id = Some (mkCq (mkItem id p :: items ++ more) true)).
  { clear Hm os. induction os as [|o os IH]; intros items m1 H1; cbn [wake_ups].
    { exists m1, []. by rewrite app_nil_r. }
    destruct o as [p'|].
    - unfold ManageCompletePacket. cbn [fst snd]. rewrite H1. cbn.
      edestruct (IH (items ++ [mkItem id p'])) as (m2 & more & E & H2); [by rewrite lookup_insert_eq|].
      exists m2, (mkItem id p' :: more). split; [exact E|]. by rewrite <- app_assoc in H2.
    - unfold notifySend. cbn [fst snd]. rewrite H1. cbn.
      edestruct (IH items) as (m2 & more & E & H2); [by rewrite lookup_insert_eq|]. by exists m2, more. }
  destruct (Hgo os (rest ++ [mkItem id p]) (<[id := mkCq (mkItem id p :: rest ++ [mkItem id p]) true]> m))
    as (m2 & more & E & H2); [by rewrite lookup_insert_eq|].
  exists m2, more. rewrite lookup_insert_eq. split_and!; try done. by rewrite <- app_assoc in H2.
Qed.

Lemma failed_completion_stalls_witness :
  exists m1 m2 more,
    ManageCompletePacket 7 (str "bob") ({[str "bob" := mkCq [mkItem (str "bob") 7] true]}, [7]%nat) = Ok (m1, [7]%nat) /\
    wake_ups (str "bob") [Some 8%nat; None] (m1, [7]%nat) = Ok (m2, [7]%nat) /\
    m2 !! str "bob" = Some (mkCq (mkItem (str "bob") 7 :: [] ++ [mkItem (str "bob") 7] ++ more) true).
Proof.
  destruct (failed_completion_stalls (str "bob") 7 [] {[str "bob" := mkCq [mkItem (str "bob") 7] true]} [7]%nat
    [Some 8%nat; None] ltac:(apply lookup_singleton_eq)) as (m1 & m2 & more & E1 & _ & E2 & E3).
  exists m1, m2, more. split; [exact E1|]. split; [exact E2|exact E3].
Defined.

(** A wake-up can be lost.  When a packet arrives after [drainNext] found the queue
    empty and before it clears the flag, the arrival sees the flag set and starts no
    send, and the drain then clears it: the packet stays in the queue with no send in
    flight. *)
Theorem drain_loses_wake_up (a b : WorkItem) :
  let drained := cq_pop (mkCq [a] true) in
  let arrived := cq_push b drained in
  cq_empty drained = true /\ cq_claim arrived = (false, arrived) /\ cq_clear arrived = mkCq [b] false.
Proof. done. Qed.
