(* ===== verification/Network.v ===== *)
(** The send path: network/IOContext.h, pool/IOContextPool.h, and [initiateSend],
    [postRecv] and the send completions of network/IOCPManager.cpp, with
    MessageRouter::routePacket and Session::sendPacket.

    [Net] is the state these operations share.  Whether the system accepts a [WSASend] or
    [WSARecv] is an input: the list [answers] of the answers to come (accepted when it
    has run out). *)

From S2P Require Import Prelude Crc32c Packet PacketPool CircularBuffer Framing Fqueue Session Offline.

(** ** Definitions: I/O contexts *)

(** [PER_IO_OPERATION_DATA]; the buffer is an offset into the packet's data and a
    length. *)
Record IoData := mkIo {
  buf_off : Z;
  buf_len : Z;
  operationType : Z;          (* 0 = send, 2 = zero-byte receive *)
  io_packet : option nat;
  totalToSend : Z;
  bytesSent : Z;
  io_id : nat
}.

Definition io_maxSize : nat := Z.to_nat 20000.

Record IOContextPool := mkIoPool {
  io_pool : list IoData;
  io_free : Fqueue Z;
  io_use : Z;
  io_peak : Z
}.

Definition new_io_pool : IOContextPool :=
  mkIoPool ((fun i => mkIo 0 0 0 None 0 0 i) <$> seq 0 io_maxSize)
    (fold_left (fun q i => push (Z.of_nat i) q) (seq 0 io_maxSize) (new_fqueue 20000)) 0 0.

Definition borrowIOPdata (ip : IOContextPool) : option nat * IOContextPool :=
  match pop (io_free ip) with
  | (q, None) => (None, mkIoPool (io_pool ip) q (io_use ip) (io_peak ip))
  | (q, Some id) =>
      if Z.of_nat io_maxSize <=? id then (None, mkIoPool (io_pool ip) q (io_use ip) (io_peak ip)) else
      let newCount := wrap 64 (io_use ip + 1) in
      (Some (Z.to_nat id), mkIoPool (io_pool ip) q newCount (Z.max (io_peak ip) newCount))
  end.

Definition returnIOPdata (ptr : option nat) (ip : IOContextPool) : outcome IOContextPool :=
  match ptr with
  | None => Ok ip
  | Some ptr =>
      match io_pool ip !! ptr with
      | None => UB
      | Some d =>
          let idx := io_id d in
          if (io_maxSize <=? idx)%nat then Ok ip else
          Ok (mkIoPool (<[ptr := mkIo (buf_off d) (buf_len d) (operationType d) None 0 0 idx]> (io_pool ip))
                (push (Z.of_nat idx) (io_free ip)) (wrap 64 (io_use ip - 1)) (io_peak ip))
      end
  end.

(** ** Definitions: the send path *)

Record Net := mkNet {
  io : IOContextPool;
  packets : PacketPool;
  registry : Registry;
  posted : list (Z * nat * bstr);   (* accepted sends: socket, packet, bytes *)
  reads : list Z;                   (* sockets with a pending zero-byte receive *)
  answers : list bool
}.

Definition set_io v n := mkNet v (packets n) (registry n) (posted n) (reads n) (answers n).
Definition set_packets v n := mkNet (io n) v (registry n) (posted n) (reads n) (answers n).
Definition set_registry v n := mkNet (io n) (packets n) v (posted n) (reads n) (answers n).

(** The next answer of the system. *)
Definition answer (n : Net) : bool := default true (head (answers n)).

Definition write_io (ptr : nat) (d : IoData) (ip : IOContextPool) : IOContextPool :=
  mkIoPool (<[ptr := d]> (io_pool ip)) (io_free ip) (io_use ip) (io_peak ip).

(** [IOCPManager::initiateSend].  The statement that computes the length ends before
    [+ HEADER_SIZE]: [toCopy] is the payload length alone. *)
Definition initiate_send (s : Z) (p : nat) (n : Net) : outcome (bool * Net) :=
  let (ptr, ip) := borrowIOPdata (io n) in
  match ptr, pool (packets n) !! p with
  | Some ptr, Some pkt =>
      match io_pool ip !! ptr with
      | None => UB
      | Some d =>
          let toCopy := ntohl (load 4 4 (data pkt)) in
          if Z.of_nat sizeof_data <? toCopy then UB else
          let ip := write_io ptr (mkIo 0 toCopy 0 (Some p) (to_int32 toCopy) 0 (io_id d)) ip in
          let bytes := take (Z.to_nat toCopy) (data pkt) in
          if answer n then
            Ok (true, mkNet ip (write_packet p (fun pkt => set_sentFail false (set_sent false (set_sending true pkt)))
                                  (packets n))
                        (registry n) (posted n ++ [(s, p, bytes)]) (reads n) (tail (answers n)))
          else
            let! ip := returnIOPdata (Some ptr) ip in
            Ok (false, mkNet ip (write_packet p (fun pkt => set_sentFail true (set_sent false (set_sending false pkt)))
                                   (packets n))
                         (registry n) (posted n) (reads n) (tail (answers n)))
      end
  | _, _ => UB
  end.

(** [Session::sendPacket]: without an I/O manager nothing is sent. *)
Definition sendPacket (se : Session) (p : nat) (sock : Z) (n : Net) : outcome (bool * Net) :=
  if iocp se then initiate_send sock p n else Ok (true, n).

(** [MessageRouter::routePacket]. *)
Definition route_packet (p : nat) (recvId : bstr) (n : Net) : outcome (bool * Net) :=
  if decide (recvId = []) then Ok (false, n) else
  match findSession recvId (registry n) with
  | None => Ok (false, n)
  | Some ptr => let! se := deref (registry n) (Some ptr) in sendPacket se p (socket se) n
  end.

#[export] Instance net_transport : Transport Net := {|
  routePacket := route_packet;
  initiateSend := initiate_send
|}.

Definition postRecv (s : Z) (n : Net) : outcome (bool * Net) :=
  let (ptr, ip) := borrowIOPdata (io n) in
  match ptr with
  | None => UB
  | Some ptr =>
      match io_pool ip !! ptr with
      | None => UB
      | Some d =>
          let ip := write_io ptr (mkIo 0 0 2 None 0 0 (io_id d)) ip in
          if answer n then
            Ok (true, mkNet ip (packets n) (registry n) (posted n) (reads n ++ [s]) (tail (answers n)))
          else
            let! ip := returnIOPdata (Some ptr) ip in
            Ok (false, mkNet ip (packets n) (registry n) (posted n) (reads n) (tail (answers n)))
      end
  end.

(** ** Definitions: send completions *)

(** The state of the whole send side, with the connections for disconnects. *)
Record Server := mkServer { net : Net; offline : ManageOffline; conns : Connections }.

Definition disconnect (s : Z) (sv : Server) : outcome Server :=
  let! (r, cs) := handleDisconnect s (registry (net sv)) (conns sv) in
  Ok (mkServer (set_registry r (net sv)) (offline sv) cs).

Definition return_io (ptr : nat) (sv : Server) : outcome Server :=
  let! ip := returnIOPdata (Some ptr) (io (net sv)) in
  Ok (mkServer (set_io ip (net sv)) (offline sv) (conns sv)).

Definition return_packet (p : option nat) (sv : Server) : outcome Server :=
  let! pp := returnPacket p (packets (net sv)) in
  Ok (mkServer (set_packets pp (net sv)) (offline sv) (conns sv)).

Definition update_packet (p : nat) (f : Packet -> Packet) (sv : Server) : Server :=
  mkServer (set_packets (write_packet p f (packets (net sv))) (net sv)) (offline sv) (conns sv).

Definition user_of (s : Z) (sv : Server) : bstr := getUserIdBySocket s (registry (net sv)).

(** Run an operation of the send queues. *)
Definition with_offline (f : @State Net -> outcome (@State Net)) (sv : Server) : outcome Server :=
  let! (m, n) := f (offline sv, net sv) in Ok (mkServer n m (conns sv)).

(** A completion that failed, or that closed the connection. *)
Definition on_failed (s : Z) (ptr : nat) (sv : Server) : outcome Server :=
  match io_pool (io (net sv)) !! ptr with
  | None => UB
  | Some d =>
      let! sv :=
        match io_packet d with
        | Some p =>
            if operationType d =? 0 then
              let sv := update_packet p (fun pkt => set_sentFail true (set_sending false pkt)) sv in
              match pool (packets (net sv)) !! p with
              | None => UB
              | Some pkt =>
                  if negb (bypassQueue pkt) then with_offline (ManageCompletePacket p (user_of s sv)) sv
                  else return_packet (Some p) sv
              end
            else Ok sv
        | None => Ok sv
        end in
      let! sv := return_io ptr sv in
      disconnect s sv
  end.

(** A send completion of [bytesTransferred] bytes. *)
Definition on_send_completion (s : Z) (ptr : nat) (bytesTransferred : Z) (sv : Server) : outcome Server :=
  match io_pool (io (net sv)) !! ptr with
  | None => UB
  | Some d =>
      match io_packet d with
      | None => return_io ptr sv
      | Some p =>
          let n := net sv in
          let sent := bytesSent d + bytesTransferred in
          if sent <? totalToSend d then
            let remaining := totalToSend d - sent in
            let d := mkIo sent remaining (operationType d) (Some p) (totalToSend d) sent (io_id d) in
            let sv := mkServer (mkNet (write_io ptr d (io n)) (packets n) (registry n) (posted n) (reads n) (tail (answers n)))
                        (offline sv) (conns sv) in
            if answer n then Ok sv else
            let sv := update_packet p (fun pkt => set_sentFail true (set_sending false pkt)) sv in
            let recvId := user_of s sv in
            let! sv := return_io ptr sv in
            let! sv := with_offline (fun st => Ok (clearFlag recvId st)) sv in
            disconnect s sv
          else
            let sv := mkServer (set_io (write_io ptr (mkIo (buf_off d) (buf_len d) (operationType d) (Some p)
                                                        (totalToSend d) sent (io_id d)) (io n)) n)
                        (offline sv) (conns sv) in
            match pool (packets n) !! p with
            | None => UB
            | Some pkt =>
                let recvId := user_of s sv in
                let bypassQ := bypassQueue pkt in
                let sv := update_packet p (fun pkt => set_sent true (set_sending false pkt)) sv in
                let! sv := return_packet (Some p) sv in
                let! sv := if negb bypassQ then with_offline (drainNext recvId s) sv else Ok sv in
                return_io ptr sv
            end
      end
  end.

(** ** The I/O context pool

    [B]: the contexts that are out.  There is no in-use flag: a context must not be
    returned twice, and the holders do not. *)

Lemma io_maxSize_Z : Z.of_nat io_maxSize = 20000.
Proof. reflexivity. Qed.
#[global] Opaque io_maxSize.

Lemma io_maxSize_le : 20000 <= Z.of_nat io_maxSize <= 20000.
Proof. rewrite io_maxSize_Z. lia. Qed.

Record io_inv (ip : IOContextPool) (B : gset nat) : Prop := mkIoInv {
  io_list : exists l, holds (io_free ip) l /\ NoDup l /\
    (forall z, z ∈ l -> 0 <= z < 20000 /\ Z.to_nat z ∉ B) /\ (length l + base.size B = io_maxSize)%nat;
  io_cap : capacity_ (io_free ip) = 32768;
  io_len : length (io_pool ip) = io_maxSize;
  io_ids : forall i d, io_pool ip !! i = Some d -> io_id d = i;
  io_out : forall i, i ∈ B -> (i < io_maxSize)%nat
}.

(** Far from the wrap-around of the queue's counters. *)
Definition io_young (ip : IOContextPool) : Prop := qhead (io_free ip) < 2 ^ 62.

Lemma push_all l : forall q l0,
  holds q l0 -> capacity_ q = 32768 -> (length l0 + length l <= Z.to_nat 32768)%nat ->
  qhead q + Z.of_nat (length l) < 2 ^ 62 ->
  let q' := fold_left (fun q i => push (Z.of_nat i) q) l q in
  holds q' (l0 ++ (Z.of_nat <$> l)) /\ capacity_ q' = 32768 /\ qhead q' <= qhead q + Z.of_nat (length l).
Proof.
  induction l as [|i l IH]; intros q l0 Hh Hc Hlen Hb; cbn [fold_left length] in *.
  { cbn. rewrite app_nil_r. split_and!; [done|done|lia]. }
  destruct (push_spec (Z.of_nat i) q l0 Hh ltac:(lia)) as (Hc' & Hhd & Hp).
  unfold len in Hp. rewrite (proj2 (Z.ltb_lt _ _)) in Hp by lia.
  destruct (IH _ _ Hp ltac:(congruence)) as (H1 & H2 & H3).
  - rewrite length_app. cbn. lia.
  - lia.
  - rewrite <- app_assoc in H1. split_and!; [exact H1|exact H2|lia].
Qed.

Lemma new_io_pool_inv : io_inv new_io_pool ∅ /\ qhead (io_free new_io_pool) <= 20000.
Proof.
  pose proof io_maxSize_le as HZ.
  destruct (push_all (seq 0 io_maxSize) (new_fqueue 20000) []) as (H1 & H2 & H3).
  - apply new_fqueue_holds. lia.
  - reflexivity.
  - rewrite length_seq. cbn [length]. lia.
  - rewrite length_seq. change (qhead (new_fqueue 20000)) with 0. lia.
  - rewrite length_seq in H3. change (qhead (new_fqueue 20000)) with 0 in H3. cbn [app] in H1.
    unfold new_io_pool. set (q := fold_left _ _ _) in *. clearbody q. split.
    + constructor; cbn [io_free io_pool].
      * exists (Z.of_nat <$> seq 0 io_maxSize). split_and!; [exact H1| | |].
        { apply NoDup_fmap_2; [apply _|apply NoDup_seq]. }
        { intros z (i & -> & Hi)%list_elem_of_fmap. apply elem_of_seq in Hi. split; [lia|apply not_elem_of_empty]. }
        { rewrite size_empty. rewrite length_fmap, length_seq. lia. }
      * exact H2.
      * by rewrite length_fmap, length_seq.
      * intros i d. rewrite list_lookup_fmap. intros (j & Hj & ->)%fmap_Some.
        apply lookup_seq in Hj as [-> _]. reflexivity.
      * intros i Hi. by apply elem_of_empty in Hi.
    + cbn [io_free]. lia.
Qed.

Lemma borrow_io_spec ip B :
  io_inv ip B -> io_young ip ->
  if decide (base.size B < io_maxSize)%nat then
    exists i ip' d, borrowIOPdata ip = (Some i, ip') /\ i ∉ B /\ (i < io_maxSize)%nat /\
      io_pool ip' = io_pool ip /\ io_pool ip !! i = Some d /\ io_id d = i /\
      io_inv ip' ({[i]} ∪ B) /\ qhead (io_free ip') = qhead (io_free ip)
  else (borrowIOPdata ip).1 = None.
Proof.
  intros [(l & Hh & Hnd & Hl & Hsz) Hc Hlen Hids Hout] Hy. unfold io_young in Hy.
  pose proof io_maxSize_le as HZ. destruct (pop_spec (io_free ip) l Hh ltac:(lia)) as (Hc' & Hhd & Hp).
  unfold borrowIOPdata. destruct l as [|z l].
  - rewrite Hp, decide_False by (cbn in Hsz; lia). done.
  - cbn [length] in Hsz. rewrite decide_True by lia. destruct Hp as [Hv Hh'].
    destruct (pop (io_free ip)) as [q' r]. cbn [fst snd] in *. subst r.
    destruct (Hl z ltac:(left)) as [Hz HzB]. rewrite (proj2 (Z.leb_gt _ _)) by lia.
    apply list.NoDup_cons in Hnd as [Hnin Hnd].
    destruct (lookup_lt_is_Some_2 (io_pool ip) (Z.to_nat z)) as [d Hd]; [lia|].
    eexists (Z.to_nat z), _, d. split; [done|]. cbn [io_pool io_free].
    assert (Z.to_nat z < io_maxSize)%nat by lia.
    split_and!; [done|done|done|done|by apply Hids| |cbn [io_free]; lia].
    constructor; cbn [io_pool io_free]; try done; [|congruence|].
    + exists l. split_and!; [done|done| |].
      * intros z' Hz'. destruct (Hl z' ltac:(by right)) as [? ?]. split; [done|].
        apply not_elem_of_union. split; [|done]. rewrite elem_of_singleton.
        intros E. apply Hnin. by replace z with z' by lia.
      * rewrite size_union, size_singleton by (apply disjoint_singleton_l; done). lia.
    + intros i [->%elem_of_singleton|Hi]%elem_of_union; [done|by apply Hout].
Qed.

Lemma return_io_spec ip B i d :
  io_inv ip B -> i ∈ B -> io_pool ip !! i = Some d -> qhead (io_free ip) + 1 < 2 ^ 62 ->
  exists ip', returnIOPdata (Some i) ip = Ok ip' /\ io_inv ip' (B ∖ {[i]}) /\ qhead (io_free ip') <= qhead (io_free ip) + 1.
Proof.
  intros [(l & Hh & Hnd & Hl & Hsz) Hc Hlen Hids Hout] Hi Hd Hy. pose proof io_maxSize_le as HZ.
  pose proof (Hout i Hi) as Hlt. cbn [returnIOPdata]. rewrite Hd, (Hids i d Hd).
  rewrite (proj2 (Nat.leb_gt _ _)) by done. eexists. split; [done|].
  destruct (push_spec (Z.of_nat i) (io_free ip) l Hh ltac:(lia)) as (Hc' & Hhd & Hp).
  unfold len in Hp. rewrite (proj2 (Z.ltb_lt _ _)) in Hp by lia.
  split; [|cbn [io_free]; lia].
  constructor; cbn [io_pool io_free]; rewrite ?length_insert; try done; [|congruence| |].
  - exists (l ++ [Z.of_nat i]). split_and!; [done| | |].
    + apply list.NoDup_app. split_and!; [done| |apply NoDup_singleton].
      intros z Hz ->%list_elem_of_singleton. destruct (Hl _ Hz) as [_ Hn]. by rewrite Nat2Z.id in Hn.
    + intros z [Hz| ->%list_elem_of_singleton]%elem_of_app.
      * destruct (Hl z Hz). split; [done|]. rewrite elem_of_difference. naive_solver.
      * rewrite Nat2Z.id, elem_of_difference, elem_of_singleton. split; [lia|naive_solver].
    + rewrite length_app, size_difference, size_singleton by (by apply singleton_subseteq_l). cbn.
      assert (base.size B <> 0)%nat by (rewrite size_non_empty_iff; clear -Hi; set_solver). lia.
  - intros j dj. destruct (decide (j = i)) as [->|].
    + rewrite list_lookup_insert_eq by lia. by intros [= <-].
    + rewrite list_lookup_insert_ne by done. apply Hids.
  - intros j [? _]%elem_of_difference. by apply Hout.
Qed.

Lemma write_io_inv ip B i d : io_inv ip B -> io_id d = i -> io_inv (write_io i d ip) B.
Proof.
  intros [] Hd. constructor; cbn [write_io io_pool io_free]; rewrite ?length_insert; try done.
  intros j dj. destruct (decide (j = i)) as [->|].
  - intros Hj. pose proof (lookup_lt_Some _ _ _ Hj) as Hlt. rewrite length_insert in Hlt.
    rewrite list_lookup_insert_eq in Hj by done. by simplify_eq.
  - rewrite list_lookup_insert_ne by done. apply io_ids0.
Qed.

(** ** The send path as a transport of the send queues *)

(** Something can be sent: an I/O context is free and the packet's length field is in
    range. *)
Definition sendable (p : nat) (n : Net) : Prop :=
  exists B pkt, io_inv (io n) B /\ qhead (io_free (io n)) + 1 < 2 ^ 62 /\ (base.size B < io_maxSize)%nat /\
    pool (packets n) !! p = Some pkt /\ ntohl (load 4 4 (data pkt)) <= 4096.

Definition sends (n : Net) : list nat := (fun x => x.1.2) <$> posted n.

Lemma Ok_pair_inj {A B} (a a' : A) (b b' : B) : Ok (a, b) = Ok (a', b') -> a = a' /\ b = b'.
Proof. by intros [=]. Qed.

Lemma initiate_send_ok s p n b n' :
  initiate_send s p n = Ok (b, n') ->
  registry n' = registry n /\ sends n' = sends n ++ (if b then [p] else []).
Proof.
  unfold initiate_send. destruct (borrowIOPdata (io n)) as [[ptr|] ip]; [|done].
  destruct (pool (packets n) !! p) as [pkt|]; [|done]. destruct (io_pool ip !! ptr) as [d|]; [|done].
  destruct (_ <? _); [done|]. destruct (answer n).
  - intros [<- <-]%Ok_pair_inj. cbn [registry]. split; [done|]. unfold sends. cbn [posted]. by rewrite fmap_app.
  - destruct (returnIOPdata _ _) as [ip'| |]; cbn [obind]; try done. intros [<- <-]%Ok_pair_inj.
    cbn [registry]. split; [done|]. unfold sends. cbn [posted]. by rewrite app_nil_r.
Qed.

Lemma initiate_send_returns s p n :
  sendable p n -> exists b n', initiate_send s p n = Ok (b, n').
Proof.
  intros (B & pkt & Hi & Hy & Hsz & Hp & Hlen).
  pose proof (borrow_io_spec (io n) B Hi ltac:(unfold io_young; lia)) as Hb. rewrite decide_True in Hb by done.
  destruct Hb as (i & ip & d & Eb & _ & Hlt & Ep & Hd & Hid & Hi' & Hy').
  unfold initiate_send. rewrite Eb, Hp, Ep, Hd.
  destruct (Z.ltb_spec (Z.of_nat sizeof_data) (ntohl (load 4 4 (data pkt)))) as [Hbad|_];
    [rewrite sizeof_data_Z in Hbad; lia|].
  destruct (answer n); [by eexists _, _|].
  set (d' := mkIo _ _ _ _ _ _ _).
  destruct (return_io_spec (write_io i d' ip) ({[i]} ∪ B) i d') as (ip' & -> & _).
  - by apply write_io_inv.
  - apply elem_of_union_l. by apply elem_of_singleton.
  - cbn [write_io io_pool]. rewrite Ep. apply list_lookup_insert_eq. by eapply lookup_lt_Some.
  - cbn [write_io io_free]. lia.
  - cbn [obind]. by eexists _, _.
Qed.

Lemma findSession_registered r uid q :
  registry_inv r -> findSession uid r = Some q -> exists se, registered r uid q se.
Proof.
  intros Hr. unfold findSession. destruct (sessions r !! uid) as [ptr|] eqn:E; [|done].
  intros E'. cbn in E'. subst ptr. by apply registered_found.
Qed.

Lemma route_packet_ok p id n b n' :
  registry_inv (registry n) -> route_packet p id n = Ok (b, n') ->
  registry n' = registry n /\ sends n' = sends n ++ (if b then [p] else []).
Proof.
  intros Hr. unfold route_packet. destruct (decide (id = [])).
  { intros [= <- <-]. by rewrite app_nil_r. }
  destruct (findSession id (registry n)) as [q|] eqn:E.
  2: { intros [= <- <-]. by rewrite app_nil_r. }
  destruct (findSession_registered _ id q Hr E) as [se H].
  rewrite (deref_registered _ _ _ _ H). cbn [obind]. unfold sendPacket. rewrite (reg_iocp _ _ _ _ H).
  apply initiate_send_ok.
Qed.

Lemma route_packet_returns p id n :
  registry_inv (registry n) -> sendable p n -> exists b n', route_packet p id n = Ok (b, n').
Proof.
  intros Hr Hs. unfold route_packet. destruct (decide (id = [])); [by eexists _, _|].
  destruct (findSession id (registry n)) as [q|] eqn:E; [|by eexists _, _].
  destruct (findSession_registered _ id q Hr E) as [se H].
  rewrite (deref_registered _ _ _ _ H). cbn [obind]. unfold sendPacket. rewrite (reg_iocp _ _ _ _ H).
  by apply initiate_send_returns.
Qed.

(** The network is a transport: the send queues' theorems hold of it. *)
#[export] Program Instance net_transport_laws : TransportLaws Net net_transport := {|
  started := sends;
  transport_ok n := registry_inv (registry n);
  ready := sendable
|}.
Next Obligation.
  intros p id n b n' Hr E. destruct (route_packet_ok p id n b n' Hr E) as [-> ?]. done.
Qed.
Next Obligation.
  intros s p n b n' Hr E. destruct (initiate_send_ok s p n b n' E) as [-> ?]. done.
Qed.
Next Obligation. intros p id n Hr Hs. by apply route_packet_returns. Qed.
Next Obligation. intros s p n Hr Hs. by apply initiate_send_returns. Qed.

(** ** The invariant of the network

    [B] the packets that are out, [E] those that ever were, [D] the I/O contexts that are
    out; [k] more operations can still be started. *)

Record net_ok (n : Net) (B E D : gset nat) (k : nat) : Prop := mkNetOk {
  net_pool : pool_inv (packets n) B E;
  net_io : io_inv (io n) D;
  net_room : (base.size D + k <= io_maxSize)%nat;
  net_young : qhead (io_free (io n)) + Z.of_nat k < 2 ^ 62
}.

Lemma net_ok_weaken n B E D k k' : (k' <= k)%nat -> net_ok n B E D k -> net_ok n B E D k'.
Proof. intros Hk []. constructor; [done|done|lia|lia]. Qed.

(** The header and the bytes of a packet; a write that leaves them. *)
Definition content (p : Packet) : PacketHeader * bstr := (header p, data p).

Lemma content_write_packet p f pp i :
  (forall pkt, content (f pkt) = content pkt) -> content <$> pool (write_packet p f pp) !! i = content <$> pool pp !! i.
Proof.
  intros Hf. cbn [write_packet pool]. destruct (decide (i = p)) as [->|Hne].
  - rewrite list_lookup_alter_eq. destruct (pool pp !! p) as [pkt|]; [|done]. cbn. by rewrite Hf.
  - by rewrite list_lookup_alter_ne.
Qed.

Lemma initiate_send_ready s p pkt n B E D k :
  net_ok n B E D (S k) -> p ∈ B -> pool (packets n) !! p = Some pkt -> ntohl (load 4 4 (data pkt)) <= 4096 ->
  exists n' D', initiate_send s p n = Ok (answer n, n') /\ net_ok n' B E D' k /\ registry n' = registry n /\
    reads n' = reads n /\ answers n' = tail (answers n) /\
    posted n' = posted n ++
      (if answer n then [(s, p, take (Z.to_nat (ntohl (load 4 4 (data pkt)))) (data pkt))] else []) /\
    (forall i, content <$> pool (packets n') !! i = content <$> pool (packets n) !! i).
Proof.
  intros [Hpool Hi Hsz Hy] HpB Hp Hlen.
  pose proof (borrow_io_spec (io n) D Hi ltac:(unfold io_young; lia)) as Hb. rewrite decide_True in Hb by lia.
  destruct Hb as (i & ip & d & Eb & Hn & Hlt & Ep & Hd & Hid & Hi' & Hq).
  unfold initiate_send. rewrite Eb, Hp, Ep, Hd.
  destruct (Z.ltb_spec (Z.of_nat sizeof_data) (ntohl (load 4 4 (data pkt)))) as [Hbad|_];
    [rewrite sizeof_data_Z in Hbad; lia|].
  set (d' := mkIo _ _ _ _ _ _ _).
  assert (Hw : io_inv (write_io i d' ip) ({[i]} ∪ D)) by (by apply write_io_inv).
  destruct (answer n).
  - eexists _, ({[i]} ∪ D). split; [done|]. cbn [packets registry reads answers posted io].
    split_and!; [constructor; cbn [packets io]| | | | |]; try done.
    + by apply write_inv.
    + rewrite size_union, size_singleton by (by apply disjoint_singleton_l). lia.
    + cbn [write_io io_free]. lia.
    + intros j. by apply content_write_packet.
  - destruct (return_io_spec (write_io i d' ip) ({[i]} ∪ D) i d') as (ip' & -> & Hi2 & Hq'); [done| | | |].
    + apply elem_of_union_l. by apply elem_of_singleton.
    + cbn [write_io io_pool]. rewrite Ep. apply list_lookup_insert_eq. by eapply lookup_lt_Some.
    + cbn [write_io io_free]. lia.
    + cbn [write_io io_free] in Hq'. cbn [obind]. eexists _, (({[i]} ∪ D) ∖ {[i]}). split; [done|].
      cbn [packets registry reads answers posted io]. rewrite app_nil_r.
      split_and!; [constructor; cbn [packets io]| | | | |]; try done.
      * by apply write_inv.
      * replace (({[i]} ∪ D) ∖ {[i]}) with D by (clear -Hn; set_solver). lia.
      * lia.
      * intros j. by apply content_write_packet.
Qed.

(** ** Histories of the I/O context pool *)

Inductive io_history : IOContextPool -> gset nat -> Prop :=
| io_history_new : io_history new_io_pool ∅
| io_history_borrow ip B i ip' :
    io_history ip B -> borrowIOPdata ip = (Some i, ip') -> io_young ip -> io_history ip' ({[i]} ∪ B)
| io_history_write ip B i d :
    io_history ip B -> i ∈ B -> io_id d = i -> io_history (write_io i d ip) B
| io_history_return ip B i ip' :
    io_history ip B -> i ∈ B -> returnIOPdata (Some i) ip = Ok ip' ->
    qhead (io_free ip) + 1 < 2 ^ 62 -> io_history ip' (B ∖ {[i]}).

Lemma io_history_inv ip B : io_history ip B -> io_inv ip B.
Proof.
  induction 1 as [|ip B i ip' _ IH Hb Hy|ip B i d _ IH Hi Hd|ip B i ip' _ IH Hi Hr Hy].
  - apply new_io_pool_inv.
  - pose proof (borrow_io_spec ip B IH Hy) as H. destruct (decide _).
    + destruct H as (i' & ip2 & d & E & _ & _ & _ & _ & _ & Hi & _). congruence.
    + by rewrite Hb in H.
  - by apply write_io_inv.
  - destruct (lookup_lt_is_Some_2 (io_pool ip) i) as [d Hd];
      [rewrite (io_len _ _ IH); by apply (io_out _ _ IH)|].
    destruct (return_io_spec ip B i d IH Hi Hd Hy) as (ip2 & E & ? & _). congruence.
Qed.

(** ** Properties *)

(** The I/O context pool never hands out a context that is in use.  After any
    history of borrows, writes and returns by holders of the contexts (fewer than 2^62
    calls), a borrow gives a context that is not out, and nullptr exactly when all 20000
    are out; a holder's return succeeds; so no two overlapped operations share a
    context. *)
Theorem io_pool_safe (ip : IOContextPool) (B : gset nat) :
  io_history ip B -> qhead (io_free ip) + 1 < 2 ^ 62 ->
  ((borrowIOPdata ip).1 = None <-> base.size B = io_maxSize) /\
  (forall i ip', borrowIOPdata ip = (Some i, ip') -> i ∉ B /\ (i < io_maxSize)%nat) /\
  (forall i, i ∈ B -> exists ip', returnIOPdata (Some i) ip = Ok ip').
Proof.
  intros Hh Hy. pose proof (io_history_inv ip B Hh) as Hi.
  pose proof (borrow_io_spec ip B Hi ltac:(unfold io_young; lia)) as Hb.
  assert (Hsz : (base.size B <= io_maxSize)%nat) by (destruct (io_list _ _ Hi) as (l & _ & _ & _ & ?); lia).
  destruct (decide (base.size B < io_maxSize)%nat) as [Hlt|Hge].
  - destruct Hb as (i & ip' & d & E & Hn & Hlt' & _). split_and!.
    + rewrite E. cbn. split; [done|lia].
    + intros j ip2 E2. rewrite E in E2. by simplify_eq.
    + intros j Hj. destruct (lookup_lt_is_Some_2 (io_pool ip) j) as [dj Hd];
        [rewrite (io_len _ _ Hi); by apply (io_out _ _ Hi)|].
      destruct (return_io_spec ip B j dj Hi Hj Hd Hy) as (ip2 & ? & _). by exists ip2.
  - split_and!.
    + rewrite Hb. split; [lia|done].
    + intros j ip2 E2. by rewrite E2 in Hb.
    + intros j Hj. destruct (lookup_lt_is_Some_2 (io_pool ip) j) as [dj Hd];
        [rewrite (io_len _ _ Hi); by apply (io_out _ _ Hi)|].
      destruct (return_io_spec ip B j dj Hi Hj Hd Hy) as (ip2 & ? & _). by exists ip2.
Qed.

Lemma io_pool_safe_witness :
  io_history new_io_pool ∅ /\ (borrowIOPdata new_io_pool).1 <> None.
Proof.
  split; [apply io_history_new|]. intros E.
  assert (Hy : qhead (io_free new_io_pool) + 1 < 2 ^ 62) by (pose proof (proj2 new_io_pool_inv); lia).
  apply (proj1 (proj1 (io_pool_safe new_io_pool ∅ io_history_new Hy))) in E.
  rewrite size_empty in E. pose proof io_maxSize_le. lia.
Defined.

(** ** The length of a send *)

Section Length.
Context {C : Checksum} {L : ChecksumLaws C}.

Lemma length_field_frame p t pl : holds_frame p t pl -> ntohl (load 4 4 (data p)) = len pl.
Proof.
  intros Hf. pose proof Hf as (_ & Hl & _). rewrite (holds_frame_data _ _ _ Hf).
  pose proof (read_header_frame t pl (drop (HEADER_SIZE + length pl) (data p)) Hl) as H.
  exact (f_equal payload_length H).
Qed.

Lemma initiate_send_posts s p pkt t pl n B :
  io_inv (io n) B -> qhead (io_free (io n)) + 1 < 2 ^ 62 -> (base.size B < io_maxSize)%nat ->
  pool (packets n) !! p = Some pkt -> holds_frame pkt t pl -> answer n = true ->
  exists n', initiate_send s p n = Ok (true, n') /\
    posted n' = posted n ++ [(s, p, take (length pl) (frame t pl))].
Proof.
  intros Hi Hy Hsz Hp Hf Ha. pose proof (length_field_frame pkt t pl Hf) as Hlen.
  pose proof (borrow_io_spec (io n) B Hi ltac:(unfold io_young; lia)) as Hb. rewrite decide_True in Hb by done.
  destruct Hb as (i & ip & d & Eb & _ & Hlt & Ep & Hd & Hid & Hi' & Hy').
  unfold initiate_send. rewrite Eb, Hp, Ep, Hd, Hlen, Ha.
  pose proof Hf as (_ & Hl & _).
  destruct (Z.ltb_spec (Z.of_nat sizeof_data) (len pl)); [unfold len in *; unfold HEADER_SIZE in *; lia|].
  eexists. split; [done|]. cbn [posted]. do 3 f_equal.
  unfold len. rewrite Nat2Z.id. rewrite (holds_frame_data _ _ _ Hf).
  apply take_app_le. rewrite length_frame. unfold HEADER_SIZE. lia.
Qed.

(** C37: a packet is never transmitted completely.  [initiateSend] posts the first
    [payload_length] bytes of the packet's frame, not [HEADER_SIZE + payload_length]: the
    last sixteen bytes are missing, and a receiver that gets what was posted cuts no
    packet out of it. *)
Theorem send_truncates_frame (s : Z) (p : nat) (pkt : Packet) (t : PacketType) (pl : bstr) (n : Net) (B : gset nat) :
  io_inv (io n) B -> qhead (io_free (io n)) + 1 < 2 ^ 62 -> (base.size B < io_maxSize)%nat ->
  pool (packets n) !! p = Some pkt -> holds_frame pkt t pl -> answer n = true ->
  exists n' bytes, initiate_send s p n = Ok (true, n') /\ posted n' = posted n ++ [(s, p, bytes)] /\
    frame t pl = bytes ++ drop (length pl) (frame t pl) /\
    (length bytes + 16 = length (frame t pl))%nat /\
    deframe bytes = ([], false, bytes).
Proof.
  intros Hi Hy Hsz Hp Hf Ha. destruct (initiate_send_posts s p pkt t pl n B Hi Hy Hsz Hp Hf Ha) as (n' & E & Hpost).
  exists n', (take (length pl) (frame t pl)). pose proof Hf as (_ & Hl & _).
  assert (Hlen : length (take (length pl) (frame t pl)) = length pl).
  { rewrite length_take, length_frame. lia. }
  split_and!; [done|done|by rewrite take_drop|rewrite Hlen, length_frame; unfold HEADER_SIZE; lia|].
  rewrite deframe_eq, Hlen. destruct (Nat.ltb_spec (length pl) HEADER_SIZE) as [|Hge]; [done|].
  rewrite take_take, Nat.min_l by done.
  pose proof (packet_size_frame t pl [] Hl) as Hps. rewrite app_nil_r in Hps. rewrite Hps.
  unfold len. rewrite Hlen, (proj2 (Z.ltb_lt _ _)) by (unfold HEADER_SIZE; lia). done.
Qed.
End Length.

Definition sample_net : Net :=
  mkNet new_io_pool
    (write_packet 0 (fill (frame (C := compute_soft) PKT_STATUS (str "a status text"))) new_pool)
    new_registry [] [] [].

Lemma sample_net_packet :
  pool (packets sample_net) !! 0%nat =
    Some (fill (frame (C := compute_soft) PKT_STATUS (str "a status text")) (set_pkt_id 0 new_packet)).
Proof.
  cbn [sample_net packets write_packet pool new_pool]. rewrite list_lookup_alter_eq, lookup_replicate_2; [done|].
  pose proof currentSize_Z. lia.
Qed.

Lemma send_truncates_frame_witness :
  exists n' bytes, initiate_send 100 0 sample_net = Ok (true, n') /\ posted n' = [(100, 0%nat, bytes)] /\
    length bytes = 13%nat /\ deframe bytes = ([], false, bytes).
Proof.
  destruct (send_truncates_frame (C := compute_soft) 100 0
    (fill (frame (C := compute_soft) PKT_STATUS (str "a status text")) (set_pkt_id 0 new_packet)) PKT_STATUS (str "a status text") sample_net ∅
    (proj1 new_io_pool_inv)) as (n' & bytes & E & Hp & _ & Hl & Hd).
  - pose proof (proj2 new_io_pool_inv). cbn [sample_net io]. lia.
  - rewrite size_empty. pose proof io_maxSize_le. lia.
  - apply sample_net_packet.
  - apply fill_holds_frame. vm_compute. lia.
  - reflexivity.
  - exists n', bytes. split; [exact E|]. split; [exact Hp|]. split; [|exact Hd].
    rewrite length_frame in Hl. cbn in Hl. lia.
Defined.
