(* ===== verification/AuthStore.v ===== *)
(** Credentials, refresh families and tokens: authentication/auth_types.h,
    authentication/auth_store.h, and the token functions of
    authentication/AuthManager.cpp.

    Libsodium is not part of the program: the functions the code calls are the class
    [Sodium], what its documentation promises of them the class [SodiumLaws]. *)

From S2P Require Import Prelude Crc32c Packet Serialize Session.

(** ** Libsodium *)

Class Sodium := {
  crypto_auth : bstr -> bstr -> option bstr;            (* key, message: the tag *)
  crypto_auth_verify : bstr -> bstr -> bstr -> bool;    (* tag, message, key *)
  crypto_pwhash_str : bstr -> bstr -> option bstr;      (* password, salt: the hash string *)
  crypto_pwhash_str_verify : bstr -> bstr -> bool;      (* hash string, password *)
  sodium_bin2hex : bstr -> bstr
}.

Class SodiumLaws (N : Sodium) := {
  auth_total key m : exists tag, crypto_auth key m = Some tag;
  auth_length key m tag : crypto_auth key m = Some tag -> length tag = 32%nat;
  auth_verify key m tag : crypto_auth_verify tag m key = true <-> crypto_auth key m = Some tag;
  pwhash_verify pw salt h : crypto_pwhash_str pw salt = Some h -> crypto_pwhash_str_verify h pw = true;
  bin2hex_inj b b' : length b = length b' -> sodium_bin2hex b = sodium_bin2hex b' -> b = b';
  bin2hex_length b : length (sodium_bin2hex b) = (2 * length b)%nat;
  bin2hex_digits b : Forall (fun c => c ∈ str "0123456789abcdef") (sodium_bin2hex b)
}.

(** ** Definitions: the user store *)

(** [std::string(a, strnlen(a, sizeof a))]: the characters before the first zero. *)
Fixpoint cstr (a : bstr) : bstr :=
  match a with
  | [] => []
  | c :: a => if decide (c = Byte.x00) then [] else c :: cstr a
  end.

Record UserRecord := mkUser {
  user_id : bstr;             (* 16 bytes *)
  username : bstr;            (* char[32] *)
  password_hash : bstr;       (* char[128] *)
  email : bstr;               (* char[64] *)
  email_verified : bool;
  phone_hash : bstr;
  phone_discoverable : bool
}.

Record UserStore := mkUsers {
  records_ : gmap bstr UserRecord;
  email_to_uid_ : gmap bstr bstr;
  username_to_uid_ : gmap bstr bstr
}.

Section UserStore.
Context {N : Sodium}.

Definition ToHex (b : bstr) : bstr := sodium_bin2hex b.
Definition UserIdToHexString (uid : bstr) : bstr := ToHex uid.

Definition Insert (r : UserRecord) (us : UserStore) : bool * UserStore :=
  let uid_hex := ToHex (user_id r) in
  let email_key := cstr (email r) in
  let uname_key := cstr (username r) in
  if bool_decide (is_Some (email_to_uid_ us !! email_key)) then (false, us) else
  if negb (bool_decide (uname_key = [])) && bool_decide (is_Some (username_to_uid_ us !! uname_key))
  then (false, us) else
  (true, mkUsers (<[uid_hex := r]> (records_ us)) (<[email_key := uid_hex]> (email_to_uid_ us))
           (if negb (bool_decide (uname_key = [])) then <[uname_key := uid_hex]> (username_to_uid_ us)
            else username_to_uid_ us)).

Definition FindByEmail (e : bstr) (us : UserStore) : option UserRecord :=
  uid ← email_to_uid_ us !! e; records_ us !! uid.

Definition FindByUsername (n : bstr) (us : UserStore) : option UserRecord :=
  uid ← username_to_uid_ us !! n; records_ us !! uid.

Definition FindByUserId (uid : bstr) (us : UserStore) : option UserRecord := records_ us !! ToHex uid.

Definition SetEmailVerified (uid : bstr) (us : UserStore) : bool * UserStore :=
  match records_ us !! ToHex uid with
  | None => (false, us)
  | Some r =>
      (true, mkUsers (<[ToHex uid := mkUser (user_id r) (username r) (password_hash r) (email r) true
                                      (phone_hash r) (phone_discoverable r)]> (records_ us))
               (email_to_uid_ us) (username_to_uid_ us))
  end.
End UserStore.

(** ** Definitions: refresh families *)

Record RefreshFamilyRecord := mkFamily {
  family_id : Z;
  fam_user_id : bstr;
  current_token_id : Z;
  revoked : bool
}.

Abbreviation RefreshFamilyStore := (gmap Z RefreshFamilyRecord).

Definition InsertFamily (r : RefreshFamilyRecord) (fs : RefreshFamilyStore) : RefreshFamilyStore :=
  <[family_id r := r]> fs.

Definition Find (fid : Z) (fs : RefreshFamilyStore) : option RefreshFamilyRecord := fs !! fid.

Definition AdvanceTokenId (fid presented : Z) (fs : RefreshFamilyStore) : bool * RefreshFamilyStore :=
  match fs !! fid with
  | None => (false, fs)
  | Some fam =>
      if revoked fam then (false, fs) else
      if negb (current_token_id fam =? presented) then
        (false, <[fid := mkFamily (family_id fam) (fam_user_id fam) (current_token_id fam) true]> fs)
      else
        (true, <[fid := mkFamily (family_id fam) (fam_user_id fam) (wrap 64 (current_token_id fam + 1))
                          (revoked fam)]> fs)
  end.

Definition Revoke (fid : Z) (fs : RefreshFamilyStore) : RefreshFamilyStore :=
  match fs !! fid with
  | None => fs
  | Some fam => <[fid := mkFamily (family_id fam) (fam_user_id fam) (current_token_id fam) true]> fs
  end.

Definition Remove (fid : Z) (fs : RefreshFamilyStore) : RefreshFamilyStore := delete fid fs.

(** ** Definitions: tokens

    The packed structs as they lie in memory, integers little-endian. *)

Record AccessTokenPayload := mkAccess { at_user_id : bstr; issued_at : Z; at_expiry : Z; at_key_id : Z }.

Record RefreshTokenPayload := mkRefresh {
  rt_user_id : bstr; rt_family_id : Z; token_id : Z; rt_expiry : Z; rt_key_id : Z
}.

Definition access_bytes (p : AccessTokenPayload) : bstr :=
  at_user_id p ++ le_split 8 (issued_at p) ++ le_split 8 (at_expiry p) ++ le_split 1 (at_key_id p).

Definition refresh_bytes (p : RefreshTokenPayload) : bstr :=
  rt_user_id p ++ le_split 8 (rt_family_id p) ++ le_split 8 (token_id p) ++ le_split 8 (rt_expiry p)
  ++ le_split 1 (rt_key_id p).

(** The payload a token's bytes are read as. *)
Definition read_access (b : bstr) : AccessTokenPayload :=
  mkAccess (slice 0 16 b) (load 8 16 b) (load 8 24 b) (load 1 32 b).

Definition read_refresh (b : bstr) : RefreshTokenPayload :=
  mkRefresh (slice 0 16 b) (load 8 16 b) (load 8 24 b) (load 8 32 b) (load 1 40 b).

Definition ACCESS_TOKEN_LIFETIME : Z := 900.
Definition REFRESH_TOKEN_LIFETIME : Z := 2592000.

(** [LoginResult]: the two tokens' bytes and the access token's expiry, when valid. *)
Record LoginResult := mkLogin { access_token : bstr; refresh_token : bstr; granted_expiry : Z; granted_family : Z }.

Section Tokens.
Context {N : Sodium}.

(** [IssueTokenPair]; [next_family_id_] is taken only after the access token was
    signed. *)
Definition IssueTokenPair (key uid : bstr) (now next_family_id : Z) : option LoginResult * Z :=
  let ap := mkAccess (take 16 uid) now (wrap 64 (now + ACCESS_TOKEN_LIFETIME)) 0 in
  match crypto_auth key (access_bytes ap) with
  | None => (None, next_family_id)
  | Some sig =>
      let family := next_family_id in
      let next := wrap 64 (next_family_id + 1) in
      let rp := mkRefresh (take 16 uid) family 1 (wrap 64 (now + REFRESH_TOKEN_LIFETIME)) 0 in
      match crypto_auth key (refresh_bytes rp) with
      | None => (None, next)
      | Some sig' =>
          (Some (mkLogin (access_bytes ap ++ sig) (refresh_bytes rp ++ sig') (at_expiry ap) family), next)
      end
  end.

Definition ValidateAccessToken (key token_data : bstr) (now : Z) : option AccessTokenPayload :=
  if negb (length token_data =? sizeof_AccessToken)%nat then None else
  let payload := take 33 token_data in
  if negb (crypto_auth_verify (drop 33 token_data) payload key) then None else
  let p := read_access payload in
  if at_expiry p <=? now then None else
  if negb (at_key_id p =? 0) then None else
  Some p.

Definition ValidateRefreshToken (key token_data : bstr) (now : Z) : option RefreshTokenPayload :=
  if negb (length token_data =? sizeof_RefreshToken)%nat then None else
  let payload := take 41 token_data in
  if negb (crypto_auth_verify (drop 41 token_data) payload key) then None else
  let p := read_refresh payload in
  if rt_expiry p <=? now then None else
  if negb (rt_key_id p =? 0) then None else
  Some p.
End Tokens.

(** [ValidateSessionHotPath]; state 1 is [AUTHENTICATED]. *)
Definition AUTHENTICATED : Z := 1.
Definition UNAUTHENTICATED : Z := 0.

Definition ValidateSessionHotPath (s : Session) (now : Z) : bool :=
  if negb (auth_state s =? AUTHENTICATED) then false else now <? cached_expiry s.

(** ** Lemmas: sessions that are moved *)

(** A login moves with its session: the new object passes the gate exactly when the old one
    did, and the old one never again; only [updated] stays behind. *)
Lemma moved_login now left this s :
  ValidateSessionHotPath (move_session left s).1 now = ValidateSessionHotPath s now /\
  ValidateSessionHotPath (move_session left s).2 now = false /\
  move_assign left this s = (set_updated (updated this) (move_session left s).1, (move_session left s).2) /\
  close (move_session left s).2 = (move_session left s).2.
Proof.
  split_and!; [done..| |done]. unfold move_assign, set_updated, close. by destruct (negb _).
Qed.

(** ** Lemmas: tokens *)

Lemma slice_split o n m (b : bstr) : slice o (n + m) b = slice o n b ++ slice (o + n) m b.
Proof.
  unfold slice. rewrite <- (take_drop n (take (n + m) (drop o b))) at 1.
  rewrite take_take, Nat.min_l by lia. f_equal. rewrite skipn_firstn_comm, drop_drop.
  f_equal. lia.
Qed.

Lemma le_split_load w off b : (off + w <= length b)%nat -> le_split w (load w off b) = slice off w b.
Proof. intros H. unfold load. apply split_le_combine'. rewrite length_slice. lia. Qed.

Lemma access_bytes_read b : length b = 33%nat -> access_bytes (read_access b) = b.
Proof.
  intros H. unfold access_bytes, read_access. cbn [at_user_id issued_at at_expiry at_key_id].
  rewrite !le_split_load by lia. rewrite <- (slice_all b) at 5. rewrite H.
  change 33%nat with (16 + (8 + (8 + 1)))%nat. by rewrite !slice_split.
Qed.

Lemma refresh_bytes_read b : length b = 41%nat -> refresh_bytes (read_refresh b) = b.
Proof.
  intros H. unfold refresh_bytes, read_refresh. cbn [rt_user_id rt_family_id token_id rt_expiry rt_key_id].
  rewrite !le_split_load by lia. rewrite <- (slice_all b) at 6. rewrite H.
  change 41%nat with (16 + (8 + (8 + (8 + 1))))%nat. by rewrite !slice_split.
Qed.

(** Fields that fit their width. *)
Definition access_ok (p : AccessTokenPayload) : Prop :=
  length (at_user_id p) = 16%nat /\ 0 <= issued_at p < 2 ^ 64 /\ 0 <= at_expiry p < 2 ^ 64 /\ 0 <= at_key_id p < 2 ^ 8.
Definition refresh_ok (p : RefreshTokenPayload) : Prop :=
  length (rt_user_id p) = 16%nat /\ 0 <= rt_family_id p < 2 ^ 64 /\ 0 <= token_id p < 2 ^ 64 /\
  0 <= rt_expiry p < 2 ^ 64 /\ 0 <= rt_key_id p < 2 ^ 8.

Lemma length_access_bytes p : access_ok p -> length (access_bytes p) = 33%nat.
Proof. intros (H & _). unfold access_bytes. lens. Qed.

Lemma length_refresh_bytes p : refresh_ok p -> length (refresh_bytes p) = 41%nat.
Proof. intros (H & _). unfold refresh_bytes. lens. Qed.

Lemma load_le_split w v : 0 <= v < 2 ^ (Z.of_nat w * 8) -> le_combine (le_split w v) = v.
Proof. intros H. rewrite le_combine_split. by apply Z.mod_small. Qed.

Lemma read_access_bytes p : access_ok p -> read_access (access_bytes p) = p.
Proof.
  intros (H & Hi & He & Hk). unfold read_access, access_bytes, load. destruct p as [u i e k]. cbn in *.
  f_equal; slices; rewrite ?load_le_split by (cbn; lia); done.
Qed.

Lemma read_refresh_bytes p : refresh_ok p -> read_refresh (refresh_bytes p) = p.
Proof.
  intros (H & Hf & Ht & He & Hk). unfold read_refresh, refresh_bytes, load. destruct p as [u f t e k]. cbn in *.
  f_equal; slices; rewrite ?load_le_split by (cbn; lia); done.
Qed.

Section TokenLemmas.
Context {N : Sodium} {L : SodiumLaws N}.

Lemma validate_access_eq key p tag t :
  access_ok p -> crypto_auth key (access_bytes p) = Some tag ->
  ValidateAccessToken key (access_bytes p ++ tag) t =
    if (t <? at_expiry p) && (at_key_id p =? 0) then Some p else None.
Proof.
  intros Hp Ha. pose proof (auth_length _ _ _ Ha) as Htag. pose proof (length_access_bytes p Hp) as Hl.
  unfold ValidateAccessToken, sizeof_AccessToken. rewrite length_app, Hl, Htag. cbn [negb Nat.eqb Nat.add].
  rewrite take_app_length', drop_app_length' by done.
  rewrite (proj2 (auth_verify key _ tag)) by done. cbn [negb]. rewrite read_access_bytes by done.
  rewrite Z.leb_antisym. destruct (t <? at_expiry p); cbn [negb andb]; [|done]. by destruct (at_key_id p =? 0).
Qed.

Lemma validate_refresh_eq key p tag t :
  refresh_ok p -> crypto_auth key (refresh_bytes p) = Some tag ->
  ValidateRefreshToken key (refresh_bytes p ++ tag) t =
    if (t <? rt_expiry p) && (rt_key_id p =? 0) then Some p else None.
Proof.
  intros Hp Ha. pose proof (auth_length _ _ _ Ha) as Htag. pose proof (length_refresh_bytes p Hp) as Hl.
  unfold ValidateRefreshToken, sizeof_RefreshToken. rewrite length_app, Hl, Htag. cbn [negb Nat.eqb Nat.add].
  rewrite take_app_length', drop_app_length' by done.
  rewrite (proj2 (auth_verify key _ tag)) by done. cbn [negb]. rewrite read_refresh_bytes by done.
  rewrite Z.leb_antisym. destruct (t <? rt_expiry p); cbn [negb andb]; [|done]. by destruct (rt_key_id p =? 0).
Qed.

Lemma issue_eq key uid now nf :
  length uid = 16%nat -> 0 <= now -> now + REFRESH_TOKEN_LIFETIME < 2 ^ 64 ->
  let ap := mkAccess uid now (now + ACCESS_TOKEN_LIFETIME) 0 in
  let rp := mkRefresh uid nf 1 (now + REFRESH_TOKEN_LIFETIME) 0 in
  exists sig sig', crypto_auth key (access_bytes ap) = Some sig /\ crypto_auth key (refresh_bytes rp) = Some sig' /\
    IssueTokenPair key uid now nf =
      (Some (mkLogin (access_bytes ap ++ sig) (refresh_bytes rp ++ sig') (now + ACCESS_TOKEN_LIFETIME) nf),
       wrap 64 (nf + 1)).
Proof.
  intros Hu Hn Hb ap rp. unfold REFRESH_TOKEN_LIFETIME in *.
  destruct (auth_total key (access_bytes ap)) as [sig E]. destruct (auth_total key (refresh_bytes rp)) as [sig' E'].
  exists sig, sig'. split_and!; [done|done|]. unfold IssueTokenPair. rewrite take_ge by lia.
  unfold ACCESS_TOKEN_LIFETIME, REFRESH_TOKEN_LIFETIME. rewrite !(wrap_small 64 (now + _)) by lia.
  fold (ACCESS_TOKEN_LIFETIME). unfold ap, rp in *. unfold ACCESS_TOKEN_LIFETIME, REFRESH_TOKEN_LIFETIME in *.
  by rewrite E, E'.
Qed.
End TokenLemmas.

(** ** Lemmas: refresh families

    A history of the family store: families are opened with ids never used before (the
    atomic counter); [accepted] is the family and token ids of the successful rotations,
    [known] the family ids used. *)

Record FamilyTrace := mkTrace { store_ : RefreshFamilyStore; accepted : list (Z * Z); known : gset Z }.

Definition new_families : FamilyTrace := mkTrace ∅ [] ∅.

Inductive family_step : FamilyTrace -> FamilyTrace -> Prop :=
| fam_insert fs acc kn r :
    family_id r ∉ kn -> current_token_id r = 1 ->
    family_step (mkTrace fs acc kn) (mkTrace (InsertFamily r fs) acc ({[family_id r]} ∪ kn))
| fam_advance fs acc kn fid tid ok fs' :
    AdvanceTokenId fid tid fs = (ok, fs') ->
    family_step (mkTrace fs acc kn) (mkTrace fs' (if ok : bool then (fid, tid) :: acc else acc) kn)
| fam_revoke fs acc kn fid : family_step (mkTrace fs acc kn) (mkTrace (Revoke fid fs) acc kn)
| fam_remove fs acc kn fid : family_step (mkTrace fs acc kn) (mkTrace (Remove fid fs) acc kn).

Definition family_history : FamilyTrace -> Prop := rtc family_step new_families.

Record family_inv (s : FamilyTrace) : Prop := mkFamInv {
  fam_known : (forall fid fam, store_ s !! fid = Some fam -> fid ∈ known s) /\
              (forall p, p ∈ accepted s -> p.1 ∈ known s);
  fam_current : forall fid fam, store_ s !! fid = Some fam ->
    1 <= current_token_id fam <= 1 + len (accepted s) /\
    forall tid, (fid, tid) ∈ accepted s -> tid < current_token_id fam;
  fam_nodup : NoDup (accepted s)
}.

Lemma advance_cases fid tid fs :
  (fst (AdvanceTokenId fid tid fs) = true /\
   exists fam, fs !! fid = Some fam /\ revoked fam = false /\ current_token_id fam = tid /\
     snd (AdvanceTokenId fid tid fs) =
       <[fid := mkFamily (family_id fam) (fam_user_id fam) (wrap 64 (tid + 1)) false]> fs) \/
  (fst (AdvanceTokenId fid tid fs) = false /\
   (snd (AdvanceTokenId fid tid fs) = fs \/
    exists fam, fs !! fid = Some fam /\ current_token_id fam <> tid /\
      snd (AdvanceTokenId fid tid fs) =
        <[fid := mkFamily (family_id fam) (fam_user_id fam) (current_token_id fam) true]> fs)).
Proof.
  unfold AdvanceTokenId. destruct (fs !! fid) as [fam|] eqn:E; [|right; auto].
  destruct (revoked fam) eqn:Er; [right; auto|].
  destruct (Z.eqb_spec (current_token_id fam) tid) as [<-|Hne]; cbn; [left|right]; eauto 10.
Qed.


(** A lookup in an updated store is the update or the old store's. *)
Ltac fam_lookup :=
  repeat match goal with
  | H : <[_ := _]> _ !! _ = Some _ |- _ => apply lookup_insert_Some in H as [[<- <-]|[? H]]
  | H : delete _ _ !! _ = Some _ |- _ => apply lookup_delete_Some in H as [? H]
  end.

Lemma family_step_inv s s' :
  family_step s s' -> len (accepted s') < 2 ^ 63 -> family_inv s -> family_inv s'.
Proof.
  unfold len. intros Hstep Hb [[Hk1 Hk2] Hcur Hnd].
  destruct Hstep as [fs acc kn r Hn Hc|fs acc kn fid tid ok fs' Ha|fs acc kn fid|fs acc kn fid];
    cbn [store_ accepted known] in *.
  - constructor; cbn [store_ accepted known]; [|intros fid fam Hl|done]; unfold InsertFamily in *.
    + split; [|set_solver]. intros fid fam Hl. fam_lookup; set_solver.
    + fam_lookup; [|by apply Hcur]. unfold len. rewrite Hc. split; [lia|].
      intros tid Hin. by apply Hk2 in Hin.
  - pose proof (advance_cases fid tid fs) as Hcase. rewrite Ha in Hcase. cbn [fst snd] in Hcase.
    destruct Hcase as [[-> (fam & Hf & _ & <- & ->)]|[-> [->|(fam & Hf & _ & ->)]]]; [| done |].
    + cbn [length] in Hb. destruct (Hcur fid fam Hf) as [Hr Hlt].
      unfold len in Hr. constructor; cbn [store_ accepted known].
      * split; [|set_solver]. intros f' fam' Hl. fam_lookup; eauto.
      * intros f' fam' Hl. fam_lookup; unfold len; cbn [length current_token_id].
        -- rewrite wrap_small by lia. split; [lia|].
           intros tid [[= ->]|Hin]%elem_of_cons; [lia|]. specialize (Hlt tid Hin). lia.
        -- destruct (Hcur f' fam' Hl) as [Hr' Hlt']. unfold len in Hr'. split; [lia|].
           intros tid [[= <- _]|Hin]%elem_of_cons; [done|by apply Hlt'].
      * apply list.NoDup_cons. split; [|done]. intros Hin. specialize (Hlt _ Hin). lia.
    + constructor; cbn [store_ accepted known]; [split; [|done]| |done]; intros f' fam' Hl; fam_lookup;
        eauto; by apply Hcur in Hf.
  - unfold Revoke. destruct (fs !! fid) as [fam|] eqn:Hf; [|done].
    constructor; cbn [store_ accepted known]; [split; [|done]| |done]; intros f' fam' Hl; fam_lookup;
      eauto; by apply Hcur in Hf.
  - unfold Remove. constructor; cbn [store_ accepted known]; [split; [|done]| |done]; intros f' fam' Hl;
      fam_lookup; eauto.
Qed.

Lemma family_step_accepted s s' : family_step s s' -> len (accepted s) <= len (accepted s').
Proof. unfold len. destruct 1 as [| ??? ?? [] | |]; cbn; lia. Qed.

Lemma family_history_inv s : family_history s -> len (accepted s) < 2 ^ 63 -> family_inv s.
Proof.
  revert s. apply (rtc_ind_r (fun s => len (accepted s) < 2 ^ 63 -> family_inv s)).
  - intros _. constructor; cbn; [split; set_solver|done|apply NoDup_nil_2].
  - intros y z _ Hstep IH Hb. pose proof (family_step_accepted _ _ Hstep).
    apply (family_step_inv y); [done|done|apply IH; lia].
Qed.

(** A family that is revoked or gone accepts no token again. *)
Definition dead (fid : Z) (s : FamilyTrace) : Prop :=
  fid ∈ known s /\ forall fam, store_ s !! fid = Some fam -> revoked fam = true.

Lemma family_step_dead fid s s' :
  family_step s s' -> dead fid s ->
  dead fid s' /\ forall tid, (fid, tid) ∈ accepted s' -> (fid, tid) ∈ accepted s.
Proof.
  intros Hstep [Hk Hr]. destruct Hstep as [fs acc kn r Hn Hc|fs acc kn f tid ok fs' Ha|fs acc kn f|fs acc kn f];
    unfold dead; cbn [store_ accepted known] in *.
  - split_and!; [set_solver| |auto]. unfold InsertFamily. intros fam Hl. fam_lookup; [set_solver|auto].
  - pose proof (advance_cases f tid fs) as Hcase. rewrite Ha in Hcase. cbn [fst snd] in Hcase.
    destruct Hcase as [[-> (fam & Hf & Hrev & <- & ->)]|[-> [->|(fam & Hf & _ & ->)]]]; [| auto |].
    + destruct (decide (fid = f)) as [<-|Hne]; [rewrite Hr in Hrev; done|].
      split_and!; [done| |set_solver]. intros fam' Hl. fam_lookup; [done|auto].
    + split_and!; [done| |auto]. intros fam' Hl. fam_lookup; [done|auto].
  - split_and!; [done| |auto]. unfold Revoke. destruct (fs !! f) as [fam|] eqn:Hf; [|auto].
    intros fam' Hl. fam_lookup; [done|auto].
  - split_and!; [done| |auto]. unfold Remove. intros fam' Hl. fam_lookup. auto.
Qed.

Lemma family_steps_dead fid s s' :
  rtc family_step s s' -> dead fid s -> forall tid, (fid, tid) ∈ accepted s' -> (fid, tid) ∈ accepted s.
Proof.
  induction 1 as [|s1 s2 s3 Hstep _ IH]; intros Hd tid Hin; [done|].
  destruct (family_step_dead fid _ _ Hstep Hd) as [Hd' Hacc]. auto.
Qed.

(** ** Lemmas: the user store

    The stores the registrations and verifications of a run reach. Every record gets a
    random user id, which the code takes to be new. *)

Section Users.
Context {N : Sodium} {L : SodiumLaws N}.

Definition new_users : UserStore := mkUsers ∅ ∅ ∅.

Inductive users_reach : UserStore -> Prop :=
| users_new : users_reach new_users
| users_insert us r :
    users_reach us -> length (user_id r) = 16%nat -> records_ us !! ToHex (user_id r) = None ->
    users_reach (snd (Insert r us))
| users_verify us uid : users_reach us -> users_reach (snd (SetEmailVerified uid us)).

(** The abstract contract: the records of the store, none sharing an e-mail, nor a
    user name that is not empty. *)
Definition has_email (us : UserStore) (e : bstr) (uid : bstr) : Prop :=
  exists r, records_ us !! uid = Some r /\ cstr (email r) = e.
Definition has_username (us : UserStore) (n : bstr) (uid : bstr) : Prop :=
  n <> [] /\ exists r, records_ us !! uid = Some r /\ cstr (username r) = n.

Record users_inv (us : UserStore) : Prop := mkUsersInv {
  us_ids : forall uid r, records_ us !! uid = Some r -> uid = ToHex (user_id r);
  us_email : forall e uid, email_to_uid_ us !! e = Some uid <-> has_email us e uid;
  us_name : forall n uid, username_to_uid_ us !! n = Some uid <-> has_username us n uid
}.

Lemma has_email_insert us uid r em un e u :
  records_ us !! uid = None ->
  has_email (mkUsers (<[uid := r]> (records_ us)) em un) e u <->
    (u = uid /\ cstr (email r) = e) \/ has_email us e u.
Proof.
  intros Hn. unfold has_email; cbn [records_]. setoid_rewrite lookup_insert_Some. split.
  - intros (r' & [[<- <-]|[Hne Hl]] & He); [auto|eauto].
  - intros [[-> He]|(r' & Hl & He)]; [eauto|]. exists r'. split; [right; split; [congruence|done]|done].
Qed.

Lemma has_username_insert us uid r em un n u :
  records_ us !! uid = None ->
  has_username (mkUsers (<[uid := r]> (records_ us)) em un) n u <->
    (n <> [] /\ u = uid /\ cstr (username r) = n) \/ has_username us n u.
Proof.
  intros Hn. unfold has_username; cbn [records_]. setoid_rewrite lookup_insert_Some. split.
  - intros (Hne & r' & [[<- <-]|[Hne' Hl]] & He); [auto|eauto].
  - intros [(Hne & -> & He)|(Hne & r' & Hl & He)]; [split; [done|]; eauto|].
    split; [done|]. exists r'. split; [right; split; [congruence|done]|done].
Qed.

(** [Insert] answers [false], and changes nothing, exactly when the e-mail or the
    user name is taken. *)
Lemma insert_cases r us :
  let e := cstr (email r) in
  let n := cstr (username r) in
  (Insert r us = (false, us) /\
   (is_Some (email_to_uid_ us !! e) \/ n <> [] /\ is_Some (username_to_uid_ us !! n))) \/
  (email_to_uid_ us !! e = None /\ (n <> [] -> username_to_uid_ us !! n = None) /\
   Insert r us = (true, mkUsers (<[ToHex (user_id r) := r]> (records_ us)) (<[e := ToHex (user_id r)]> (email_to_uid_ us))
     (if bool_decide (n = []) then username_to_uid_ us else <[n := ToHex (user_id r)]> (username_to_uid_ us)))).
Proof.
  intros e n. unfold Insert. fold e n. case_bool_decide as He; [auto|].
  apply eq_None_not_Some in He.
  destruct (decide (n = [])) as [Hn|Hn]; [rewrite (bool_decide_true _ Hn)|rewrite (bool_decide_false _ Hn)]; cbn [negb andb].
  - right. split_and!; [done|intros ?; contradiction|done].
  - case_bool_decide as Hu; [auto|]. apply eq_None_not_Some in Hu. right. auto.
Qed.

Lemma users_insert_inv r us :
  records_ us !! ToHex (user_id r) = None -> users_inv us -> users_inv (snd (Insert r us)).
Proof.
  intros Hf [Hi He Hn].
  destruct (insert_cases r us) as [[-> _]|(Hfe & Hfn & ->)]; cbn [snd]; [done|]. constructor; cbn [records_ email_to_uid_ username_to_uid_].
  - intros uid r' [[<- <-]|[_ Hl]]%lookup_insert_Some; [done|eauto].
  - intros e u. rewrite has_email_insert by done. rewrite <- He, lookup_insert_Some.
    split; [intros [[<- <-]|[_ ?]]; auto|]. intros [[-> <-]|Hl]; [auto|]. right. split; [congruence|done].
  - intros n u. rewrite has_username_insert by done. rewrite <- Hn. case_bool_decide as Hb.
    + split; [auto|]. intros [(Hne & _ & <-)|Hl]; [contradiction|done].
    + rewrite lookup_insert_Some. specialize (Hfn Hb).
      split; [intros [[<- <-]|[_ ?]]; auto|]. intros [(_ & -> & <-)|Hl]; [auto|]. right. split; [congruence|done].
Qed.

Lemma users_verify_inv uid us : users_inv us -> users_inv (snd (SetEmailVerified uid us)).
Proof.
  intros [Hi He Hn]. unfold SetEmailVerified. destruct (records_ us !! ToHex uid) as [r|] eqn:Hl; [|done].
  cbn [snd]. constructor; cbn [records_ email_to_uid_ username_to_uid_].
  - intros u r' [[<- <-]|[_ Hl']]%lookup_insert_Some; [by apply Hi in Hl|eauto].
  - intros e u. rewrite He. unfold has_email; cbn [records_]. setoid_rewrite lookup_insert_Some. split.
    + intros (r' & Hl' & <-). destruct (decide (ToHex uid = u)) as [<-|Hne]; [|eauto]. simplify_eq. eauto.
    + intros (r' & [[<- <-]|[Hne Hl']] & Hc); [|eauto]. cbn in Hc. eauto.
  - intros n u. rewrite Hn. unfold has_username; cbn [records_]. setoid_rewrite lookup_insert_Some. split.
    + intros (Hne & r' & Hl' & <-). split; [done|].
      destruct (decide (ToHex uid = u)) as [<-|Hu]; [|eauto]. simplify_eq. eauto.
    + intros (Hne & r' & [[<- <-]|[Hu Hl']] & Hc); [|eauto]. cbn in Hc. eauto.
Qed.

Lemma users_reach_inv us : users_reach us -> users_inv us.
Proof.
  induction 1 as [|us r _ IH _ Hf|us uid _ IH]; [|by apply users_insert_inv|by apply users_verify_inv].
  unfold has_email, has_username. constructor; [done| |]; intros k u; unfold has_email, has_username; cbn;
    rewrite lookup_empty; (split; [done|]).
  - intros (r & Hl & _). by rewrite lookup_empty in Hl.
  - intros (_ & r & Hl & _). by rewrite lookup_empty in Hl.
Qed.
End Users.

(** ** A concrete instance of the library, for evaluation *)

Definition hex_digit (z : Z) : byte := nth (Z.to_nat z) (str "0123456789abcdef") Byte.x00.
Definition hex_byte (b : byte) : bstr :=
  [hex_digit (byte.unsigned b / 16); hex_digit (byte.unsigned b mod 16)].
Definition digit_value (c : byte) : Z :=
  let z := byte.unsigned c in if z <? 58 then z - 48 else z - 87.
Definition unhex (h : bstr) : byte :=
  match h with
  | [a; b] => byte.of_Z (16 * digit_value a + digit_value b)
  | _ => Byte.x00
  end.

Definition sample_sodium : Sodium := {|
  crypto_auth key m := Some (le_split 32 (le_combine (m ++ key)));
  crypto_auth_verify tag m key := bool_decide (le_split 32 (le_combine (m ++ key)) = tag);
  crypto_pwhash_str pw salt := Some pw;
  crypto_pwhash_str_verify h pw := bool_decide (h = pw);
  sodium_bin2hex b := b ≫= hex_byte
|}.

Lemma unhex_hex b : unhex (hex_byte b) = b.
Proof. by destruct b. Qed.

Lemma length_hex_byte b : length (hex_byte b) = 2%nat.
Proof. done. Qed.

Lemma hex_digit_in z : 0 <= z < 16 -> hex_digit z ∈ str "0123456789abcdef".
Proof.
  intros Hz. apply list_elem_of_In, nth_In. change (length _) with 16%nat. lia.
Qed.

Lemma hex_byte_digits b : Forall (fun c => c ∈ str "0123456789abcdef") (hex_byte b).
Proof.
  pose proof (byte.unsigned_range b). unfold hex_byte.
  repeat apply Forall_cons_2; [| |apply Forall_nil_2]; apply hex_digit_in.
  - split; [apply Z.div_pos|apply Z.div_lt_upper_bound]; lia.
  - apply Z.mod_pos_bound. lia.
Qed.

Lemma sample_laws : SodiumLaws sample_sodium.
Proof.
  constructor; unfold sample_sodium, crypto_auth, crypto_auth_verify, crypto_pwhash_str, crypto_pwhash_str_verify,
    sodium_bin2hex.
  - eauto.
  - intros key m tag [= <-]. lens.
  - intros key m tag. rewrite bool_decide_eq_true. split; [by intros ->|by intros [= ->]].
  - intros pw salt h [= <-]. by apply bool_decide_eq_true.
  - induction b as [|x b IH]; intros [|x' b'] Hl H; try done. injection Hl as Hl. rewrite !bind_cons in H.
    apply app_inj_1 in H as [H0 H]; [|done]. f_equal; [|auto]. by rewrite <- (unhex_hex x), <- (unhex_hex x'), H0.
  - induction b as [|x b IH]; [done|]. rewrite bind_cons, length_app, length_hex_byte, IH. cbn [length]. lia.
  - induction b as [|x b IH]; [constructor|]. rewrite bind_cons. apply Forall_app_2; [apply hex_byte_digits|done].
Qed.

(** ** Theorems *)

Section TokenTheorems.
Context {N : Sodium} {L : SodiumLaws N}.

(** A token pair issued at time [now] for a user verifies under the server's key
    until it expires, 15 minutes for the access token and 30 days for the refresh
    token, and reads back exactly the user, the lifetimes, and the new family with
    token id 1; from the expiry on it is refused. The family counter moves on. *)
Theorem issued_tokens_valid key uid now nf :
  length uid = 16%nat -> 0 <= now -> now + REFRESH_TOKEN_LIFETIME < 2 ^ 64 -> 0 <= nf < 2 ^ 64 ->
  exists r, IssueTokenPair key uid now nf = (Some r, wrap 64 (nf + 1)) /\
    granted_expiry r = now + 900 /\ granted_family r = nf /\
    (forall t, ValidateAccessToken key (access_token r) t =
      if t <? now + 900 then Some (mkAccess uid now (now + 900) 0) else None) /\
    (forall t, ValidateRefreshToken key (refresh_token r) t =
      if t <? now + 2592000 then Some (mkRefresh uid nf 1 (now + 2592000) 0) else None).
Proof.
  intros Hu Hn Hb Hf. destruct (issue_eq key uid now nf Hu Hn Hb) as (sig & sig' & Ea & Er & E).
  eexists. split; [exact E|]. split_and!; [done|done| |]; intros t; cbn [access_token refresh_token];
    unfold ACCESS_TOKEN_LIFETIME, REFRESH_TOKEN_LIFETIME in *.
  - rewrite validate_access_eq by (done || unfold access_ok; cbn; split_and!; (done || lia)).
    cbn [at_expiry at_key_id]. by rewrite andb_true_r.
  - rewrite validate_refresh_eq by (done || unfold refresh_ok; cbn; split_and!; (done || lia)).
    cbn [rt_expiry rt_key_id]. by rewrite andb_true_r.
Qed.

(** C19: every token the server accepts is, bit for bit, a payload followed by the
    tag of that payload under the server's key, still unexpired and of key 0; so
    nothing but tags the key produced is accepted, and no token is taken both for an
    access token and for a refresh token. *)
Theorem accepted_tokens_signed key data t :
  (forall p, ValidateAccessToken key data t = Some p ->
     exists tag, data = access_bytes p ++ tag /\ crypto_auth key (access_bytes p) = Some tag /\
       t < at_expiry p /\ at_key_id p = 0 /\ ValidateRefreshToken key data t = None) /\
  (forall p, ValidateRefreshToken key data t = Some p ->
     exists tag, data = refresh_bytes p ++ tag /\ crypto_auth key (refresh_bytes p) = Some tag /\
       t < rt_expiry p /\ rt_key_id p = 0 /\ ValidateAccessToken key data t = None).
Proof.
  split; intros p; unfold ValidateAccessToken, ValidateRefreshToken, sizeof_AccessToken, sizeof_RefreshToken;
    bdestruct_all; bool_to_prop; intros [= <-]; try lia.
  - exists (drop 33 data). rewrite access_bytes_read by lens. split_and!; [by rewrite take_drop| |lia|lia|done].
    by apply auth_verify.
  - exists (drop 41 data). rewrite refresh_bytes_read by lens. split_and!; [by rewrite take_drop| |lia|lia|done].
    by apply auth_verify.
Qed.
End TokenTheorems.

Lemma issued_tokens_valid_witness :
  exists r, @IssueTokenPair sample_sodium (zeros 32) (zeros 16) 1000 7 = (Some r, wrap 64 (7 + 1)) /\
      granted_expiry r = 1000 + 900 /\ granted_family r = 7 /\
      (forall t, @ValidateAccessToken sample_sodium (zeros 32) (access_token r) t =
        if t <? 1000 + 900 then Some (mkAccess (zeros 16) 1000 (1000 + 900) 0) else None) /\
      (forall t, @ValidateRefreshToken sample_sodium (zeros 32) (refresh_token r) t =
        if t <? 1000 + 2592000 then Some (mkRefresh (zeros 16) 7 1 (1000 + 2592000) 0) else None).
Proof.
  apply (@issued_tokens_valid sample_sodium sample_laws); [reflexivity|lia|unfold REFRESH_TOKEN_LIFETIME; lia|lia].
Defined.

(** The token [IssueTokenPair] makes at time 1000. *)
Definition sample_token : bstr :=
  match fst (@IssueTokenPair sample_sodium (zeros 32) (zeros 16) 1000 7) with
  | Some r => access_token r
  | None => []
  end.

Lemma accepted_tokens_signed_witness :
  @ValidateAccessToken sample_sodium (zeros 32) sample_token 1899 = Some (mkAccess (zeros 16) 1000 1900 0) /\
  exists tag, sample_token = access_bytes (mkAccess (zeros 16) 1000 1900 0) ++ tag.
Proof.
  assert (H : @ValidateAccessToken sample_sodium (zeros 32) sample_token 1899 = Some (mkAccess (zeros 16) 1000 1900 0))
    by (vm_compute; reflexivity).
  split; [exact H|].
  destruct (proj1 (@accepted_tokens_signed sample_sodium sample_laws (zeros 32) sample_token 1899) _ H) as (tag & E & _).
  exists tag. exact E.
Defined.

(** C18: over any history of the family store, a refresh token is accepted at most once;
    the current token of a family that is not revoked is accepted; and presenting a token
    that was already used is refused, and from then on, whatever else happens to the
    store, that family accepts nothing any more. *)
Theorem refresh_rotation s :
  family_history s -> len (accepted s) < 2 ^ 63 ->
  NoDup (accepted s) /\
  (forall fid fam, store_ s !! fid = Some fam -> revoked fam = false ->
     fst (AdvanceTokenId fid (current_token_id fam) (store_ s)) = true) /\
  (forall fid tid, (fid, tid) ∈ accepted s ->
     exists fs', AdvanceTokenId fid tid (store_ s) = (false, fs') /\
       forall s', rtc family_step (mkTrace fs' (accepted s) (known s)) s' ->
       forall tid', (fid, tid') ∈ accepted s' -> (fid, tid') ∈ accepted s).
Proof.
  intros Hh Hb. destruct (family_history_inv s Hh Hb) as [[Hk1 Hk2] Hcur Hnd]. split_and!; [done| |].
  - intros fid fam Hf Hr. unfold AdvanceTokenId. by rewrite Hf, Hr, Z.eqb_refl.
  - intros fid tid Hin. specialize (Hk2 _ Hin). cbn in Hk2. unfold AdvanceTokenId.
    destruct (store_ s !! fid) as [fam|] eqn:Hf.
    + destruct (Hcur fid fam Hf) as [_ Hlt]. specialize (Hlt tid Hin).
      rewrite (proj2 (Z.eqb_neq _ tid)) by lia. cbn [negb].
      destruct (revoked fam) eqn:Er; eexists; (split; [reflexivity|]); intros s' Hs' tid' Hin';
        apply (family_steps_dead fid _ _ Hs'); try done; split; try done; cbn [store_]; intros fam' Hl.
      * congruence.
      * rewrite lookup_insert_eq in Hl. by injection Hl as <-.
    + eexists. split; [reflexivity|]. intros s' Hs' tid'. apply (family_steps_dead fid _ _ Hs').
      split; [done|]. cbn [store_]. congruence.
Qed.

(** Family 7 opened and its first token used. *)
Definition sample_trace : FamilyTrace :=
  mkTrace {[7 := mkFamily 7 (zeros 16) 2 false]} [(7, 1)] {[7]}.

Lemma sample_trace_history : family_history sample_trace.
Proof.
  eapply rtc_l; [apply (fam_insert _ _ _ (mkFamily 7 (zeros 16) 1 false)); [set_solver|done]|].
  eapply rtc_l; [by apply (fam_advance _ _ _ 7 1)|]. cbn. rewrite union_empty_r_L. apply rtc_refl.
Qed.

Lemma refresh_rotation_witness :
  NoDup (accepted sample_trace) /\ fst (AdvanceTokenId 7 2 (store_ sample_trace)) = true /\
  exists fs', AdvanceTokenId 7 1 (store_ sample_trace) = (false, fs').
Proof.
  destruct (refresh_rotation sample_trace sample_trace_history) as (H1 & H2 & H3); [reflexivity|].
  split; [exact H1|]. split; [by apply (H2 7 (mkFamily 7 (zeros 16) 2 false))|].
  destruct (H3 7 1) as (fs' & E & _); [by left|]. by exists fs'.
Defined.

Section UserTheorems.
Context {N : Sodium} {L : SodiumLaws N}.

(** In every store that registrations (with random, so new, user ids) and e-mail
    verifications reach, a record is found by its e-mail, by its user name if it has
    one, and by its id, always as itself; what a lookup by e-mail or user name finds
    is a record with that e-mail or name; and a registration is refused exactly when
    a record with that e-mail, or with that non-empty name, exists. *)
Theorem user_store_correct us :
  users_reach us ->
  (forall uid r, records_ us !! uid = Some r ->
     FindByEmail (cstr (email r)) us = Some r /\ FindByUserId (user_id r) us = Some r /\
     (cstr (username r) <> [] -> FindByUsername (cstr (username r)) us = Some r)) /\
  (forall e r, FindByEmail e us = Some r -> cstr (email r) = e) /\
  (forall n r, FindByUsername n us = Some r -> cstr (username r) = n) /\
  (forall r, fst (Insert r us) = false <->
     (exists uid, has_email us (cstr (email r)) uid) \/ (exists uid, has_username us (cstr (username r)) uid)).
Proof.
  intros [Hi He Hn]%users_reach_inv. split_and!.
  - intros uid r Hl. unfold FindByEmail, FindByUserId, FindByUsername. split_and!.
    + rewrite (proj2 (He _ uid)) by (by exists r). done.
    + by rewrite <- (Hi _ _ Hl).
    + intros Hne. rewrite (proj2 (Hn _ uid)) by (split; [done|by exists r]). done.
  - intros e r. unfold FindByEmail. destruct (email_to_uid_ us !! e) as [uid|] eqn:E; [|done]. cbn.
    apply He in E as (r' & Hl & <-). congruence.
  - intros n r. unfold FindByUsername. destruct (username_to_uid_ us !! n) as [uid|] eqn:E; [|done]. cbn.
    apply Hn in E as (_ & r' & Hl & <-). congruence.
  - intros r. setoid_rewrite <- He. setoid_rewrite <- Hn.
    destruct (insert_cases r us) as [[-> Hc]|(H1 & H2 & ->)]; cbn [fst].
    + split; [intros _|done]. destruct Hc as [[u Hu]|[_ [u Hu]]]; eauto.
    + split; [done|]. intros [[u Hu]|[u Hu]]; [congruence|].
      rewrite H2 in Hu; [done|]. by apply Hn in Hu as [? _].
Qed.
End UserTheorems.

(** The record [RegisterUser] makes of the user name, the e-mail and the password. *)
Definition sample_user : UserRecord := mkUser (zeros 16) (str "ada") (str "pw") (str "a@b") false (zeros 32) false.

Lemma user_store_correct_witness :
  let us := snd (@SetEmailVerified sample_sodium (zeros 16) (snd (@Insert sample_sodium sample_user new_users))) in
  fst (@Insert sample_sodium sample_user us) = false /\
  FindByEmail (str "a@b") us = FindByUsername (str "ada") us.
Proof.
  intros us.
  assert (Hr : @users_reach sample_sodium us).
  { apply users_verify, users_insert; [constructor|reflexivity|vm_compute; reflexivity]. }
  destruct (@user_store_correct sample_sodium us Hr) as (_ & _ & _ & H).
  split; [|vm_compute; reflexivity]. apply H. left. exists (@ToHex sample_sodium (zeros 16)).
  eexists. split; vm_compute; reflexivity.
Defined.
