(* ===== verification/Seats.v ===== *)
(** The session registry under any input (session/SessionManager.cpp, pool/SessionPool.cpp).

    The invariant [registry_inv] of Session.v says of a registered session that its object
    carries the id under which it is registered.  The server does not keep that: a second
    login on a session that is [updated] changes the id in the object and not the registry,
    and a session that went back to the pool may still be written to by the batch of packets
    that holds its pointer.  What is kept is that some registry which agrees with the real
    one on everything but the ids in such objects has the invariant. *)

From S2P Require Import Prelude Crc32c Packet Serialize CircularBuffer Fqueue PacketPool Framing Session AuthStore.

(** ** Registries up to the ids in the objects *)

Definition same_session (s s0 : Session) : Prop :=
  set_userId [] s = set_userId [] s0 /\ (updated s = false -> userId s = userId s0).

Record shadow (r r0 : Registry) : Prop := mkShadow {
  sh_sessions : sessions r = sessions r0;
  sh_sockets : socketToUserId r = socketToUserId r0;
  sh_free : freeIndices (pool_of r) = freeIndices (pool_of r0);
  sh_objects : Forall2 same_session (spool (pool_of r)) (spool (pool_of r0))
}.

(** Whoever is authenticated has been registered under a user's id. *)
Definition login_kept (s : Session) : Prop := auth_state s = AUTHENTICATED -> updated s = true.

Definition seats_ok (r : Registry) : Prop :=
  (exists r0, shadow r r0 /\ registry_inv r0) /\ Forall login_kept (spool (pool_of r)).

(** The session that a batch of packets holds: as long as it has not logged in, it is
    registered under the id in the object. *)
Definition attached (ptr : nat) (r : Registry) : Prop :=
  forall s, spool (pool_of r) !! ptr = Some s -> updated s = false -> sessions r !! userId s = Some (Some ptr).

Lemma same_session_refl s : same_session s s.
Proof. done. Qed.

Lemma same_session_fields s s0 :
  same_session s s0 -> socket s = socket s0 /\ sid s = sid s0 /\ iocp s = iocp s0 /\ updated s = updated s0 /\
    recievingFile s = recievingFile s0 /\ reset_session s = reset_session s0.
Proof. intros [H _]. destruct s, s0. by injection H as -> -> -> -> -> -> -> ->. Qed.

(** An update that looks at no id, and keeps ids and [updated]. *)
Definition id_blind (f : Session -> Session) : Prop :=
  forall s, set_userId [] (f s) = f (set_userId [] s) /\ userId (f s) = userId s /\ updated (f s) = updated s /\
    sid (f s) = sid s /\ socket (f s) = socket s /\ iocp (f s) = iocp s.

Lemma same_session_blind f s s0 : id_blind f -> same_session s s0 -> same_session (f s) (f s0).
Proof.
  intros Hf [H1 H2]. destruct (Hf s) as (E1 & E2 & E3 & _), (Hf s0) as (E1' & E2' & _). split; [by rewrite E1, E1', H1|].
  by rewrite E2, E2', E3.
Qed.

Lemma shadow_refl r : shadow r r.
Proof. constructor; [done..|]. apply Forall_Forall2_diag, Forall_forall. intros s _. apply same_session_refl. Qed.

Lemma new_seats : seats_ok new_registry.
Proof.
  split; [exists new_registry; split; [apply shadow_refl|apply new_registry_inv]|].
  cbn [new_registry pool_of new_session_pool spool]. apply Forall_replicate. done.
Qed.

Lemma shadow_update f f0 ptr r r0 :
  shadow r r0 -> (forall s s0, spool (pool_of r) !! ptr = Some s -> same_session s s0 -> same_session (f s) (f0 s0)) ->
  shadow (update_session f ptr r) (update_session f0 ptr r0).
Proof.
  intros [H1 H2 H3 H4] Hf. constructor; cbn [update_session set_pool sessions socketToUserId pool_of freeIndices spool]; try done.
  apply Forall2_lookup. intros i. pose proof (proj1 (Forall2_lookup _ _ _) H4 i) as Hi. destruct (decide (i = ptr)) as [->|Hne].
  - rewrite !list_lookup_alter_eq. inversion Hi as [s s0 Hs E1 E2|E1 E2]; cbn; constructor. by apply Hf.
  - by rewrite !list_lookup_alter_ne.
Qed.

Lemma shadow_object r r0 p s0 : shadow r r0 -> spool (pool_of r0) !! p = Some s0 -> exists s, spool (pool_of r) !! p = Some s /\ same_session s s0.
Proof. intros Hs Hp. destruct (Forall2_lookup_r _ _ _ _ _ (sh_objects _ _ Hs) Hp) as (s & ? & ?). by exists s. Qed.

Lemma shadow_object_l r r0 p s : shadow r r0 -> spool (pool_of r) !! p = Some s -> exists s0, spool (pool_of r0) !! p = Some s0 /\ same_session s s0.
Proof. intros Hs Hp. destruct (Forall2_lookup_l _ _ _ _ _ (sh_objects _ _ Hs) Hp) as (s0 & ? & ?). by exists s0. Qed.

(** ** Ending a registration *)

Lemma unregister_sockets id p s r sk :
  is_Some (socketToUserId (unregister id p s r) !! sk) -> is_Some (socketToUserId r !! sk).
Proof. cbn [unregister socketToUserId]. rewrite lookup_delete_is_Some. naive_solver. Qed.

Lemma shadow_unregister r r0 id p s s0 :
  shadow r r0 -> same_session s s0 -> shadow (unregister id p s r) (unregister id p s0 r0).
Proof.
  intros [H1 H2 H3 H4] Hs. destruct (same_session_fields _ _ Hs) as (Ek & _ & _ & _ & _ & Er).
  constructor; cbn [unregister sessions socketToUserId pool_of freeIndices spool]; [congruence..|]. rewrite Er.
  apply Forall2_insert; [done|apply same_session_refl].
Qed.

(** [removeSession] never fails, and takes the session out of both maps. *)
Lemma remove_shadow r r0 id :
  shadow r r0 -> registry_inv r0 ->
  removeSession id r = Ok r \/
  exists p s s0, registered r0 id p s0 /\ spool (pool_of r) !! p = Some s /\ same_session s s0 /\ removeSession id r = Ok (unregister id p s r).
Proof.
  intros Hs Hr. unfold removeSession. rewrite (sh_sessions _ _ Hs). destruct (sessions r0 !! id) as [ptr|] eqn:E; [right|by left].
  destruct (reg_sessions r0 Hr id ptr E) as (p & s0 & H). pose proof (reg_found _ _ _ _ H) as E'. rewrite E in E'. injection E' as ->.
  destruct (shadow_object _ _ _ _ Hs (reg_obj _ _ _ _ H)) as (s & Hp & Hss). exists p, s, s0. split_and!; [done..|].
  destruct (same_session_fields _ _ Hss) as (_ & Esid & _). unfold deref, returnSession. cbn [mbind option_bind]. rewrite Hp. cbn [obind].
  rewrite Esid, (reg_sid _ _ _ _ H). assert (p < maxSize)%nat by (rewrite <- (reg_len _ Hr); destruct H; by eapply lookup_lt_Some).
  rewrite (proj2 (Nat.leb_gt _ _)) by done. unfold unregister. by rewrite (sh_sessions _ _ Hs).
Qed.

Lemma kept_unregister r id p s : Forall login_kept (spool (pool_of r)) -> Forall login_kept (spool (pool_of (unregister id p s r))).
Proof. intros H. cbn [unregister pool_of spool]. apply Forall_insert; [done|]. by intros [=]. Qed.

Lemma remove_seats id r :
  seats_ok r -> exists r', removeSession id r = Ok r' /\ seats_ok r' /\
    (forall ptr s, spool (pool_of r) !! ptr = Some s -> updated s = true -> attached ptr r').
Proof.
  intros [(r0 & Hs & Hr) Hk]. destruct (remove_shadow r r0 id Hs Hr) as [-> |(p & s & s0 & H & Hp & Hss & ->)].
  - exists r. split_and!; [done|by split; [exists r0|]|]. intros ptr s Hl Hu s' Hl'. congruence.
  - eexists. split; [done|]. split.
    + split; [|by apply kept_unregister]. exists (unregister id p s0 r0). split; [by apply shadow_unregister|by apply unregister_inv].
    + intros ptr s1 Hl Hu s2. cbn [unregister pool_of spool]. intros Hl2.
      apply list_lookup_insert_Some in Hl2 as [(-> & <- & _)|[_ Hl2]]; cbn [reset_session updated]; congruence.
Qed.

(** The disconnection of a socket. *)
Lemma disconnect_seats sk r cs :
  seats_ok r -> exists r', handleDisconnect sk r cs = Ok (r', if decide (sk ∈ disconnectedSockets cs) then cs else HandleDisconnectWithoutLock sk cs) /\ seats_ok r'.
Proof.
  intros Hok. unfold handleDisconnect. destruct (decide (sk ∈ disconnectedSockets cs)); [by exists r|].
  destruct (decide (getUserIdBySocket sk r = [])); cbn [obind]; [by exists r|].
  destruct (remove_seats (getUserIdBySocket sk r) r Hok) as (r' & -> & Hok' & _). by exists r'.
Qed.

Lemma remove_by_socket_seats sk r :
  seats_ok r -> exists r', removeBySocket sk r = Ok r' /\ seats_ok r' /\
    (forall x, is_Some (socketToUserId r' !! x) -> is_Some (socketToUserId r !! x)).
Proof.
  intros [(r0 & Hs & Hr) Hk]. unfold removeBySocket. destruct (socketToUserId r !! sk) as [id|] eqn:E.
  2: { exists r. split_and!; [done|by split; [exists r0|]|done]. }
  rewrite (sh_sockets _ _ Hs) in E. destruct (reg_sockets r0 Hr sk id E) as (p & s0 & H & <-).
  rewrite (sh_sessions _ _ Hs), (reg_found _ _ _ _ H).
  destruct (shadow_object _ _ _ _ Hs (reg_obj _ _ _ _ H)) as (s & Hp & Hss). destruct (same_session_fields _ _ Hss) as (Ek & Esid & _).
  unfold returnSession. rewrite Hp, Esid, (reg_sid _ _ _ _ H).
  assert (p < maxSize)%nat by (rewrite <- (reg_len _ Hr); destruct H; by eapply lookup_lt_Some).
  rewrite (proj2 (Nat.leb_gt _ _)) by done. cbn [obind]. exists (unregister id p s r). split_and!.
  - unfold unregister. by rewrite (sh_sessions _ _ Hs), Ek.
  - split; [|by apply kept_unregister]. exists (unregister id p s0 r0). split; [by apply shadow_unregister|by apply unregister_inv].
  - intros x. apply unregister_sockets.
Qed.

(** ** Updates in place *)

Lemma update_seats f ptr r :
  id_blind f -> (forall s, spool (pool_of r) !! ptr = Some s -> login_kept (f s)) -> seats_ok r ->
  seats_ok (update_session f ptr r) /\ forall p, attached p r -> attached p (update_session f ptr r).
Proof.
  intros Hf Hl [(r0 & Hs & Hr) Hk]. split; [split|].
  - exists (update_session f ptr r0). split; [apply shadow_update; [done|]; intros s s0 _; by apply same_session_blind|].
    apply update_session_inv; [done|]. intros s. destruct (Hf s) as (_ & ? & _ & ? & ? & ?). done.
  - cbn [update_session set_pool pool_of spool]. apply Forall_alter; [done|]. intros s Hp _. by apply Hl.
  - intros p Ha s. cbn [update_session set_pool pool_of spool sessions]. destruct (decide (p = ptr)) as [->|Hne].
    + rewrite list_lookup_alter_eq. destruct (spool (pool_of r) !! ptr) as [s1|] eqn:E; [|done]. intros [= <-].
      destruct (Hf s1) as (_ & -> & -> & _). by apply Ha.
    + rewrite list_lookup_alter_ne by done. apply Ha.
Qed.

Lemma receiving_returns v id r : seats_ok r -> exists r', setRecievingFile v id r = Ok r'.
Proof.
  intros [(r0 & Hs & Hr) _]. unfold setRecievingFile. rewrite (sh_sessions _ _ Hs). destruct (sessions r0 !! id) as [ptr|] eqn:E; [|by eexists].
  destruct (reg_sessions r0 Hr id ptr E) as (p & s0 & H). pose proof (reg_found _ _ _ _ H) as E'. rewrite E in E'. injection E' as ->. by eexists.
Qed.

Lemma receiving_seats v id r r' :
  seats_ok r -> setRecievingFile v id r = Ok r' -> seats_ok r' /\ forall p, attached p r -> attached p r'.
Proof.
  intros Hok H. unfold setRecievingFile in H. destruct (sessions r !! id) as [[ptr|]|]; [|done|by injection H as <-].
  injection H as <-. apply update_seats; [by intros s| |done]. intros s Hs. destruct Hok as [_ Hk].
  exact (list.Forall_lookup_1 _ _ _ _ Hk Hs).
Qed.

(** ** A new session *)

Lemma registered_attached r r0 id p s0 : shadow r r0 -> registered r0 id p s0 -> attached p r.
Proof.
  intros Hs H s Hp Hu. destruct (shadow_object_l _ _ _ _ Hs Hp) as (s1 & Hp1 & [_ Hid]).
  assert (s1 = s0) as -> by (destruct H; congruence). rewrite (Hid Hu), (reg_userId _ _ _ _ H), (sh_sessions _ _ Hs). apply H.
Qed.

Definition seated (sk : Z) (idx : nat) (s : Session) : Session :=
  set_userId (temp_id sk) (setSocket sk (set_iocp true (setSocket sk (set_sid idx s)))).

(** The branch of [session_for] that takes a session from the pool. *)
Definition seat (sk : Z) (idx : nat) (rest : list nat) (r : Registry) : Registry :=
  mkRegistry (<[temp_id sk := Some idx]> (sessions r)) (<[sk := temp_id sk]> (socketToUserId r))
    (mkSessionPool (alter (seated sk idx) idx (spool (pool_of r))) rest).

Lemma session_for_eq sk r r0 :
  shadow r r0 -> registry_inv r0 ->
  match socketToUserId r !! sk with
  | Some id => exists p s0, registered r0 id p s0 /\ session_for sk r = Ok (Some p, r)
  | None => match freeIndices (pool_of r) with
            | [] => session_for sk r = Ok (None, r)
            | idx :: rest => session_for sk r = Ok (Some idx, seat sk idx rest r)
            end
  end.
Proof.
  intros Hs Hr. unfold session_for, findBySocket. destruct (socketToUserId r !! sk) as [id|] eqn:E.
  { rewrite (sh_sockets _ _ Hs) in E. destruct (reg_sockets r0 Hr sk id E) as (p & s0 & H & _). exists p, s0. split; [done|].
    by rewrite (sh_sessions _ _ Hs), (reg_found _ _ _ _ H). }
  unfold borrowSession. destruct (freeIndices (pool_of r)) as [|idx rest] eqn:Ef; cbn [obind]; [by destruct r|].
  assert (Hlt : (idx < length (spool (pool_of r)))%nat).
  { rewrite (Forall2_length (sh_objects _ _ Hs)), (reg_len _ Hr). apply (proj2 (reg_free _ Hr)). rewrite <- (sh_free _ _ Hs), Ef. left. }
  rewrite (proj2 (Nat.ltb_lt _ _)) by done. cbn [obind]. destruct (lookup_lt_is_Some_2 _ _ Hlt) as [s Hp].
  unfold addSession, deref, update_session, set_pool. cbn [pool_of spool sessions socketToUserId freeIndices mbind option_bind].
  rewrite !list_lookup_alter_eq, Hp. cbn [fmap option_fmap option_map obind]. unfold seat. by rewrite list_alter_alter_eq.
Qed.

Lemma seat_shadow sk idx rest r r0 : shadow r r0 -> shadow (seat sk idx rest r) (seat sk idx rest r0).
Proof.
  intros [H1 H2 H3 H4]. constructor; cbn [seat sessions socketToUserId pool_of freeIndices spool]; [congruence..|].
  apply Forall2_lookup. intros i. pose proof (proj1 (Forall2_lookup _ _ _) H4 i) as Hi. destruct (decide (i = idx)) as [->|Hne].
  - rewrite !list_lookup_alter_eq. inversion Hi as [s s0 Hs E1 E2|E1 E2]; cbn; constructor. split; [|done].
    destruct Hs as [Hs _]. destruct s, s0. by injection Hs as -> -> -> -> -> -> -> ->.
  - by rewrite !list_lookup_alter_ne.
Qed.

(** The session of a socket is found, or taken from the pool, and the batch may use it. *)
Lemma session_for_seats sk r :
  seats_ok r -> 0 <= sk ->
  exists ptr r', session_for sk r = Ok (ptr, r') /\ seats_ok r' /\ forall p, ptr = Some p -> attached p r'.
Proof.
  intros [(r0 & Hs & Hr) Hk] Hsk. pose proof (session_for_eq sk r r0 Hs Hr) as H.
  pose proof (session_for_eq sk r0 r0 (shadow_refl r0) Hr) as H0. destruct (session_for_spec r0 sk Hr Hsk) as (ptr0 & r0' & E0 & Hr' & Hp & _).
  rewrite (sh_sockets _ _ Hs), (sh_free _ _ Hs) in H. destruct (socketToUserId r0 !! sk) as [id|].
  - destruct H as (p & s0 & Hreg & ->). exists (Some p), r. split; [done|]. split; [by split; [exists r0|]|].
    intros ? [= <-]. by apply (registered_attached r r0 id p s0).
  - destruct (freeIndices (pool_of r0)) as [|idx rest].
    + exists None, r. split; [done|]. by split; [split; [exists r0|]|].
    + rewrite H0 in E0. injection E0 as <- <-. exists (Some idx), (seat sk idx rest r). split; [done|].
      pose proof (seat_shadow sk idx rest r r0 Hs) as Hs'. split; [split|].
      * by exists (seat sk idx rest r0).
      * cbn [seat pool_of spool]. apply Forall_alter; [done|]. intros s _ Hl. exact Hl.
      * intros ? [= <-]. destruct Hp as (id & s & Hreg & _). by apply (registered_attached _ _ _ _ _ Hs' Hreg).
Qed.

(** ** Logins *)

(** A login on a session that is [updated] changes the object only; [f] is what else the
    handler writes into it. *)
Lemma relogin_seats newid f ptr r s :
  seats_ok r -> spool (pool_of r) !! ptr = Some s -> updated s = true -> id_blind f ->
  let r' := update_session (fun s => set_userId newid (f s)) ptr r in seats_ok r' /\ attached ptr r'.
Proof.
  intros [(r0 & Hs & Hr) Hk] Hp Hu Hf r'. assert (Hu' : updated (f s) = true) by (destruct (Hf s) as (_ & _ & -> & _); done). split; [split|].
  - exists (update_session f ptr r0). split.
    + apply shadow_update; [done|]. intros s1 s0 Hp1 Hss. assert (s1 = s) as -> by congruence.
      destruct (same_session_blind f s s0 Hf Hss) as [H _]. split; [|cbn; congruence]. destruct (f s), (f s0). by injection H as -> -> -> -> -> -> -> ->.
    + apply update_session_inv; [done|]. intros s1. destruct (Hf s1) as (_ & ? & _ & ? & ? & ?). done.
  - cbn [r' update_session set_pool pool_of spool]. apply Forall_alter; [done|]. intros s1 Hp1 _ _. cbn. congruence.
  - intros s1. cbn [r' update_session set_pool pool_of spool]. rewrite list_lookup_alter_eq, Hp. cbn. intros [= <-]. cbn. congruence.
Qed.

Lemma shadow_kept r r0 : shadow r r0 -> Forall login_kept (spool (pool_of r)) <-> Forall login_kept (spool (pool_of r0)).
Proof.
  intros [_ _ _ H]. rewrite !list.Forall_lookup. assert (Hs : forall s s0, same_session s s0 -> login_kept s <-> login_kept s0).
  { intros s s0 [E _]. unfold login_kept. destruct s, s0. injection E as -> -> -> -> -> -> -> ->. done. }
  split; intros Hk i s Hi.
  - destruct (Forall2_lookup_r _ _ _ _ _ H Hi) as (s1 & Hi1 & Hss). apply (Hs _ _ Hss). by apply (Hk i).
  - destruct (Forall2_lookup_l _ _ _ _ _ H Hi) as (s1 & Hi1 & Hss). apply (Hs _ _ Hss). by apply (Hk i).
Qed.

Lemma displace_shadow s s0 r r0 cs r0' cs' :
  shadow r r0 -> same_session s s0 -> userId s = userId s0 -> displace_old s0 r0 cs = Ok (r0', cs') ->
  exists r', displace_old s r cs = Ok (r', cs') /\ shadow r' r0'.
Proof.
  intros Hs Hss Hid H. destruct (same_session_fields _ _ Hss) as (Ek & _ & Eio & _). unfold displace_old in *.
  rewrite Hid, (sh_sessions _ _ Hs), Ek, Eio. destruct (sessions r0 !! userId s0) as [old|]; [|injection H as <- <-; by exists r].
  destruct old as [p|]; [|done]. unfold deref in *. cbn [mbind option_bind] in *.
  destruct (spool (pool_of r0) !! p) as [o0|] eqn:Ho; [|done]. destruct (shadow_object _ _ _ _ Hs Ho) as (o & Ho1 & Hoo). rewrite Ho1.
  cbn [obind] in *. destruct (same_session_fields _ _ Hoo) as (Eo & Es & _ & _ & _ & Er). rewrite Eo.
  destruct (negb (socket s0 =? socket o0)); [|injection H as <- <-; by exists r]. destruct (negb (iocp s0)); [done|].
  unfold returnSession in *. rewrite Ho in H. rewrite Ho1, Es. destruct (_ <=? _)%nat; [done|]. cbn [obind] in *. injection H as <- <-.
  eexists. split; [done|]. rewrite Er. constructor; cbn [sessions socketToUserId pool_of freeIndices spool].
  - done.
  - by rewrite (sh_sockets _ _ Hs).
  - by rewrite (sh_free _ _ Hs).
  - apply Forall2_insert; [apply Hs|apply same_session_refl].
Qed.

Lemma updateNewId_shadow id ptr s s0 r r0 cs r0' cs' :
  shadow r r0 -> spool (pool_of r) !! ptr = Some s -> spool (pool_of r0) !! ptr = Some s0 -> userId s = userId s0 ->
  updateNewId id ptr r0 cs = Ok (r0', cs') -> exists r', updateNewId id ptr r cs = Ok (r', cs') /\ shadow r' r0'.
Proof.
  intros Hs Hp Hp0 Hid H. destruct (shadow_object _ _ _ _ Hs Hp0) as (s1 & Hp1 & Hss). assert (s1 = s) as -> by congruence.
  unfold updateNewId, deref in *. cbn [mbind option_bind] in *. rewrite Hp0 in H. rewrite Hp. cbn [obind] in *. returned H.
  destruct (displace_shadow _ _ _ _ _ _ _ Hs Hss Hid E) as (r2 & -> & Hs1). cbn [obind]. injection H as <- <-. eexists. split; [done|].
  destruct (same_session_fields _ _ Hss) as (Ek & _). apply shadow_update.
  - destruct Hs1 as [H1 H2 H3 H4]. constructor; cbn [sessions socketToUserId pool_of]; [by rewrite H1, Hid|by rewrite H2, Hid, Ek|done|done].
  - intros s2 s3 _ [E2 _]. split; [|done]. destruct s2, s3. by injection E2 as -> -> -> -> -> -> -> ->.
Qed.

Lemma rename_sockets id newid p s r sk :
  registered r id p s -> is_Some (socketToUserId (rename id newid p s r) !! sk) -> is_Some (socketToUserId r !! sk).
Proof.
  intros H. cbn [rename socketToUserId]. rewrite lookup_insert_is_Some'. intros [<-|?]; [|done]. rewrite (reg_back _ _ _ _ H). by eexists.
Qed.

(** The first login of a session registers it under the user's id. *)
Lemma first_login_seats newid f ptr r cs s :
  seats_ok r -> spool (pool_of r) !! ptr = Some s -> updated s = false -> attached ptr r -> real_id newid -> id_blind f ->
  let r1 := update_session (fun s => set_userId newid (f s)) ptr r in
  exists r' cs', updateNewId (userId s) ptr r1 cs = Ok (r', cs') /\
    seats_ok r' /\ attached ptr r' /\
    (cs' = cs \/ exists sk, is_Some (socketToUserId r !! sk) /\ cs' = HandleDisconnectWithoutLock sk cs) /\
    (forall sk, is_Some (socketToUserId r' !! sk) -> is_Some (socketToUserId r !! sk)).
Proof.
  intros [(r0 & Hs & Hr) Hk] Hp Hu Ha Hn Hf rn. destruct (shadow_object_l _ _ _ _ Hs Hp) as (s0 & Hp0 & [Hss Hid]). specialize (Hid Hu).
  specialize (Ha s Hp Hu). rewrite (sh_sessions _ _ Hs), Hid in Ha. destruct (registered_found r0 _ _ Hr Ha) as [s1 H].
  assert (s1 = s0) as -> by (destruct H; congruence). set (r1 := update_session f ptr r0).
  destruct (update_session_inv r0 ptr f Hr) as [Hr1 Hreg1]; [intros s2; destruct (Hf s2) as (_ & ? & _ & ? & ? & ?); done|]. fold r1 in Hr1, Hreg1. apply Hreg1 in H. rewrite decide_True in H by done.
  assert (Hrun : forall r0' cs', first_login newid ptr r1 cs = Ok (r0', cs') ->
    exists r', updateNewId (userId s) ptr rn cs = Ok (r', cs') /\ shadow r' r0').
  { intros r0' cs' Hl. unfold first_login in Hl. rewrite (deref_registered _ _ _ _ H) in Hl. cbn [obind] in Hl.
    replace (userId (f s0)) with (userId s0) in Hl by (symmetry; apply Hf). rewrite <- Hid in Hl. eapply updateNewId_shadow, Hl.
    - assert (Er : update_session (set_userId newid) ptr r1 = update_session (fun s => set_userId newid (f s)) ptr r0).
      { unfold r1, update_session. cbn [set_pool pool_of spool freeIndices]. by rewrite list_alter_alter_eq. }
      rewrite Er. apply shadow_update; [done|]. intros s2 s3 _ Hss2. destruct (same_session_blind f s2 s3 Hf Hss2) as [E _]. split; [|done].
      destruct (f s2), (f s3). by injection E as -> -> -> -> -> -> -> ->.
    - unfold rn. cbn [update_session set_pool pool_of spool]. by rewrite list_lookup_alter_eq, Hp.
    - unfold r1. cbn [update_session set_pool pool_of spool]. by rewrite !list_lookup_alter_eq, Hp0.
    - done. }
  pose proof (proj1 (shadow_kept _ _ Hs) Hk) as Hk0. rewrite list.Forall_lookup in Hk0.
  assert (Hothers : forall i x, i <> ptr -> spool (pool_of r1) !! i = Some x -> login_kept x).
  { intros i x Hne. unfold r1. cbn [update_session set_pool pool_of spool]. rewrite list_lookup_alter_ne by done. apply Hk0. }
  assert (Hsk : socketToUserId r = socketToUserId r1) by apply Hs.
  assert (Hid1 : userId (f s0) = userId s0) by apply Hf.
  destruct (login_eq r1 cs (userId s0) newid ptr (f s0) Hr1 H Hn) as [[Hfree Hl]|(old & o & Hold & Hne & Hl)];
    destruct (Hrun _ _ Hl) as (r' & Hrun' & Hs'); exists r'; eexists; (split; [exact Hrun'|]).
  - destruct (rename_spec r1 _ newid ptr _ Hr1 H Hn Hfree) as (Hr2 & Hreg2 & _). split_and!; [split|by eapply registered_attached|by left|].
    + by eexists.
    + apply (shadow_kept _ _ Hs'), list.Forall_lookup. intros i x. cbn [rename pool_of spool].
      intros [(-> & <- & _)|[Hi Hx]]%list_lookup_insert_Some; [done|by apply (Hothers i)].
    + intros sk. rewrite (sh_sockets _ _ Hs'), Hsk. by apply rename_sockets.
  - assert (H2 : registered (unregister newid old o r1) (userId s0) ptr (f s0)) by (by apply registered_unregister).
    destruct (rename_spec (unregister newid old o r1) _ newid ptr _ (unregister_inv _ _ _ _ Hr1 Hold) H2 Hn) as (Hr2 & Hreg2 & _).
    { left. cbn. by rewrite lookup_delete_eq. }
    split_and!; [split|by eapply registered_attached| |].
    + by eexists.
    + apply (shadow_kept _ _ Hs'), list.Forall_lookup. intros i x. cbn [rename unregister pool_of spool].
      intros [(-> & <- & _)|[Hi [(-> & <- & _)|[_ Hx]]%list_lookup_insert_Some]]%list_lookup_insert_Some; [done|by intros [=]|by apply (Hothers i)].
    + right. exists (socket o). split; [|done]. rewrite Hsk, (reg_back _ _ _ _ Hold). by eexists.
    + intros sk. rewrite (sh_sockets _ _ Hs'), Hsk. intros Hx. eapply unregister_sockets, rename_sockets, Hx. done.
Qed.

(** ** What the invariant says of the real registry *)

Lemma seats_meaning r :
  seats_ok r ->
  (forall id ptr, sessions r !! id = Some ptr -> exists p s, ptr = Some p /\ spool (pool_of r) !! p = Some s /\ sid s = p /\
     socketToUserId r !! socket s = Some id /\ p ∉ freeIndices (pool_of r)) /\
  (forall sk id, socketToUserId r !! sk = Some id -> exists p s, sessions r !! id = Some (Some p) /\ spool (pool_of r) !! p = Some s /\
     socket s = sk /\ (updated s = false -> userId s = id)) /\
  NoDup (freeIndices (pool_of r)).
Proof.
  intros [(r0 & Hs & Hr) _]. rewrite (sh_sessions _ _ Hs), (sh_sockets _ _ Hs), (sh_free _ _ Hs). split_and!; [| |apply Hr].
  - intros id ptr Hl. destruct (reg_sessions r0 Hr id ptr Hl) as (p & s0 & H). destruct (shadow_object _ _ _ _ Hs (reg_obj _ _ _ _ H)) as (s & Hp & Hss).
    destruct (same_session_fields _ _ Hss) as (Ek & Esid & _). exists p, s. destruct H. split_and!; congruence.
  - intros sk id Hl. destruct (reg_sockets r0 Hr sk id Hl) as (p & s0 & H & <-). destruct (shadow_object _ _ _ _ Hs (reg_obj _ _ _ _ H)) as (s & Hp & Hss).
    destruct (same_session_fields _ _ Hss) as (Ek & _). exists p, s. destruct H. destruct Hss as [_ Hid]. split_and!; try done. intros Hu. by rewrite Hid.
Qed.

(** ** Histories with every login *)

(** Sockets are handles.  A login gives a user id, to the session that a batch of packets
    holds: any object of the pool that is registered under its own id or is [updated]. *)
Definition seat_op_ok (o : reg_op) (r : Registry) : Prop :=
  match o with
  | OpPacket sk => 0 <= sk
  | OpLogin p newid => real_id newid /\ (p < maxSize)%nat /\ attached p r
  | _ => True
  end.

Inductive seat_history : Registry -> Connections -> Prop :=
| seat_history_new : seat_history new_registry no_connections
| seat_history_op r cs o r' cs' :
    seat_history r cs -> seat_op_ok o r -> run_reg_op o r cs = Ok (r', cs') -> seat_history r' cs'.

Lemma set_userId_blind : id_blind id.
Proof. by intros s. Qed.

Lemma login_seats p newid r cs :
  seats_ok r -> real_id newid -> (p < maxSize)%nat -> attached p r ->
  exists r' cs', login newid p r cs = Ok (r', cs') /\ seats_ok r' /\
    (cs' = cs \/ exists sk, is_Some (socketToUserId r !! sk) /\ cs' = HandleDisconnectWithoutLock sk cs) /\
    (forall sk, is_Some (socketToUserId r' !! sk) -> is_Some (socketToUserId r !! sk)).
Proof.
  intros Hok Hn Hp Ha. assert (Hlt : (p < length (spool (pool_of r)))%nat).
  { destruct Hok as [(r0 & Hs & Hr) _]. by rewrite (Forall2_length (sh_objects _ _ Hs)), (reg_len _ Hr). }
  destruct (lookup_lt_is_Some_2 _ _ Hlt) as [s Hl]. unfold login, first_login, deref. cbn [mbind option_bind]. rewrite Hl. cbn [obind].
  destruct (updated s) eqn:Hu.
  - destruct (relogin_seats newid id p r s Hok Hl Hu set_userId_blind) as [Hok' _]. eexists _, cs. split_and!; [done|exact Hok'|by left|done].
  - destruct (first_login_seats newid id p r cs s Hok Hl Hu Ha Hn set_userId_blind) as (r' & cs' & E & Hok' & _ & Hcs & Hsk).
    exists r', cs'. split_and!; done.
Qed.

Lemma run_seat_op o r cs :
  seats_ok r -> seat_op_ok o r -> exists r' cs', run_reg_op o r cs = Ok (r', cs') /\ seats_ok r'.
Proof.
  intros Hr Ho. destruct o as [sk|sk|p newid|id|sk|sk|v id]; cbn [run_reg_op seat_op_ok] in *.
  - by eexists _, _.
  - destruct (session_for_seats sk r Hr Ho) as (ptr & r' & -> & ? & _). by eexists _, _.
  - destruct Ho as (Hn & Hp & Ha). destruct (login_seats p newid r cs Hr Hn Hp Ha) as (r' & cs' & E & ? & _). by exists r', cs'.
  - destruct (remove_seats id r Hr) as (r' & -> & ? & _). by eexists _, _.
  - destruct (remove_by_socket_seats sk r Hr) as (r' & -> & ? & _). by eexists _, _.
  - destruct (disconnect_seats sk r cs Hr) as (r' & -> & ?). by eexists _, _.
  - destruct (receiving_returns v id r Hr) as [r' E]. rewrite E. destruct (receiving_seats v id r r' Hr E). by eexists _, _.
Qed.

Lemma seat_history_ok r cs : seat_history r cs -> seats_ok r.
Proof.
  induction 1 as [|r cs o r' cs' _ IH Ho Hrun]; [apply new_seats|].
  destruct (run_seat_op o r cs IH Ho) as (r2 & cs2 & E & ?). congruence.
Qed.

(** ** Property *)

(** C11: in every history of connections, first packets, logins, logouts and disconnects,
    second logins on a session and logins on a recycled session object included, each
    operation succeeds without undefined behaviour or exception, and the registry stays
    consistent: a socket that is mapped to an id has a session registered under that id
    which carries this socket, and this id too as long as the object has never logged in;
    every registered session is found back from its socket; two ids never share a session;
    and no registered session is in the free list, which has no duplicates.  (The id in an
    object that is [updated] may be another one: a later login changes it and leaves the
    registry as it is.) *)
Theorem registry_consistent (r : Registry) (cs : Connections) (o : reg_op) :
  seat_history r cs -> seat_op_ok o r ->
  (exists r' cs', run_reg_op o r cs = Ok (r', cs')) /\
  (forall sk id, socketToUserId r !! sk = Some id ->
     exists p s, sessions r !! id = Some (Some p) /\ deref r (Some p) = Ok s /\
       socket s = sk /\ (updated s = false -> userId s = id)) /\
  (forall id ptr, sessions r !! id = Some ptr ->
     exists p s, ptr = Some p /\ deref r (Some p) = Ok s /\ socketToUserId r !! socket s = Some id /\
       p ∉ freeIndices (pool_of r)) /\
  (forall id id' p, sessions r !! id = Some (Some p) -> sessions r !! id' = Some (Some p) -> id = id') /\
  NoDup (freeIndices (pool_of r)).
Proof.
  intros Hh Ho. pose proof (seat_history_ok r cs Hh) as Hr. destruct (seats_meaning r Hr) as (H1 & H2 & H3). split_and!.
  - destruct (run_seat_op o r cs Hr Ho) as (r' & cs' & ? & _). by exists r', cs'.
  - intros sk id Hl. destruct (H2 sk id Hl) as (p & s & Hs & Hp & ? & ?). exists p, s. unfold deref. cbn. by rewrite Hp.
  - intros id ptr Hl. destruct (H1 id ptr Hl) as (p & s & -> & Hp & _ & ? & ?). exists p, s. unfold deref. cbn. by rewrite Hp.
  - intros id id' p Hi Hi'. destruct (H1 _ _ Hi) as (q & s & [= <-] & Hq & _ & Hb & _).
    destruct (H1 _ _ Hi') as (q' & s' & [= <-] & Hq' & _ & Hb' & _). congruence.
  - done.
Qed.

(** Two logins on one session: the second leaves the registry as it is. *)
Definition two_logins : Registry * Connections :=
  after (OpLogin 0 (str "00aa")) (after (OpLogin 0 (str "00ff")) (after (OpPacket 100) (new_registry, no_connections))).

Lemma after_seat_history o st : seat_history st.1 st.2 -> seat_op_ok o st.1 -> seat_history (after o st).1 (after o st).2.
Proof.
  intros Hh Ho. destruct (run_seat_op o st.1 st.2 (seat_history_ok _ _ Hh) Ho) as (r' & cs' & E & _).
  unfold after. rewrite E. by eapply seat_history_op.
Qed.

Lemma attached_check p r :
  match spool (pool_of r) !! p with Some s => updated s || bool_decide (sessions r !! userId s = Some (Some p)) | None => false end = true ->
  attached p r.
Proof.
  intros H s Hs Hu. rewrite Hs, Hu in H. cbn [orb] in H. by apply bool_decide_eq_true in H.
Qed.

Lemma two_logins_history : seat_history two_logins.1 two_logins.2.
Proof.
  apply after_seat_history; [apply after_seat_history; [apply after_seat_history; [constructor|cbn; lia]|]|].
  - split; [apply real_id_00ff|]. split; [pose proof maxSize_Z; lia|]. apply attached_check. vm_compute. reflexivity.
  - split; [|split; [pose proof maxSize_Z; lia|]].
    + split; [done|]. intros sk E. apply (f_equal reverse) in E. unfold temp_id in E. by rewrite reverse_app in E.
    + apply attached_check. vm_compute. reflexivity.
Qed.

Lemma registry_consistent_witness :
  socketToUserId two_logins.1 !! 100 = Some (str "00ff") /\ (userId <$> spool (pool_of two_logins.1) !! 0%nat) = Some (str "00aa") /\
  exists r' cs', run_reg_op (OpDisconnect 100) two_logins.1 two_logins.2 = Ok (r', cs').
Proof.
  split; [vm_compute; reflexivity|]. split; [vm_compute; reflexivity|].
  apply (proj1 (registry_consistent two_logins.1 two_logins.2 (OpDisconnect 100) two_logins_history I)).
Defined.
