(* ===== verification/Sockets.v ===== *)
(** The life of a connection: which sockets are open, which buffer they have and how often
    they are closed, over all histories of accepts, packets, logins and disconnects
    (network/IOCPManager.cpp, session/SessionManager.cpp). *)

From S2P Require Import Prelude Crc32c Packet PacketPool CircularBuffer Framing Session AuthStore Seats.

(** ** Histories *)

(** The sockets an operation is about. *)
Definition op_socket (o : reg_op) : option Z :=
  match o with
  | OpPacket sk | OpDisconnect sk => Some sk
  | _ => None
  end.

Definition is_accept (o : reg_op) : bool := match o with OpAccept _ => true | _ => false end.

(** [acc] lists the sockets that were accepted, newest first.  The system accepts on a handle
    that is not open, and reports packets and errors of accepted sockets only; the same
    handle may be accepted many times. *)
Inductive served : Registry -> Connections -> list Z -> Prop :=
| served_new : served new_registry no_connections []
| served_accept r cs acc sk :
    served r cs acc -> socketBuffers cs !! sk = None -> served r (accept sk cs) (sk :: acc)
| served_op r cs acc o r' cs' :
    served r cs acc -> is_accept o = false -> seat_op_ok o r -> (forall sk, op_socket o = Some sk -> sk ∈ acc) ->
    run_reg_op o r cs = Ok (r', cs') -> served r' cs' acc.

(** How often a socket occurs. *)
Definition times (sk : Z) (l : list Z) : nat := length (filter (eq sk) l).

Definition open (sk : Z) (cs : Connections) : Prop := is_Some (socketBuffers cs !! sk).
#[export] Instance open_dec sk cs : Decision (open sk cs).
Proof. unfold open. apply _. Defined.

Record sockets_inv (r : Registry) (cs : Connections) (acc : list Z) : Prop := mkSocketsInv {
  si_count : forall sk, (times sk (closed cs) + (if decide (open sk cs) then 1 else 0) = times sk acc)%nat;
  si_marked : forall sk, sk ∈ acc -> ~ open sk cs -> sk ∈ disconnectedSockets cs;
  si_buffer : forall sk b, socketBuffers cs !! sk = Some b ->
    sk ∉ disconnectedSockets cs /\ exists c, heap cs !! b = Some c /\ disconnected c = false;
  si_own : forall sk sk' b, socketBuffers cs !! sk = Some b -> socketBuffers cs !! sk' = Some b -> sk = sk';
  si_registered : forall sk, is_Some (socketToUserId r !! sk) -> sk ∈ acc
}.

(** ** Lemmas *)

Lemma times_cons sk x l : times sk (x :: l) = ((if decide (sk = x) then 1 else 0) + times sk l)%nat.
Proof. unfold times. rewrite filter_cons. by destruct (decide (sk = x)). Qed.

Lemma sockets_accept r cs acc sk :
  sockets_inv r cs acc -> socketBuffers cs !! sk = None -> sockets_inv r (accept sk cs) (sk :: acc).
Proof.
  intros [Hc Hm Hb Ho Hr] Hn. assert (Hlt : forall sk b, socketBuffers cs !! sk = Some b -> (b < length (heap cs))%nat).
  { intros sk' b Hl. destruct (Hb _ _ Hl) as (_ & c & Hh & _). by eapply lookup_lt_Some. }
  assert (Hopen : forall x, open x (accept sk cs) <-> x = sk \/ open x cs).
  { intros x. unfold open. cbn [accept socketBuffers]. rewrite lookup_insert_is_Some'. naive_solver. }
  constructor.
  - intros x. rewrite times_cons. specialize (Hc x). cbn [accept closed]. assert (~ open sk cs) by (unfold open; rewrite Hn; by intros [? ?]).
    destruct (decide (open x (accept sk cs))) as [H1|H1], (decide (x = sk)) as [Heq|], (decide (open x cs)); rewrite Hopen in H1; (lia || naive_solver).
  - intros x [->|Hx]%elem_of_cons Hno; rewrite Hopen in Hno; [naive_solver|]. cbn [accept disconnectedSockets].
    assert (x <> sk) by naive_solver. apply elem_of_difference. split; [apply Hm; naive_solver|by rewrite elem_of_singleton].
  - intros x b. cbn [accept socketBuffers disconnectedSockets heap]. intros [[<- <-]|[Hne Hl]]%lookup_insert_Some.
    + split; [set_solver|]. exists new_connection. by rewrite lookup_app_r, Nat.sub_diag by lia.
    + destruct (Hb _ _ Hl) as (Hnd & c & Hh & Hd). split; [set_solver|]. exists c. split; [by apply lookup_app_l_Some|done].
  - intros x y b. cbn [accept socketBuffers]. intros [[<- <-]|[_ Hx]]%lookup_insert_Some [[<- E]|[_ Hy]]%lookup_insert_Some; [done| | |by eapply Ho].
    + apply Hlt in Hy. lia.
    + apply Hlt in Hx. lia.
  - intros x Hx. right. by apply Hr.
Qed.

Lemma sockets_close r cs acc sk :
  sockets_inv r cs acc -> sk ∈ acc -> sockets_inv r (HandleDisconnectWithoutLock sk cs) acc.
Proof.
  intros [Hc Hm Hb Ho Hr] Hacc. unfold HandleDisconnectWithoutLock. destruct (decide (sk ∈ disconnectedSockets cs)) as [|Hnew]; [done|].
  assert (Hsk : open sk cs) by (destruct (decide (open sk cs)); [done|]; by destruct Hnew; apply Hm).
  assert (Hopen : forall h d l x, open x (mkConns h (delete sk (socketBuffers cs)) d l) <-> x <> sk /\ open x cs).
  { intros h d l x. unfold open. cbn [socketBuffers]. rewrite lookup_delete_is_Some. naive_solver. }
  destruct Hsk as [b0 Hb0]. rewrite Hb0. constructor.
  - intros x. cbn [closed]. rewrite times_cons. specialize (Hc x).
    destruct (decide (x = sk)) as [->|Hne].
    + rewrite decide_False by (rewrite Hopen; naive_solver). rewrite decide_True in Hc by (by exists b0). lia.
    + rewrite (decide_ext _ (open x cs)) by (rewrite Hopen; naive_solver). lia.
  - intros x Hx Hno. rewrite Hopen in Hno. cbn [disconnectedSockets]. destruct (decide (x = sk)) as [->|Hne]; [set_solver|].
    apply elem_of_union_r, Hm; naive_solver.
  - intros x b. cbn [socketBuffers disconnectedSockets heap]. intros [Hne Hl]%lookup_delete_Some.
    destruct (Hb _ _ Hl) as (Hnd & c & Hh & Hd). split; [set_solver|]. exists c. split; [|done].
    rewrite list_lookup_alter_ne; [done|]. intros <-. by destruct Hne; apply (Ho _ _ b0).
  - intros x y b. cbn [socketBuffers]. intros [_ Hx]%lookup_delete_Some [_ Hy]%lookup_delete_Some. by eapply Ho.
  - done.
Qed.

(** Registries that know no other sockets. *)
Lemma sockets_registry r r' cs acc :
  sockets_inv r cs acc -> (forall sk, is_Some (socketToUserId r' !! sk) -> is_Some (socketToUserId r !! sk) \/ sk ∈ acc) ->
  sockets_inv r' cs acc.
Proof. intros [] H. constructor; [done..|]. intros sk [?|?]%H; auto. Qed.

Lemma remove_session_sockets id r r' x :
  removeSession id r = Ok r' -> is_Some (socketToUserId r' !! x) -> is_Some (socketToUserId r !! x).
Proof.
  unfold removeSession. destruct (sessions r !! id) as [ptr|]; [|by intros [= <-]].
  destruct (deref r ptr) as [s| |]; cbn [obind]; try done. destruct (returnSession ptr (pool_of r)); cbn [obind]; try done.
  intros [= <-]. cbn [socketToUserId]. rewrite lookup_delete_is_Some. naive_solver.
Qed.

Lemma session_for_sockets sk r ptr r' x :
  session_for sk r = Ok (ptr, r') -> is_Some (socketToUserId r' !! x) -> is_Some (socketToUserId r !! x) \/ x = sk.
Proof.
  unfold session_for. destruct (findBySocket sk r) as [q r0] eqn:Ef.
  assert (E0 : socketToUserId r0 = socketToUserId r).
  { revert Ef. unfold findBySocket. destruct (socketToUserId r !! sk) as [id|]; [|by intros [= _ <-]].
    destruct (sessions r !! id); by intros [= _ <-]. }
  destruct q as [q|]; [intros [= _ <-]; rewrite E0; by left|].
  destruct (borrowSession sk (pool_of r0)) as [[[q|] sp]| |]; cbn [obind]; try done.
  - unfold addSession, deref, update_session, set_pool. cbn [pool_of spool sessions socketToUserId freeIndices mbind option_bind].
    rewrite list_lookup_alter_eq. destruct (spool sp !! q) as [o|]; cbn [fmap option_fmap option_map obind]; [|done].
    intros [= _ <-]. cbn [socketToUserId set_userId setSocket socket]. rewrite lookup_insert_is_Some', E0. naive_solver.
  - intros [= _ <-]. cbn [set_pool socketToUserId]. rewrite E0. by left.
Qed.

Lemma sockets_op r cs acc o r' cs' :
  seats_ok r -> sockets_inv r cs acc -> is_accept o = false -> seat_op_ok o r -> (forall sk, op_socket o = Some sk -> sk ∈ acc) ->
  run_reg_op o r cs = Ok (r', cs') -> sockets_inv r' cs' acc.
Proof.
  intros Hr Hi Ha Ho Hs. destruct o as [sk|sk|p newid|id|sk|sk|v id]; cbn [run_reg_op seat_op_ok op_socket] in *; [done|..].
  - destruct (session_for sk r) as [[ptr r1]| |] eqn:E; cbn [obind]; try done. intros [= <- <-].
    apply (sockets_registry r); [done|]. intros x Hx. destruct (session_for_sockets _ _ _ _ _ E Hx) as [?| ->]; [by left|right; by apply Hs].
  - destruct Ho as (Hn & Hp & Hat). destruct (login_seats p newid r cs Hr Hn Hp Hat) as (r1 & cs1 & -> & _ & Hcs & Hsk). intros [= <- <-].
    apply (sockets_registry r); [|intros x Hx; left; by apply Hsk].
    destruct Hcs as [->|(sk & Hreg & ->)]; [done|]. apply sockets_close; [done|]. by apply (si_registered _ _ _ Hi).
  - destruct (removeSession id r) as [r1| |] eqn:E; cbn [obind]; try done. intros [= <- <-].
    apply (sockets_registry r); [done|]. intros x Hx. left. by eapply remove_session_sockets.
  - destruct (remove_by_socket_seats sk r Hr) as (r1 & -> & _ & Hsk). intros [= <- <-].
    apply (sockets_registry r); [done|]. intros x Hx. left. by apply Hsk.
  - unfold handleDisconnect. destruct (decide (sk ∈ disconnectedSockets cs)); [by intros [= <- <-]|].
    destruct (decide (getUserIdBySocket sk r = [])); cbn [obind]; [intros [= <- <-]; apply sockets_close; auto|].
    destruct (removeSession (getUserIdBySocket sk r) r) as [r1| |] eqn:E; cbn [obind]; try done. intros [= <- <-].
    apply (sockets_registry r); [apply sockets_close; auto|]. intros x Hx. left. by eapply remove_session_sockets.
  - unfold setRecievingFile. destruct (sessions r !! id) as [[ptr|]|]; cbn [obind]; try done; intros [= <- <-]; [|done].
    apply (sockets_registry r); [done|]. intros x Hx. by left.
Qed.

Lemma served_inv r cs acc : served r cs acc -> seats_ok r /\ sockets_inv r cs acc.
Proof.
  induction 1 as [|r cs acc sk _ [Hr Hi] Hn|r cs acc o r' cs' _ [Hr Hi] Ha Ho Hs Hrun].
  - split; [apply new_seats|]. constructor; [done|by intros sk ?%elem_of_nil|done|done|by intros sk [? ?]].
  - split; [exact Hr|]. apply sockets_accept; [exact Hi|exact Hn].
  - destruct (run_seat_op o r cs Hr Ho) as (r2 & cs2 & E & Hr2). rewrite Hrun in E. injection E as <- <-.
    split; [exact Hr2|]. exact (sockets_op r cs acc o r' cs' Hr Hi Ha Ho Hs Hrun).
Qed.

(** ** Property *)

(** C12: every accepted connection is closed exactly once.  In every history of accepts,
    packets, logins that end an older connection of the user, second logins, and disconnects, however many
    pending operations fail on a dying socket and however often the system uses a handle
    again: a handle was closed as often as it was accepted, one less while it is open.  An
    open socket has a receive buffer that no other socket shares and that nobody has
    poisoned; and when it is disconnected, once or again, no other open socket loses its
    buffer. *)
Theorem closed_exactly_once r cs acc :
  served r cs acc ->
  (forall sk, times sk acc = (times sk (closed cs) + (if decide (open sk cs) then 1 else 0))%nat) /\
  (forall sk b, socketBuffers cs !! sk = Some b -> (exists c, heap cs !! b = Some c /\ disconnected c = false) /\
     forall sk', sk' <> sk -> socketBuffers cs !! sk' <> Some b) /\
  (forall sk, sk ∈ acc -> exists r' cs', handleDisconnect sk r cs = Ok (r', cs') /\ ~ open sk cs' /\
     handleDisconnect sk r' cs' = Ok (r', cs') /\ times sk (closed cs') = times sk acc /\
     forall sk' b c, sk' <> sk -> socketBuffers cs !! sk' = Some b -> heap cs !! b = Some c ->
       socketBuffers cs' !! sk' = Some b /\ heap cs' !! b = Some c).
Proof.
  intros Hsv. destruct (served_inv _ _ _ Hsv) as [Hr Hi]. pose proof Hi as [Hc Hm Hb Ho Hreg]. split_and!.
  - intros sk. by rewrite Hc.
  - intros sk b Hl. split; [apply (Hb _ _ Hl)|]. intros sk' Hne Hl'. by apply Hne, (Ho _ _ b).
  - intros sk Hacc. assert (Hop : forall x, op_socket (OpDisconnect sk) = Some x -> x ∈ acc) by (by intros x [= <-]).
    destruct (disconnect_seats sk r cs Hr) as (r' & Hrun & Hr'). set (cs' := if decide _ then _ else _) in Hrun.
    pose proof (sockets_op r cs acc (OpDisconnect sk) r' cs' Hr Hi eq_refl I Hop Hrun) as Hi'.
    assert (Hcs : cs' = HandleDisconnectWithoutLock sk cs).
    { unfold cs', HandleDisconnectWithoutLock. by destruct (decide (sk ∈ disconnectedSockets cs)). }
    assert (Hdis : sk ∈ disconnectedSockets cs').
    { rewrite Hcs. unfold HandleDisconnectWithoutLock. destruct (decide (sk ∈ disconnectedSockets cs)); [done|]. cbn [disconnectedSockets]. set_solver. }
    assert (Hnot : ~ open sk cs') by (intros [b Hl]; by destruct (si_buffer _ _ _ Hi' _ _ Hl) as [? _]).
    exists r', cs'. split_and!; [done|done| | |].
    + unfold handleDisconnect. by rewrite decide_True.
    + rewrite <- (si_count _ _ _ Hi' sk), decide_False by done. lia.
    + intros sk' b c Hne Hl Hh. rewrite Hcs. unfold HandleDisconnectWithoutLock. destruct (decide _); [done|]. cbn [socketBuffers heap].
      rewrite lookup_delete_ne by done. split; [done|]. destruct (socketBuffers cs !! sk) as [b0|] eqn:E0; [|done].
      rewrite list_lookup_alter_ne; [done|]. intros ->. by apply Hne, (Ho _ _ b).
Qed.

(** ** Evaluation *)

(** A handle that was accepted, disconnected and accepted again. *)
Definition reused : Connections := accept 100 (HandleDisconnectWithoutLock 100 (accept 100 no_connections)).

Lemma reused_served : served new_registry reused [100; 100].
Proof.
  apply served_accept; [|reflexivity].
  apply (served_op new_registry (accept 100 no_connections) [100] (OpDisconnect 100)); [|done|done|by intros sk [= <-]; left|reflexivity].
  apply served_accept; [apply served_new|reflexivity].
Qed.

Lemma closed_exactly_once_witness :
  exists r' cs', handleDisconnect 100 new_registry reused = Ok (r', cs') /\ times 100 (closed cs') = 2%nat /\ times 100 (closed reused) = 1%nat.
Proof.
  destruct (closed_exactly_once _ _ _ reused_served) as (H1 & _ & H3).
  destruct (H3 100) as (r' & cs' & Hrun & _ & _ & Ht & _); [left|]. exists r', cs'. split; [exact Hrun|]. split; [exact Ht|reflexivity].
Defined.
