(* ===== verification/Auth.v ===== *)
(** The authentication engine: authentication/AuthManager.cpp.

    The handlers of login, token and refresh packets, registration, and the response
    packets they send, over the network of Network.v and the stores of AuthStore.v.  A
    [Session*] is an index into the session pool, a [Packet*] one into the packet pool;
    the readings of the clock are arguments. *)

From S2P Require Import Prelude Crc32c Packet Serialize CircularBuffer Fqueue PacketPool Framing Session Offline Network AuthStore.

(** ** Definitions *)

Record AuthManager := mkAuth {
  user_store_ : UserStore;
  family_store_ : RefreshFamilyStore;
  signing_key_ : bstr;
  dummy_hash_ : bstr;
  next_family_id_ : Z
}.

Definition set_user_store v a := mkAuth v (family_store_ a) (signing_key_ a) (dummy_hash_ a) (next_family_id_ a).
Definition set_family_store v a := mkAuth (user_store_ a) v (signing_key_ a) (dummy_hash_ a) (next_family_id_ a).
Definition set_next_family v a := mkAuth (user_store_ a) (family_store_ a) (signing_key_ a) (dummy_hash_ a) v.

Inductive AuthResult := SUCCESS | INVALID_CREDENTIALS | EMAIL_NOT_VERIFIED | ACCOUNT_LOCKED | INTERNAL_ERROR.

#[export] Instance AuthResult_eq_dec : EqDecision AuthResult.
Proof. solve_decision. Defined.

(** The bytes at [getPayload<uint8_t>()], [header.payload_length] of them. *)
Definition raw_payload (p : Packet) : bstr := slice HEADER_SIZE (Z.to_nat (payload_length (header p))) (data p).

Definition on_session (f : Session -> Session) (ptr : nat) (n : Net) : Net :=
  set_registry (update_session f ptr (registry n)) n.

(** Give a packet back to the pool. *)
Definition give_back (p : nat) (n : Net) : outcome Net :=
  let! pp := returnPacket (Some p) (packets n) in Ok (set_packets pp n).

(** What the response builders share: borrow a packet, fill it, mark it to bypass the
    receiver's queue, send it to the session's socket, and give it back if that fails. *)
Definition respond (ptr : nat) (fill : Packet -> Packet) (n : Net) : outcome Net :=
  let! se := deref (registry n) (Some ptr) in
  if negb (iocp se) then Ok n else
  let! (response, pp) := borrowPacket (packets n) in
  match response with
  | None => Ok (set_packets pp n)
  | Some response =>
      let n := set_packets (write_packet response (fun p => set_bypassQueue true (fill p)) pp) n in
      let! (sent, n) := sendPacket se response (socket se) n in
      if negb sent then give_back response n else Ok n
  end.

Section Auth.
Context {C : Checksum} {N : Sodium}.

Definition SendAuthFailure (ptr : nat) (reason : bstr) (n : Net) : outcome Net :=
  respond ptr (fun p => snd (serializeString PKT_AUTH_FAIL reason p)) n.

Definition SendTokenGranted (ptr : nat) (tokens : LoginResult) (n : Net) : outcome Net :=
  respond ptr (fun p => snd (serializeToken PKT_TOKEN_GRANTED (access_token tokens) (refresh_token tokens) p)) n.

Definition CacheAuthOnSession (ptr : nat) (uid : bstr) (expiry : Z) (n : Net) : Net :=
  on_session (fun se => set_userId (UserIdToHexString uid) (set_auth AUTHENTICATED (take 16 uid) expiry se)) ptr n.

Definition ProcessLogin (now : Z) (identifier password : bstr) (ptr : nat) (a : AuthManager) (n : Net)
  : outcome (AuthResult * AuthManager * Net) :=
  let record_opt :=
    match FindByEmail identifier (user_store_ a) with
    | Some r => Some r
    | None => FindByUsername identifier (user_store_ a)
    end in
  match record_opt with
  | None =>
      let dummy_res := crypto_pwhash_str_verify (dummy_hash_ a) password in
      let! n := SendAuthFailure ptr (str "Invalid credentials") n in
      Ok (INVALID_CREDENTIALS, a, n)
  | Some record =>
      if negb (email_verified record) then
        let dummy_res := crypto_pwhash_str_verify (dummy_hash_ a) password in
        let! n := SendAuthFailure ptr (str "Email not verified") n in
        Ok (EMAIL_NOT_VERIFIED, a, n)
      else if negb (crypto_pwhash_str_verify (password_hash record) password) then
        let! n := SendAuthFailure ptr (str "Invalid credentials") n in
        Ok (INVALID_CREDENTIALS, a, n)
      else
        let (tokens, next) := IssueTokenPair (signing_key_ a) (user_id record) now (next_family_id_ a) in
        let a := set_next_family next a in
        match tokens with
        | None =>
            let! n := SendAuthFailure ptr (str "Internal error") n in
            Ok (INTERNAL_ERROR, a, n)
        | Some tokens =>
            let family := mkFamily (granted_family tokens) (take 16 (user_id record)) 1 false in
            let a := set_family_store (InsertFamily family (family_store_ a)) a in
            let n := CacheAuthOnSession ptr (user_id record) (granted_expiry tokens) n in
            let! n := SendTokenGranted ptr tokens n in
            Ok (SUCCESS, a, n)
        end
  end.

Definition HandleLoginPacket (now : Z) (p : nat) (ptr : nat) (a : AuthManager) (n : Net)
  : outcome (bool * AuthManager * Net) :=
  match pool (packets n) !! p with
  | None => UB
  | Some pkt =>
      let! (identifier, password) := read_Login pkt in
      let! n := give_back p n in
      if bool_decide (identifier = []) || bool_decide (password = []) then
        let! n := SendAuthFailure ptr (str "Missing credentials") n in
        Ok (false, a, n)
      else
        let! (result, a, n) := ProcessLogin now identifier password ptr a n in
        Ok (bool_decide (result = SUCCESS), a, n)
  end.

(** [now] is the clock when the token is validated, [now'] when the pair is issued. *)
Definition HandleTokenPacket (now now' : Z) (p : nat) (ptr : nat) (a : AuthManager) (n : Net)
  : outcome (bool * AuthManager * Net) :=
  match pool (packets n) !! p with
  | None => UB
  | Some pkt =>
      let verified := ValidateAccessToken (signing_key_ a) (raw_payload pkt) now in
      let! n := give_back p n in
      match verified with
      | None =>
          let! n := SendAuthFailure ptr (str "Invalid or expired access token") n in
          Ok (false, a, n)
      | Some verified_payload =>
          let n := CacheAuthOnSession ptr (at_user_id verified_payload) (at_expiry verified_payload) n in
          let (tokens, next) :=
            IssueTokenPair (signing_key_ a) (at_user_id verified_payload) now' (next_family_id_ a) in
          let a := set_next_family next a in
          match tokens with
          | Some tokens => let! n := SendTokenGranted ptr tokens n in Ok (true, a, n)
          | None => let! n := SendAuthFailure ptr (str "Token generation failed") n in Ok (false, a, n)
          end
      end
  end.

Definition HandleRefreshPacket (now now' : Z) (p : nat) (ptr : nat) (a : AuthManager) (n : Net)
  : outcome (bool * AuthManager * Net) :=
  match pool (packets n) !! p with
  | None => UB
  | Some pkt =>
      let verified := ValidateRefreshToken (signing_key_ a) (raw_payload pkt) now in
      let! n := give_back p n in
      match verified with
      | None =>
          let! n := SendAuthFailure ptr (str "Invalid or expired refresh token") n in
          Ok (false, a, n)
      | Some verified_payload =>
          let (family_valid, families) :=
            AdvanceTokenId (rt_family_id verified_payload) (token_id verified_payload) (family_store_ a) in
          let a := set_family_store families a in
          if negb family_valid then
            let n := on_session (fun se => set_auth UNAUTHENTICATED (cached_user_id se) 0 se) ptr n in
            let! n := SendAuthFailure ptr (str "Refresh token revoked — re-login required") n in
            Ok (false, a, n)
          else
            let (tokens, next) :=
              IssueTokenPair (signing_key_ a) (rt_user_id verified_payload) now' (next_family_id_ a) in
            let a := set_next_family next a in
            match tokens with
            | None => let! n := SendAuthFailure ptr (str "Token generation failed") n in Ok (false, a, n)
            | Some tokens =>
                let n := CacheAuthOnSession ptr (rt_user_id verified_payload) (granted_expiry tokens) n in
                let! n := SendTokenGranted ptr tokens n in
                Ok (true, a, n)
            end
      end
  end.

(** The copy of a string into a [char[w]] field: truncated, zero-terminated, and zero
    behind it, the record being zeroed when it is constructed. *)
Definition char_field (w : nat) (s : bstr) : bstr :=
  let s := take (w - 1) s in s ++ zeros (w - length s).

(** [RegisterUser]; [uid] is what [randombytes_buf] gives, [salt] the salt of the hash. *)
Definition RegisterUser (uid salt username password email : bstr) (a : AuthManager) : AuthResult * AuthManager :=
  match crypto_pwhash_str password salt with
  | None => (INTERNAL_ERROR, a)
  | Some hash =>
      let record := mkUser (take 16 uid) (char_field 32 username) hash (char_field 64 email) false (zeros 32) false in
      let (inserted, us) := Insert record (user_store_ a) in
      (if negb inserted then INVALID_CREDENTIALS else SUCCESS, set_user_store us a)
  end.

Definition VerifyUserEmail (uid : bstr) (a : AuthManager) : bool * AuthManager :=
  let (ok, us) := SetEmailVerified uid (user_store_ a) in (ok, set_user_store us a).

Definition AddUserRecord (r : UserRecord) (a : AuthManager) : bool * AuthManager :=
  let (ok, us) := Insert r (user_store_ a) in (ok, set_user_store us a).
End Auth.

(** ** Lemmas: responses *)

Lemma give_back_ok p n B E D k :
  net_ok n B E D k -> p ∈ E ->
  exists n', give_back p n = Ok n' /\ net_ok n' (B ∖ {[p]}) E D k /\ registry n' = registry n /\
    posted n' = posted n /\ answers n' = answers n.
Proof.
  intros [Hp Hi Hr Hy] Hin. destruct (return_inv _ _ _ p Hp Hin) as (pp & Hret & Hp').
  unfold give_back. rewrite Hret. cbn [obind]. eexists. split; [done|]. by split_and!; [constructor|..].
Qed.

(** The bytes posted for message [m]: as Network.v shows, its frame without the last
    sixteen. *)
Definition posted_bytes {C : Checksum} (m : message) : bstr :=
  take (length (payload m)) (frame (message_type m) (payload m)).

(** A reply [m] goes to the session's socket exactly when the session has its I/O manager,
    the system accepts the send, and the pool has room; otherwise nothing is sent. *)
Definition replied {C : Checksum} (m : message) (se : Session) (room : bool) (n n' : Net) : Prop :=
  if iocp se && answer n && room then exists r, posted n' = posted n ++ [(socket se, r, posted_bytes m)]
  else posted n' = posted n.

Section Respond.
Context {C : Checksum} {L : ChecksumLaws C}.

(** A serialized packet holds the frame of its message. *)
Lemma send_holds_frame m p :
  length (data p) = sizeof_data -> uuids_ok m -> fits m ->
  holds_frame (send m p).2 (message_type m) (payload m) /\ pkt_id (send m p).2 = pkt_id p.
Proof.
  intros Hd Hu Hf. unfold fits in Hf. rewrite send_built by done. unfold built.
  rewrite (proj2 (Nat.leb_le _ _)) by done. cbn [snd].
  destruct (holds_frame_finalized (message_type m) (payload m) (data p) (resetWritePos p) Hd Hf) as [Hw Hl].
  by split_and!.
Qed.

Lemma holds_frame_bypass b p t pl : holds_frame p t pl -> holds_frame (set_bypassQueue b p) t pl.
Proof. done. Qed.

Lemma frame_take p t pl :
  holds_frame p t pl -> take (length pl) (data p) = take (length pl) (frame t pl).
Proof.
  intros Hf. rewrite (holds_frame_data _ _ _ Hf) at 1. apply take_app_le.
  rewrite length_frame. unfold HEADER_SIZE. lia.
Qed.

Lemma respond_spec m ptr se n B E D k :
  net_ok n B E D (S k) -> deref (registry n) (Some ptr) = Ok se -> uuids_ok m -> fits m ->
  exists n' B' E' D', respond ptr (fun p => (send m p).2) n = Ok n' /\ net_ok n' B' E' D' k /\
    B ⊆ B' /\ E ⊆ E' /\ registry n' = registry n /\
    replied m se (bool_decide (base.size B < currentSize)%nat) n n' /\ (base.size B' <= S (base.size B))%nat.
Proof.
  intros Hok Hse Hu Hf. pose proof (net_pool _ _ _ _ _ Hok) as Hpool. unfold respond, replied. rewrite Hse. cbn [obind].
  destruct (iocp se) eqn:Eio; cbn [negb andb].
  2: { exists n, B, E, D. split_and!; try done; [eapply net_ok_weaken, Hok; lia|lia]. }
  destruct (borrow_inv _ _ _ Hpool) as [[Hfull ->]|(r & pp & pkt & -> & HrB & Hlt & Hr & -> & Hpool')]; cbn [obind].
  { rewrite bool_decide_eq_false_2, andb_false_r by lia. exists (set_packets (packets n) n), B, E, D.
    split_and!; try done; [|lia]. eapply (net_ok_weaken _ _ _ _ (S k)); [lia|]. destruct Hok. by constructor. }
  assert (Hroom : (base.size B < currentSize)%nat).
  { pose proof (pool_count _ _ _ Hpool') as [_ Hc]. rewrite size_union, size_singleton in Hc by set_solver. lia. }
  rewrite bool_decide_eq_true_2, andb_true_r by done. set (w := write_packet _ _ _).
  destruct (send_holds_frame m (set_pkt_id r new_packet) (length_zeros _) Hu Hf) as [Hfr Hid].
  assert (Hw : pool w !! r = Some (set_bypassQueue true (send m (set_pkt_id r new_packet)).2)).
  { unfold w. cbn [write_packet pool]. by rewrite list_lookup_alter_eq, Hr. }
  assert (Hok' : net_ok (set_packets w n) ({[r]} ∪ B) ({[r]} ∪ E) D (S k)).
  { destruct Hok. constructor; try done. cbn [set_packets packets].
    apply write_inv_at; [done|set_solver|]. intros p. rewrite Hr. intros [= <-]. exact Hid. }
  apply (holds_frame_bypass true) in Hfr. pose proof (length_field_frame _ _ _ Hfr) as Hlf.
  pose proof (frame_take _ _ _ Hfr) as Hft.
  destruct (initiate_send_ready (socket se) r _ _ _ _ _ k Hok' ltac:(set_solver) Hw) as (n1 & D' & Hs & Hok1 & Hreg & _ & _ & Hpost & _).
  { rewrite Hlf. unfold fits in Hf. pose proof sizeof_data_Z. unfold len. lia. }
  unfold sendPacket. rewrite Eio, Hs. cbn [obind].
  rewrite Hlf, to_nat_len, Hft in Hpost. change (answer (set_packets w n)) with (answer n) in *.
  destruct (answer n); cbn [negb].
  - exists n1, ({[r]} ∪ B), ({[r]} ∪ E), D'. split_and!; [done|done|set_solver|set_solver|done|by exists r|].
    rewrite size_union, size_singleton by set_solver. lia.
  - destruct (give_back_ok r n1 _ _ _ _ Hok1 ltac:(set_solver)) as (n2 & Hg & Hok2 & Hreg2 & Hpost2 & _).
    exists n2, (({[r]} ∪ B) ∖ {[r]}), ({[r]} ∪ E), D'. rewrite app_nil_r in Hpost.
    split_and!; [done|done|set_solver|set_solver|by rewrite Hreg2|by rewrite Hpost2|].
    replace (({[r]} ∪ B) ∖ {[r]}) with B by set_solver. lia.
Qed.
End Respond.

(** ** Lemmas: the handlers *)

Lemma deref_update f ptr r se :
  deref r (Some ptr) = Ok se -> deref (update_session f ptr r) (Some ptr) = Ok (f se).
Proof.
  unfold deref, update_session. cbn. destruct (spool (pool_of r) !! ptr) as [s|] eqn:E; [|done].
  intros [= <-]. by rewrite list_lookup_alter_eq, E.
Qed.

Lemma answer_eq n n' : answers n' = answers n -> answer n' = answer n.
Proof. unfold answer. by intros ->. Qed.

Lemma taken_room n B E D k p :
  net_ok n B E D k -> p ∈ B -> bool_decide (base.size (B ∖ {[p]}) < currentSize)%nat = true.
Proof.
  intros [Hp _ _ _] Hin. apply bool_decide_eq_true_2. pose proof (pool_count _ _ _ Hp) as [_ Hc].
  rewrite size_difference, size_singleton by (by apply singleton_subseteq_l).
  assert (base.size B <> 0)%nat by (rewrite size_non_empty_iff; set_solver). lia.
Qed.

Section Handlers.
Context {C : Checksum} {L : ChecksumLaws C} {N : Sodium} {LN : SodiumLaws N}.

Definition failure (reason : bstr) : message := StringMsg PKT_AUTH_FAIL reason.
Definition grant (r : LoginResult) : message := Token PKT_TOKEN_GRANTED (access_token r) (refresh_token r).

Lemma failure_spec reason ptr se n B E D k :
  net_ok n B E D (S k) -> deref (registry n) (Some ptr) = Ok se -> (length reason <= 1000)%nat ->
  exists n' B' E' D', SendAuthFailure ptr reason n = Ok n' /\ net_ok n' B' E' D' k /\ B ⊆ B' /\ E ⊆ E' /\
    registry n' = registry n /\ replied (failure reason) se (bool_decide (base.size B < currentSize)%nat) n n' /\
    (base.size B' <= S (base.size B))%nat.
Proof.
  intros Hok Hse Hl. refine (respond_spec (failure reason) ptr se n B E D k Hok Hse (Forall_nil_2 _) _).
  unfold fits, failure, payload, HEADER_SIZE. pose proof sizeof_data_Z. lens.
Qed.

Lemma grant_spec r ptr se n B E D k :
  net_ok n B E D (S k) -> deref (registry n) (Some ptr) = Ok se ->
  length (access_token r) = sizeof_AccessToken -> length (refresh_token r) = sizeof_RefreshToken ->
  exists n' B' E' D', SendTokenGranted ptr r n = Ok n' /\ net_ok n' B' E' D' k /\ B ⊆ B' /\ E ⊆ E' /\
    registry n' = registry n /\ replied (grant r) se (bool_decide (base.size B < currentSize)%nat) n n' /\
    (base.size B' <= S (base.size B))%nat.
Proof.
  intros Hok Hse Ha Hr. refine (respond_spec (grant r) ptr se n B E D k Hok Hse (Forall_nil_2 _) _).
  unfold fits, grant, payload, HEADER_SIZE, sizeof_AccessToken, sizeof_RefreshToken in *.
  pose proof sizeof_data_Z. lens.
Qed.

(** The session as [CacheAuthOnSession] leaves it. *)
Definition authenticated (uid : bstr) (expiry : Z) (se : Session) : Session :=
  set_userId (UserIdToHexString uid) (set_auth AUTHENTICATED (take 16 uid) expiry se).

Lemma net_ok_session f ptr n B E D k : net_ok n B E D k -> net_ok (on_session f ptr n) B E D k.
Proof. intros []. by constructor. Qed.

(** What [IssueTokenPair] yields, as the handlers use it. *)
Lemma issue_lengths key uid now nf :
  length uid = 16%nat -> 0 <= now < 2 ^ 63 ->
  exists r, IssueTokenPair key uid now nf = (Some r, wrap 64 (nf + 1)) /\
    length (access_token r) = sizeof_AccessToken /\ length (refresh_token r) = sizeof_RefreshToken /\
    granted_expiry r = now + 900 /\ granted_family r = nf.
Proof.
  intros Hu Hn. destruct (issue_eq key uid now nf Hu) as (sig & sig' & Ea & Er & E); [lia|unfold REFRESH_TOKEN_LIFETIME; lia|].
  eexists. split; [exact E|]. cbn [access_token refresh_token granted_expiry granted_family].
  unfold sizeof_AccessToken, sizeof_RefreshToken. rewrite !length_app, (auth_length _ _ _ Ea), (auth_length _ _ _ Er).
  unfold access_bytes, refresh_bytes. cbn [at_user_id issued_at at_expiry at_key_id rt_user_id rt_family_id token_id rt_expiry rt_key_id].
  rewrite !length_app, !length_le_split, Hu. by split_and!.
Qed.

(** Authentication succeeded: the session is cached and the pair granted. *)
Lemma cache_grant_spec r uid expiry ptr se n B E D k :
  net_ok n B E D (S k) -> deref (registry n) (Some ptr) = Ok se ->
  length (access_token r) = sizeof_AccessToken -> length (refresh_token r) = sizeof_RefreshToken ->
  exists n' B' E' D', SendTokenGranted ptr r (CacheAuthOnSession ptr uid expiry n) = Ok n' /\
    net_ok n' B' E' D' k /\ B ⊆ B' /\ E ⊆ E' /\
    registry n' = update_session (authenticated uid expiry) ptr (registry n) /\
    replied (grant r) se (bool_decide (base.size B < currentSize)%nat) n n' /\ (base.size B' <= S (base.size B))%nat.
Proof.
  intros Hok Hse Ha Hr.
  destruct (grant_spec r ptr (authenticated uid expiry se) (CacheAuthOnSession ptr uid expiry n) B E D k)
    as (n' & B' & E' & D' & H1 & H2 & HB & HE & H3 & H4 & H5); [by apply net_ok_session| |done|done|].
  { unfold CacheAuthOnSession, on_session. cbn [set_registry registry]. by apply deref_update. }
  exists n', B', E', D'. by split_and!.
Qed.

(** *** The contract of a login

    The user whose e-mail or, failing that, user name is the identifier, if verified and
    the password matches. *)
Definition credentials (a : AuthManager) (identifier password : bstr) : option UserRecord :=
  if bool_decide (identifier = []) || bool_decide (password = []) then None else
  r ← match FindByEmail identifier (user_store_ a) with
      | Some r => Some r
      | None => FindByUsername identifier (user_store_ a)
      end;
  if email_verified r && crypto_pwhash_str_verify (password_hash r) password then Some r else None.

(** The manager after a login: a new family with token 1 current. *)
Definition logged_in (uid : bstr) (a : AuthManager) : AuthManager :=
  mkAuth (user_store_ a)
    (InsertFamily (mkFamily (next_family_id_ a) uid 1 false) (family_store_ a))
    (signing_key_ a) (dummy_hash_ a) (wrap 64 (next_family_id_ a + 1)).

Definition ids_ok (us : UserStore) : Prop := forall k r, records_ us !! k = Some r -> length (user_id r) = 16%nat.

Lemma found_id us ident r :
  ids_ok us ->
  match FindByEmail ident us with Some r => Some r | None => FindByUsername ident us end = Some r ->
  length (user_id r) = 16%nat.
Proof.
  intros Hi. unfold FindByEmail, FindByUsername. destruct (email_to_uid_ us !! ident) as [u|]; cbn.
  - destruct (records_ us !! u) as [r'|] eqn:E; [intros [= <-]; by eapply Hi|].
    destruct (username_to_uid_ us !! ident) as [u'|]; [|done]. cbn. apply Hi.
  - destruct (username_to_uid_ us !! ident) as [u'|]; [|done]. cbn. apply Hi.
Qed.
End Handlers.

Section HandlerSpecs.
Context {C : Checksum} {L : ChecksumLaws C} {N : Sodium} {LN : SodiumLaws N}.

(** A handler that answers [false] and sends [reason], changing only the network. *)
Definition refused (reason : bstr) (ptr : nat) (se : Session) (a : AuthManager) (n n' : Net)
    (res : outcome (bool * AuthManager * Net)) : Prop :=
  res = Ok (false, a, n') /\ registry n' = registry n /\ replied (failure reason) se true n n'.

(** A handler that authenticates the session as [uid] until [expiry], sends [r], and
    leaves the manager as [a']. *)
Definition granted (uid : bstr) (expiry : Z) (r : LoginResult) (ptr : nat) (se : Session) (a' : AuthManager)
    (n n' : Net) (res : outcome (bool * AuthManager * Net)) : Prop :=
  res = Ok (true, a', n') /\ registry n' = update_session (authenticated uid expiry) ptr (registry n) /\
  replied (grant r) se true n n'.

Lemma replied_after m se room n n1 n' :
  posted n1 = posted n -> answers n1 = answers n -> replied m se room n1 n' -> replied m se room n n'.
Proof. intros Hp Ha. unfold replied. by rewrite (answer_eq n n1 Ha), Hp. Qed.

(** The two ways a handler ends, the received packet having been given back. *)
Lemma refuse_after reason p ptr se n B E D k :
  net_ok n B E D (S k) -> p ∈ B -> deref (registry n) (Some ptr) = Ok se -> (length reason <= 1000)%nat ->
  exists n1 n' B' E' D', give_back p n = Ok n1 /\ SendAuthFailure ptr reason n1 = Ok n' /\
    net_ok n' B' E' D' k /\ registry n' = registry n /\ replied (failure reason) se true n n'.
Proof.
  intros Hok Hin Hse Hl. pose proof (proj1 (pool_sub _ _ _ (net_pool _ _ _ _ _ Hok)) p Hin) as HinE.
  destruct (give_back_ok p n B E D (S k) Hok HinE) as (n1 & Hg & Hok1 & Hr1 & Hp1 & Ha1).
  rewrite <- Hr1 in Hse.
  destruct (failure_spec reason ptr se n1 _ _ _ _ Hok1 Hse Hl) as (n' & B' & E' & D' & Hs & Hok' & _ & _ & Hr' & Hrep & _).
  rewrite (taken_room n B E D (S k) p Hok Hin) in Hrep.
  exists n1, n', B', E', D'. split_and!; [done|done|done|by rewrite Hr', Hr1|].
  by apply (replied_after _ _ _ n n1).
Qed.

Lemma grant_after r uid expiry p ptr se n B E D k :
  net_ok n B E D (S k) -> p ∈ B -> deref (registry n) (Some ptr) = Ok se ->
  length (access_token r) = sizeof_AccessToken -> length (refresh_token r) = sizeof_RefreshToken ->
  exists n1 n' B' E' D', give_back p n = Ok n1 /\
    SendTokenGranted ptr r (CacheAuthOnSession ptr uid expiry n1) = Ok n' /\ net_ok n' B' E' D' k /\
    registry n' = update_session (authenticated uid expiry) ptr (registry n) /\ replied (grant r) se true n n' /\
    B ∖ {[p]} ⊆ B' /\ (base.size B' <= base.size B)%nat.
Proof.
  intros Hok Hin Hse Ha Hr. pose proof (proj1 (pool_sub _ _ _ (net_pool _ _ _ _ _ Hok)) p Hin) as HinE.
  destruct (give_back_ok p n B E D (S k) Hok HinE) as (n1 & Hg & Hok1 & Hr1 & Hp1 & Ha1).
  rewrite <- Hr1 in Hse.
  destruct (cache_grant_spec r uid expiry ptr se n1 _ _ _ _ Hok1 Hse Ha Hr) as (n' & B' & E' & D' & Hs & Hok' & HB & _ & Hr' & Hrep & Hsz).
  rewrite (taken_room n B E D (S k) p Hok Hin) in Hrep.
  exists n1, n', B', E', D'. split_and!; [done|done|done|by rewrite Hr', Hr1|by apply (replied_after _ _ _ n n1)|done|].
  rewrite size_difference, size_singleton in Hsz by (by apply singleton_subseteq_l).
  assert (base.size B <> 0)%nat by (rewrite size_non_empty_iff; set_solver). lia.
Qed.

Ltac refuse_by Hfail reason :=
  let n1 := fresh "n1" in let n' := fresh "n'" in let Hs := fresh "Hs" in
  destruct (Hfail reason) as (n1 & n' & ? & ? & ? & -> & Hs & ? & ? & ?); [vm_compute; lia|];
  cbn [obind]; rewrite Hs; exists n'; do 3 eexists; split; [eassumption|]; eexists; by split_and!.

Lemma login_spec now p ptr pkt ident pw se a n B E D k :
  net_ok n B E D (S k) -> p ∈ B -> pool (packets n) !! p = Some pkt -> read_Login pkt = Ok (ident, pw) ->
  deref (registry n) (Some ptr) = Ok se -> ids_ok (user_store_ a) -> 0 <= now < 2 ^ 63 ->
  exists n' B' E' D', net_ok n' B' E' D' k /\
    match credentials a ident pw with
    | Some u => exists r, IssueTokenPair (signing_key_ a) (user_id u) now (next_family_id_ a) = (Some r, wrap 64 (next_family_id_ a + 1)) /\
        granted (user_id u) (now + 900) r ptr se (logged_in (user_id u) a) n n' (HandleLoginPacket now p ptr a n)
    | None => exists reason, refused reason ptr se a n n' (HandleLoginPacket now p ptr a n)
    end.
Proof.
  intros Hok Hin Hp Hread Hse Hids Hnow.
  assert (Hfail : forall reason, (length reason <= 1000)%nat -> exists n1 n' B' E' D', give_back p n = Ok n1 /\
    SendAuthFailure ptr reason n1 = Ok n' /\ net_ok n' B' E' D' k /\ registry n' = registry n /\
    replied (failure reason) se true n n') by (intros reason Hl; by eapply refuse_after).
  unfold HandleLoginPacket, credentials. rewrite Hp, Hread. cbn [obind].
  destruct (bool_decide (ident = []) || bool_decide (pw = [])) eqn:Eb; [refuse_by Hfail (str "Missing credentials")|].
  unfold ProcessLogin.
  destruct (match FindByEmail ident (user_store_ a) with Some r => Some r | None => _ end) as [u|] eqn:Eu;
    cbn [mbind option_bind]; [|refuse_by Hfail (str "Invalid credentials")].
  destruct (email_verified u) eqn:Ev; cbn [negb andb]; [|refuse_by Hfail (str "Email not verified")].
  destruct (crypto_pwhash_str_verify (password_hash u) pw); cbn [negb]; [|refuse_by Hfail (str "Invalid credentials")].
  pose proof (found_id _ _ _ Hids Eu) as Hu.
  destruct (issue_lengths (signing_key_ a) (user_id u) now (next_family_id_ a) Hu Hnow) as (r & Hiss & Ha & Hrf & Hex & Hfam).
  destruct (grant_after r (user_id u) (now + 900) p ptr se n B E D k Hok Hin Hse Ha Hrf)
    as (n1 & n' & B' & E' & D' & -> & Hs & Hok' & Hr & Hrep & _).
  rewrite Hiss, Hex, Hfam. cbn [obind]. rewrite Hs. exists n', B', E', D'. split; [done|]. exists r.
  split; [done|]. split_and!; [|done|done]. cbn [obind]. rewrite take_ge by lia. done.
Qed.

Lemma validate_refresh_id key b t v : ValidateRefreshToken key b t = Some v -> length (rt_user_id v) = 16%nat.
Proof.
  unfold ValidateRefreshToken, sizeof_RefreshToken. bdestruct_all; bool_to_prop; intros [= <-].
  cbn [read_refresh rt_user_id]. lens.
Qed.

Lemma validate_access_id key b t v : ValidateAccessToken key b t = Some v -> length (at_user_id v) = 16%nat.
Proof.
  unfold ValidateAccessToken, sizeof_AccessToken. bdestruct_all; bool_to_prop; intros [= <-].
  cbn [read_access at_user_id]. lens.
Qed.

(** The session as a refused rotation leaves it. *)
Definition unauthenticated (se : Session) : Session := set_auth UNAUTHENTICATED (cached_user_id se) 0 se.

Definition next_family (a : AuthManager) : AuthManager := set_next_family (wrap 64 (next_family_id_ a + 1)) a.

Lemma token_spec now now' p ptr pkt se a n B E D k :
  net_ok n B E D (S k) -> p ∈ B -> pool (packets n) !! p = Some pkt ->
  deref (registry n) (Some ptr) = Ok se -> 0 <= now' < 2 ^ 63 ->
  exists n' B' E' D', net_ok n' B' E' D' k /\
    match ValidateAccessToken (signing_key_ a) (raw_payload pkt) now with
    | Some v => exists r, IssueTokenPair (signing_key_ a) (at_user_id v) now' (next_family_id_ a) = (Some r, wrap 64 (next_family_id_ a + 1)) /\
        granted (at_user_id v) (at_expiry v) r ptr se (next_family a) n n' (HandleTokenPacket now now' p ptr a n)
    | None => exists reason, refused reason ptr se a n n' (HandleTokenPacket now now' p ptr a n)
    end.
Proof.
  intros Hok Hin Hp Hse Hnow. unfold HandleTokenPacket. rewrite Hp.
  destruct (ValidateAccessToken (signing_key_ a) (raw_payload pkt) now) as [v|] eqn:Ev.
  2: { refuse_by (fun reason Hl => refuse_after reason p ptr se n B E D k Hok Hin Hse Hl) (str "Invalid or expired access token"). }
  destruct (issue_lengths (signing_key_ a) (at_user_id v) now' (next_family_id_ a) (validate_access_id _ _ _ _ Ev) Hnow)
    as (r & Hiss & Ha & Hrf & _).
  destruct (grant_after r (at_user_id v) (at_expiry v) p ptr se n B E D k Hok Hin Hse Ha Hrf)
    as (n1 & n' & B' & E' & D' & -> & Hs & Hok' & Hr & Hrep & _).
  rewrite Hiss. cbn [obind]. rewrite Hs. exists n', B', E', D'. split; [done|]. exists r. by split_and!.
Qed.

Lemma refresh_spec now now' p ptr pkt se a n B E D k :
  net_ok n B E D (S k) -> p ∈ B -> pool (packets n) !! p = Some pkt ->
  deref (registry n) (Some ptr) = Ok se -> 0 <= now' < 2 ^ 63 ->
  exists n' B' E' D', net_ok n' B' E' D' k /\
    match ValidateRefreshToken (signing_key_ a) (raw_payload pkt) now with
    | None => exists reason, refused reason ptr se a n n' (HandleRefreshPacket now now' p ptr a n)
    | Some v =>
        let a' := set_family_store (snd (AdvanceTokenId (rt_family_id v) (token_id v) (family_store_ a))) a in
        if fst (AdvanceTokenId (rt_family_id v) (token_id v) (family_store_ a)) then
          exists r, IssueTokenPair (signing_key_ a) (rt_user_id v) now' (next_family_id_ a) = (Some r, wrap 64 (next_family_id_ a + 1)) /\
            granted (rt_user_id v) (now' + 900) r ptr se (next_family a') n n' (HandleRefreshPacket now now' p ptr a n)
        else HandleRefreshPacket now now' p ptr a n = Ok (false, a', n') /\
          registry n' = update_session unauthenticated ptr (registry n)
    end.
Proof.
  intros Hok Hin Hp Hse Hnow. unfold HandleRefreshPacket. rewrite Hp.
  destruct (ValidateRefreshToken (signing_key_ a) (raw_payload pkt) now) as [v|] eqn:Ev.
  2: { refuse_by (fun reason Hl => refuse_after reason p ptr se n B E D k Hok Hin Hse Hl) (str "Invalid or expired refresh token"). }
  destruct (AdvanceTokenId _ _ _) as [[] fs'] eqn:Ea; cbn [fst snd negb].
  - destruct (issue_lengths (signing_key_ a) (rt_user_id v) now' (next_family_id_ a) (validate_refresh_id _ _ _ _ Ev) Hnow)
      as (r & Hiss & Ha & Hrf & Hex & _).
    destruct (grant_after r (rt_user_id v) (now' + 900) p ptr se n B E D k Hok Hin Hse Ha Hrf)
      as (n1 & n' & B' & E' & D' & -> & Hs & Hok' & Hr & Hrep & _).
    cbn [obind set_family_store signing_key_ next_family_id_]. rewrite Hiss, Hex, Hs.
    exists n', B', E', D'. split; [done|]. exists r. by split_and!.
  - pose proof (proj1 (pool_sub _ _ _ (net_pool _ _ _ _ _ Hok)) p Hin) as HinE.
    destruct (give_back_ok p n B E D (S k) Hok HinE) as (n1 & -> & Hok1 & Hr1 & _). cbn [obind].
    destruct (failure_spec (str "Refresh token revoked — re-login required") ptr (unauthenticated se)
      (on_session unauthenticated ptr n1) _ _ _ _ (net_ok_session _ _ _ _ _ _ _ Hok1))
      as (n' & B' & E' & D' & Hs & Hok' & _ & _ & Hr' & _).
    + cbn [on_session set_registry registry]. rewrite Hr1. by apply deref_update.
    + vm_compute. lia.
    + unfold unauthenticated in Hs. rewrite Hs. exists n', B', E', D'. split; [done|]. split; [done|].
      rewrite Hr'. cbn [on_session set_registry registry]. by rewrite Hr1.
Qed.
End HandlerSpecs.

(** ** Lemmas: presenting a token again *)

Lemma validate_refresh_later {N : Sodium} key b t t' v :
  ValidateRefreshToken key b t = Some v ->
  ValidateRefreshToken key b t' = if t' <? rt_expiry v then Some v else None.
Proof.
  unfold ValidateRefreshToken. destruct (negb (_ =? _)%nat); [done|]. destruct (negb (crypto_auth_verify _ _ _)); [done|].
  destruct (_ <=? t); [done|]. destruct (negb (_ =? 0)); [done|]. intros [= <-]. rewrite Z.leb_antisym.
  by destruct (t' <? _).
Qed.

Lemma advance_stale fid tid fs fam :
  fs !! fid = Some (mkFamily (family_id fam) (fam_user_id fam) (current_token_id fam) false) -> current_token_id fam <> tid ->
  AdvanceTokenId fid tid fs = (false, <[fid := mkFamily (family_id fam) (fam_user_id fam) (current_token_id fam) true]> fs).
Proof.
  intros Hf Hne. unfold AdvanceTokenId. rewrite Hf. cbn [revoked current_token_id family_id fam_user_id].
  by rewrite (proj2 (Z.eqb_neq _ _) Hne).
Qed.

Lemma wrap_succ_neq z : wrap 64 (z + 1) <> z.
Proof.
  unfold wrap. intros E. pose proof (Z.mod_pos_bound (z + 1) (2 ^ 64) ltac:(lia)) as Hb. rewrite E in Hb.
  destruct (decide (z + 1 < 2 ^ 64)); [rewrite Z.mod_small in E by lia; lia|].
  replace (z + 1) with (2 ^ 64) in E by lia. rewrite Z.mod_same in E by lia. lia.
Qed.

(** ** Evaluation: a network with one packet out *)

Lemma ready_net (r : Registry) (f : Packet -> Packet) :
  (forall p, pkt_id (f p) = pkt_id p) ->
  exists p n, net_ok n {[p]} {[p]} ∅ 3 /\ pool (packets n) !! p = Some (f (set_pkt_id p new_packet)) /\
    registry n = r /\ answers n = [] /\ posted n = [].
Proof.
  intros Hf. destruct (borrow_inv new_pool ∅ ∅ new_pool_inv) as [[Hs _]|(p & pp & pkt & _ & _ & _ & Hp & -> & Hi)].
  { pose proof currentSize_Z. rewrite size_empty in Hs. lia. }
  exists p, (mkNet new_io_pool (write_packet p f pp) r [] [] []). rewrite !union_empty_r_L in Hi.
  destruct new_io_pool_inv as [Hio Hq]. pose proof io_maxSize_le as HZ. generalize dependent new_io_pool. intros ip Hio Hq.
  split; [constructor; cbn [packets io]|].
  - apply write_inv; [exact Hi|by apply elem_of_singleton|exact Hf].
  - exact Hio.
  - rewrite size_empty. lia.
  - lia.
  - cbn [packets write_packet pool registry answers posted]. by rewrite list_lookup_alter_eq, Hp.
Qed.

(** A packet received with a raw payload. *)
Definition carrying (tok : bstr) (p : Packet) : Packet :=
  set_header (mkHeader 0 0 0 (len tok) 0 0) (set_data (blit HEADER_SIZE tok (data p)) p).

Lemma raw_payload_carrying tok i :
  (HEADER_SIZE + length tok <= sizeof_data)%nat -> raw_payload (carrying tok (set_pkt_id i new_packet)) = tok.
Proof.
  intros Hl. unfold raw_payload, carrying. cbn [set_header set_data header payload_length data set_pkt_id new_packet].
  rewrite to_nat_len. apply slice_blit_eq; [rewrite length_zeros; lia|done].
Qed.

(** The registry with one connection, on socket 100, whose session is object 0. *)
Definition one_connection : Registry := (after (OpPacket 100) (new_registry, no_connections)).1.

Lemma one_connection_session : exists se, registered one_connection (str "100id") 0 se.
Proof.
  apply registered_found; [eapply reg_history_inv, first_connection_history|vm_compute; reflexivity].
Qed.

(** A manager that knows one user, verified, with password "pw". *)
Definition sample_users : UserStore :=
  snd (@SetEmailVerified sample_sodium (zeros 16) (snd (@Insert sample_sodium sample_user new_users))).
Definition sample_auth : AuthManager := mkAuth sample_users ∅ (zeros 32) [] 1.

Lemma sample_ids : ids_ok (user_store_ sample_auth).
Proof.
  change (map_Forall (fun _ r => length (user_id r) = 16%nat) (records_ sample_users)).
  apply (bool_decide_unpack _). vm_compute. exact I.
Qed.

(** ** Theorems *)

Section Theorems.
Context {C : Checksum} {L : ChecksumLaws C} {N : Sodium} {LN : SodiumLaws N}.

(** The two length fields of a login packet, and the two strings they delimit. *)
Definition identifier_len (pkt : Packet) : nat := Z.to_nat (ntohs (payload_field 2 0 pkt)).
Definition password_len (pkt : Packet) : nat := Z.to_nat (ntohs (payload_field 2 2 pkt)).
Definition login_identifier (pkt : Packet) : bstr := slice (HEADER_SIZE + 4) (identifier_len pkt) (data pkt).
Definition login_password (pkt : Packet) : bstr :=
  slice (HEADER_SIZE + 4 + identifier_len pkt) (password_len pkt) (data pkt).
Definition login_inside (pkt : Packet) : Prop :=
  (HEADER_SIZE + 4 + identifier_len pkt + password_len pkt <= sizeof_data)%nat.

(** The strings are read if both lie inside the array of the packet, and only then. *)
Lemma read_Login_spec pkt :
  read_Login pkt = if decide (login_inside pkt) then Ok (login_identifier pkt, login_password pkt) else UB.
Proof.
  unfold read_Login, payload_string, login_inside, login_identifier, login_password, identifier_len, password_len.
  pose proof (bswap_range 2 (payload_field 2 0 pkt) : 0 <= ntohs _ < _). pose proof (bswap_range 2 (payload_field 2 2 pkt) : 0 <= ntohs _ < _).
  destruct (Z.ltb_spec (Z.of_nat sizeof_data) (Z.of_nat (HEADER_SIZE + 4) + ntohs (payload_field 2 0 pkt))); cbn [obind].
  { rewrite decide_False by lia. done. }
  rewrite Nat.add_assoc.
  destruct (Z.ltb_spec (Z.of_nat sizeof_data)
    (Z.of_nat (HEADER_SIZE + 4 + Z.to_nat (ntohs (payload_field 2 0 pkt))) + ntohs (payload_field 2 2 pkt))); cbn [obind].
  - by rewrite decide_False by lia.
  - by rewrite decide_True by lia.
Qed.

(** C10: a login packet is undefined behaviour exactly when its two length fields, which
    the handler does not check, run past the array of the packet.  Otherwise the handler
    returns, and authenticates exactly when the identifier is the e-mail (or else the user
    name) of a user whose e-mail is verified and whose password hash the password matches.
    Then the session carries the user's id and passes the per-packet check until 15 minutes
    later and not after, a new refresh family with token 1 is stored, and the client is
    sent the token pair; otherwise neither the manager nor any session changes and the
    client is sent a failure. *)
Theorem login_authenticates now p ptr pkt se a n B E D k :
  net_ok n B E D (S k) -> p ∈ B -> pool (packets n) !! p = Some pkt ->
  deref (registry n) (Some ptr) = Ok se -> ids_ok (user_store_ a) -> 0 <= now < 2 ^ 63 ->
  let found := credentials a (login_identifier pkt) (login_password pkt) in
  (HandleLoginPacket now p ptr a n = UB <-> ~ login_inside pkt) /\
  (login_inside pkt -> exists ok a' n', HandleLoginPacket now p ptr a n = Ok (ok, a', n') /\
    (ok = true <-> is_Some found) /\
    (found = None ->
       a' = a /\ registry n' = registry n /\ exists reason, replied (failure reason) se true n n') /\
    (forall u, found = Some u ->
       a' = logged_in (user_id u) a /\
       (exists r, fst (IssueTokenPair (signing_key_ a) (user_id u) now (next_family_id_ a)) = Some r /\
          replied (grant r) se true n n') /\
       exists se', deref (registry n') (Some ptr) = Ok se' /\ userId se' = UserIdToHexString (user_id u) /\
         forall t, ValidateSessionHotPath se' t = (t <? now + 900))).
Proof.
  intros Hok Hin Hp Hse Hids Hnow found. pose proof (read_Login_spec pkt) as Hread. case_decide as Hl.
  2: { split; [|done]. split; [done|]. intros _. unfold HandleLoginPacket. by rewrite Hp, Hread. }
  destruct (login_spec now p ptr pkt _ _ se a n B E D k Hok Hin Hp Hread Hse Hids Hnow)
    as (n' & B' & E' & D' & _ & H).
  fold found in H. destruct found as [u|].
  - destruct H as (r & Hiss & Hrun & Hreg & Hrep). rewrite Hrun. split; [done|]. intros _.
    exists true, (logged_in (user_id u) a), n'.
    split_and!; [done|by split; [eexists|]|done|]. intros ? [= <-]. rewrite Hiss.
    split_and!; [done|by exists r|]. exists (authenticated (user_id u) (now + 900) se).
    split_and!; [rewrite Hreg; by apply deref_update|done|done].
  - destruct H as (reason & Hrun & Hreg & Hrep). rewrite Hrun. split; [done|]. intros _. exists false, a, n'.
    split_and!; [done|split; [done|by intros []]| |done]. intros _. split_and!; [done|done|by exists reason].
Qed.

(** A refresh token is good for one rotation.  If it verifies and is the current one
    of a family that is not revoked, the handler authenticates the session for its user
    and grants a new pair; after that, the same token presented again, in any packet, on
    any session and at any time, is refused, and if it had not expired it ends the
    authentication of that session and revokes the family. *)
Theorem refresh_token_single_use now now' p ptr pkt se a n B E D k v fam :
  net_ok n B E D (S k) -> p ∈ B -> pool (packets n) !! p = Some pkt ->
  deref (registry n) (Some ptr) = Ok se -> 0 <= now' < 2 ^ 63 ->
  ValidateRefreshToken (signing_key_ a) (raw_payload pkt) now = Some v ->
  Find (rt_family_id v) (family_store_ a) = Some fam -> revoked fam = false -> current_token_id fam = token_id v ->
  exists a1 n1 se1, HandleRefreshPacket now now' p ptr a n = Ok (true, a1, n1) /\
    deref (registry n1) (Some ptr) = Ok se1 /\ userId se1 = UserIdToHexString (rt_user_id v) /\
    (forall t, ValidateSessionHotPath se1 t = (t <? now' + 900)) /\
    forall now2 now2' p2 ptr2 pkt2 se2 n2 B2 E2 D2 k2,
      net_ok n2 B2 E2 D2 (S k2) -> p2 ∈ B2 -> pool (packets n2) !! p2 = Some pkt2 ->
      deref (registry n2) (Some ptr2) = Ok se2 -> 0 <= now2' < 2 ^ 63 -> raw_payload pkt2 = raw_payload pkt ->
      exists a3 n3, HandleRefreshPacket now2 now2' p2 ptr2 a1 n2 = Ok (false, a3, n3) /\
        (now2 < rt_expiry v ->
           (exists fam3, Find (rt_family_id v) (family_store_ a3) = Some fam3 /\ revoked fam3 = true) /\
           exists se3, deref (registry n3) (Some ptr2) = Ok se3 /\ forall t, ValidateSessionHotPath se3 t = false).
Proof.
  intros Hok Hin Hp Hse Hnow Hv Hf Hrev Hcur.
  destruct (refresh_spec now now' p ptr pkt se a n B E D k Hok Hin Hp Hse Hnow) as (n1 & B1 & E1 & D1 & _ & H).
  assert (Hadv : AdvanceTokenId (rt_family_id v) (token_id v) (family_store_ a) =
    (true, <[rt_family_id v := mkFamily (family_id fam) (fam_user_id fam) (wrap 64 (token_id v + 1)) false]> (family_store_ a))).
  { unfold Find in Hf. unfold AdvanceTokenId. by rewrite Hf, Hrev, Hcur, Z.eqb_refl. }
  rewrite Hv, Hadv in H. cbn [fst snd] in H. destruct H as (r & _ & Hrun & Hreg & _).
  eexists _, n1, (authenticated (rt_user_id v) (now' + 900) se). split; [exact Hrun|].
  split_and!; [rewrite Hreg; by apply deref_update|done|done|].
  intros now2 now2' p2 ptr2 pkt2 se2 n2 B2 E2 D2 k2 Hok2 Hin2 Hp2 Hse2 Hnow2 Hsame.
  match goal with |- context [HandleRefreshPacket _ _ _ _ ?a0 _] => set (a1 := a0) end.
  destruct (refresh_spec now2 now2' p2 ptr2 pkt2 se2 a1 n2 B2 E2 D2 k2 Hok2 Hin2 Hp2 Hse2 Hnow2)
    as (n3 & B3 & E3 & D3 & _ & H3). rewrite Hsame in H3. change (signing_key_ a1) with (signing_key_ a) in H3.
  rewrite (validate_refresh_later _ _ _ now2 _ Hv) in H3.
  destruct (Z.ltb_spec now2 (rt_expiry v)).
  2: { destruct H3 as (reason & -> & _). eexists _, _. split; [done|lia]. }
  assert (Hadv2 : AdvanceTokenId (rt_family_id v) (token_id v) (family_store_ a1) =
    (false, <[rt_family_id v := mkFamily (family_id fam) (fam_user_id fam) (wrap 64 (token_id v + 1)) true]> (family_store_ a1))).
  { by apply (advance_stale _ _ _ (mkFamily (family_id fam) (fam_user_id fam) (wrap 64 (token_id v + 1)) false));
      [apply lookup_insert_eq|apply wrap_succ_neq]. }
  rewrite Hadv2 in H3. cbn [fst snd] in H3. destruct H3 as [-> Hreg3]. eexists _, _. split; [done|]. intros _. split.
  - eexists. split; [apply lookup_insert_eq|done].
  - exists (unauthenticated se2). split; [rewrite Hreg3; by apply deref_update|done].
Qed.
End Theorems.

(** Socket 100 sends a login packet. *)
Definition login_packet (p : Packet) : Packet := fill (frame (C := compute_soft) PKT_LOGIN (payload (C := compute_soft) (Login (str "ada") (str "pw")))) p.

Lemma login_authenticates_witness :
  exists p n ok a' n', HandleLoginPacket (C := compute_soft) (N := sample_sodium) 1000 p 0 sample_auth n = Ok (ok, a', n') /\
    ok = true.
Proof.
  destruct (ready_net one_connection login_packet) as (p & n & Hok & Hp & Hr & _ & _); [done|].
  destruct one_connection_session as [se Hse].
  destruct (login_authenticates (C := compute_soft) (N := sample_sodium) (LN := sample_laws) 1000 p 0
    (login_packet (set_pkt_id p new_packet)) se sample_auth n {[p]} {[p]} ∅ 2 Hok) as (_ & Hin).
  - by apply elem_of_singleton.
  - exact Hp.
  - rewrite Hr. by eapply deref_registered.
  - apply sample_ids.
  - lia.
  - destruct Hin as (ok & a' & n' & E & Hiff & _); [apply (bool_decide_unpack _); vm_compute; exact I|].
    exists p, n, ok, a', n'. split; [exact E|]. apply Hiff. vm_compute. eexists. reflexivity.
Defined.

(** The manager after the login of user 0 at time 1000, and the refresh token it granted. *)
Definition sample_logged : AuthManager := logged_in (zeros 16) sample_auth.
Definition sample_refresh : bstr :=
  match fst (@IssueTokenPair sample_sodium (zeros 32) (zeros 16) 1000 1) with
  | Some r => refresh_token r
  | None => []
  end.

Lemma refresh_token_single_use_witness :
  exists p n a1 n1, HandleRefreshPacket (C := compute_soft) (N := sample_sodium) 2000 2000 p 0 sample_logged n = Ok (true, a1, n1).
Proof.
  destruct (ready_net one_connection (carrying sample_refresh)) as (p & n & Hok & Hp & Hr & _ & _); [done|].
  destruct one_connection_session as [se Hse].
  destruct (refresh_token_single_use (C := compute_soft) (N := sample_sodium) (LN := sample_laws) 2000 2000 p 0
    (carrying sample_refresh (set_pkt_id p new_packet)) se sample_logged n {[p]} {[p]} ∅ 2
    (mkRefresh (zeros 16) 1 1 2593000 0) (mkFamily 1 (zeros 16) 1 false) Hok) as (a1 & n1 & se1 & E & _).
  - by apply elem_of_singleton.
  - exact Hp.
  - rewrite Hr. by eapply deref_registered.
  - lia.
  - rewrite raw_payload_carrying by (vm_compute; lia). vm_compute. reflexivity.
  - vm_compute. reflexivity.
  - reflexivity.
  - reflexivity.
  - exists p, n, a1, n1. exact E.
Defined.

(** ** The pair a rotation grants *)

(** Every stored family was numbered by the counter before. *)
Definition families_numbered (a : AuthManager) : Prop :=
  0 <= next_family_id_ a < 2 ^ 64 - 1 /\
  forall fid fam, family_store_ a !! fid = Some fam -> 0 <= fid < next_family_id_ a.

Section Rotation.
Context {C : Checksum} {L : ChecksumLaws C} {N : Sodium} {LN : SodiumLaws N}.

Lemma advance_dom fid tid fs i : (snd (AdvanceTokenId fid tid fs)) !! i = None <-> fs !! i = None.
Proof.
  unfold AdvanceTokenId. destruct (fs !! fid) as [fam|] eqn:Hf; [|done].
  destruct (revoked fam); [done|]. destruct (negb _); cbn [snd]; rewrite lookup_insert_None; naive_solver congruence.
Qed.

(** C38: the refresh token of a pair that a rotation grants is never accepted.
    [HandleRefreshPacket] issues the new pair under a new family that it does not
    store, so the next refresh, however soon, is refused, and ends the authentication
    of the session that presents it. *)
Theorem rotated_token_refused now now' p ptr pkt se a n B E D k v a1 n1 :
  net_ok n B E D (S k) -> p ∈ B -> pool (packets n) !! p = Some pkt ->
  deref (registry n) (Some ptr) = Ok se -> 0 <= now' < 2 ^ 63 -> families_numbered a ->
  ValidateRefreshToken (signing_key_ a) (raw_payload pkt) now = Some v ->
  HandleRefreshPacket now now' p ptr a n = Ok (true, a1, n1) ->
  exists r, fst (IssueTokenPair (signing_key_ a) (rt_user_id v) now' (next_family_id_ a)) = Some r /\
    replied (grant r) se true n n1 /\
    forall now2 now2' p2 ptr2 pkt2 se2 n2 B2 E2 D2 k2,
      net_ok n2 B2 E2 D2 (S k2) -> p2 ∈ B2 -> pool (packets n2) !! p2 = Some pkt2 ->
      deref (registry n2) (Some ptr2) = Ok se2 -> 0 <= now2' < 2 ^ 63 -> raw_payload pkt2 = refresh_token r ->
      now2 < now' + 2592000 ->
      exists a3 n3 se3, HandleRefreshPacket now2 now2' p2 ptr2 a1 n2 = Ok (false, a3, n3) /\
        deref (registry n3) (Some ptr2) = Ok se3 /\ forall t, ValidateSessionHotPath se3 t = false.
Proof.
  intros Hok Hin Hp Hse Hnow [Hnf Hnum] Hv Hrun.
  destruct (refresh_spec now now' p ptr pkt se a n B E D k Hok Hin Hp Hse Hnow) as (n1' & B1 & E1 & D1 & _ & H).
  rewrite Hv in H. destruct (fst (AdvanceTokenId _ _ _)) eqn:Ea.
  2: { destruct H as [E2 _]. congruence. }
  destruct H as (r & Hiss & Hrun' & _ & Hrep). assert (E0 : n1' = n1) by congruence. subst n1'.
  set (a1' := next_family _) in Hrun'. assert (E0 : a1 = a1') by congruence. subst a1. clear Hrun.
  pose proof (validate_refresh_id _ _ _ _ Hv) as Hid.
  exists r. rewrite Hiss. split_and!; [done|done|].
  intros now2 now2' p2 ptr2 pkt2 se2 n2 B2 E2 D2 k2 Hok2 Hin2 Hp2 Hse2 Hnow2 Hraw Ht.
  destruct (issue_eq (signing_key_ a) (rt_user_id v) now' (next_family_id_ a) Hid) as (sig & sig' & _ & Er & Hiss');
    [lia|unfold REFRESH_TOKEN_LIFETIME; lia|].
  rewrite Hiss in Hiss'. injection Hiss' as ->. cbn [refresh_token] in Hraw. unfold REFRESH_TOKEN_LIFETIME in *.
  destruct (refresh_spec now2 now2' p2 ptr2 pkt2 se2 a1' n2 B2 E2 D2 k2 Hok2 Hin2 Hp2 Hse2 Hnow2)
    as (n3 & B3 & E3 & D3 & _ & H3).
  change (signing_key_ a1') with (signing_key_ a) in H3. rewrite Hraw in H3.
  rewrite validate_refresh_eq in H3 by (done || unfold refresh_ok; cbn; split_and!; (done || lia)).
  cbn [rt_expiry rt_key_id] in H3. rewrite (proj2 (Z.ltb_lt _ _)) in H3 by done. cbn [andb Z.eqb rt_family_id token_id] in H3.
  assert (Hnone : family_store_ a1' !! next_family_id_ a = None).
  { apply advance_dom. apply eq_None_not_Some. intros [fam Hf]. apply Hnum in Hf. lia. }
  unfold AdvanceTokenId in H3. rewrite Hnone in H3. cbn [fst snd] in H3. destruct H3 as [-> Hreg].
  eexists _, _, (unauthenticated se2). split_and!; [done|rewrite Hreg; by apply deref_update|done].
Qed.
End Rotation.

Lemma rotated_token_refused_witness :
  exists r p n a1 n1, HandleRefreshPacket (C := compute_soft) (N := sample_sodium) 2000 2000 p 0 sample_logged n = Ok (true, a1, n1) /\
    fst (@IssueTokenPair sample_sodium (zeros 32) (zeros 16) 2000 2) = Some r.
Proof.
  destruct (ready_net one_connection (carrying sample_refresh)) as (p & n & Hok & Hp & Hr & _ & _); [done|].
  destruct one_connection_session as [se Hse].
  assert (Hin : p ∈ ({[p]} : gset nat)) by (by apply elem_of_singleton).
  assert (Hd : deref (registry n) (Some 0%nat) = Ok se) by (rewrite Hr; by eapply deref_registered).
  assert (Hv : @ValidateRefreshToken sample_sodium (signing_key_ sample_logged)
    (raw_payload (carrying sample_refresh (set_pkt_id p new_packet))) 2000 = Some (mkRefresh (zeros 16) 1 1 2593000 0)).
  { rewrite raw_payload_carrying by (vm_compute; lia). vm_compute. reflexivity. }
  assert (Hnow : 0 <= 2000 < 2 ^ 63) by lia.
  destruct (refresh_spec (C := compute_soft) (N := sample_sodium) (LN := sample_laws) 2000 2000 p 0 _ se sample_logged n
    {[p]} {[p]} ∅ 2 Hok Hin Hp Hd Hnow) as (n1 & B1 & E1 & D1 & _ & H).
  rewrite Hv in H.
  assert (Ha : fst (AdvanceTokenId 1 1 (family_store_ sample_logged)) = true) by (vm_compute; reflexivity).
  cbn [rt_family_id token_id] in H. rewrite Ha in H. destruct H as (r0 & _ & Hrun & _).
  assert (Hnum : families_numbered sample_logged).
  { split; [vm_compute; split; congruence|]. intros fid fam Hl.
    cbn [sample_logged logged_in family_store_] in Hl. unfold InsertFamily in Hl. apply lookup_insert_Some in Hl as [[<- _]|[_ Hl]]; [vm_compute; split; congruence|cbn [sample_auth family_store_] in Hl; by rewrite lookup_empty in Hl]. }
  destruct (rotated_token_refused (C := compute_soft) (N := sample_sodium) (LN := sample_laws) 2000 2000 p 0 _ se sample_logged n
    {[p]} {[p]} ∅ 2 _ _ _ Hok Hin Hp Hd Hnow Hnum Hv Hrun) as (r & Hiss & _).
  exists r, p, n. eexists _, n1. split; [exact Hrun|exact Hiss].
Defined.

(** ** Registration *)

Lemma cstr_char_field w s :
  (length s < w)%nat -> Byte.x00 ∉ s -> cstr (char_field w s) = s.
Proof.
  intros Hl Hz. unfold char_field. rewrite take_ge by lia.
  assert (Hn : (0 < w - length s)%nat) by lia. revert Hn. generalize (w - length s)%nat. clear Hl. intros m Hm.
  induction s as [|c s IH].
  - destruct m; [lia|done].
  - apply not_elem_of_cons in Hz as [Hc Hz]. cbn [app cstr]. rewrite decide_False by done. f_equal. by apply IH.
Qed.

Section Registration.
Context {N : Sodium} {LN : SodiumLaws N}.

(** A record that is found by its e-mail, and carries the hash of [pw]. *)
Lemma credentials_found a e pw r :
  e <> [] -> pw <> [] -> FindByEmail e (user_store_ a) = Some r -> crypto_pwhash_str_verify (password_hash r) pw = true ->
  credentials a e pw = if email_verified r then Some r else None.
Proof.
  intros He Hpw Hf Hv. unfold credentials. rewrite !bool_decide_eq_false_2 by done. cbn [orb]. rewrite Hf.
  cbn [mbind option_bind]. rewrite Hv. by destruct (email_verified r).
Qed.

(** A user who registers can log in as soon as the e-mail is verified, and not
    before.  In any reachable store, registering a new e-mail (at most 63 characters)
    and user name under a new random id succeeds; the credentials are not accepted until
    [VerifyUserEmail], which succeeds, and then they are, for that user id; and
    registering the same e-mail once more is refused. *)
Theorem register_verify_login a uid salt username password email h :
  users_reach (user_store_ a) -> length uid = 16%nat -> records_ (user_store_ a) !! ToHex uid = None ->
  crypto_pwhash_str password salt = Some h -> password <> [] -> email <> [] -> Byte.x00 ∉ email ->
  (length email < 64)%nat -> FindByEmail email (user_store_ a) = None ->
  (forall n, username_to_uid_ (user_store_ a) !! n <> None -> n <> cstr (char_field 32 username)) ->
  exists a1 a2 u, RegisterUser uid salt username password email a = (SUCCESS, a1) /\
    credentials a1 email password = None /\ VerifyUserEmail uid a1 = (true, a2) /\
    credentials a2 email password = Some u /\ user_id u = uid /\
    forall uid' salt' username' password', crypto_pwhash_str password' salt' <> None ->
      RegisterUser uid' salt' username' password' email a2 = (INVALID_CREDENTIALS, a2).
Proof.
  intros Hr Hu Hfresh Hh Hpw He Hz Hl Hnew Hname. pose proof (users_reach_inv _ Hr) as [Hi Hem Hun].
  set (r := mkUser uid (char_field 32 username) h (char_field 64 email) false (zeros 32) false).
  assert (Ecs : cstr (AuthStore.email r) = email) by (by apply cstr_char_field).
  assert (Hem0 : email_to_uid_ (user_store_ a) !! email = None).
  { apply eq_None_not_Some. intros [u Hu']. pose proof Hu' as (r' & Hl' & _)%Hem. unfold FindByEmail in Hnew.
    rewrite Hu' in Hnew. cbn in Hnew. congruence. }
  destruct (insert_cases r (user_store_ a)) as [[_ Hbad]|(_ & _ & Hins)].
  { exfalso. rewrite Ecs, Hem0 in Hbad. destruct Hbad as [[? ?]|[_ [u Hu']]]; [done|].
    apply (Hname (cstr (char_field 32 username))); [|done]. change (AuthStore.username r) with (char_field 32 username) in Hu'.
    by rewrite Hu'. }
  rewrite Ecs in Hins. cbn [user_id r] in Hins. set (us1 := mkUsers _ _ _) in Hins.
  assert (Hrec1 : records_ us1 !! ToHex uid = Some r) by apply lookup_insert_eq.
  assert (Hem1 : email_to_uid_ us1 !! email = Some (ToHex uid)) by apply lookup_insert_eq.
  assert (Hver : crypto_pwhash_str_verify (password_hash r) password = true) by (by eapply pwhash_verify).
  eexists _, _, _. split; [unfold RegisterUser; rewrite Hh, take_ge by lia; fold r; rewrite Hins; reflexivity|].
  split; [rewrite (credentials_found _ _ _ r); [done|done|done| |done]; unfold FindByEmail;
          cbn [set_user_store user_store_]; by rewrite Hem1|].
  split; [unfold VerifyUserEmail, SetEmailVerified; cbn [set_user_store user_store_]; rewrite Hrec1; reflexivity|].
  split.
  - rewrite (credentials_found _ _ _ (mkUser uid (char_field 32 username) h (char_field 64 email) true (zeros 32) false));
      [reflexivity|done|done| |done].
    unfold FindByEmail. cbn [set_user_store user_store_ email_to_uid_ records_]. rewrite Hem1. cbn. apply lookup_insert_eq.
  - split; [done|]. intros uid' salt' username' password' Hh'. unfold RegisterUser.
    destruct (crypto_pwhash_str password' salt'); [|done]. unfold Insert.
    cbn [set_user_store user_store_ email_to_uid_ AuthStore.email AuthStore.username]. rewrite cstr_char_field by done.
    rewrite bool_decide_eq_true_2 by (by rewrite Hem1). done.
Qed.
End Registration.

Lemma register_verify_login_witness :
  exists a1 a2 u, @RegisterUser sample_sodium (zeros 16) [] (str "ada") (str "pw") (str "a@b") (mkAuth new_users ∅ [] [] 1) = (SUCCESS, a1) /\
    @VerifyUserEmail sample_sodium (zeros 16) a1 = (true, a2) /\ @credentials sample_sodium a2 (str "a@b") (str "pw") = Some u.
Proof.
  destruct (@register_verify_login sample_sodium sample_laws (mkAuth new_users ∅ [] [] 1) (zeros 16) [] (str "ada") (str "pw") (str "a@b") (str "pw"))
    as (a1 & a2 & u & H1 & _ & H2 & H3 & _).
  - constructor.
  - reflexivity.
  - reflexivity.
  - reflexivity.
  - done.
  - done.
  - apply (bool_decide_unpack _). vm_compute. exact I.
  - vm_compute. lia.
  - reflexivity.
  - intros n Hn. cbn in Hn. by rewrite lookup_empty in Hn.
  - exists a1, a2, u. split; [exact H1|]. split; [exact H2|exact H3].
Defined.
