(* ===== verification/Delivery.v ===== *)
(** Queues over the network: the invariant that the packet pool, the I/O contexts, the
    session registry and the send queues keep together, and what the operations that all
    handlers share do under it: taking a received packet, and delivering a message to a
    receiver's queue. *)

From S2P Require Import Prelude Crc32c Packet Serialize CircularBuffer Fqueue PacketPool Framing Session Offline Network AuthStore Auth.

(** ** Definitions *)

(** Read a received packet and return it to the pool. *)
Definition take_packet {A} (read : Packet -> outcome A) (p : nat) (st : @State Net) : outcome (A * @State Net) :=
  match pool (packets st.2) !! p with
  | None => UB
  | Some pkt =>
      let! a := read pkt in
      let! n := give_back p st.2 in
      Ok (a, (st.1, n))
  end.

(** What the handlers' responses do: borrow a packet (its pointer is not tested),
    serialize, and hand it to the receiver's queue. *)
Definition deliver {C : Checksum} (m : message) (id : bstr) (st : @State Net) : outcome (@State Net) :=
  let! (p, pp) := borrowPacket (packets st.2) in
  match p with
  | None => UB
  | Some p =>
      ManageCompletePacket p id (st.1, set_packets (write_packet p (fun pkt => (send m pkt).2) pp) st.2)
  end.

Definition with_registry (g : Registry -> outcome Registry) (st : @State Net) : outcome (@State Net) :=
  let! r := g (registry st.2) in Ok (st.1, set_registry r st.2).

(** A message arrives: a packet is borrowed, holds the bytes its serializer produced and
    has been parsed, as the receive path does it. *)
Definition arrived {C : Checksum} (m : message) (pkt : Packet) : Packet :=
  let sent := (send m pkt).2 in
  match parseData (parseHeader sent).2 with
  | Ok (_, r) => r
  | _ => sent
  end.

Definition arrive {C : Checksum} (m : message) (st : @State Net) : outcome (nat * @State Net) :=
  let! (p, pp) := borrowPacket (packets st.2) in
  match p with
  | None => UB
  | Some p => Ok (p, (st.1, set_packets (write_packet p (arrived m) pp) st.2))
  end.

(** ** The invariant *)

(** Packet [p] is out, and its length field is in range. *)
Definition sendable_at (B : gset nat) (n : Net) (p : nat) : Prop :=
  p ∈ B /\ exists pkt, pool (packets n) !! p = Some pkt /\ ntohl (load 4 4 (data pkt)) <= 4096.

Record chat_ok (st : @State Net) (B E D : gset nat) (k : nat) : Prop := mkChatOk {
  chat_net : net_ok st.2 B E D k;
  chat_reg : registry_inv (registry st.2);
  chat_queues : forall id cq it, st.1 !! id = Some cq -> it ∈ cqueue cq -> sendable_at B st.2 (packet it)
}.

(** The packets queued for a receiver. *)
Definition queued (id : bstr) (st : @State Net) : list nat :=
  packet <$> default [] (cqueue <$> st.1 !! id).

(** The headers and bytes of all packets stay as they are. *)
Definition same_data (n n' : Net) : Prop :=
  forall i, content <$> pool (packets n') !! i = content <$> pool (packets n) !! i.

(** ** Lemmas *)

Lemma same_data_bytes n n' i : same_data n n' -> data <$> pool (packets n') !! i = data <$> pool (packets n) !! i.
Proof.
  intros Hs. specialize (Hs i). destruct (pool (packets n') !! i), (pool (packets n) !! i); try done.
  cbn in *. by injection Hs as _ ->.
Qed.

Lemma sendable_same_data B n n' p : same_data n n' -> sendable_at B n p -> sendable_at B n' p.
Proof.
  intros Hs%(same_data_bytes _ _ p) (Hin & pkt & Hp & Hl). split; [done|]. rewrite Hp in Hs. cbn in Hs.
  destruct (pool (packets n') !! p) as [pkt'|]; [|done]. exists pkt'. injection Hs as Hs. by rewrite Hs.
Qed.

Lemma sendable_mono B B' n p : B ⊆ B' -> sendable_at B n p -> sendable_at B' n p.
Proof. intros HB [Hin H]. split; [set_solver|done]. Qed.

Lemma chat_ok_weaken st B E D k k' : (k' <= k)%nat -> chat_ok st B E D k -> chat_ok st B E D k'.
Proof. intros Hk []. constructor; [by eapply net_ok_weaken|done|done]. Qed.

(** The router under the invariant. *)
Lemma route_ready p id n B E D k :
  net_ok n B E D (S k) -> registry_inv (registry n) -> sendable_at B n p ->
  exists b n' D', route_packet p id n = Ok (b, n') /\ net_ok n' B E D' k /\ registry n' = registry n /\ same_data n n' /\
    (exists l, posted n' = posted n ++ l) /\
    forall q se, id <> [] -> registered (registry n) id q se ->
      b = answer n /\ exists bytes, posted n' = posted n ++ (if answer n then [(socket se, p, bytes)] else []).
Proof.
  intros Hok Hr (Hin & pkt & Hp & Hl). unfold route_packet.
  assert (Hskip : exists b n' D', Ok (false, n) = Ok (b, n') /\ net_ok n' B E D' k /\ registry n' = registry n /\ same_data n n' /\
    b = false /\ n' = n).
  { exists false, n, D. split_and!; try done. by eapply net_ok_weaken, Hok; lia. }
  destruct (decide (id = [])) as [Hid|Hid].
  { destruct Hskip as (b & n' & D' & E1 & H1 & H2 & H3 & -> & ->). exists false, n, D'.
    split_and!; try done. exists []. by rewrite app_nil_r. }
  destruct (findSession id (registry n)) as [q|] eqn:Ef.
  - destruct (findSession_registered _ _ _ Hr Ef) as [se Hse]. rewrite (deref_registered _ _ _ _ Hse). cbn [obind].
    unfold sendPacket. rewrite (reg_iocp _ _ _ _ Hse).
    destruct (initiate_send_ready (socket se) p pkt n B E D k Hok Hin Hp Hl) as (n' & D' & Es & Hok' & Hreg & _ & _ & Hpost & Hd).
    exists (answer n), n', D'. split_and!; try done; [by eexists|].
    intros q' se' _ Hse'. destruct (registered_fun _ _ _ _ _ _ Hse Hse') as [_ <-]. split; [done|by eexists].
  - destruct Hskip as (b & n' & D' & E1 & H1 & H2 & H3 & -> & ->). exists false, n, D'.
    split_and!; try done; [exists []; by rewrite app_nil_r|].
    intros q' se' _ Hse'. unfold findSession in Ef. by rewrite (reg_found _ _ _ _ Hse') in Ef.
Qed.

Lemma manage_ok p id st B E D k :
  chat_ok st B E D (S k) -> sendable_at B st.2 p ->
  exists st' D', ManageCompletePacket p id st = Ok st' /\ chat_ok st' B E D' k /\ registry st'.2 = registry st.2 /\
    same_data st.2 st'.2 /\ queued id st' = queued id st ++ [p] /\ (forall id', id' <> id -> st'.1 !! id' = st.1 !! id').
Proof.
  intros [Hnet Hr Hq] Hs. unfold ManageCompletePacket, queued.
  set (cq := cq_push _ _). set (old := default (mkCq [] false) (st.1 !! id)).
  assert (Hcq : cqueue cq = cqueue old ++ [mkItem id p]) by done.
  assert (Hold : default [] (cqueue <$> st.1 !! id) = cqueue old) by (unfold old; by destruct (st.1 !! id)).
  assert (Hitems : forall it, it ∈ cqueue cq -> sendable_at B st.2 (packet it)).
  { intros it. rewrite Hcq. intros [Hit| ->%list_elem_of_singleton]%elem_of_app; [|done].
    unfold old in Hit. destruct (st.1 !! id) as [c|] eqn:Ec; [by eapply Hq|by apply elem_of_nil in Hit]. }
  assert (Hfin : forall n' D' (cq' : clientQueue), net_ok n' B E D' k -> registry n' = registry st.2 -> same_data st.2 n' ->
    cqueue cq' = cqueue cq ->
    chat_ok (<[id := cq']> st.1, n') B E D' k /\
    packet <$> default [] (cqueue <$> <[id := cq']> st.1 !! id) = (packet <$> default [] (cqueue <$> st.1 !! id)) ++ [p]).
  { intros n' D' cq' Hok' Hreg Hd Hcq'. split.
    - constructor; cbn [fst snd]; [done|by rewrite Hreg|]. intros id' c it [[<- <-]|[_ Hl]]%lookup_insert_Some Hit.
      + rewrite Hcq' in Hit. by apply (sendable_same_data _ st.2), Hitems.
      + by apply (sendable_same_data _ st.2), (Hq id' c).
    - rewrite lookup_insert_eq, Hold. cbn. by rewrite Hcq', Hcq, fmap_app. }
  unfold cq_claim. destruct (flag cq).
  - destruct (Hfin st.2 D cq) as [H1 H2]; [by eapply net_ok_weaken, Hnet; lia|done|done|done|].
    exists (<[id := cq]> st.1, st.2), D. split_and!; try done. intros id' Hne. cbn. by rewrite lookup_insert_ne.
  - unfold send_front. cbn [cqueue]. destruct (cqueue cq) as [|front rest] eqn:Ef.
    { by destruct (cqueue old). }
    destruct (route_ready (packet front) id st.2 B E D k Hnet Hr) as (b & n' & D' & Hro & Hok' & Hreg & Hd & _).
    { apply Hitems. by left. }
    change (routePacket (packet front) id st.2) with (route_packet (packet front) id st.2). rewrite Hro. cbn [obind].
    destruct (Hfin n' D' (if negb b then cq_clear (mkCq (front :: rest) true) else mkCq (front :: rest) true)) as [H1 H2];
      [done|done|done|by destruct b|].
    eexists _, D'. split; [done|]. split_and!; try done. intros id' Hne. cbn. by rewrite lookup_insert_ne.
Qed.

(** A received packet that no queue holds. *)
Definition received_packet (p : nat) (pkt : Packet) (B : gset nat) (st : @State Net) : Prop :=
  p ∈ B /\ pool (packets st.2) !! p = Some pkt /\
  forall id cq it, st.1 !! id = Some cq -> it ∈ cqueue cq -> packet it <> p.

Lemma return_other p q pp pp' : returnPacket (Some p) pp = Ok pp' -> q <> p -> pool pp' !! q = pool pp !! q.
Proof.
  cbn [returnPacket]. destruct (pool pp !! p) as [pkt|]; [|done]. destruct (_ <=? _)%nat; [by intros [= <-]|].
  destruct (inUse pp !! pkt_id pkt) as [[]|]; intros [= <-] Hne; cbn [pool]; by rewrite list_lookup_insert_ne.
Qed.

Lemma borrow_other pp pp' p q : borrowPacket pp = Ok (Some p, pp') -> q <> p -> pool pp' !! q = pool pp !! q.
Proof.
  unfold borrowPacket. destruct (availableIdx pp) as [|i rest]; [done|].
  destruct (borrow_loop _ _) as [[j r]| |]; cbn [obind]; [|done|done]. destruct (_ <=? _)%nat; [done|].
  intros [Hp <-]%Ok_pair_inj. injection Hp as <-. intros Hne. cbn [pool]. by apply list_lookup_alter_ne.
Qed.

Lemma take_ok {A} (read : Packet -> outcome A) (a : A) p pkt st B E D k :
  chat_ok st B E D k -> received_packet p pkt B st -> read pkt = Ok a ->
  exists st', take_packet read p st = Ok (a, st') /\ chat_ok st' (B ∖ {[p]}) E D k /\ st'.1 = st.1 /\
    registry st'.2 = registry st.2 /\ posted st'.2 = posted st.2 /\ answers st'.2 = answers st.2 /\
    (forall q, q <> p -> pool (packets st'.2) !! q = pool (packets st.2) !! q) /\
    (base.size (B ∖ {[p]}) < currentSize)%nat.
Proof.
  intros [Hnet Hr Hq] (Hin & Hp & Hun) Hread.
  pose proof (proj1 (pool_sub _ _ _ (net_pool _ _ _ _ _ Hnet)) p Hin) as HinE.
  destruct (give_back_ok p st.2 B E D k Hnet HinE) as (n' & Hg & Hok' & Hreg & Hpost & Hans).
  assert (Hother : forall q, q <> p -> pool (packets n') !! q = pool (packets st.2) !! q).
  { intros q Hne. unfold give_back in Hg. destruct (returnPacket (Some p) (packets st.2)) as [pp| |] eqn:Er; cbn in Hg; try done.
    injection Hg as <-. by apply (return_other p). }
  unfold take_packet. rewrite Hp, Hread. cbn [obind]. rewrite Hg. cbn [obind]. eexists. split; [done|]. cbn [fst snd].
  split_and!; try done.
  - constructor; cbn [fst snd]; [done|by rewrite Hreg|]. intros id cq it Hl Hit.
    destruct (Hq id cq it Hl Hit) as (HB & pk & Hpk & Hlen). specialize (Hun id cq it Hl Hit).
    split; [set_solver|]. exists pk. by rewrite Hother.
  - pose proof (taken_room st.2 B E D k p Hnet Hin) as Hroom. by apply bool_decide_eq_true in Hroom.
Qed.

Section Deliver.
Context {C : Checksum} {L : ChecksumLaws C}.

(** The packet a message was serialized into: the frame in front, if it fits. *)
Definition carries (m : message) (d : bstr) : Prop :=
  fits m -> take (HEADER_SIZE + length (payload m)) d = frame (message_type m) (payload m).

#[export] Instance fits_dec m : Decision (fits m).
Proof. unfold fits. apply _. Defined.

Lemma send_sendable m i :
  uuids_ok m ->
  let pkt := (send m (set_pkt_id i new_packet)).2 in
  pkt_id pkt = i /\ ntohl (load 4 4 (data pkt)) <= 4096 /\ carries m (data pkt).
Proof.
  intros Hu pkt. destruct (fits_dec m) as [Hf|Hf].
  - destruct (send_holds_frame m (set_pkt_id i new_packet) (length_zeros _) Hu Hf) as [Hh Hid]. fold pkt in Hh, Hid.
    split_and!; [done| |].
    + rewrite (length_field_frame _ _ _ Hh). unfold fits in Hf. pose proof sizeof_data_Z. unfold len. lia.
    + intros _. destruct Hh as (_ & _ & Hi & Hw). unfold wire in Hw. by rewrite Hi in Hw.
  - assert (Ep : pkt = resetWritePos (set_pkt_id i new_packet)).
    { unfold pkt. rewrite send_built by (done || apply length_zeros). unfold built. unfold fits in Hf.
      rewrite (proj2 (Nat.leb_gt _ _)) by lia. done. }
    rewrite Ep. split_and!; [done| |by intros ?].
    change (data (resetWritePos (set_pkt_id i new_packet))) with (zeros sizeof_data).
    assert (Ez : load 4 4 (zeros sizeof_data) = 0).
    { unfold load, slice, zeros. rewrite drop_replicate, take_replicate.
      pose proof sizeof_data_Z. rewrite Nat.min_l by lia. reflexivity. }
    rewrite Ez. vm_compute. congruence.
Qed.

(** Packet [q] of the network carries message [m]. *)
Definition packet_carries (n : Net) (q : nat) (m : message) : Prop :=
  exists d, data <$> pool (packets n) !! q = Some d /\ carries m d.

Lemma deliver_ok m id st B E D k :
  chat_ok st B E D (S k) -> (base.size B < currentSize)%nat -> uuids_ok m ->
  exists p st' D', deliver m id st = Ok st' /\ p ∉ B /\ chat_ok st' ({[p]} ∪ B) ({[p]} ∪ E) D' k /\
    registry st'.2 = registry st.2 /\ queued id st' = queued id st ++ [p] /\
    (forall id', id' <> id -> st'.1 !! id' = st.1 !! id') /\
    (exists d, data <$> pool (packets st'.2) !! p = Some d /\ carries m d) /\
    (forall i, i ∈ B -> data <$> pool (packets st'.2) !! i = data <$> pool (packets st.2) !! i).
Proof.
  intros [Hnet Hr Hq] Hroom Hu. pose proof (net_pool _ _ _ _ _ Hnet) as Hpool. unfold deliver.
  destruct (borrow_inv _ _ _ Hpool) as [[Hfull _]|(p & pp & pkt & Hb & HpB & Hlt & Hp & -> & Hpool')]; [lia|].
  rewrite Hb. cbn [obind]. destruct (send_sendable m p Hu) as (Hid & Hlen & Hc).
  set (w := write_packet p _ pp). set (st1 := (st.1, set_packets w st.2)).
  assert (Hw : pool w !! p = Some (send m (set_pkt_id p new_packet)).2).
  { unfold w. cbn [write_packet pool]. by rewrite list_lookup_alter_eq, Hp. }
  assert (Hold : forall i, i ∈ B -> pool w !! i = pool (packets st.2) !! i).
  { intros i Hi. unfold w. cbn [write_packet pool]. rewrite list_lookup_alter_ne by set_solver.
    apply (borrow_other _ _ _ _ Hb). set_solver. }
  assert (Hok1 : chat_ok st1 ({[p]} ∪ B) ({[p]} ∪ E) D (S k)).
  { constructor; cbn [st1 fst snd set_packets registry]; [|done|].
    - destruct Hnet. constructor; cbn [set_packets packets io]; [|done..].
      apply write_inv_at; [done|set_solver|]. intros p0. rewrite Hp. by intros [= <-].
    - intros id' cq it Hl Hit. destruct (Hq id' cq it Hl Hit) as (HB & pk & Hpk & Hle).
      split; [set_solver|]. exists pk. cbn [set_packets packets]. by rewrite Hold. }
  destruct (manage_ok p id st1 _ _ _ k Hok1) as (st' & D' & Hm & Hok' & Hreg & Hd & Hqu & Hoth).
  { split; [set_solver|]. eexists. split; [exact Hw|done]. }
  exists p, st', D'. split_and!; try done.
  - rewrite (same_data_bytes _ _ p Hd). cbn [st1 snd set_packets packets]. rewrite Hw. eexists. split; [done|done].
  - intros i Hi. rewrite (same_data_bytes _ _ i Hd). cbn [st1 snd set_packets packets]. by rewrite Hold.
Qed.

(** A message that can be sent at all. *)
Definition sound (m : message) : Prop := uuids_ok m /\ ints_ok m /\ fits m.

Lemma arrived_received m i :
  sound m ->
  let pkt := arrived m (set_pkt_id i new_packet) in
  pkt_id pkt = i /\ received m pkt /\ header pkt = frame_header (message_type m) (payload m) /\
  holds_frame pkt (message_type m) (payload m) /\ parsedData pkt = true.
Proof.
  intros (Hu & Hi & Hf) pkt.
  destruct (send_holds_frame m (set_pkt_id i new_packet) (length_zeros _) Hu Hf) as [Hh Hid].
  unfold pkt, arrived. rewrite (parseHeader_frame _ _ _ Hh). cbn [snd].
  rewrite (parseData_frame _ (message_type m) (payload m)) by done. split_and!; try done.
  by apply received_frame.
Qed.

Lemma arrive_ok m st B E D k :
  chat_ok st B E D k -> (base.size B < currentSize)%nat -> sound m ->
  exists p pkt st', arrive m st = Ok (p, st') /\ p ∉ B /\ chat_ok st' ({[p]} ∪ B) ({[p]} ∪ E) D k /\
    received_packet p pkt ({[p]} ∪ B) st' /\ received m pkt /\ header pkt = frame_header (message_type m) (payload m) /\
    holds_frame pkt (message_type m) (payload m) /\
    st'.1 = st.1 /\ registry st'.2 = registry st.2 /\ posted st'.2 = posted st.2 /\ answers st'.2 = answers st.2 /\
    (forall i, i ∈ B -> pool (packets st'.2) !! i = pool (packets st.2) !! i).
Proof.
  intros [Hnet Hr Hq] Hroom Hs. pose proof (net_pool _ _ _ _ _ Hnet) as Hpool. unfold arrive.
  destruct (borrow_inv _ _ _ Hpool) as [[Hfull _]|(p & pp & pkt & Hb & HpB & Hlt & Hp & -> & Hpool')]; [lia|].
  rewrite Hb. cbn [obind]. destruct (arrived_received m p Hs) as (Hid & Hrec & Hhd & Hfr & _).
  set (w := write_packet p _ pp).
  assert (Hw : pool w !! p = Some (arrived m (set_pkt_id p new_packet))).
  { unfold w. cbn [write_packet pool]. by rewrite list_lookup_alter_eq, Hp. }
  assert (Hold : forall i, i ∈ B -> pool w !! i = pool (packets st.2) !! i).
  { intros i Hi. unfold w. cbn [write_packet pool]. rewrite list_lookup_alter_ne by set_solver.
    apply (borrow_other _ _ _ _ Hb). set_solver. }
  exists p, (arrived m (set_pkt_id p new_packet)), (st.1, set_packets w st.2). split_and!; try done.
  - constructor; cbn [fst snd set_packets registry]; [|done|].
    + destruct Hnet. constructor; cbn [set_packets packets io]; [|done..].
      apply write_inv_at; [done|set_solver|]. intros p0. rewrite Hp. by intros [= <-].
    + intros id' cq it Hl Hit. destruct (Hq id' cq it Hl Hit) as (HB & pk & Hpk & Hle).
      split; [set_solver|]. exists pk. cbn [set_packets packets]. by rewrite Hold.
  - split_and!; [set_solver|done|]. cbn [fst]. intros id cq it Hl Hit.
    destruct (Hq id cq it Hl Hit) as (HB & _). intros Heq. by rewrite Heq in HB.
Qed.

(** A message arrives, is read and its packet returned. *)
Lemma arrive_take {A} (read : Packet -> outcome A) (a : A) m st B E D k :
  chat_ok st B E D k -> (base.size B < currentSize)%nat -> sound m -> (forall pkt, received m pkt -> read pkt = Ok a) ->
  exists p st1 st2 E', arrive m st = Ok (p, st1) /\ take_packet read p st1 = Ok (a, st2) /\
    chat_ok st2 B E' D k /\ st2.1 = st.1 /\ registry st2.2 = registry st.2 /\ posted st2.2 = posted st.2 /\
    (forall i, i ∈ B -> pool (packets st2.2) !! i = pool (packets st.2) !! i).
Proof.
  intros Hok Hroom Hs Hread.
  destruct (arrive_ok m st B E D k Hok Hroom Hs) as (p & pkt & st1 & Ha & HpB & Hok1 & Hrp & Hrec & _ & _ & Hq & Hr & Hpo & _ & Hold).
  destruct (take_ok read a p pkt st1 _ _ _ _ Hok1 Hrp (Hread pkt Hrec)) as (st2 & Ht & Hok2 & Hq2 & Hr2 & Hpo2 & _ & Hold2 & _).
  exists p, st1, st2, ({[p]} ∪ E). split_and!; try done; try congruence.
  - by replace (({[p]} ∪ B) ∖ {[p]}) with B in Hok2 by set_solver.
  - intros i Hi. rewrite Hold2 by set_solver. by apply Hold.
Qed.
End Deliver.

(** ** Evaluation: the state at start-up *)

Lemma initial_chat_ok (r : Registry) (k : nat) :
  registry_inv r -> (k <= 1000)%nat -> chat_ok (∅, mkNet new_io_pool new_pool r [] [] []) ∅ ∅ ∅ k.
Proof.
  intros Hr Hk. pose proof new_pool_inv as Hi. generalize dependent new_pool. intros pp Hi.
  destruct new_io_pool_inv as [Hio Hq]. pose proof io_maxSize_le as HZ. generalize dependent new_io_pool. intros ip Hio Hq.
  constructor; cbn [fst snd registry]; [|done|].
  - constructor; cbn [packets io]; [exact Hi|exact Hio|rewrite size_empty; lia|lia].
  - intros id cq it Hl. by rewrite lookup_empty in Hl.
Qed.

Lemma fresh_chat (r : Registry) (k : nat) :
  registry_inv r -> (k <= 1000)%nat ->
  exists st, chat_ok st ∅ ∅ ∅ k /\ st.1 = ∅ /\ registry st.2 = r /\ answers st.2 = [] /\ posted st.2 = [].
Proof.
  intros Hr Hk. exists (∅, mkNet new_io_pool new_pool r [] [] []). split; [by apply initial_chat_ok|].
  generalize new_io_pool new_pool. by intros ip pp.
Qed.
