(* ===== verification/GroupChat.v ===== *)
(** Group messages: MessageRouter::routeGroupMessage of chat/MessageRouter.cpp, over the
    groups, the send queues and the packet pool. *)

From S2P Require Import Prelude Crc32c Packet Serialize CircularBuffer Fqueue PacketPool Framing Session Groups Offline Network AuthStore Auth Delivery.

(** ** Definitions *)

(** The copy of a packet for one member: header, bytes and [in], nothing else. *)
Definition copy_packet (src p : Packet) : Packet :=
  let n := (Z.to_nat (payload_length (header src)) + HEADER_SIZE)%nat in
  set_in n (set_header (header src) (set_data (blit 0 (take n (data src)) (data p)) p)).

Section GroupChat.
Context {N : Sodium}.

(** The loop over the members, from [ms] on; the second component says that the pool ran
    out, which ends the function. *)
Fixpoint send_members (ms : list bstr) (sendId : bstr) (packet : nat) (st : @State Net) : outcome (bool * @State Net) :=
  match ms with
  | [] => Ok (true, st)
  | memberId :: ms =>
      if decide (memberId = sendId) then send_members ms sendId packet st else
      let! (outgoing, pp) := borrowPacket (packets st.2) in
      match outgoing, pool pp !! packet with
      | None, _ => Ok (false, (st.1, set_packets pp st.2))
      | Some outgoing, Some src =>
          if Z.of_nat sizeof_data <? payload_length (header src) + Z.of_nat HEADER_SIZE then UB else
          let! st := ManageCompletePacket outgoing memberId
                       (st.1, set_packets (write_packet outgoing (copy_packet src) pp) st.2) in
          send_members ms sendId packet st
      | Some _, None => UB
      end
  end.

Definition routeGroupMessage (packet : nat) (gs : GroupManager) (st : @State Net) : outcome (@State Net) :=
  match pool (packets st.2) !! packet with
  | None => UB
  | Some src =>
      let recvId := UserIdToHexString (payload_uuid 16 src) in
      let sendId := UserIdToHexString (payload_uuid 0 src) in
      match getGroup recvId gs with
      | None => Ok st
      | Some group =>
          let! (finished, st) := send_members (members group) sendId packet st in
          if finished : bool then let! n := give_back packet st.2 in Ok (st.1, n) else Ok st
      end
  end.

(** ** Lemmas *)

Context {C : Checksum} {L : ChecksumLaws C}.

(** Packet [p] holds the frame of a message, and is no queue's. *)
Record source (t : PacketType) (pl : bstr) (p : nat) (B : gset nat) (st : @State Net) : Prop := mkSource {
  src_out : p ∈ B;
  src_content : exists d, content <$> pool (packets st.2) !! p = Some (frame_header t pl, d) /\ length d = sizeof_data /\
    take (HEADER_SIZE + length pl) d = frame t pl;
  src_fits : (HEADER_SIZE + length pl <= sizeof_data)%nat;
  src_free : forall id cq it, st.1 !! id = Some cq -> it ∈ cqueue cq -> packet it <> p
}.

Lemma copy_packet_frame t pl src i :
  header src = frame_header t pl -> length (data src) = sizeof_data -> take (HEADER_SIZE + length pl) (data src) = frame t pl ->
  (HEADER_SIZE + length pl <= sizeof_data)%nat ->
  let c := copy_packet src (set_pkt_id i new_packet) in
  pkt_id c = i /\ holds_frame c t pl /\ header c = frame_header t pl.
Proof.
  intros Hh Hl Hd Hf c.
  assert (En : (Z.to_nat (payload_length (header src)) + HEADER_SIZE = HEADER_SIZE + length pl)%nat).
  { rewrite Hh. cbn [frame_header payload_length]. rewrite to_nat_len. lia. }
  assert (Ec : data c = blit 0 (frame t pl) (zeros sizeof_data)) by (unfold c, copy_packet; by rewrite En, Hd).
  split_and!; [done| |exact Hh]. unfold holds_frame, wire. rewrite Ec. unfold c, copy_packet. rewrite En. cbn [in_ set_in].
  split_and!; [rewrite length_blit; rewrite ?length_frame, ?length_zeros; lia|done|done|].
  unfold blit. rewrite take_0. cbn [app]. by rewrite take_app_length' by (by rewrite length_frame).
Qed.

(** One member's copy. *)
Lemma copy_out t pl p id st B E D k :
  chat_ok st B E D (S k) -> source t pl p B st -> (base.size B < currentSize)%nat ->
  exists q pp src st' D', borrowPacket (packets st.2) = Ok (Some q, pp) /\ pool pp !! p = Some src /\
    payload_length (header src) + Z.of_nat HEADER_SIZE <= Z.of_nat sizeof_data /\
    ManageCompletePacket q id (st.1, set_packets (write_packet q (copy_packet src) pp) st.2) = Ok st' /\
    q ∉ B /\ chat_ok st' ({[q]} ∪ B) ({[q]} ∪ E) D' k /\ source t pl p ({[q]} ∪ B) st' /\ registry st'.2 = registry st.2 /\
    queued id st' = queued id st ++ [q] /\ (forall id', id' <> id -> st'.1 !! id' = st.1 !! id') /\
    (exists d, data <$> pool (packets st'.2) !! q = Some d /\ take (HEADER_SIZE + length pl) d = frame t pl) /\
    (forall i, i ∈ B -> data <$> pool (packets st'.2) !! i = data <$> pool (packets st.2) !! i).
Proof.
  intros [Hnet Hr Hq] [HpB (d & Hc & Hdl & Hdf) Hf Hfree] Hroom. pose proof (net_pool _ _ _ _ _ Hnet) as Hpool.
  destruct (borrow_inv _ _ _ Hpool) as [[Hfull _]|(q & pp & pkt & Hb & HqB & Hlt & Hp & -> & Hpool')]; [lia|].
  assert (Hne : p <> q) by (intros ->; done).
  assert (Hsrc : exists src, pool pp !! p = Some src /\ content src = (frame_header t pl, d)).
  { rewrite (borrow_other _ _ _ _ Hb Hne). destruct (pool (packets st.2) !! p) as [src|]; [|done]. exists src.
    split; [done|]. cbn in Hc. congruence. }
  destruct Hsrc as (src & Hsrc & Hcs). unfold content in Hcs. injection Hcs as Hh Hd.
  rewrite <- Hd in Hdl, Hdf.
  destruct (copy_packet_frame t pl src q Hh Hdl Hdf Hf) as (Hid & Hhf & Hhc).
  set (w := write_packet q (copy_packet src) pp). set (st1 := (st.1, set_packets w st.2)).
  assert (Hw : pool w !! q = Some (copy_packet src (set_pkt_id q new_packet))).
  { unfold w. cbn [write_packet pool]. by rewrite list_lookup_alter_eq, Hp. }
  assert (Hold : forall i, i ∈ B -> pool w !! i = pool (packets st.2) !! i).
  { intros i Hi. unfold w. cbn [write_packet pool]. rewrite list_lookup_alter_ne by set_solver.
    apply (borrow_other _ _ _ _ Hb). set_solver. }
  assert (Hok1 : chat_ok st1 ({[q]} ∪ B) ({[q]} ∪ E) D (S k)).
  { constructor; cbn [st1 fst snd set_packets registry]; [|done|].
    - destruct Hnet. constructor; cbn [set_packets packets io]; [|done..].
      apply write_inv_at; [done|set_solver|]. intros p0. rewrite Hp. by intros [= <-].
    - intros id' cq it Hl Hit. destruct (Hq id' cq it Hl Hit) as (HB & pk & Hpk & Hle).
      split; [set_solver|]. exists pk. cbn [set_packets packets]. by rewrite Hold. }
  destruct (manage_ok q id st1 _ _ _ k Hok1) as (st' & D' & Hm & Hok' & Hreg & Hsame & Hqu & Hoth).
  { split; [set_solver|]. eexists. split; [exact Hw|]. rewrite (length_field_frame _ _ _ Hhf).
    unfold len. pose proof sizeof_data_Z. lia. }
  exists q, pp, src, st', D'. split_and!; try done.
  - rewrite Hh. cbn [frame_header payload_length]. unfold len. lia.
  - constructor; [set_solver| |done|].
    + exists d. rewrite (Hsame p). cbn [st1 snd set_packets packets]. rewrite Hold by done. split_and!; [done|congruence|congruence].
    + intros id' cq it Hl Hit. destruct (decide (id' = id)) as [->|Hid'].
      * unfold queued in Hqu. rewrite Hl in Hqu. cbn in Hqu. unfold Datatypes.id in Hqu.
        assert (Hi : packet it ∈ packet <$> cqueue cq) by (apply list_elem_of_fmap; by exists it).
        rewrite Hqu in Hi. apply elem_of_app in Hi as [Hi|Hi%list_elem_of_singleton]; [|congruence].
        destruct (st.1 !! _) as [cq0|] eqn:E0; [|by apply elem_of_nil in Hi].
        apply list_elem_of_fmap in Hi as (it0 & -> & Hit0). by apply (Hfree _ _ _ E0).
      * rewrite Hoth in Hl by done. by apply (Hfree id' cq).
  - rewrite (same_data_bytes _ _ q Hsame). cbn [st1 snd set_packets packets]. rewrite Hw. eexists. split; [done|].
    destruct Hhf as (_ & _ & Hi & Hwr). unfold wire in Hwr. by rewrite Hi in Hwr.
  - intros i Hi. rewrite (same_data_bytes _ _ i Hsame). cbn [st1 snd set_packets packets]. by rewrite Hold.
Qed.

(** What a member gets: one more packet, with the frame of the message. *)
Definition gets_copy (t : PacketType) (pl id : bstr) (st st' : @State Net) : Prop :=
  exists q d, queued id st' = queued id st ++ [q] /\ data <$> pool (packets st'.2) !! q = Some d /\
    take (HEADER_SIZE + length pl) d = frame t pl.

Lemma send_members_ok t pl p sender ms st B E D k :
  NoDup ms -> source t pl p B st -> chat_ok st B E D (length ms + k) -> (base.size B + length ms <= currentSize)%nat ->
  exists st' B' E' D', send_members ms sender p st = Ok (true, st') /\ chat_ok st' B' E' D' k /\ source t pl p B' st' /\ B ⊆ B' /\
    registry st'.2 = registry st.2 /\
    (forall i, i ∈ B -> data <$> pool (packets st'.2) !! i = data <$> pool (packets st.2) !! i) /\
    (forall id, if decide (id ∈ ms /\ id <> sender) then gets_copy t pl id st st' else st'.1 !! id = st.1 !! id).
Proof.
  intros Hnd. revert st B E D. induction Hnd as [|m ms Hm Hnd IH]; intros st B E D Hs Hok Hroom;
    cbn [send_members length Nat.add] in *.
  { exists st, B, E, D. by split_and!. }
  destruct (decide (m = sender)) as [->|Hne].
  - destruct (IH st B E D Hs) as (st' & B' & E' & D' & Hrun & H1 & H2 & H3 & H4 & H5 & H6); [by eapply chat_ok_weaken, Hok; lia|lia|].
    exists st', B', E', D'. split_and!; try done. intros id. specialize (H6 id).
    destruct (decide (id ∈ ms /\ id <> sender)).
    + rewrite decide_True by set_solver. done.
    + rewrite decide_False by set_solver. done.
  - destruct (copy_out t pl p m st B E D (length ms + k) Hok Hs ltac:(lia)) as
      (q & pp & src & st1 & D1 & Hb & Hsrc & Hlen & Hmng & HqB & Hok1 & Hs1 & Hr1 & Hq1 & Hoth1 & (d & Hd1 & Hf1) & Hold1).
    rewrite Hb. cbn [obind]. rewrite Hsrc. rewrite (proj2 (Z.ltb_ge _ _)) by lia. rewrite Hmng. cbn [obind].
    destruct (IH st1 ({[q]} ∪ B) ({[q]} ∪ E) D1 Hs1 Hok1) as (st' & B' & E' & D' & Hrun & H1 & H2 & H3 & H4 & H5 & H6).
    { rewrite size_union, size_singleton by set_solver. lia. }
    exists st', B', E', D'. split_and!; try done; [set_solver|congruence|intros i Hi; rewrite H5 by set_solver; by apply Hold1|].
    intros id. specialize (H6 id). destruct (decide (id = m)) as [->|Hid].
    + rewrite decide_True by set_solver. rewrite decide_False in H6 by naive_solver. exists q, d.
      unfold queued in *. rewrite H6, H5 by set_solver. by split_and!.
    + destruct (decide (id ∈ ms /\ id <> sender)) as [Hin|Hin].
      * rewrite decide_True by set_solver. unfold gets_copy, queued in *. by rewrite (Hoth1 id Hid) in H6.
      * rewrite decide_False by set_solver. rewrite H6. by apply Hoth1.
Qed.

(** ** Properties *)

(** C24: a group message is queued for the group.  When a chat message to an existing
    group arrives, and the pools have room for a copy per member, the router returns; every
    member other than the sender has exactly one more packet at the end of its send queue,
    a packet object that holds the frame of the message; the queues of the sender and of
    everybody outside the group stay as they are, no packet in use changes its bytes, and
    the packet that was received goes back to the pool.  (What of a queued frame is then
    transmitted is a matter of the send path, and not all of it is: see
    [Network.send_truncates_frame].) *)
Theorem group_message_fans_out sender gid text user ts g gs st B E D k :
  let m := Chat PKT_GROUP_MESSAGE sender gid user text ts in
  sound m -> getGroup (UserIdToHexString gid) gs = Some g -> group_ok (UserIdToHexString gid) g ->
  chat_ok st B E D (length (members g) + k) -> (base.size B + length (members g) < currentSize)%nat ->
  exists p st1 st' B' E' D', arrive m st = Ok (p, st1) /\ routeGroupMessage p gs st1 = Ok st' /\
    chat_ok st' B' E' D' k /\ p ∉ B' /\ B ⊆ B' /\ registry st'.2 = registry st.2 /\
    (forall i, i ∈ B -> data <$> pool (packets st'.2) !! i = data <$> pool (packets st.2) !! i) /\
    (forall id, if decide (id ∈ members g /\ id <> UserIdToHexString sender)
                then gets_copy PKT_GROUP_MESSAGE (payload m) id st st' else st'.1 !! id = st.1 !! id).
Proof.
  intros m Hm Hg (_ & Hnd & _) Hok Hroom.
  destruct (arrive_ok m st B E D _ Hok ltac:(lia) Hm) as
    (p & pkt & st1 & Ha & HpB & Hok1 & (Hin & Hp & Hfree) & Hrec & Hhd & Hhf & Hq & Hr & _ & _ & Hold).
  exists p, st1.
  assert (Hs : source PKT_GROUP_MESSAGE (payload m) p ({[p]} ∪ B) st1).
  { pose proof Hhf as (Hl & Hf & Hi & Hw). unfold wire in Hw. rewrite Hi in Hw. constructor; try done.
    exists (data pkt). rewrite Hp. cbn. unfold content. rewrite Hhd. by split_and!. }
  destruct (send_members_ok _ _ p (UserIdToHexString sender) (members g) st1 _ _ _ k Hnd Hs Hok1) as
    (st2 & B' & E' & D' & Hrun & Hok2 & [HpB' (d & Hc & _) _ Hfree2] & HB' & Hr2 & Hold2 & Hcopies).
  { rewrite size_union, size_singleton by set_solver. lia. }
  destruct (pool (packets st2.2) !! p) as [pkt2|] eqn:Hp2; [|done].
  destruct (take_ok (fun _ => Ok tt) tt p pkt2 st2 B' E' D' k Hok2) as (st' & Ht & Hok' & Hq' & Hr' & _ & _ & Hoth & _); [by split_and!|done|].
  exists st', (B' ∖ {[p]}), E', D'. split; [done|].
  assert (Hids : payload_uuid 16 pkt = gid /\ payload_uuid 0 pkt = sender).
  { cbn [received m] in Hrec. unfold read_ChatMessage in Hrec. destruct (payload_string _ _ pkt); cbn in Hrec; try done.
    by injection Hrec. }
  destruct Hids as [Hgid Hsid]. split.
  { unfold routeGroupMessage. rewrite Hp, Hgid, Hsid, Hg, Hrun. cbn [obind].
    unfold take_packet in Ht. rewrite Hp2 in Ht. cbn [obind] in Ht. destruct (give_back p st2.2); cbn in Ht |- *; try done.
    by injection Ht as <-. }
  assert (Hdata : forall i, i ∈ {[p]} ∪ B -> i <> p -> data <$> pool (packets st'.2) !! i = data <$> pool (packets st1.2) !! i).
  { intros i Hi Hne. rewrite Hoth by done. by apply Hold2. }
  split_and!; try done; [set_solver|set_solver|congruence| |].
  - intros i Hi. rewrite Hdata by set_solver. by rewrite Hold.
  - intros id. specialize (Hcopies id). case_decide; [|by rewrite Hq', Hcopies, Hq].
    destruct Hcopies as (q & dq & Hqu & Hdq & Hf). unfold gets_copy, queued in *. exists q, dq.
    rewrite Hq', Hqu, Hq. split_and!; try done. destruct (decide (q = p)) as [->|Hne]; [|by rewrite Hoth].
    exfalso. destruct (st2.1 !! id) as [cq|] eqn:Ecq; cbn in Hqu; [|by destruct (packet <$> _)].
    assert (Hi : p ∈ packet <$> cqueue cq) by (unfold Datatypes.id in Hqu; rewrite Hqu; set_solver).
    apply list_elem_of_fmap in Hi as (it & Hit & Hin'). by apply (Hfree2 _ _ _ Ecq Hin').
Qed.
End GroupChat.

(** ** Evaluation *)

#[local] Existing Instance sample_sodium.

Definition sample_gid : bstr := zeros 16.
Definition sample_sender_id : bstr := replicate 16 Byte.x01.
Definition sample_groups : GroupManager :=
  (joinGroup (UserIdToHexString sample_gid) (str "bob")
     (createGroup (UserIdToHexString sample_gid) (UserIdToHexString sample_sender_id) ∅).2).2.

Lemma group_message_fans_out_witness :
  exists st p st1 st' q, arrive (C := compute_soft) (Chat PKT_GROUP_MESSAGE sample_sender_id sample_gid [] (str "hi") 0) st = Ok (p, st1) /\
    routeGroupMessage p sample_groups st1 = Ok st' /\ queued (str "bob") st' = [q].
Proof.
  destruct (fresh_chat one_connection 6) as (st & Hok & H0 & _); [eapply reg_history_inv, first_connection_history|lia|].
  destruct (group_message_fans_out (C := compute_soft) sample_sender_id sample_gid (str "hi") [] 0
    (mkGroup (UserIdToHexString sample_gid) (UserIdToHexString sample_sender_id) [UserIdToHexString sample_sender_id; str "bob"])
    sample_groups st ∅ ∅ ∅ 4) as (p & st1 & st' & B' & E' & D' & Ha & Hr & _ & _ & _ & _ & _ & Hc).
  - split_and!; [repeat constructor|exact I|vm_compute; lia].
  - vm_compute. reflexivity.
  - split_and!; [reflexivity|apply (bool_decide_unpack _); vm_compute; exact I|done].
  - exact Hok.
  - rewrite size_empty. pose proof currentSize_Z. cbn [length members]. lia.
  - specialize (Hc (str "bob")). rewrite decide_True in Hc by (apply (bool_decide_unpack _); vm_compute; exact I).
    destruct Hc as (q & d & Hq & _). unfold queued at 2 in Hq. rewrite H0, lookup_empty in Hq.
    exists st, p, st1, st', q. split; [exact Ha|]. split; [exact Hr|exact Hq].
Defined.
