(* ===== verification/FileTransfer.v ===== *)
(** File transfers: filetransfer/FileTransferManager.h, FileTransferManager.cpp and
    FIleDownload.cpp.

    An upload comes in rounds of at most 1024 chunks of at most 3840 bytes; a round that
    is complete is appended to a partial file; a download sends such rounds from it.  The
    blocks and offsets a download stores for the round it is sending are local here, only
    the size of the vector of offsets is the state's: one download of a file runs at a
    time.  Transfer states are heap objects: a
    [TransferState*] is a key of [heap], and using one that was deleted is undefined.  The
    file system is a map from paths to contents. *)

From stdpp Require Import pretty.
From S2P Require Import Prelude Crc32c Packet Serialize CircularBuffer Fqueue PacketPool Framing Session Offline Network AuthStore Auth Delivery Groups GroupChat.

(** ** Definitions: data *)

Definition MAX_CHUNKS_PER_ROUND : Z := 1024.
Definition MAX_CHUNK_SIZE : Z := 3840.

Record TransferState := mkTransfer {
  senderId : bstr;
  receiverId : bstr;
  uploadId : bstr;
  fileName : bstr;
  tempPath : bstr;
  timestamp : bstr;
  totalSize : Z;
  receivedOffset : Z;
  currentRound : Z;
  roundReceivedCount : Z;
  finalCrc : Z;
  ackReceived : bool;
  roundBuffer : list bstr;
  roundOffsets : list Z;
  missingChunks : list Z;
  is_open : bool               (* [fileStream.is_open()] *)
}.

Definition set_round rb off cur cnt s := mkTransfer (senderId s) (receiverId s) (uploadId s) (fileName s) (tempPath s)
  (timestamp s) (totalSize s) off cur cnt (finalCrc s) (ackReceived s) rb (roundOffsets s) (missingChunks s) (is_open s).
Definition set_timestamp v s := mkTransfer (senderId s) (receiverId s) (uploadId s) (fileName s) (tempPath s)
  v (totalSize s) (receivedOffset s) (currentRound s) (roundReceivedCount s) (finalCrc s) (ackReceived s) (roundBuffer s)
  (roundOffsets s) (missingChunks s) (is_open s).
Definition set_open v s := mkTransfer (senderId s) (receiverId s) (uploadId s) (fileName s) (tempPath s)
  (timestamp s) (totalSize s) (receivedOffset s) (currentRound s) (roundReceivedCount s) (finalCrc s) (ackReceived s) (roundBuffer s)
  (roundOffsets s) (missingChunks s) v.
Definition set_ack ms b s := mkTransfer (senderId s) (receiverId s) (uploadId s) (fileName s) (tempPath s)
  (timestamp s) (totalSize s) (receivedOffset s) (currentRound s) (roundReceivedCount s) (finalCrc s) b (roundBuffer s)
  (roundOffsets s) ms (is_open s).

(** [TransferState::clearState]. *)
Definition clearState (s : TransferState) : TransferState :=
  mkTransfer (senderId s) (receiverId s) (uploadId s) (fileName s) (tempPath s) (timestamp s) (totalSize s)
    0 0 0 (finalCrc s) (ackReceived s) [] [] [] (is_open s).

Record FileTransferManager := mkFiles {
  theap : gmap nat TransferState;
  tnext : nat;                                  (* the next address *)
  activeTransfers : gmap bstr nat;
  uploadIdToTransferState : gmap bstr nat;
  downloadableFiles : gmap bstr nat;
  completedUpload : list nat;
  disk : gmap bstr bstr
}.

Definition set_theap v f := mkFiles v (tnext f) (activeTransfers f) (uploadIdToTransferState f) (downloadableFiles f) (completedUpload f) (disk f).
Definition set_disk v f := mkFiles (theap f) (tnext f) (activeTransfers f) (uploadIdToTransferState f) (downloadableFiles f) (completedUpload f) v.
Definition set_completed v f := mkFiles (theap f) (tnext f) (activeTransfers f) (uploadIdToTransferState f) (downloadableFiles f) v (disk f).
Definition set_downloadable v f := mkFiles (theap f) (tnext f) (activeTransfers f) (uploadIdToTransferState f) v (completedUpload f) (disk f).

(** ** Definitions: names *)

Definition bytesToHex (b : bstr) : bstr := b ≫= hex_byte.

Definition isxdigit (c : byte) : bool :=
  let z := byte.unsigned c in
  (48 <=? z) && (z <=? 57) || (65 <=? z) && (z <=? 70) || (97 <=? z) && (z <=? 102).

(** [strtol(s, nullptr, 16)] of two hexadecimal digits. *)
Definition xdigit_value (c : byte) : Z :=
  let z := byte.unsigned c in if z <=? 57 then z - 48 else if z <=? 70 then z - 55 else z - 87.

Fixpoint unhex_pairs (s : bstr) : bstr :=
  match s with
  | a :: b :: s => byte.of_Z (16 * xdigit_value a + xdigit_value b) :: unhex_pairs s
  | _ => []
  end.

Definition hexToBytes (s : bstr) : bstr :=
  if (length s =? 32)%nat && forallb isxdigit s then unhex_pairs s
  else let s := take 16 s in s ++ zeros (16 - length s).

(** [std::filesystem::path::filename] of a Windows path: what follows the last separator,
    a drive letter aside. *)
Definition is_separator (c : byte) : bool := bool_decide (c ∈ str "/\").
Fixpoint after_separators (s acc : bstr) : bstr :=
  match s with
  | [] => acc
  | c :: s => if is_separator c then after_separators s [] else after_separators s (acc ++ [c])
  end.
Definition is_alpha (c : byte) : bool :=
  let z := byte.unsigned c in (65 <=? z) && (z <=? 90) || (97 <=? z) && (z <=? 122).
Definition without_drive (s : bstr) : bstr :=
  match s with
  | c :: d :: s' => if is_alpha c && bool_decide ([d] = str ":") then s' else s
  | _ => s
  end.
Definition path_filename (s : bstr) : bstr := after_separators (without_drive s) [].

Definition sanitize (now : Z) (name : bstr) : bstr :=
  let result := path_filename name in
  if bool_decide (result = []) || bool_decide (result = str ".") || bool_decide (result = str "..")
  then str "unnamed_" ++ str (pretty (Z.to_N now))
  else result.

Definition saveDirectory : bstr := str "./uploads/".

(** ** Definitions: sending *)

Section WithChecksum.
Context {C : Checksum}.

Definition sendAck (uploadId : bstr) (roundId : Z) (missingChunks : list Z) (recId : bstr) (st : @State Net) :=
  deliver (FileAck (hexToBytes uploadId) roundId missingChunks) recId st.

Definition sendFileStatus (uploadId : bstr) (success : bool) (recId : bstr) (st : @State Net) :=
  deliver (StringMsg PKT_FILE_STATUS (uploadId ++ (if success then str " SUCCESS" else str " FAILED"))) recId st.

Definition SendErrorPacket (recId upId reason : bstr) (st : @State Net) :=
  deliver (StringMsg PKT_FILE_ERROR (upId ++ str " " ++ reason)) recId st.

(** ** Definitions: uploads *)

Definition getTransferState (uploadId : bstr) (f : FileTransferManager) : option nat :=
  uploadIdToTransferState f !! uploadId.

Definition state_at (ptr : nat) (f : FileTransferManager) : outcome TransferState :=
  match theap f !! ptr with Some s => Ok s | None => UB end.

(** [now] is the clock, [opens] whether the file can be opened. *)
Definition handleFileStart (now : Z) (opens : bool) (p : nat) (sender : bstr) (f : FileTransferManager) (st : @State Net)
  : outcome (FileTransferManager * @State Net) :=
  let! ((recv, upload, total, crc, name), st) := take_packet read_FileStart p st in
  let recId := bytesToHex recv in
  let uploadId := bytesToHex upload in
  let fileName := sanitize now name in
  if 1024 * 1024 * 5 <? total then
    let! st := SendErrorPacket recId uploadId (str " file is too big ") st in Ok (f, st)
  else
    let tempPath := saveDirectory ++ fileName ++ str "_" ++ take 10 uploadId ++ str ".partial" in
    if negb opens then Ok (f, st) else
    let content := default [] (disk f !! tempPath) in
    let resumeOffset := len content in
    let state := mkTransfer sender recId uploadId fileName tempPath [] total resumeOffset
                   (wrap 32 (resumeOffset / (MAX_CHUNK_SIZE * MAX_CHUNKS_PER_ROUND))) 0 crc false
                   (replicate (Z.to_nat MAX_CHUNKS_PER_ROUND) []) (replicate (Z.to_nat MAX_CHUNKS_PER_ROUND) 0) [] true in
    let f := mkFiles (<[tnext f := state]> (theap f)) (S (tnext f)) (<[uploadId := tnext f]> (activeTransfers f))
               (<[uploadId := tnext f]> (uploadIdToTransferState f)) (downloadableFiles f) (completedUpload f)
               (<[tempPath := content]> (disk f)) in
    let! st := deliver (FileStartResponse (hexToBytes uploadId) resumeOffset) sender st in
    Ok (f, st).

(** The part of [handleFileChunk] under the state's lock. *)
Definition store_chunk (byteOffset : Z) (chunkData : bstr) (s : TransferState) : TransferState :=
  let chunkIndex := Z.to_nat ((byteOffset / MAX_CHUNK_SIZE) mod MAX_CHUNKS_PER_ROUND) in
  match roundBuffer s !! chunkIndex with
  | None => s
  | Some c =>
      if bool_decide (c = []) then
        set_round (<[chunkIndex := chunkData]> (roundBuffer s)) (receivedOffset s) (currentRound s)
          (wrap 32 (roundReceivedCount s + 1)) s
      else s
  end.

Definition handleFileChunk (p : nat) (f : FileTransferManager) (st : @State Net)
  : outcome (FileTransferManager * @State Net) :=
  let! ((upload, byteOffset, crcReceived, chunkData), st) := take_packet read_FileChunk p st in
  match getTransferState (bytesToHex upload) f with
  | None => Ok (f, st)
  | Some ptr =>
      let! s := state_at ptr f in
      if negb (crc32c chunkData 0 =? crcReceived) then Ok (f, st) else
      Ok (set_theap (<[ptr := store_chunk byteOffset chunkData s]> (theap f)) f, st)
  end.

(** The bytes [writeRoundToDisk] writes: the chunks that are there, in order. *)
Definition round_bytes (s : TransferState) : bstr := concat (roundBuffer s).

Definition writeRoundToDisk (s : TransferState) (dk : gmap bstr bstr) : TransferState * gmap bstr bstr :=
  (set_round (roundBuffer s) (wrap 64 (receivedOffset s + len (round_bytes s))) (currentRound s) (roundReceivedCount s) s,
   if is_open s then <[tempPath s := default [] (dk !! tempPath s) ++ round_bytes s]> dk else dk).

(** The indices below [n] whose chunk is missing; reading past the vector is undefined. *)
Definition missing_below (n : Z) (rb : list bstr) : outcome (list Z) :=
  if len rb <? n then UB
  else Ok (Z.of_nat <$> filter (fun i => rb !! i = Some []) (seq 0 (Z.to_nat n))).

(** The part of [handleRoundEnd] under the state's lock, for the round that is current:
    the missing chunks; without any, the round is written and the next one begins. *)
Definition finish_round (expectedChunkCount : Z) (s : TransferState) (dk : gmap bstr bstr)
  : outcome (list Z * TransferState * gmap bstr bstr) :=
  let! missing := missing_below expectedChunkCount (roundBuffer s) in
  if bool_decide (missing = []) then
    let (s, dk) := writeRoundToDisk s dk in
    Ok (missing, set_round (replicate (length (roundBuffer s)) []) (receivedOffset s) (wrap 32 (currentRound s + 1)) 0 s, dk)
  else Ok (missing, s, dk).

Definition handleRoundEnd (p : nat) (f : FileTransferManager) (st : @State Net)
  : outcome (FileTransferManager * @State Net) :=
  let! ((upload, roundId, expectedChunkCount), st) := take_packet (fun pkt => Ok (read_RoundEnd pkt)) p st in
  let uploadId := bytesToHex upload in
  match getTransferState uploadId f with
  | None => Ok (f, st)
  | Some ptr =>
      let! s := state_at ptr f in
      if negb (roundId =? currentRound s) then
        let! st := sendAck uploadId (currentRound s) [] (senderId s) st in Ok (f, st)
      else
        let! (missing, s, dk) := finish_round expectedChunkCount s (disk f) in
        let f := set_theap (<[ptr := s]> (theap f)) (set_disk dk f) in
        let! st := sendAck uploadId roundId missing (senderId s) st in
        Ok (f, st)
  end.

(** [cleanupTransfer] erases the entry and then uses its iterator. *)
Definition cleanupTransfer (uploadId : bstr) (f : FileTransferManager) : outcome FileTransferManager :=
  match uploadIdToTransferState f !! uploadId with
  | None => Ok f
  | Some ptr => let! s := state_at ptr f in UB
  end.

Definition handleFileEnd (now : Z) (p : nat) (f : FileTransferManager) (st : @State Net)
  : outcome (FileTransferManager * @State Net) :=
  let! ((upload, clientCrc), st) := take_packet (fun pkt => Ok (read_FileEnd pkt)) p st in
  let uploadId := bytesToHex upload in
  match getTransferState uploadId f with
  | None => Ok (f, st)
  | Some ptr =>
      let! s := state_at ptr f in
      let success := receivedOffset s =? totalSize s in
      let! f :=
        if success then
          Ok (set_completed (completedUpload f ++ [ptr])
                (set_theap (<[ptr := clearState (set_timestamp (str (pretty (Z.to_N now))) (set_open false s))]> (theap f)) f))
        else cleanupTransfer uploadId (set_theap (<[ptr := set_open false s]> (theap f)) f) in
      let! st := sendFileStatus uploadId success (senderId s) st in
      Ok (mkFiles (theap f) (tnext f) (delete uploadId (activeTransfers f)) (delete uploadId (uploadIdToTransferState f))
            (downloadableFiles f) (completedUpload f) (disk f), st)
  end.

(** ** Definitions: downloads *)

Definition checkGrp (id : bstr) : bool := (3 <=? length id)%nat && bool_decide (take 3 id = str "GRP").

(** One item of [sendDownloadLinkLoop]: announce a completed upload to its receiver. *)
Definition send_link {N : Sodium} (gs : GroupManager) (f : FileTransferManager) (st : @State Net)
  : outcome (FileTransferManager * @State Net) :=
  match completedUpload f with
  | [] => Ok (f, st)
  | ptr :: rest =>
      let f := set_completed rest f in
      let! (p, pp) := borrowPacket (packets st.2) in
      match p with
      | None => UB
      | Some p =>
          let! s := state_at ptr f in
          let link := Link (hexToBytes (senderId s)) (hexToBytes (uploadId s)) (fileName s) (wrap 32 (totalSize s)) (timestamp s) in
          let st := (st.1, set_packets (write_packet p (fun pkt => (send link pkt).2) pp) st.2) in
          let f := set_downloadable (<[uploadId s := ptr]> (downloadableFiles f)) f in
          let! st := if checkGrp (receiverId s) then routeGroupMessage p gs st
                     else ManageCompletePacket p (receiverId s) st in
          Ok (f, st)
      end
  end.

(** [while (!completedUpload.empty())]: one item per element. *)
Fixpoint drain_links {N : Sodium} (k : nat) (gs : GroupManager) (f : FileTransferManager) (st : @State Net)
  : outcome (FileTransferManager * @State Net) :=
  match k with
  | O => Ok (f, st)
  | S k => let! (f, st) := send_link gs f st in drain_links k gs f st
  end.
Definition sendDownloadLinks {N : Sodium} (gs : GroupManager) (f : FileTransferManager) (st : @State Net) :=
  drain_links (length (completedUpload f)) gs f st.

(** A thread that [HandleDownloadRequest] starts: receiver, upload, first byte. *)
Record Job := mkJob { job_receiver : bstr; job_upload : bstr; job_start : Z }.

(** The vectors of a round are brought to their full length again. *)
Definition make_room (s : TransferState) : TransferState :=
  mkTransfer (senderId s) (receiverId s) (uploadId s) (fileName s) (tempPath s) (timestamp s) (totalSize s) (receivedOffset s)
    (currentRound s) (roundReceivedCount s) (finalCrc s) (ackReceived s) (resize (Z.to_nat MAX_CHUNKS_PER_ROUND) [] (roundBuffer s))
    (resize (Z.to_nat MAX_CHUNKS_PER_ROUND) 0 (roundOffsets s)) (missingChunks s) (is_open s).

Definition HandleDownloadRequest (p : nat) (f : FileTransferManager) (st : @State Net)
  : outcome (option Job * FileTransferManager * @State Net) :=
  let! ((user, upload, startBytes), st) := take_packet (fun pkt => Ok (read_DownloadReq pkt)) p st in
  let receiverId := bytesToHex user in
  let upId := bytesToHex upload in
  if bool_decide (receiverId = []) || bool_decide (upId = []) then Ok (None, f, st) else
  match downloadableFiles f !! upId with
  | None => let! st := SendErrorPacket receiverId upId (str "File not found") st in Ok (None, f, st)
  | Some ptr =>
      let! s := state_at ptr f in
      let! st := with_registry (setRecievingFileTrue receiverId) st in
      let f := set_theap (<[ptr := make_room s]> (theap f)) f in
      let! st := deliver (FileStart (hexToBytes (senderId s)) (hexToBytes (uploadId s)) (fileName s) (totalSize s) (finalCrc s))
                   receiverId st in
      Ok (Some (mkJob receiverId upId startBytes), f, st)
  end.

(** The inner loop that reads a round, from chunk [i] on: offsets and blocks, and the new
    [bytesSent].  The offset of a chunk is stored in a vector of [slots] elements, with an
    index that is not tested. *)
Fixpoint read_round (k i slots : nat) (content : bstr) (total bytesSent : Z) : outcome (list (Z * bstr) * Z) :=
  match k with
  | O => Ok ([], bytesSent)
  | S k =>
      if bytesSent <? total then
        let toRead := Z.min MAX_CHUNK_SIZE (total - bytesSent) in
        let block := take (Z.to_nat toRead) (drop (Z.to_nat bytesSent) content) in
        if bool_decide (block = []) then Ok ([], bytesSent) else
        if (slots <=? i)%nat then UB else
        let! (blocks, sent) := read_round k (S i) slots content total (bytesSent + len block) in
        Ok ((bytesSent, block) :: blocks, sent)
      else Ok ([], bytesSent)
  end.

(** How a wait for an acknowledgement ends: with a time-out, or with the list of missing
    chunks that [onAckReceived] stored. *)
Abbreviation Acks := (list (option (list Z))).

Inductive Ending := Complete | AckTimeout | AckFailed.

Definition chunk_messages (up : bstr) (blocks : list (Z * bstr)) : list message :=
  (fun b => FileChunk up b.1 b.2) <$> blocks.

(** The chunks asked for again; indices outside the round are skipped. *)
Definition resend (blocks : list (Z * bstr)) (missing : list Z) : list (Z * bstr) :=
  omap (fun idx => if 0 <=? idx then blocks !! Z.to_nat idx else None) missing.

(** [while (!roundDone)]: the messages sent, and the waits left over when the round is
    done.  The loop goes on as long as chunks are reported missing; [acks] is a finite course
    of its waits, and the wait behind the last of them times out. *)
Fixpoint ack_loop (up : bstr) (round : Z) (blocks : list (Z * bstr)) (acks : Acks) : list message * (Ending * Acks) :=
  let ask := RoundEnd up round (len blocks) in
  match acks with
  | [] | None :: _ => ([ask], (AckTimeout, []))
  | Some missing :: acks =>
      if bool_decide (missing = [2 ^ 32 - 1]) then ([ask], (AckFailed, acks)) else
      if bool_decide (missing = []) then ([ask], (Complete, acks)) else
      let (ms, e) := ack_loop up round blocks acks in
      (ask :: chunk_messages up (resend blocks missing) ++ ms, e)
  end.

(** The outer loop, [None] if the rounds outnumber [fuel].  A round uses at least one wait,
    so [S (length acks)] rounds are enough. *)
Fixpoint transfer_rounds (fuel slots : nat) (up content : bstr) (total bytesSent round : Z) (acks : Acks)
  : outcome (option (list message * Ending)) :=
  match fuel with
  | O => Ok None
  | S fuel =>
      if bytesSent <? total then
        let! (blocks, sent) := read_round (Z.to_nat MAX_CHUNKS_PER_ROUND) 0 slots content total bytesSent in
        if bool_decide (blocks = []) then Ok (Some ([], Complete)) else
        let (ms, e) := ack_loop up round blocks acks in
        let ms := chunk_messages up blocks ++ ms in
        match e with
        | (Complete, acks) =>
            let! rest := transfer_rounds fuel slots up content total sent (wrap 32 (round + 1)) acks in
            match rest with
            | Some (ms', e) => Ok (Some (ms ++ ms', e))
            | None => Ok None
            end
        | (e, _) => Ok (Some (ms, e))
        end
      else Ok (Some ([], Complete))
  end.

Fixpoint deliver_all (ms : list message) (id : bstr) (st : @State Net) : outcome (@State Net) :=
  match ms with
  | [] => Ok st
  | m :: ms => let! st := deliver m id st in deliver_all ms id st
  end.

Definition first_round (startBytes : Z) : Z := wrap 32 (startBytes / (MAX_CHUNK_SIZE * MAX_CHUNKS_PER_ROUND)).

Definition HandleFileTransfer (j : Job) (acks : Acks) (f : FileTransferManager) (st : @State Net) : outcome (@State Net) :=
  let receiverId := job_receiver j in
  match downloadableFiles f !! job_upload j with
  | None =>
      let! st := SendErrorPacket receiverId (job_upload j) (str "State lost") st in
      with_registry (setRecievingFileFalse receiverId) st
  | Some ptr =>
      let! s := state_at ptr f in
      match disk f !! tempPath s with
      | None =>
          let! st := SendErrorPacket receiverId (job_upload j) (str "Cannot open file") st in
          with_registry (setRecievingFileFalse receiverId) st
      | Some content =>
          let up := hexToBytes (job_upload j) in
          let! run := transfer_rounds (S (length acks)) (length (roundOffsets s)) up content (totalSize s) (job_start j)
                        (first_round (job_start j)) acks in
          match run with
          | None => UB
          | Some (ms, e) =>
              let! st := deliver_all ms receiverId st in
              match e with
              | AckTimeout => Ok st
              | AckFailed => with_registry (setRecievingFileFalse receiverId) st
              | Complete =>
                  let! st := deliver (FileEnd up (finalCrc s)) receiverId st in
                  with_registry (setRecievingFileFalse receiverId) st
              end
          end
      end
  end.

Definition onAckReceived (p : nat) (f : FileTransferManager) (st : @State Net)
  : outcome (FileTransferManager * @State Net) :=
  let! ((upload, roundId, missing), st) := take_packet read_FileAck p st in
  match downloadableFiles f !! bytesToHex upload with
  | None => Ok (f, st)
  | Some ptr =>
      let! s := state_at ptr f in
      if negb (roundId =? currentRound s) then Ok (f, st)
      else Ok (set_theap (<[ptr := set_ack missing true s]> (theap f)) f, st)
  end.

(** The characters before the first space. *)
Fixpoint until_space (s : bstr) : bstr :=
  match s with
  | [] => []
  | c :: s => if bool_decide ([c] = str " ") then [] else c :: until_space s
  end.

Definition HandleDisconnectRequest (p : nat) (st : @State Net) : outcome (@State Net) :=
  match pool (packets st.2) !! p with
  | None => UB
  | Some pkt =>
      if wrap 32 (payload_length (header pkt) + Z.of_nat HEADER_SIZE) <? Z.of_nat HEADER_SIZE then Ok st else
      let! (raw, st) := take_packet (payload_string 0 (payload_length (header pkt))) p st in
      let recId := until_space raw in
      if bool_decide (recId = []) then Ok st else with_registry (setRecievingFileFalse recId) st
  end.
End WithChecksum.

(** ** Lemmas: names *)

Lemma hex_isxdigit b : forallb isxdigit (hex_byte b) = true.
Proof. by destruct b. Qed.

Lemma unhex_pairs_hex b l : unhex_pairs (hex_byte b ++ l) = b :: unhex_pairs l.
Proof. cbn [hex_byte app unhex_pairs]. f_equal. by destruct b. Qed.

Lemma bytesToHex_length b : length (bytesToHex b) = (2 * length b)%nat.
Proof.
  induction b as [|x b IH]; [done|]. unfold bytesToHex in *. rewrite bind_cons, length_app, length_hex_byte, IH.
  cbn [length]. lia.
Qed.

Lemma hexToBytes_length s : length (hexToBytes s) = 16%nat.
Proof.
  unfold hexToBytes. destruct (Nat.eqb_spec (length s) 32) as [Hl|_]; cbn [andb].
  - destruct (forallb isxdigit s).
    + do 32 (destruct s as [|? s]; [done|]). by destruct s.
    + rewrite length_app, length_zeros, length_take. lia.
  - rewrite length_app, length_zeros, length_take. lia.
Qed.

Lemma hexToBytes_bytesToHex b : length b = 16%nat -> hexToBytes (bytesToHex b) = b.
Proof.
  intros Hb. unfold hexToBytes. rewrite bytesToHex_length, Hb. cbn [Nat.mul Nat.add Nat.eqb andb].
  assert (Hx : forallb isxdigit (bytesToHex b) = true).
  { clear Hb. induction b as [|x b IH]; [done|]. unfold bytesToHex in *.
    by rewrite bind_cons, forallb_app, hex_isxdigit, IH. }
  rewrite Hx. clear. induction b as [|x b IH]; [done|]. unfold bytesToHex in *. by rewrite bind_cons, unhex_pairs_hex, IH.
Qed.

Lemma bytesToHex_inj b b' : bytesToHex b = bytesToHex b' -> length b = length b' -> b = b'.
Proof.
  revert b'. induction b as [|x b IH]; intros [|x' b'] H Hl; try done. unfold bytesToHex in *. rewrite !bind_cons in H.
  apply app_inj_1 in H as [H0 H]; [|done]. injection Hl as Hl. f_equal; [|auto].
  by rewrite <- (unhex_hex x), <- (unhex_hex x'), H0.
Qed.

(** What follows the last separator has none. *)
Lemma after_separators_clean s acc :
  (forall c, c ∈ acc -> is_separator c = false) -> forall c, c ∈ after_separators s acc -> is_separator c = false.
Proof.
  revert acc. induction s as [|x s IH]; intros acc Hacc; cbn [after_separators]; [done|].
  destruct (is_separator x) eqn:E; apply IH.
  - intros c Hc. by apply elem_of_nil in Hc.
  - intros c [Hc| ->%list_elem_of_singleton]%elem_of_app; auto.
Qed.

(** ** Lemmas: rounds of chunks *)

Definition cs : nat := Z.to_nat MAX_CHUNK_SIZE.
Definition rc : nat := Z.to_nat MAX_CHUNKS_PER_ROUND.
Lemma cs_Z : Z.of_nat cs = 3840.
Proof. reflexivity. Qed.
Lemma rc_Z : Z.of_nat rc = 1024.
Proof. reflexivity. Qed.
Lemma rc_eq : Z.to_nat MAX_CHUNKS_PER_ROUND = rc.
Proof. reflexivity. Qed.
#[global] Opaque cs rc.

(** Chunk [k] of a file, the part of it that [r] rounds cover, and how many chunks round
    [r] has. *)
Definition chunk (F : bstr) (k : nat) : bstr := slice (k * cs) cs F.
Definition prefix_rounds (F : bstr) (r : nat) : bstr := take (r * rc * cs) F.
Definition chunk_count (F : bstr) : nat := Z.to_nat ((len F + MAX_CHUNK_SIZE - 1) / MAX_CHUNK_SIZE).
Definition round_count (F : bstr) (r : nat) : nat := (rc `min` (chunk_count F - r * rc))%nat.

Lemma concat_chunks F o n :
  concat ((fun i => slice (o + i * cs) cs F) <$> seq 0 n) = slice o (n * cs) F.
Proof.
  induction n as [|n IH]; [done|]. rewrite seq_S, fmap_app, concat_app, IH. cbn [fmap list_fmap concat].
  rewrite app_nil_r, <- slice_split. f_equal. lia.
Qed.

Lemma take_slice_next F a b : take (a + b) F = take a F ++ slice a b F.
Proof. pose proof (slice_split 0 a b F) as H. unfold slice in *. by rewrite !drop_0 in H. Qed.

Lemma chunk_count_spec F k : (k < chunk_count F)%nat <-> (k * cs < length F)%nat.
Proof.
  unfold chunk_count, len. pose proof cs_Z. unfold MAX_CHUNK_SIZE.
  pose proof (Z.div_mod (Z.of_nat (length F) + 3840 - 1) 3840 ltac:(lia)) as Hd.
  pose proof (Z.mod_pos_bound (Z.of_nat (length F) + 3840 - 1) 3840 ltac:(lia)) as Hm.
  set (q := (Z.of_nat (length F) + 3840 - 1) / 3840) in *. nia.
Qed.

Lemma chunk_nil F k : chunk F k = [] <-> (chunk_count F <= k)%nat.
Proof.
  pose proof (chunk_count_spec F k) as Hk. pose proof cs_Z. split; intros Hc.
  - apply (f_equal length) in Hc. unfold chunk in Hc. rewrite length_slice in Hc. cbn in Hc. lia.
  - apply length_zero_iff_nil. unfold chunk. rewrite length_slice. lia.
Qed.
