(* ===== verification/Rounds.v ===== *)
(** Rounds of chunks: what the sender and the receiver of a file share.

    A file is cut into chunks of at most 3840 bytes, 1024 of them to a round.  The server
    receives uploads and the client downloads in this way, with the same kind of buffer
    for the round that is arriving; [round_buffer] is its contents, [sender_run] the
    message sequences of a sender. *)

From S2P Require Import Prelude Crc32c Packet Serialize CircularBuffer Fqueue PacketPool Framing Session Offline Network AuthStore Auth Delivery FileTransfer.

(** ** Definitions *)

(** *** The checksum of a file, the same loop at both ends *)

Section WithChecksum.
Context {C : Checksum}.

Definition CRC_BLOCK : nat := Z.to_nat (1024 * 1024).

(** [while (file)] with blocks of 1 MiB; [fuel] bounds the number of blocks. *)
Fixpoint crc_blocks (fuel : nat) (content : bstr) (crc : Z) : Z :=
  match fuel with
  | O => crc
  | S fuel =>
      let read := take CRC_BLOCK content in
      if bool_decide (read = []) then crc else crc_blocks fuel (drop CRC_BLOCK content) (crc32c read crc)
  end.

(** FileTransferManager::computeFileCRC. *)
Definition file_crc (file : option bstr) : Z :=
  match file with
  | None => 0
  | Some content => crc_blocks (S (length content)) content 0
  end.

End WithChecksum.

(** *** Rounds *)

(** The chunks of round [r] that are still missing when those in [got] have come. *)
Definition missing_of (F : bstr) (r : nat) (got : gset nat) : list nat :=
  filter (fun i => i ∉ got) (seq 0 (round_count F r)).

Definition chunk_message (up F : bstr) (k : nat) : message := FileChunk up (Z.of_nat (k * cs)) (chunk F k).
Definition round_message (up F : bstr) (r : nat) : message := RoundEnd up (Z.of_nat r) (Z.of_nat (round_count F r)).

Inductive sender_run (F up : bstr) (crc : Z) : nat -> gset nat -> list message -> Prop :=
| run_end r : (chunk_count F <= r * rc)%nat -> sender_run F up crc r ∅ [FileEnd up crc]
| run_chunk r got i ms :
    (i < round_count F r)%nat -> sender_run F up crc r ({[i]} ∪ got) ms ->
    sender_run F up crc r got (chunk_message up F (r * rc + i) :: ms)
| run_missing r got ms :
    (r * rc < chunk_count F)%nat -> missing_of F r got <> [] -> sender_run F up crc r got ms ->
    sender_run F up crc r got (round_message up F r :: ms)
| run_next r got ms :
    (r * rc < chunk_count F)%nat -> missing_of F r got = [] -> sender_run F up crc (S r) ∅ ms ->
    sender_run F up crc r got (round_message up F r :: ms).

(** The buffer of round [r] when the chunks in [got] have come. *)
Definition round_buffer (F : bstr) (r : nat) (got : gset nat) : list bstr :=
  (fun i => if decide (i ∈ got) then chunk F (r * rc + i) else []) <$> seq 0 rc.

(** ** Lemmas *)

Lemma filter_ext_in {A} (P Q : A -> Prop) `{forall x, Decision (P x)} `{forall x, Decision (Q x)} (l : list A) :
  (forall x, x ∈ l -> P x <-> Q x) -> filter P l = filter Q l.
Proof.
  induction l as [|x l IH]; intros Hl; [done|]. rewrite !filter_cons, IH by (intros; apply Hl; by right).
  specialize (Hl x (list_elem_of_here _ _)). repeat case_decide; naive_solver.
Qed.

Lemma round_count_index F r i : (i < round_count F r)%nat <-> (i < rc /\ r * rc + i < chunk_count F)%nat.
Proof. unfold round_count. lia. Qed.

Lemma chunk_index (r i : nat) :
  (i < rc)%nat -> Z.to_nat ((Z.of_nat ((r * rc + i) * cs) / MAX_CHUNK_SIZE) mod MAX_CHUNKS_PER_ROUND) = i.
Proof.
  pose proof rc_Z. pose proof cs_Z. intros Hi. unfold MAX_CHUNK_SIZE, MAX_CHUNKS_PER_ROUND.
  rewrite Nat2Z.inj_mul, cs_Z, Z.div_mul by lia. rewrite Nat2Z.inj_add, Nat2Z.inj_mul, rc_Z.
  rewrite Z.add_comm, Z.mod_add by lia. rewrite Z.mod_small by lia. lia.
Qed.

Lemma round_buffer_length F r got : length (round_buffer F r got) = rc.
Proof. unfold round_buffer. by rewrite length_fmap, length_seq. Qed.

Lemma round_buffer_lookup F r got i :
  (i < rc)%nat -> round_buffer F r got !! i = Some (if decide (i ∈ got) then chunk F (r * rc + i) else []).
Proof. intros Hi. unfold round_buffer. by rewrite list_lookup_fmap, lookup_seq_lt. Qed.

Lemma round_buffer_insert F r got i :
  (i < rc)%nat -> <[i := chunk F (r * rc + i)]> (round_buffer F r got) = round_buffer F r ({[i]} ∪ got).
Proof.
  intros Hi. apply list_eq. intros j. destruct (decide (j = i)) as [->|Hj].
  - rewrite list_lookup_insert_eq by (rewrite round_buffer_length; lia). rewrite round_buffer_lookup by done.
    by rewrite decide_True by set_solver.
  - rewrite list_lookup_insert_ne by done. unfold round_buffer. rewrite !list_lookup_fmap.
    destruct (seq 0 rc !! j) as [j'|] eqn:Ej; [|done]. apply lookup_seq in Ej as [-> _]. cbn. f_equal.
    destruct (decide (j ∈ got)); [rewrite decide_True by set_solver|rewrite decide_False by set_solver]; done.
Qed.

Lemma round_buffer_missing F r got :
  missing_below (Z.of_nat (round_count F r)) (round_buffer F r got) = Ok (Z.of_nat <$> missing_of F r got).
Proof.
  unfold missing_below, missing_of. pose proof (round_buffer_length F r got) as Hl.
  destruct (Z.ltb_spec (len (round_buffer F r got)) (Z.of_nat (round_count F r))) as [Hlt|_];
    [unfold len in Hlt; rewrite Hl in Hlt; unfold round_count in Hlt; lia|].
  f_equal. f_equal. rewrite Nat2Z.id. apply filter_ext_in. intros i Hi%elem_of_seq.
  pose proof (proj1 (round_count_index F r i) ltac:(lia)) as [Hrc Hlt]. rewrite round_buffer_lookup by done.
  destruct (decide (i ∈ got)); split; try done. intros [= Hc]. apply chunk_nil in Hc. lia.
Qed.

(** A round none of whose chunks is missing holds its part of the file. *)
Lemma round_buffer_complete F r got :
  missing_of F r got = [] -> concat (round_buffer F r got) = slice (r * rc * cs) (rc * cs) F.
Proof.
  intros Hm. rewrite <- (concat_chunks F (r * rc * cs) rc). unfold round_buffer.
  f_equal. apply list_fmap_ext. intros k i Hk. apply lookup_seq in Hk as [-> Hk]. cbn [Nat.add].
  assert (Hc : slice (r * rc * cs + k * cs) cs F = chunk F (r * rc + k)) by (unfold chunk; f_equal; lia).
  rewrite Hc. case_decide as Hg; [done|]. symmetry. apply chunk_nil.
  destruct (le_lt_dec (chunk_count F) (r * rc + k)) as [|Hlt]; [done|]. exfalso.
  assert (Hin : k ∈ missing_of F r got).
  { apply list_elem_of_filter. split; [done|]. apply elem_of_seq. pose proof (proj2 (round_count_index F r k)). lia. }
  rewrite Hm in Hin. by apply elem_of_nil in Hin.
Qed.

Lemma round_buffer_empty F r n : n = rc -> replicate n [] = round_buffer F r ∅.
Proof.
  intros ->. apply list_eq. intros i. destruct (decide (i < rc)%nat) as [Hi|Hi].
  - rewrite lookup_replicate_2, round_buffer_lookup by done. by rewrite decide_False by set_solver.
  - rewrite !lookup_ge_None_2 by (rewrite ?round_buffer_length, ?length_replicate; lia). done.
Qed.

Lemma prefix_next F r : prefix_rounds F (S r) = prefix_rounds F r ++ slice (r * rc * cs) (rc * cs) F.
Proof. unfold prefix_rounds. rewrite <- take_slice_next. f_equal. lia. Qed.

Lemma prefix_complete F r : (chunk_count F <= r * rc)%nat -> prefix_rounds F r = F.
Proof.
  intros Hr. unfold prefix_rounds. apply take_ge. pose proof (chunk_count_spec F (r * rc)). lia.
Qed.

(** ** Checksums *)

Lemma CRC_BLOCK_pos : (0 < CRC_BLOCK)%nat.
Proof. unfold CRC_BLOCK. apply (Z2Nat.inj_lt 0); lia. Qed.
#[global] Opaque CRC_BLOCK.

Section Checksums.
Context {C : Checksum} {L : ChecksumLaws C}.

Lemma crc_blocks_eq fuel content crc :
  (length content < fuel)%nat -> crc_blocks fuel content crc = if decide (content = []) then crc else crc32c content crc.
Proof.
  revert content crc. induction fuel as [|fuel IH]; intros content crc Hf; [lia|]. cbn [crc_blocks]. pose proof CRC_BLOCK_pos as Hb.
  assert (Hlen : length (take CRC_BLOCK content) = (CRC_BLOCK `min` length content)%nat) by apply length_take.
  case_bool_decide as He.
  - rewrite He in Hlen. cbn [length] in Hlen. rewrite decide_True; [done|]. apply length_zero_iff_nil. lia.
  - assert (Hne : content <> []) by (intros ->; by rewrite take_nil in He). rewrite decide_False by done.
    assert (Hpos : (0 < length content)%nat) by (destruct content; [done|cbn [length]; lia]).
    rewrite IH by (rewrite length_drop; lia). case_decide as Hd.
    + rewrite <- (take_drop CRC_BLOCK content) at 2. by rewrite Hd, app_nil_r.
    + rewrite <- crc32c_app. by rewrite take_drop.
Qed.

(** The blocks do not matter: it is the checksum of the whole file. *)
Lemma file_crc_whole F : F <> [] -> file_crc (Some F) = crc32c F 0.
Proof. intros HF. unfold file_crc. rewrite crc_blocks_eq by lia. by rewrite decide_False. Qed.
End Checksums.
