(* ===== verification/Upload.v ===== *)
(** Uploads: the handlers of FileTransferManager.cpp put an uploaded file together.

    The sender's side is the relation [sender_run] of Rounds.v: it sends the chunks of one
    round in any order and as often as it likes, asks for the end of the round, and goes on
    to the next round when none of its chunks was missing. *)

From S2P Require Import Prelude Crc32c Packet Serialize CircularBuffer Fqueue PacketPool Framing Session Offline Network AuthStore Auth Delivery FileTransfer Rounds.

(** ** Definitions *)

Section WithChecksum.
Context {C : Checksum} {L : ChecksumLaws C}.

(** The handler a message of an upload goes to. *)
Definition handle_upload (now : Z) (sender : bstr) (m : message) (p : nat) (f : FileTransferManager) (st : @State Net) :=
  match m with
  | FileStart _ _ _ _ _ => handleFileStart now true p sender f st
  | FileChunk _ _ _ => handleFileChunk p f st
  | RoundEnd _ _ _ => handleRoundEnd p f st
  | _ => handleFileEnd now p f st
  end.

Fixpoint serve_upload (now : Z) (sender : bstr) (ms : list message) (f : FileTransferManager) (st : @State Net)
  : outcome (FileTransferManager * @State Net) :=
  match ms with
  | [] => Ok (f, st)
  | m :: ms =>
      let! (p, st) := arrive m st in
      let! (f, st) := handle_upload now sender m p f st in
      serve_upload now sender ms f st
  end.

(** What the server answers to the messages of a sender in round [r] with the chunks in
    [got] received: nothing to a chunk, the missing chunks to the end of a round, and the
    status to the end of the file. *)
Definition upload_status (up : bstr) : message := StringMsg PKT_FILE_STATUS (bytesToHex up ++ str " SUCCESS").
Fixpoint upload_answers (F up : bstr) (r : nat) (got : gset nat) (ms : list message) : list message :=
  match ms with
  | [] => []
  | FileChunk _ o _ :: ms => upload_answers F up r ({[Z.to_nat ((o / MAX_CHUNK_SIZE) mod MAX_CHUNKS_PER_ROUND)]} ∪ got) ms
  | RoundEnd _ _ _ :: ms =>
      FileAck up (Z.of_nat r) (Z.of_nat <$> missing_of F r got) ::
        (if decide (missing_of F r got = []) then upload_answers F up (S r) ∅ ms else upload_answers F up r got ms)
  | _ :: ms => upload_status up :: upload_answers F up r got ms
  end.

(** The packets queued for receiver [id] between two states. *)
Definition sends (id : bstr) (ms : list message) (st st' : @State Net) : Prop :=
  exists qs, queued id st' = queued id st ++ qs /\ Forall2 (packet_carries st'.2) qs ms.

(** The packets in [B] keep their bytes. *)
Definition keeps (B : gset nat) (st st' : @State Net) : Prop :=
  forall i, i ∈ B -> data <$> pool (packets st'.2) !! i = data <$> pool (packets st.2) !! i.

Lemma keeps_trans B B1 st st1 st2 : B ⊆ B1 -> keeps B st st1 -> keeps B1 st1 st2 -> keeps B st st2.
Proof. intros HB H1 H2 i Hi. rewrite H2 by set_solver. by apply H1. Qed.

Lemma sends_one id q m st st' :
  queued id st' = queued id st ++ [q] -> packet_carries st'.2 q m -> sends id [m] st st'.
Proof. intros Hq Hc. exists [q]. split; [done|]. by constructor. Qed.

(** A packet that was queued first and then kept. *)
Lemma sends_cons id q m ms st st1 st2 (B : gset nat) :
  queued id st1 = queued id st ++ [q] -> packet_carries st1.2 q m -> q ∈ B -> keeps B st1 st2 -> sends id ms st1 st2 ->
  sends id (m :: ms) st st2.
Proof.
  intros Hq (d & Hd & Hc) Hin Hk (qs & Hqs & Hall). exists (q :: qs). split; [by rewrite Hqs, Hq, <- app_assoc|].
  constructor; [|done]. exists d. by rewrite Hk.
Qed.

(** ** The invariant of an upload *)

(** State [s] of the upload of [F], in round [r] with the chunks in [got] received. *)
Record uploading (F : bstr) (r : nat) (got : gset nat) (s : TransferState) (dk : gmap bstr bstr) : Prop := mkUploading {
  up_buffer : roundBuffer s = round_buffer F r got;
  up_round : (r * rc < chunk_count F)%nat -> currentRound s = Z.of_nat r;
  up_offset : receivedOffset s = len (prefix_rounds F r);
  up_total : totalSize s = len F;
  up_open : is_open s = true;
  up_disk : dk !! tempPath s = Some (prefix_rounds F r);
  up_small : len F <= 5 * 1024 * 1024
}.

Lemma store_chunk_uploading F r got s dk i :
  uploading F r got s dk -> (i < round_count F r)%nat ->
  uploading F r ({[i]} ∪ got) (store_chunk (Z.of_nat ((r * rc + i) * cs)) (chunk F (r * rc + i)) s) dk.
Proof.
  intros Hu Hi. pose proof (proj1 (round_count_index F r i) Hi) as [Hrc Hlt]. unfold store_chunk. rewrite chunk_index by done.
  rewrite (up_buffer _ _ _ _ _ Hu), round_buffer_lookup by done.
  assert (Hne : chunk F (r * rc + i) <> []) by (rewrite chunk_nil; lia).
  destruct (decide (i ∈ got)) as [Hg|Hg].
  - rewrite bool_decide_eq_false_2 by done. by replace ({[i]} ∪ got) with got by set_solver.
  - rewrite bool_decide_eq_true_2 by done. destruct Hu. constructor; try done. cbn [set_round roundBuffer].
    by apply round_buffer_insert.
Qed.

Lemma finish_round_uploading F r got s dk :
  uploading F r got s dk -> (r * rc < chunk_count F)%nat ->
  exists s' dk', finish_round (Z.of_nat (round_count F r)) s dk = Ok (Z.of_nat <$> missing_of F r got, s', dk') /\
    senderId s' = senderId s /\ tempPath s' = tempPath s /\ (forall q, q <> tempPath s -> dk' !! q = dk !! q) /\
    fileName s' = fileName s /\ receiverId s' = receiverId s /\
    (if decide (missing_of F r got = []) then uploading F (S r) ∅ s' dk' else s' = s /\ dk' = dk).
Proof.
  intros Hu Hr. unfold finish_round. rewrite (up_buffer _ _ _ _ _ Hu), round_buffer_missing. cbn [obind].
  destruct (decide (missing_of F r got = [])) as [Hm|Hm].
  2: { rewrite bool_decide_eq_false_2 by (destruct (missing_of F r got); done).
       exists s, dk. by split_and!. }
  rewrite Hm. cbn [fmap list_fmap]. rewrite bool_decide_eq_true_2 by done.
  assert (Hby : round_bytes s = slice (r * rc * cs) (rc * cs) F)
    by (unfold round_bytes; rewrite (up_buffer _ _ _ _ _ Hu); by apply round_buffer_complete).
  unfold writeRoundToDisk. rewrite Hby.
  rewrite (up_open _ _ _ _ _ Hu), (up_disk _ _ _ _ _ Hu). cbn [from_option id]. unfold id. rewrite <- prefix_next.
  do 2 eexists. split; [done|]. cbn [set_round senderId tempPath fileName receiverId roundBuffer]. split_and!; try done.
  { intros q Hq. by rewrite lookup_insert_ne. }
  assert (Hl : length (roundBuffer s) = rc) by (rewrite (up_buffer _ _ _ _ _ Hu); apply round_buffer_length).
  pose proof rc_Z. pose proof cs_Z. pose proof (chunk_count_spec F (r * rc)) as Hcc.
  destruct Hu. constructor; cbn [set_round roundBuffer currentRound receivedOffset totalSize is_open tempPath]; try done.
  - exact (round_buffer_empty F (S r) _ Hl).
  - intros _. rewrite up_round0 by done. unfold len in *. rewrite wrap_small by nia. lia.
  - rewrite up_offset0, prefix_next. unfold len. rewrite length_app, wrap_small.
    + lia.
    + unfold prefix_rounds. rewrite length_take, length_slice. unfold len in *. lia.
  - by rewrite lookup_insert_eq.
Qed.

(** ** The handlers *)

(** The upload [up] of file [F] is at pointer [ptr] of the manager. *)
Record upload_at (F up : bstr) (r : nat) (got : gset nat) (f : FileTransferManager) (ptr : nat) (s : TransferState) : Prop := mkAt {
  at_index : uploadIdToTransferState f !! bytesToHex up = Some ptr;
  at_heap : theap f !! ptr = Some s;
  at_state : uploading F r got s (disk f)
}.

Definition identity (s : TransferState) := (senderId s, receiverId s, uploadId s, fileName s, tempPath s).

(** What a handler leaves alone. *)
Record untouched (s s' : TransferState) (f f' : FileTransferManager) : Prop := mkUntouched {
  un_identity : identity s' = identity s;
  un_completed : completedUpload f' = completedUpload f;
  un_index : uploadIdToTransferState f' = uploadIdToTransferState f;
  un_disk : forall q, q <> tempPath s -> disk f' !! q = disk f !! q
}.

Lemma sound_chunk up F k : length up = UUID_SIZE -> len F <= 5 * 1024 * 1024 -> (k < chunk_count F)%nat -> sound (chunk_message up F k).
Proof.
  intros Hu HF Hk. apply chunk_count_spec in Hk. pose proof cs_Z. pose proof sizeof_data_Z. unfold len in HF. split_and!.
  - repeat constructor. done.
  - cbn. lia.
  - unfold fits. cbn [payload chunk_message]. rewrite !length_app. rewrite !length_be.
    unfold chunk. rewrite length_slice, Hu. unfold UUID_SIZE, HEADER_SIZE in *. lia.
Qed.

Lemma sound_round up F r : length up = UUID_SIZE -> len F <= 5 * 1024 * 1024 -> (r * rc < chunk_count F)%nat -> sound (round_message up F r).
Proof.
  intros Hu HF Hr. apply chunk_count_spec in Hr. pose proof cs_Z. pose proof rc_Z. pose proof sizeof_data_Z. unfold len in HF.
  split_and!.
  - repeat constructor. done.
  - cbn. unfold round_count. nia.
  - unfold fits. cbn [payload round_message]. rewrite !length_app. rewrite !length_be, Hu.
    unfold UUID_SIZE, HEADER_SIZE. lia.
Qed.

Lemma sound_end up crc : length up = UUID_SIZE -> 0 <= crc < 2 ^ 32 -> sound (FileEnd up crc).
Proof.
  intros Hu Hc. pose proof sizeof_data_Z. split_and!; [repeat constructor; done|done|].
  unfold fits. cbn [payload]. rewrite !length_app. rewrite !length_be, Hu.
  unfold UUID_SIZE, HEADER_SIZE. lia.
Qed.

Lemma chunk_step now sender F up r got f ptr s i st B E D k :
  upload_at F up r got f ptr s -> length up = UUID_SIZE -> (i < round_count F r)%nat ->
  chat_ok st B E D k -> (base.size B < currentSize)%nat ->
  exists p st1 f' s' st' E', arrive (chunk_message up F (r * rc + i)) st = Ok (p, st1) /\
    handle_upload now sender (chunk_message up F (r * rc + i)) p f st1 = Ok (f', st') /\
    upload_at F up r ({[i]} ∪ got) f' ptr s' /\ untouched s s' f f' /\ chat_ok st' B E' D k /\ st'.1 = st.1 /\ keeps B st st'.
Proof.
  intros [Hx Hh Hs] Hu Hi Hok Hroom. pose proof (proj1 (round_count_index F r i) Hi) as [Hrc Hlt].
  pose proof (sound_chunk up F (r * rc + i) Hu (up_small _ _ _ _ _ Hs) Hlt) as Hsound.
  destruct (arrive_take read_FileChunk (up, Z.of_nat ((r * rc + i) * cs), crc32c (chunk F (r * rc + i)) 0, chunk F (r * rc + i))
    _ st B E D k Hok Hroom Hsound) as (p & st1 & st2 & E' & Ha & Ht & Hok2 & Hq & _ & _ & Hold); [by intros pkt Hpkt|].
  exists p, st1. eexists _, (store_chunk _ _ s), st2, E'. split; [exact Ha|]. cbn [handle_upload chunk_message]. unfold handleFileChunk.
  rewrite Ht. cbn [obind]. unfold getTransferState. rewrite Hx. unfold state_at. rewrite Hh. cbn [obind].
  rewrite Z.eqb_refl. cbn [negb]. split; [reflexivity|]. split_and!; try done.
  - constructor; cbn [set_theap uploadIdToTransferState theap disk]; [done|by rewrite lookup_insert_eq|].
    by apply store_chunk_uploading.
  - constructor; try done. unfold store_chunk. by repeat case_match.
  - intros j Hj. by rewrite Hold.
Qed.

Lemma round_step now sender F up r got f ptr s st B E D k :
  upload_at F up r got f ptr s -> length up = UUID_SIZE -> (r * rc < chunk_count F)%nat ->
  chat_ok st B E D (S k) -> (base.size B < currentSize)%nat ->
  exists p st1 q f' s' st' E' D', arrive (round_message up F r) st = Ok (p, st1) /\
    handle_upload now sender (round_message up F r) p f st1 = Ok (f', st') /\
    (if decide (missing_of F r got = []) then upload_at F up (S r) ∅ f' ptr s' else upload_at F up r got f' ptr s') /\
    untouched s s' f f' /\ q ∉ B /\ chat_ok st' ({[q]} ∪ B) E' D' k /\ queued (senderId s) st' = queued (senderId s) st ++ [q] /\
    packet_carries st'.2 q (FileAck up (Z.of_nat r) (Z.of_nat <$> missing_of F r got)) /\ keeps B st st'.
Proof.
  intros [Hx Hh Hs] Hu Hr Hok Hroom. pose proof (sound_round up F r Hu (up_small _ _ _ _ _ Hs) Hr) as Hsound.
  destruct (arrive_take (fun pkt => Ok (read_RoundEnd pkt)) (up, Z.of_nat r, Z.of_nat (round_count F r))
    _ st B E D (S k) Hok Hroom Hsound) as (p & st1 & st2 & E' & Ha & Ht & Hok2 & Hq & _ & _ & Hold).
  { intros pkt Hpkt. by f_equal. }
  destruct (finish_round_uploading F r got s (disk f) Hs Hr) as (s' & dk' & Hf & Hid & Htp & Hdk & Hfn & Hrv & Hnext).
  destruct (deliver_ok (FileAck (hexToBytes (bytesToHex up)) (Z.of_nat r) (Z.of_nat <$> missing_of F r got)) (senderId s')
    st2 B E' D k Hok2 Hroom) as (q & st' & D' & Hd & HqB & Hok' & _ & Hqu & _ & Hc & Hold').
  { rewrite hexToBytes_bytesToHex by done. by repeat constructor. }
  exists p, st1, q. eexists _, s', st', _, D'. split; [exact Ha|]. cbn [handle_upload round_message]. unfold handleRoundEnd.
  rewrite Ht. cbn [obind]. unfold getTransferState. rewrite Hx. unfold state_at. rewrite Hh. cbn [obind].
  rewrite (up_round _ _ _ _ _ Hs) by done. rewrite Z.eqb_refl. cbn [negb]. rewrite Hf. cbn [obind]. unfold sendAck. rewrite Hd.
  cbn [obind]. split; [reflexivity|]. rewrite hexToBytes_bytesToHex in Hc by done. split_and!; try done.
  - case_decide; (constructor; cbn [set_theap set_disk uploadIdToTransferState theap disk];
      [done|by rewrite lookup_insert_eq|]); [done|]. by destruct Hnext as [-> ->].
  - constructor; try done. unfold identity. rewrite Hid, Htp, Hfn, Hrv. f_equal. f_equal. f_equal.
    revert Hf. unfold finish_round. destruct (missing_below _ _); cbn [obind]; try done. case_bool_decide; [|by intros [= _ <- _]].
    unfold writeRoundToDisk. by intros [= _ <- _].
  - rewrite Hid in Hqu. rewrite Hqu. unfold queued. by rewrite Hq.
  - intros j Hj. by rewrite Hold', Hold.
Qed.

(** How an upload has ended: the file is complete and the receiver-to-be can be told. *)
Record uploaded (F up : bstr) (s : TransferState) (ptr : nat) (f f' : FileTransferManager) : Prop := mkUploaded {
  ud_file : disk f' !! tempPath s = Some F;
  ud_disk : forall q, q <> tempPath s -> disk f' !! q = disk f !! q;
  ud_completed : completedUpload f' = completedUpload f ++ [ptr];
  ud_index : uploadIdToTransferState f' = delete (bytesToHex up) (uploadIdToTransferState f);
  ud_state : exists s', theap f' !! ptr = Some s' /\ identity s' = identity s /\ totalSize s' = len F
}.

Lemma end_step now sender F up crc r got f ptr s st B E D k :
  upload_at F up r got f ptr s -> length up = UUID_SIZE -> (chunk_count F <= r * rc)%nat -> 0 <= crc < 2 ^ 32 ->
  chat_ok st B E D (S k) -> (base.size B < currentSize)%nat ->
  exists p st1 f' st' B' E' D', arrive (FileEnd up crc) st = Ok (p, st1) /\
    handle_upload now sender (FileEnd up crc) p f st1 = Ok (f', st') /\ uploaded F up s ptr f f' /\ chat_ok st' B' E' D' k /\
    sends (senderId s) [upload_status up] st st' /\ keeps B st st'.
Proof.
  intros [Hx Hh Hs] Hu Hr Hcrc Hok Hroom. pose proof (sound_end up crc Hu Hcrc) as Hsound.
  destruct (arrive_take (fun pkt => Ok (read_FileEnd pkt)) (up, crc)
    _ st B E D (S k) Hok Hroom Hsound) as (p & st1 & st2 & E' & Ha & Ht & Hok2 & Hq & _ & _ & Hold).
  { intros pkt Hpkt. by f_equal. }
  destruct (deliver_ok (StringMsg PKT_FILE_STATUS (bytesToHex up ++ str " SUCCESS")) (senderId s) st2 B E' D k Hok2 Hroom)
    as (q & st' & D' & Hd & HqB & Hok' & _ & Hqu & _ & Hc & Hold'); [constructor|].
  exists p, st1. eexists _, st', _, _, D'. split; [exact Ha|]. cbn [handle_upload]. unfold handleFileEnd.
  rewrite Ht. cbn [obind]. unfold getTransferState. rewrite Hx. unfold state_at. rewrite Hh. cbn [obind].
  rewrite (up_offset _ _ _ _ _ Hs), (up_total _ _ _ _ _ Hs), (prefix_complete _ _ Hr), Z.eqb_refl. cbn [obind].
  unfold sendFileStatus. rewrite Hd. cbn [obind]. split; [reflexivity|]. split_and!; [|exact Hok'|..].
  2: { apply (sends_one _ q); [rewrite Hqu; unfold queued; by rewrite Hq|exact Hc]. }
  2: { intros j Hj. by rewrite Hold', Hold. }
  pose proof (up_disk _ _ _ _ _ Hs) as Hdk. rewrite (prefix_complete _ _ Hr) in Hdk.
  constructor; cbn [set_completed set_theap disk completedUpload uploadIdToTransferState theap]; try done.
  eexists. split; [by rewrite lookup_insert_eq|]. split; [done|]. exact (up_total _ _ _ _ _ Hs).
Qed.

Lemma uploaded_before F up s s1 ptr f f1 f' :
  untouched s s1 f f1 -> uploaded F up s1 ptr f1 f' -> uploaded F up s ptr f f'.
Proof.
  intros [Hid Hc Hx Hd] [H1 H2 H3 H4 H5]. unfold identity in Hid. injection Hid as E1 E2 E3 E4 E5.
  rewrite E5 in *. constructor; try done; try congruence.
  - intros q Hq. rewrite H2 by done. auto.
  - destruct H5 as (s' & Hl & Hi & Ht). exists s'. split_and!; try done. rewrite Hi. unfold identity. congruence.
Qed.

Lemma untouched_sender s s' f f' : untouched s s' f f' -> senderId s' = senderId s.
Proof. intros [Hid _ _ _]. unfold identity in Hid. congruence. Qed.

Lemma run_uploads now sender F up crc r got ms :
  sender_run F up crc r got ms -> length up = UUID_SIZE -> 0 <= crc < 2 ^ 32 ->
  forall f ptr s st B E D k, upload_at F up r got f ptr s -> chat_ok st B E D (length ms + k) ->
    (base.size B + length ms <= currentSize)%nat ->
    exists f' st' B' E' D', serve_upload now sender ms f st = Ok (f', st') /\ uploaded F up s ptr f f' /\ chat_ok st' B' E' D' k /\
      sends (senderId s) (upload_answers F up r got ms) st st' /\ keeps B st st'.
Proof.
  intros Hrun Hu Hcrc. induction Hrun as [r Hr|r got i ms Hi Hrun IH|r got ms Hr Hm Hrun IH|r got ms Hr Hm Hrun IH];
    intros f ptr s st B E D k Hat Hok Hroom; cbn [length Nat.add] in Hok, Hroom; cbn [serve_upload].
  - destruct (end_step now sender F up crc r ∅ f ptr s st B E D k Hat Hu Hr Hcrc Hok ltac:(lia))
      as (p & st1 & f' & st' & B' & E' & D' & Ha & Hh & Hud & Hok' & Hse & Hk).
    rewrite Ha. cbn [obind]. rewrite Hh. cbn [obind]. by exists f', st', B', E', D'.
  - destruct (chunk_step now sender F up r got f ptr s i st B E D (length ms + k) Hat Hu Hi) as
      (p & st1 & f1 & s1 & st2 & E' & Ha & Hh & Hat' & Hun & Hok' & Hq & Hk); [by eapply chat_ok_weaken, Hok; lia|lia|].
    rewrite Ha. cbn [obind]. rewrite Hh. cbn [obind].
    destruct (IH f1 ptr s1 st2 B E' D k Hat' Hok' ltac:(lia)) as (f' & st' & B' & E2 & D' & Hrun' & Hud & Hok2 & (qs & Hqs & Hall) & Hk').
    exists f', st', B', E2, D'. split_and!; try done; [by eapply uploaded_before| |by eapply keeps_trans].
    cbn [upload_answers chunk_message]. rewrite chunk_index by (apply round_count_index in Hi; lia).
    exists qs. rewrite <- (untouched_sender _ _ _ _ Hun). split; [|done]. rewrite Hqs. unfold queued. by rewrite Hq.
  - destruct (round_step now sender F up r got f ptr s st B E D (length ms + k) Hat Hu Hr Hok ltac:(lia)) as
      (p & st1 & q & f1 & s1 & st2 & E' & D1 & Ha & Hh & Hat' & Hun & HqB & Hok' & Hq & Hc & Hk).
    rewrite decide_False in Hat' by done.
    rewrite Ha. cbn [obind]. rewrite Hh. cbn [obind].
    destruct (IH f1 ptr s1 st2 _ E' D1 k Hat' Hok') as (f' & st' & B' & E2 & D' & Hrun' & Hud & Hok2 & Hse & Hk').
    { rewrite size_union, size_singleton by set_solver. lia. }
    rewrite (untouched_sender _ _ _ _ Hun) in Hse. exists f', st', B', E2, D'. split_and!; try done.
    + by eapply uploaded_before.
    + cbn [upload_answers round_message]. rewrite decide_False by done. eapply sends_cons; [exact Hq|exact Hc| |exact Hk'|exact Hse]. set_solver.
    + eapply keeps_trans; [|exact Hk|exact Hk']. set_solver.
  - destruct (round_step now sender F up r got f ptr s st B E D (length ms + k) Hat Hu Hr Hok ltac:(lia)) as
      (p & st1 & q & f1 & s1 & st2 & E' & D1 & Ha & Hh & Hat' & Hun & HqB & Hok' & Hq & Hc & Hk).
    rewrite decide_True in Hat' by done.
    rewrite Ha. cbn [obind]. rewrite Hh. cbn [obind].
    destruct (IH f1 ptr s1 st2 _ E' D1 k Hat' Hok') as (f' & st' & B' & E2 & D' & Hrun' & Hud & Hok2 & Hse & Hk').
    { rewrite size_union, size_singleton by set_solver. lia. }
    rewrite (untouched_sender _ _ _ _ Hun) in Hse. exists f', st', B', E2, D'. split_and!; try done.
    + by eapply uploaded_before.
    + cbn [upload_answers round_message]. rewrite decide_True by done. eapply sends_cons; [exact Hq|exact Hc| |exact Hk'|exact Hse]. set_solver.
    + eapply keeps_trans; [|exact Hk|exact Hk']. set_solver.
Qed.

(** The last answer is the status. *)
Lemma answers_status F up crc r got ms :
  sender_run F up crc r got ms -> exists l, upload_answers F up r got ms = l ++ [upload_status up].
Proof.
  induction 1 as [r Hr|r got i ms Hi Hrun [l IH]|r got ms Hr Hm Hrun [l IH]|r got ms Hr Hm Hrun [l IH]];
    cbn [upload_answers chunk_message round_message].
  - by exists [].
  - rewrite chunk_index by (apply round_count_index in Hi; lia). by exists l.
  - rewrite decide_False, IH by done. eexists (_ :: l). done.
  - rewrite decide_True, IH by done. eexists (_ :: l). done.
Qed.

(** ** The start of an upload *)

Definition partial_path (now : Z) (name up : bstr) : bstr :=
  saveDirectory ++ sanitize now name ++ str "_" ++ take 10 (bytesToHex up) ++ str ".partial".

Lemma sound_start recv up name total crc :
  length recv = UUID_SIZE -> length up = UUID_SIZE -> (length name <= 4000)%nat -> 0 <= total < 2 ^ 64 -> 0 <= crc < 2 ^ 32 ->
  sound (FileStart recv up name total crc).
Proof.
  intros Hr Hu Hn Ht Hc. pose proof sizeof_data_Z. split_and!; [repeat constructor; done|done|].
  unfold fits. cbn [payload]. rewrite !length_app, !length_be, Hu, Hr. unfold UUID_SIZE, HEADER_SIZE. lia.
Qed.

Lemma start_step now sender F recv up name crc r f st B E D k :
  let path := partial_path now name up in
  length recv = UUID_SIZE -> length up = UUID_SIZE -> (length name <= 4000)%nat -> len F <= 5 * 1024 * 1024 -> 0 <= crc < 2 ^ 32 ->
  default [] (disk f !! path) = prefix_rounds F r -> (r * rc * cs <= length F)%nat ->
  chat_ok st B E D (S k) -> (base.size B < currentSize)%nat ->
  exists p st1 q f' s st' E' D', arrive (FileStart recv up name (len F) crc) st = Ok (p, st1) /\
    handle_upload now sender (FileStart recv up name (len F) crc) p f st1 = Ok (f', st') /\
    upload_at F up r ∅ f' (tnext f) s /\
    identity s = (sender, bytesToHex recv, bytesToHex up, sanitize now name, path) /\
    completedUpload f' = completedUpload f /\ (forall q, q <> path -> disk f' !! q = disk f !! q) /\
    uploadIdToTransferState f' = <[bytesToHex up := tnext f]> (uploadIdToTransferState f) /\
    q ∉ B /\ chat_ok st' ({[q]} ∪ B) E' D' k /\ queued sender st' = queued sender st ++ [q] /\
    packet_carries st'.2 q (FileStartResponse up (len (prefix_rounds F r))).
Proof.
  intros path Hrv Hu Hn HF Hcrc Hdk Hr Hok Hroom.
  assert (Hlen : 0 <= len F < 2 ^ 64) by (unfold len in *; lia).
  pose proof (sound_start recv up name (len F) crc Hrv Hu Hn Hlen Hcrc) as Hsound.
  destruct (arrive_take read_FileStart (recv, up, len F, crc, name) _ st B E D (S k) Hok Hroom Hsound)
    as (p & st1 & st2 & E' & Ha & Ht & Hok2 & Hq & _ & _ & _); [by intros pkt Hpkt|].
  destruct (deliver_ok (FileStartResponse (hexToBytes (bytesToHex up)) (len (prefix_rounds F r))) sender st2 B E' D k Hok2 Hroom)
    as (q & st' & D' & Hd & HqB & Hok' & _ & Hqu & _ & Hc & _).
  { rewrite hexToBytes_bytesToHex by done. by repeat constructor. }
  exists p, st1, q. eexists _, _, st', _, D'. split; [exact Ha|]. cbn [handle_upload]. unfold handleFileStart.
  rewrite Ht. cbn [obind]. rewrite (proj2 (Z.ltb_ge _ _)) by lia. cbn [negb]. fold (partial_path now name up). fold path.
  rewrite Hdk, Hd. cbn [obind]. split; [reflexivity|]. rewrite hexToBytes_bytesToHex in Hc by done.
  assert (Hl : len (prefix_rounds F r) = Z.of_nat r * (MAX_CHUNK_SIZE * MAX_CHUNKS_PER_ROUND)).
  { pose proof rc_Z. pose proof cs_Z. unfold len, prefix_rounds, MAX_CHUNK_SIZE, MAX_CHUNKS_PER_ROUND. rewrite length_take. lia. }
  split_and!; try done.
  - constructor; cbn [uploadIdToTransferState theap disk]; [by rewrite lookup_insert_eq..|].
    constructor; cbn [roundBuffer currentRound receivedOffset totalSize is_open tempPath];
      [exact (round_buffer_empty F r _ rc_eq)| |done|done|done| |done].
    + intros _. rewrite Hl, Z.div_mul by done. apply wrap_small. pose proof rc_Z. pose proof cs_Z. unfold len in *. nia.
    + by rewrite lookup_insert_eq.
  - reflexivity.
  - intros q' Hq'. cbn [disk]. by rewrite lookup_insert_ne.
  - rewrite Hqu. unfold queued. by rewrite Hq.
Qed.

(** A whole upload, from its first packet to the last. *)
Lemma upload_complete now sender F recv up name crc r ms f st B E D k :
  let path := partial_path now name up in
  length recv = UUID_SIZE -> length up = UUID_SIZE -> (length name <= 4000)%nat -> len F <= 5 * 1024 * 1024 -> 0 <= crc < 2 ^ 32 ->
  default [] (disk f !! path) = prefix_rounds F r -> (r * rc * cs <= length F)%nat ->
  sender_run F up crc r ∅ ms ->
  chat_ok st B E D (S (length ms) + k) -> (base.size B + S (length ms) <= currentSize)%nat ->
  exists f' st' ptr s', serve_upload now sender (FileStart recv up name (len F) crc :: ms) f st = Ok (f', st') /\
    disk f' !! path = Some F /\ (forall q, q <> path -> disk f' !! q = disk f !! q) /\
    completedUpload f' = completedUpload f ++ [ptr] /\ theap f' !! ptr = Some s' /\
    identity s' = (sender, bytesToHex recv, bytesToHex up, sanitize now name, path) /\ totalSize s' = len F /\
    getTransferState (bytesToHex up) f' = None /\
    sends sender (FileStartResponse up (len (prefix_rounds F r)) :: upload_answers F up r ∅ ms) st st' /\
    exists l, upload_answers F up r ∅ ms = l ++ [upload_status up].
Proof.
  intros path Hrv Hu Hn HF Hcrc Hdk Hr Hrun Hok Hroom.
  destruct (start_step now sender F recv up name crc r f st B E D (length ms + k) Hrv Hu Hn HF Hcrc Hdk Hr Hok ltac:(lia))
    as (p & st1 & q & f1 & s & st2 & E' & D' & Ha & Hh & Hat & Hid & Hco & Hot & Hix & HqB & Hok' & Hq & Hc).
  destruct (run_uploads now sender F up crc r ∅ ms Hrun Hu Hcrc f1 (tnext f) s st2 _ E' D' k Hat Hok')
    as (f' & st' & B' & E2 & D2 & Hrun' & [H1 H2 H3 H4 (s' & H5 & H6 & H7)] & _ & Hse & Hk).
  { rewrite size_union, size_singleton by set_solver. lia. }
  assert (Hsd : senderId s = sender /\ tempPath s = path) by (unfold identity in Hid; by injection Hid as -> _ _ _ ->).
  destruct Hsd as [Hsd Htp]. rewrite Htp in H1, H2. rewrite Hsd in Hse.
  exists f', st', (tnext f), s'. cbn [serve_upload]. rewrite Ha. cbn [obind]. rewrite Hh. cbn [obind].
  split_and!; try done; try congruence.
  - intros q' Hq'. rewrite H2 by done. auto.
  - by rewrite H6, Hid.
  - unfold getTransferState. rewrite H4. apply lookup_delete_eq.
  - eapply sends_cons; [exact Hq|exact Hc| |exact Hk|exact Hse]. set_solver.
  - by eapply answers_status.
Qed.


(** ** A chunk of an earlier round *)

(** The file [F] with its chunk [k] overwritten by [c]. *)
Definition overwritten (F : bstr) (k : nat) (c : bstr) : bstr := blit (k * cs) c F.

Section Overwritten.
Context (F : bstr) (k : nat) (c : bstr) (Hc : length c = cs) (Hk : (S k * cs <= length F)%nat).

Lemma length_overwritten : length (overwritten F k c) = length F.
Proof. unfold overwritten. apply length_blit. lia. Qed.

Lemma overwritten_chunk j : chunk (overwritten F k c) j = if decide (j = k) then c else chunk F j.
Proof.
  unfold overwritten, chunk. case_decide as Hj.
  - subst j. apply slice_blit_eq; lia.
  - destruct (Nat.lt_ge_cases j k); [apply slice_blit_before|apply slice_blit_after]; nia.
Qed.

Lemma overwritten_counts r : round_count (overwritten F k c) r = round_count F r.
Proof. unfold round_count, chunk_count, len. by rewrite length_overwritten. Qed.
End Overwritten.

(** The chunks of round [r] of [F], all of them in order, reach a buffer into which a
    wrong chunk [c] was put in place [i]: it is the buffer of the overwritten file. *)
Lemma chunks_overwritten F r i c got dk n :
  length c = cs -> (i < rc)%nat -> (S (r * rc + i) * cs <= length F)%nat -> i ∈ got -> (n <= round_count F r)%nat ->
  forall s, uploading (overwritten F (r * rc + i) c) r got s dk ->
  uploading (overwritten F (r * rc + i) c) r (list_to_set (seq 0 n) ∪ got)
    (foldl (fun s j => store_chunk (Z.of_nat ((r * rc + j) * cs)) (chunk F (r * rc + j)) s) s (seq 0 n)) dk.
Proof.
  intros Hc Hi Hk Hin. induction n as [|n IH]; intros Hn s Hu.
  - cbn [seq list_to_set foldl]. by replace (∅ ∪ got) with got by set_solver.
  - rewrite seq_S, foldl_app, list_to_set_app_L. cbn [foldl list_to_set Nat.add].
    specialize (IH ltac:(lia) s Hu). set (s' := foldl _ s (seq 0 n)) in *.
    destruct (decide (n = i)) as [->|Hne].
    + replace (_ ∪ _ ∪ got) with (list_to_set (seq 0 i) ∪ got) by set_solver.
      unfold store_chunk at 1. rewrite chunk_index, (up_buffer _ _ _ _ _ IH), round_buffer_lookup by done.
      rewrite decide_True, overwritten_chunk, decide_True by (done || set_solver). pose proof cs_Z.
      rewrite bool_decide_eq_false_2 by (intros ->; cbn in Hc; lia). done.
    + pose proof (store_chunk_uploading _ r _ s' dk n IH) as Hs. rewrite overwritten_counts, overwritten_chunk in Hs by done.
      rewrite decide_False in Hs by lia. specialize (Hs ltac:(lia)).
      by replace (list_to_set (seq 0 n) ∪ ({[n]} ∪ ∅) ∪ got) with ({[n]} ∪ (list_to_set (seq 0 n) ∪ got)) by set_solver.
Qed.

(** A chunk that is repeated after its round takes the place of the chunk with the same
    index of the round that is arriving, since [handleFileChunk] reduces the number of the
    chunk without looking at its round.  Whatever genuine chunks then come, the round ends
    without a missing chunk and the state is that of a complete round of the file with the
    chunk overwritten: the size is the one announced, so the end of the file will be
    answered with success. *)
Theorem repeated_chunk_corrupts F r q i s dk :
  uploading F r ∅ s dk -> (q < r)%nat -> (i < rc)%nat -> (S (r * rc + i) * cs <= length F)%nat ->
  let stale := chunk F (q * rc + i) in
  let s1 := store_chunk (Z.of_nat ((q * rc + i) * cs)) stale s in
  let s2 := foldl (fun s j => store_chunk (Z.of_nat ((r * rc + j) * cs)) (chunk F (r * rc + j)) s) s1 (seq 0 (round_count F r)) in
  exists s' dk', finish_round (Z.of_nat (round_count F r)) s2 dk = Ok ([], s', dk') /\
    uploading (overwritten F (r * rc + i) stale) (S r) ∅ s' dk' /\ totalSize s' = totalSize s.
Proof.
  intros Hu Hq Hi Hk stale s1 s2. pose proof cs_Z. pose proof rc_Z.
  assert (Hl : length stale = cs) by (unfold stale, chunk; rewrite length_slice; nia).
  pose proof (length_overwritten F (r * rc + i) stale Hl Hk) as HF'.
  pose proof (chunk_count_spec F (r * rc + i)) as Hcc.
  assert (H1 : uploading (overwritten F (r * rc + i) stale) r {[i]} s1 dk).
  { pose proof (up_buffer _ _ _ _ _ Hu) as Hb. unfold s1, store_chunk. rewrite chunk_index, Hb, round_buffer_lookup by done.
    rewrite decide_False, bool_decide_eq_true_2 by set_solver. destruct Hu.
    assert (Hpre : prefix_rounds (overwritten F (r * rc + i) stale) r = prefix_rounds F r).
    { unfold prefix_rounds, overwritten, blit. rewrite take_app_le by (rewrite length_take; nia).
      rewrite take_take. f_equal. nia. }
    constructor; cbn [set_round roundBuffer currentRound receivedOffset totalSize is_open tempPath]; rewrite ?Hpre; try done.
    - rewrite <- (round_buffer_empty F r rc eq_refl), (round_buffer_empty (overwritten F (r * rc + i) stale) r rc eq_refl).
      replace {[i]} with ({[i]} ∪ ∅ : gset nat) by set_solver. rewrite <- round_buffer_insert by done.
      rewrite overwritten_chunk by done. by rewrite decide_True by done.
    - intros _. apply up_round0. lia.
    - unfold len in *. by rewrite HF'.
    - unfold len in *. by rewrite HF'. }
  pose proof (chunks_overwritten F r i stale {[i]} dk (round_count F r) Hl Hi Hk ltac:(set_solver) ltac:(lia) s1 H1) as H2.
  fold s2 in H2. pose proof (overwritten_counts F (r * rc + i) stale Hl Hk r) as Hcnt.
  destruct (finish_round_uploading _ r _ s2 dk H2) as (s' & dk' & Hf & _ & _ & _ & _ & _ & H3).
  { apply chunk_count_spec. lia. }
  assert (Hm : missing_of (overwritten F (r * rc + i) stale) r (list_to_set (seq 0 (round_count F r)) ∪ {[i]}) = []).
  { unfold missing_of. rewrite Hcnt. apply elem_of_nil_inv. intros j [Hno Hj]%list_elem_of_filter.
    apply Hno. set_solver. }
  rewrite Hm, Hcnt in Hf. rewrite decide_True in H3 by done. exists s', dk'. split_and!; [done|done|].
  rewrite (up_total _ _ _ _ _ H3), (up_total _ _ _ _ _ Hu). unfold len. by rewrite HF'.
Qed.

(** ** Every answer to the end of a round *)

Lemma sound_round_end up r n : length up = UUID_SIZE -> 0 <= r < 2 ^ 32 -> 0 <= n < 2 ^ 32 -> sound (RoundEnd up r n).
Proof.
  intros Hu Hr Hn. pose proof sizeof_data_Z. split_and!; [repeat constructor; done|done|].
  unfold fits. cbn [payload]. rewrite !length_app, !length_be, Hu. unfold UUID_SIZE, HEADER_SIZE. lia.
Qed.

(** The chunks below [n] that the buffer lacks. *)
Definition lacking (n : Z) (s : TransferState) : list Z :=
  Z.of_nat <$> filter (fun i => roundBuffer s !! i = Some []) (seq 0 (Z.to_nat n)).

Lemma missing_below_spec n s :
  missing_below n (roundBuffer s) = if decide (n <= len (roundBuffer s)) then Ok (lacking n s) else UB.
Proof.
  unfold missing_below, lacking. destruct (Z.ltb_spec (len (roundBuffer s)) n); case_decide; (done || lia).
Qed.

(** The state and the disk after a complete round. *)
Definition next_round (s : TransferState) : TransferState :=
  set_round (replicate (length (roundBuffer s)) []) (wrap 64 (receivedOffset s + len (round_bytes s)))
    (wrap 32 (currentRound s + 1)) 0 s.
Definition with_round (s : TransferState) (dk : gmap bstr bstr) : gmap bstr bstr :=
  if is_open s then <[tempPath s := default [] (dk !! tempPath s) ++ round_bytes s]> dk else dk.

(** What the end of round [r] with [n] chunks makes of the manager, and the
    acknowledgement: its round and its missing chunks. *)
Definition round_end_result (r n : Z) (ptr : nat) (s : TransferState) (f : FileTransferManager)
  : FileTransferManager * Z * list Z :=
  if negb (r =? currentRound s) then (f, currentRound s, [])
  else if decide (lacking n s = []) then
    (set_theap (<[ptr := next_round s]> (theap f)) (set_disk (with_round s (disk f)) f), r, [])
  else (set_theap (<[ptr := s]> (theap f)) (set_disk (disk f) f), r, lacking n s).

Lemma finish_round_spec n s dk :
  finish_round n s dk =
    if decide (n <= len (roundBuffer s)) then
      Ok (if decide (lacking n s = []) then ([], next_round s, with_round s dk) else (lacking n s, s, dk))
    else UB.
Proof.
  unfold finish_round. rewrite missing_below_spec. case_decide; [|done]. cbn [obind].
  case_bool_decide as Hl; case_decide; try done. by rewrite Hl.
Qed.

(** The end of a round, on every branch.  For an upload in progress, a packet that
    ends round [r] and claims [n] chunks is answered as follows.  If [r] is not the
    current round, nothing changes and the sender is told the current round.  If it is and
    [n] is at most the size of the round buffer, the acknowledgement lists exactly the
    numbers below [n] whose chunk has not come; only if there is none, the round is
    appended to the file and the next round begins.  If it is and [n] is larger, which the
    code does not test, the buffer is read outside its bounds. *)
Theorem round_end_answers up r n f ptr s st B E D k :
  uploadIdToTransferState f !! bytesToHex up = Some ptr -> theap f !! ptr = Some s ->
  length up = UUID_SIZE -> 0 <= r < 2 ^ 32 -> 0 <= n < 2 ^ 32 ->
  chat_ok st B E D (S k) -> (base.size B < currentSize)%nat ->
  exists p st1, arrive (RoundEnd up r n) st = Ok (p, st1) /\
    if decide (r = currentRound s /\ len (roundBuffer s) < n) then handleRoundEnd p f st1 = UB
    else let '(f', ack, missing) := round_end_result r n ptr s f in
      exists st' q d, handleRoundEnd p f st1 = Ok (f', st') /\ queued (senderId s) st' = queued (senderId s) st ++ [q] /\
        data <$> pool (packets st'.2) !! q = Some d /\ carries (FileAck up ack missing) d.
Proof.
  intros Hx Hh Hu Hr Hn Hok Hroom. pose proof (sound_round_end up r n Hu Hr Hn) as Hsound.
  destruct (arrive_take (fun pkt => Ok (read_RoundEnd pkt)) (up, r, n) _ st B E D (S k) Hok Hroom Hsound)
    as (p & st1 & st2 & E' & Ha & Ht & Hok2 & Hq & _ & _ & _).
  { intros pkt Hpkt. by f_equal. }
  exists p, st1. split; [exact Ha|].
  assert (Hack : forall round missing, exists st' q d, sendAck (bytesToHex up) round missing (senderId s) st2 = Ok st' /\
    queued (senderId s) st' = queued (senderId s) st ++ [q] /\
    data <$> pool (packets st'.2) !! q = Some d /\ carries (FileAck up round missing) d).
  { intros round missing. unfold sendAck. rewrite hexToBytes_bytesToHex by done.
    destruct (deliver_ok (FileAck up round missing) (senderId s) st2 B E' D k Hok2 Hroom)
      as (q & st' & D' & Hd & _ & _ & _ & Hqu & _ & (d & Hd1 & Hc) & _); [by repeat constructor|].
    exists st', q, d. rewrite Hqu. unfold queued. by rewrite Hq. }
  unfold handleRoundEnd, round_end_result. rewrite Ht. cbn [obind]. unfold getTransferState. rewrite Hx.
  unfold state_at. rewrite Hh. cbn [obind].
  destruct (Z.eqb_spec r (currentRound s)) as [Hcur|Hcur]; cbn [negb].
  2: { rewrite decide_False by naive_solver. destruct (Hack (currentRound s) []) as (st' & q & d & -> & Hrest).
       exists st', q, d. by split. }
  rewrite finish_round_spec. destruct (decide (n <= len (roundBuffer s))) as [Hle|Hle].
  2: { by rewrite decide_True by (split; [done|lia]). }
  rewrite decide_False by lia. destruct (decide (lacking n s = [])) as [Hl|Hl]; cbn [obind].
  - destruct (Hack r []) as (st' & q & d & Hs & Hrest). exists st', q, d.
    change (senderId (next_round s)) with (senderId s). by rewrite Hs.
  - destruct (Hack r (lacking n s)) as (st' & q & d & -> & Hrest). exists st', q, d. by split.
Qed.

(** ** A file end that comes too early *)

(** When an upload is ended before all its bytes have come, [handleFileEnd] goes
    through [cleanupTransfer], which uses the iterator of the entry it has just erased:
    the behaviour is undefined, and no failure status is sent. *)
Theorem early_file_end_undefined now up crc f ptr s st B E D k :
  uploadIdToTransferState f !! bytesToHex up = Some ptr -> theap f !! ptr = Some s -> receivedOffset s <> totalSize s ->
  length up = UUID_SIZE -> 0 <= crc < 2 ^ 32 -> chat_ok st B E D (S k) -> (base.size B < currentSize)%nat ->
  exists p st1, arrive (FileEnd up crc) st = Ok (p, st1) /\ handleFileEnd now p f st1 = UB.
Proof.
  intros Hx Hh Hs Hu Hcrc Hok Hroom. pose proof (sound_end up crc Hu Hcrc) as Hsound.
  destruct (arrive_take (fun pkt => Ok (read_FileEnd pkt)) (up, crc) _ st B E D (S k) Hok Hroom Hsound)
    as (p & st1 & st2 & E' & Ha & Ht & _).
  { intros pkt Hpkt. by f_equal. }
  exists p, st1. split; [exact Ha|]. unfold handleFileEnd. rewrite Ht. cbn [obind].
  unfold getTransferState. rewrite Hx. unfold state_at at 1. rewrite Hh. cbn [obind].
  rewrite (proj2 (Z.eqb_neq _ _)) by done. unfold cleanupTransfer. cbn [set_theap uploadIdToTransferState]. rewrite Hx.
  unfold state_at. cbn [set_theap theap]. by rewrite lookup_insert_eq.
Qed.
End WithChecksum.

(** ** Evaluation *)

Definition no_files : FileTransferManager := mkFiles ∅ 0 ∅ ∅ ∅ [] ∅.

(** A sender of a one-chunk file whose chunk first gets lost and then arrives twice. *)
Definition sample_file : bstr := str "hello".
Definition sample_upload : list message :=
  [round_message (zeros 16) sample_file 0; chunk_message (zeros 16) sample_file 0;
   chunk_message (zeros 16) sample_file 0; round_message (zeros 16) sample_file 0; FileEnd (zeros 16) 7].

Lemma sample_sender : sender_run sample_file (zeros 16) 7 0 ∅ sample_upload.
Proof.
  assert (Hc : chunk_count sample_file = 1%nat) by reflexivity. pose proof rc_Z. pose proof cs_Z.
  assert (Hr : round_count sample_file 0 = 1%nat) by (unfold round_count; rewrite Hc; lia).
  apply run_missing; [lia|unfold missing_of; by rewrite Hr|].
  change (chunk_message (zeros 16) sample_file 0) with (chunk_message (zeros 16) sample_file (0 * rc + 0)).
  apply run_chunk; [lia|]. apply run_chunk; [lia|]. apply run_next; [lia| |].
  - unfold missing_of. by rewrite Hr.
  - apply run_end. lia.
Qed.


(** An upload of two chunks of which none has come. *)
Definition sample_state : TransferState :=
  mkTransfer (str "ada") (str "bob") (bytesToHex (zeros 16)) (str "a.txt") (str "./uploads/a.txt") [] 4000 0 0 0 7 false
    (replicate 1024 []) (replicate 1024 0) [] true.
Definition sample_files : FileTransferManager := mkFiles {[ 0%nat := sample_state ]} 1 ∅ {[ bytesToHex (zeros 16) := 0%nat ]} ∅ [] ∅.

Lemma round_end_answers_witness :
  exists st p st1, arrive (C := compute_soft) (RoundEnd (zeros 16) 0 1025) st = Ok (p, st1) /\
    handleRoundEnd (C := compute_soft) p sample_files st1 = UB.
Proof.
  destruct (fresh_chat one_connection 6) as (st & Hok & _); [eapply reg_history_inv, first_connection_history|lia|].
  destruct (round_end_answers (C := compute_soft) (zeros 16) 0 1025 sample_files 0 sample_state st ∅ ∅ ∅ 5)
    as (p & st1 & Ha & H).
  - reflexivity.
  - reflexivity.
  - reflexivity.
  - lia.
  - lia.
  - exact Hok.
  - rewrite size_empty. pose proof currentSize_Z. lia.
  - rewrite decide_True in H by (vm_compute; split; reflexivity). exists st, p, st1. split; [exact Ha|exact H].
Defined.

Lemma early_file_end_undefined_witness :
  exists st p st1, arrive (C := compute_soft) (FileEnd (zeros 16) 7) st = Ok (p, st1) /\
    handleFileEnd (C := compute_soft) 0 p sample_files st1 = UB.
Proof.
  destruct (fresh_chat one_connection 6) as (st & Hok & _); [eapply reg_history_inv, first_connection_history|lia|].
  destruct (early_file_end_undefined (C := compute_soft) 0 (zeros 16) 7 sample_files 0 sample_state st ∅ ∅ ∅ 5)
    as (p & st1 & Ha & H).
  - reflexivity.
  - reflexivity.
  - vm_compute. congruence.
  - reflexivity.
  - lia.
  - exact Hok.
  - rewrite size_empty. pose proof currentSize_Z. lia.
  - exists st, p, st1. split; [exact Ha|exact H].
Defined.
