(* ===== verification/Download.v ===== *)
(** Downloads: what FIleDownload.cpp sends of a file.

    The waits for acknowledgements are given: [acks] says for each whether it timed out or
    which chunks were reported missing, and the wait behind the last of them times out.
    The theorems hold for all such finite courses; DownloadThreads shows that the thread,
    step by step, behaves as for one of them. *)

From stdpp Require Import pretty.
From S2P Require Import Prelude Crc32c Packet Serialize CircularBuffer Fqueue PacketPool Framing Session Offline Network AuthStore Auth Delivery FileTransfer.

(** ** Reading a round *)

(** Block [k] of a download that starts at byte [start]: its offset and its bytes. *)
Definition block_at (content : bstr) (start k : nat) : Z * bstr :=
  (Z.of_nat (start + k * cs), slice (start + k * cs) cs content).

Lemma read_block content b :
  (b < length content)%nat ->
  take (Z.to_nat (Z.min MAX_CHUNK_SIZE (len content - Z.of_nat b))) (drop (Z.to_nat (Z.of_nat b)) content) = slice b cs content.
Proof.
  intros Hb. pose proof cs_Z. unfold slice, len, MAX_CHUNK_SIZE. rewrite Nat2Z.id.
  destruct (le_lt_dec cs (length content - b)).
  - f_equal. lia.
  - rewrite (take_ge (drop b content) cs), take_ge by (rewrite length_drop; lia). done.
Qed.

Lemma read_round_spec n i slots content b :
  (i + n <= slots)%nat ->
  exists blocks b', read_round n i slots content (len content) (Z.of_nat b) = Ok (blocks, Z.of_nat b') /\
    (forall k, blocks !! k = if decide (k < n /\ b + k * cs < length content)%nat then Some (block_at content b k) else None) /\
    (b' = b + n * cs \/ length content <= b' /\ length content <= b + n * cs)%nat.
Proof.
  revert i b. induction n as [|n IH]; intros i b Hi; cbn [read_round].
  { exists [], b. split_and!; [done| |lia]. intros k. by rewrite decide_False by lia. }
  pose proof cs_Z. destruct (Z.ltb_spec (Z.of_nat b) (len content)) as [Hb|Hb]; unfold len in Hb.
  2: { exists [], b. split_and!; [done| |nia]. intros k. by rewrite decide_False by nia. }
  rewrite read_block by lia.
  assert (Hl : length (slice b cs content) = (cs `min` (length content - b))%nat) by apply length_slice.
  rewrite bool_decide_eq_false_2 by (intros E; rewrite E in Hl; cbn in Hl; lia).
  rewrite (proj2 (Nat.leb_gt _ _)) by lia.
  replace (Z.of_nat b + len (slice b cs content)) with (Z.of_nat (b + (cs `min` (length content - b)))) by (unfold len; lia).
  destruct (IH (S i) (b + (cs `min` (length content - b)))%nat ltac:(lia)) as (blocks & b' & Hr & Hbl & Hb'). rewrite Hr. cbn [obind].
  eexists _, b'. split_and!; [done| |nia]. intros [|k].
  - rewrite decide_True by lia. cbn. unfold block_at. do 2 f_equal; [lia|f_equal; lia].
  - cbn [lookup list_lookup]. rewrite Hbl. destruct (le_lt_dec cs (length content - b)).
    + rewrite Nat.min_l by lia. unfold block_at. replace (b + cs + k * cs)%nat with (b + S k * cs)%nat by lia.
      repeat case_decide; (done || lia).
    + rewrite !decide_False by nia. done.
Qed.

(** ** The messages of a download *)

Definition block_message (up content : bstr) (start k : nat) : message :=
  let (o, d) := block_at content start k in FileChunk up o d.

(** A chunk of the file at its place, or the end of a round. *)
Definition genuine (up content : bstr) (start : nat) (m : message) : Prop :=
  (exists k, (start + k * cs < length content)%nat /\ m = block_message up content start k) \/
  (exists r n, m = RoundEnd up r n /\ 0 <= n <= MAX_CHUNKS_PER_ROUND).

Lemma genuine_shift up content start j m : genuine up content (start + j * cs) m -> genuine up content start m.
Proof.
  intros [(k & Hk & ->)|Hm]; [left|by right]. exists (j + k)%nat. split; [lia|].
  unfold block_message, block_at. by replace (start + (j + k) * cs)%nat with (start + j * cs + k * cs)%nat by lia.
Qed.

(** The waits a round uses up. *)
Lemma ack_loop_shorter up r blocks acks ms rest :
  ack_loop up r blocks acks = (ms, (Complete, rest)) -> (length rest < length acks)%nat.
Proof.
  revert ms. induction acks as [|[missing|] acks IH]; intros ms; cbn [ack_loop]; try done.
  do 2 (case_bool_decide; [by intros [= _ <-]; cbn [length]; lia|]).
  destruct (ack_loop up r blocks acks) as [ms' [e l]] eqn:E. intros [= _ -> ->]. specialize (IH _ eq_refl). cbn [length]. lia.
Qed.

Lemma ack_loop_messages (P : message -> Prop) up r blocks acks :
  P (RoundEnd up r (len blocks)) -> (forall b, b ∈ blocks -> P (FileChunk up b.1 b.2)) ->
  Forall P (ack_loop up r blocks acks).1.
Proof.
  intros Hr Hb. induction acks as [|[missing|] acks IH]; cbn [ack_loop]; [by repeat constructor| |by repeat constructor].
  do 2 (case_bool_decide; [by repeat constructor|]).
  destruct (ack_loop up r blocks acks) as [ms e]. cbn [fst] in *. constructor; [done|]. apply Forall_app. split; [|done].
  unfold chunk_messages. apply Forall_fmap, Forall_forall. intros b Hin. apply Hb.
  unfold resend in Hin. apply list_elem_of_In, list_elem_of_omap in Hin as (idx & _ & Hidx).
  case_match; [|done]. by eapply list_elem_of_lookup_2.
Qed.

Lemma transfer_rounds_spec up content start slots fuel j b r acks :
  (rc <= slots)%nat -> (length acks < fuel)%nat ->
  (b = start + j * rc * cs \/ length content <= b /\ length content <= start + j * rc * cs)%nat ->
  exists ms e, transfer_rounds fuel slots up content (len content) (Z.of_nat b) r acks = Ok (Some (ms, e)) /\
    Forall (genuine up content start) ms /\
    (e = Complete -> forall k, (j * rc <= k)%nat -> (start + k * cs < length content)%nat -> block_message up content start k ∈ ms).
Proof.
  intros Hslots. revert j b r acks. induction fuel as [|fuel IH]; intros j b r acks Hf Hb; [lia|]. cbn [transfer_rounds].
  pose proof cs_Z. pose proof rc_Z.
  destruct (Z.ltb_spec (Z.of_nat b) (len content)) as [Hlt|Hge]; [unfold len in Hlt|unfold len in Hge].
  2: { exists [], Complete. split_and!; [done|by constructor|]. intros _ k Hk Hlt. nia. }
  destruct Hb as [Hb|?]; [|lia]. rewrite rc_eq.
  destruct (read_round_spec rc 0 slots content b ltac:(lia)) as (blocks & b' & Hr & Hbl & Hb'). rewrite Hr. cbn [obind].
  assert (Hne : blocks <> []) by (intros ->; specialize (Hbl 0%nat); rewrite decide_True in Hbl by lia; done).
  rewrite bool_decide_eq_false_2 by done.
  assert (Hlen : (length blocks <= rc)%nat).
  { destruct (le_lt_dec (length blocks) rc) as [|Hl]; [done|]. apply lookup_lt_is_Some_2 in Hl as [x Hx].
    rewrite Hbl in Hx. rewrite decide_False in Hx by lia. done. }
  assert (Hgen : forall x, x ∈ blocks -> genuine up content start (FileChunk up x.1 x.2)).
  { intros x Hin. apply list_elem_of_lookup_1 in Hin as [k Hk]. rewrite Hbl in Hk. case_decide as Hd; [|done].
    injection Hk as <-. apply (genuine_shift _ _ _ (j * rc)). left. exists k. rewrite <- Hb. by split; [lia|]. }
  pose proof (ack_loop_shorter up r blocks acks) as Hsh.
  assert (Hms : Forall (genuine up content start) (ack_loop up r blocks acks).1).
  { apply ack_loop_messages; [|done]. right. do 2 eexists. split; [done|]. unfold len, MAX_CHUNKS_PER_ROUND. lia. }
  destruct (ack_loop up r blocks acks) as [ms [e rest]]. cbn [fst] in Hms.
  assert (Hround : Forall (genuine up content start) (chunk_messages up blocks ++ ms)).
  { apply Forall_app. split; [|done]. unfold chunk_messages. apply Forall_fmap, Forall_forall. intros x Hx%list_elem_of_In. by apply Hgen. }
  destruct e; [|by eexists _, _; split_and!..].
  specialize (Hsh ms rest eq_refl).
  destruct (IH (S j) b' (wrap 32 (r + 1)) rest ltac:(lia) ltac:(nia)) as (ms' & e' & -> & Hg' & Hc'). cbn [obind].
  eexists _, e'. split_and!; [done|by apply Forall_app|]. intros He k Hk Hkl.
  destruct (le_lt_dec (S j * rc) k) as [Hn|Hn]; [apply elem_of_app; right; by apply Hc'|].
  do 2 (apply elem_of_app; left). unfold chunk_messages. apply list_elem_of_fmap. exists (block_at content start k). split; [done|].
  apply list_elem_of_lookup. exists (k - j * rc)%nat. rewrite Hbl, decide_True by nia. unfold block_at.
  by replace (b + (k - j * rc) * cs)%nat with (start + k * cs)%nat by nia.
Qed.

(** A client that reports the first chunk of the round missing [n] times is asked [n + 1]
    times and sent that chunk [n] times: the loop has no bound of its own. *)
Lemma ack_loop_insists up r b blocks n :
  ack_loop up r (b :: blocks) (replicate n (Some [0])) =
    (concat (replicate n [RoundEnd up r (len (b :: blocks)); FileChunk up b.1 b.2]) ++ [RoundEnd up r (len (b :: blocks))],
     (AckTimeout, [])).
Proof. induction n as [|n IH]; [done|]. cbn [replicate ack_loop concat app]. by rewrite IH. Qed.

Lemma transfer_insists up content start slots r n :
  (rc <= slots)%nat -> (start < length content)%nat ->
  exists blocks, let ask := RoundEnd up r (len blocks) in
    transfer_rounds (S n) slots up content (len content) (Z.of_nat start) r (replicate n (Some [0])) =
      Ok (Some (chunk_messages up blocks ++ concat (replicate n [ask; block_message up content start 0]) ++ [ask], AckTimeout)).
Proof.
  intros Hslots Hs. pose proof cs_Z. pose proof rc_Z. cbn [transfer_rounds].
  destruct (Z.ltb_spec (Z.of_nat start) (len content)) as [_|Hge]; [|unfold len in Hge; lia]. rewrite rc_eq.
  destruct (read_round_spec rc 0 slots content start ltac:(lia)) as (blocks & b' & Hr & Hbl & _). rewrite Hr. cbn [obind].
  specialize (Hbl 0%nat). rewrite decide_True in Hbl by lia. destruct blocks as [|b blocks]; [done|]. injection Hbl as ->.
  exists (block_at content start 0 :: blocks). rewrite bool_decide_eq_false_2 by done. by rewrite ack_loop_insists.
Qed.

(** ** Delivering them *)

Section WithChecksum.
Context {C : Checksum} {L : ChecksumLaws C}.

Lemma deliver_all_ok ms id st B E D k :
  chat_ok st B E D (length ms + k) -> (base.size B + length ms <= currentSize)%nat -> Forall uuids_ok ms ->
  exists st' qs B' E' D', deliver_all ms id st = Ok st' /\ chat_ok st' B' E' D' k /\ B ⊆ B' /\
    (base.size B' = base.size B + length ms)%nat /\
    queued id st' = queued id st ++ qs /\ Forall2 (packet_carries st'.2) qs ms /\ registry st'.2 = registry st.2 /\
    (forall i, i ∈ B -> data <$> pool (packets st'.2) !! i = data <$> pool (packets st.2) !! i).
Proof.
  revert st B E D. induction ms as [|m ms IH]; intros st B E D Hok Hroom Hu; cbn [deliver_all length Nat.add] in *.
  { exists st, [], B, E, D. rewrite app_nil_r. split_and!; try done; lia. }
  apply Forall_cons_1 in Hu as [Hm Hu].
  destruct (deliver_ok m id st B E D (length ms + k) Hok ltac:(lia) Hm) as
    (q & st1 & D1 & Hd & HqB & Hok1 & Hr1 & Hq1 & _ & (d & Hd1 & Hc) & Hold1).
  assert (Hsz : base.size ({[q]} ∪ B) = S (base.size B)) by (rewrite size_union, size_singleton by set_solver; lia).
  destruct (IH st1 ({[q]} ∪ B) ({[q]} ∪ E) D1 Hok1 ltac:(lia) Hu) as
    (st' & qs & B' & E' & D' & Hda & Hok' & HB' & Hs' & Hq' & Hall & Hr' & Hold').
  exists st', (q :: qs), B', E', D'. rewrite Hd. cbn [obind]. split_and!; try done; try congruence.
  - set_solver.
  - lia.
  - by rewrite Hq', Hq1, <- app_assoc.
  - constructor; [|done]. exists d. rewrite Hold' by set_solver. by split.
  - intros i Hi. rewrite Hold' by set_solver. by apply Hold1.
Qed.

Lemma deliver_all_app ms ms' id st :
  deliver_all (ms ++ ms') id st = let! st := deliver_all ms id st in deliver_all ms' id st.
Proof.
  revert st. induction ms as [|m ms IH]; intros st; cbn [deliver_all app]; [done|].
  destruct (deliver m id st); cbn [obind]; auto.
Qed.

Lemma with_registry_receiving v id st B E D k :
  chat_ok st B E D k ->
  exists st', with_registry (setRecievingFile v id) st = Ok st' /\ chat_ok st' B E D k /\ st'.1 = st.1 /\
    packets st'.2 = packets st.2.
Proof.
  intros [Hn Hr Hq]. destruct (setRecievingFile_inv _ v id Hr) as (r' & Hs & Hr'). unfold with_registry. rewrite Hs. cbn [obind].
  eexists. split; [done|]. split_and!; try done. constructor; cbn [fst snd set_registry registry]; [|done|done].
  destruct Hn. by constructor.
Qed.

Lemma genuine_uuids up content start m : length up = UUID_SIZE -> genuine up content start m -> uuids_ok m.
Proof. intros Hu [(k & _ & ->)|(r & n & -> & _)]; by repeat constructor. Qed.

(** The thread of a download, once the slots for the offsets are in place. *)
Lemma transfer_sends_file rid upload content start acks f ptr s :
  downloadableFiles f !! bytesToHex upload = Some ptr -> theap f !! ptr = Some s -> length upload = UUID_SIZE ->
  disk f !! tempPath s = Some content -> totalSize s = len content -> len (roundOffsets s) = MAX_CHUNKS_PER_ROUND ->
  exists ms e,
    transfer_rounds (S (length acks)) (length (roundOffsets s)) upload content (totalSize s) (Z.of_nat start) (first_round (Z.of_nat start)) acks = Ok (Some (ms, e)) /\
    Forall (genuine upload content start) ms /\
    (e = Complete -> forall j, (start + j * cs < length content)%nat -> block_message upload content start j ∈ ms) /\
    (forall st B E D k, chat_ok st B E D (S (length ms) + k) -> (base.size B + S (length ms) <= currentSize)%nat ->
     exists st' qs, HandleFileTransfer (mkJob rid (bytesToHex upload) (Z.of_nat start)) acks f st = Ok st' /\
       queued rid st' = queued rid st ++ qs /\
       Forall2 (packet_carries st'.2) qs (ms ++ match e with Complete => [FileEnd upload (finalCrc s)] | _ => [] end)).
Proof.
  intros Hx Hh Hu Hdk Ht Hsl.
  destruct (transfer_rounds_spec upload content start (length (roundOffsets s)) (S (length acks)) 0 start
    (first_round (Z.of_nat start)) acks) as (ms & e & Hrun & Hg & Hc).
  { rewrite <- rc_eq, <- Hsl. unfold len. lia. }
  { lia. }
  { lia. }
  exists ms, e. rewrite Ht. split_and!; [done|done|by intros He j Hj; apply Hc; [|lia|]|].
  intros st B E D k Hok Hroom. unfold HandleFileTransfer. cbn [job_upload job_receiver job_start]. rewrite Hx.
  unfold state_at. rewrite Hh. cbn [obind]. rewrite Hdk, hexToBytes_bytesToHex, Ht, Hrun by done. cbn [obind].
  assert (Hus : Forall uuids_ok ms) by (eapply Forall_impl; [|exact Hg]; intros m; by apply genuine_uuids).
  set (end_ := match e with Complete => _ | _ => _ end).
  assert (Hle : (length (ms ++ end_) <= S (length ms))%nat) by (rewrite length_app; destruct e; cbn; lia).
  destruct (deliver_all_ok (ms ++ end_) rid st B E D k) as (st1 & qs & B1 & E1 & D1 & Hd & Hok1 & _ & _ & Hq & Hall & _ & _).
  { eapply chat_ok_weaken, Hok. lia. }
  { lia. }
  { apply Forall_app. split; [done|]. destruct e; by repeat constructor. }
  rewrite deliver_all_app in Hd. destruct (deliver_all ms rid st) as [st2| |]; try done. cbn [obind] in Hd |- *.
  destruct (with_registry_receiving false rid st1 _ _ _ _ Hok1) as (st3 & Hw & _ & E1' & E2').
  assert (Hall3 : Forall2 (packet_carries st3.2) qs (ms ++ end_)).
  { eapply Forall2_impl; [|exact Hall]. intros q m. unfold packet_carries. by rewrite E2'. }
  assert (Hq3 : queued rid st3 = queued rid st ++ qs) by (unfold queued in *; by rewrite E1').
  destruct e; cbn [end_ deliver_all] in Hd.
  - destruct (deliver _ rid st2); cbn [obind] in Hd |- *; try done. injection Hd as ->. by exists st3, qs.
  - injection Hd as ->. by exists st1, qs.
  - injection Hd as ->. by exists st3, qs.
Qed.
Lemma make_room_slots s : len (roundOffsets (make_room s)) = MAX_CHUNKS_PER_ROUND.
Proof. cbn [make_room roundOffsets]. unfold len. rewrite length_resize. pose proof rc_Z. rewrite rc_eq. unfold MAX_CHUNKS_PER_ROUND. lia. Qed.

(** The request: the file is announced to the receiver and the thread is started. *)
Lemma request_starts user upload start f ptr s st B E D k :
  downloadableFiles f !! bytesToHex upload = Some ptr -> theap f !! ptr = Some s -> sound (DownloadReq user upload start) ->
  chat_ok st B E D (S k) -> (base.size B < currentSize)%nat ->
  let m := FileStart (hexToBytes (senderId s)) (hexToBytes (uploadId s)) (fileName s) (totalSize s) (finalCrc s) in
  uuids_ok m ->
  exists p q st1 st2 E' D', arrive (DownloadReq user upload start) st = Ok (p, st1) /\
    HandleDownloadRequest p f st1 = Ok (Some (mkJob (bytesToHex user) (bytesToHex upload) start), set_theap (<[ptr := make_room s]> (theap f)) f, st2) /\
    chat_ok st2 ({[q]} ∪ B) E' D' k /\ queued (bytesToHex user) st2 = queued (bytesToHex user) st ++ [q] /\ packet_carries st2.2 q m.
Proof.
  intros Hx Hh Hs Hok Hroom m Hm. pose proof Hs as (Hu & _ & _). apply Forall_cons_1 in Hu as [Hu1 Hu]. apply Forall_cons_1 in Hu as [Hu2 _].
  destruct (arrive_take (fun pkt => Ok (read_DownloadReq pkt)) (user, upload, start) _ st B E D (S k) Hok Hroom Hs)
    as (p & st1 & st2 & E' & Ha & Ht & Hok2 & Hq & _); [intros pkt Hpkt; by rewrite Hpkt|].
  assert (Hne : forall b, length b = UUID_SIZE -> bytesToHex b <> []).
  { intros b Hb Hn. pose proof (bytesToHex_length b) as Hl. rewrite Hn, Hb in Hl. done. }
  destruct (with_registry_receiving true (bytesToHex user) st2 _ _ _ _ Hok2) as (st3 & Hw & Hok3 & E1 & _).
  destruct (deliver_ok m (bytesToHex user) st3 _ _ _ _ Hok3 Hroom Hm) as (q & st4 & D' & Hd & _ & Hok4 & _ & Hq4 & _ & Hc & _).
  exists p, q, st1, st4, ({[q]} ∪ E'), D'. split_and!; try done.
  - unfold HandleDownloadRequest. rewrite Ht. cbn [obind]. rewrite !bool_decide_eq_false_2 by (by apply Hne). cbn [orb]. rewrite Hx.
    unfold state_at. rewrite Hh. cbn [obind]. unfold setRecievingFileTrue. rewrite Hw. cbn [obind]. fold m. by rewrite Hd.
  - rewrite Hq4. unfold queued. by rewrite E1, Hq.
Qed.

(** C25: a download sends the file.  A request for a downloadable file that holds the
    announced number of bytes, from any first byte, is answered: the announcement of the
    file is queued for the receiver and the thread of the download is started.  For any
    finite course of the waits for acknowledgements (each answered with a list of missing
    chunks or timed out, and a time-out behind the last), that thread ends; every message
    it sends is a chunk of the file with the right bytes at the right offset, or the end of
    a round of at most 1024 chunks; and if it ends completely, no chunk from the first byte
    on is left out.  In any state of the network with room in the pools it returns, exactly
    these messages are queued for the receiver, in this order, and a complete transfer is
    closed by the end message with the checksum announced.  There is no bound but the
    client's patience: one that reports the first chunk missing [n] times, for any [n],
    is sent it [n] times and asked [n + 1] times about the same round. *)
Theorem download_sends_file user upload content start acks f ptr s st B E D k :
  let rid := bytesToHex user in
  let announce := FileStart (hexToBytes (senderId s)) (hexToBytes (uploadId s)) (fileName s) (totalSize s) (finalCrc s) in
  downloadableFiles f !! bytesToHex upload = Some ptr -> theap f !! ptr = Some s ->
  disk f !! tempPath s = Some content -> totalSize s = len content ->
  sound (DownloadReq user upload (Z.of_nat start)) -> uuids_ok announce ->
  chat_ok st B E D (S k) -> (base.size B < currentSize)%nat ->
  exists p q st1 st2 E' D' j f',
    arrive (DownloadReq user upload (Z.of_nat start)) st = Ok (p, st1) /\
    HandleDownloadRequest p f st1 = Ok (Some j, f', st2) /\ chat_ok st2 ({[q]} ∪ B) E' D' k /\
    queued rid st2 = queued rid st ++ [q] /\ packet_carries st2.2 q announce /\
  exists ms e,
    transfer_rounds (S (length acks)) (Z.to_nat MAX_CHUNKS_PER_ROUND) upload content (totalSize s) (Z.of_nat start) (first_round (Z.of_nat start)) acks = Ok (Some (ms, e)) /\
    Forall (genuine upload content start) ms /\
    (e = Complete -> forall i, (start + i * cs < length content)%nat -> block_message upload content start i ∈ ms) /\
    (forall st3 B3 E3 D3 k3, chat_ok st3 B3 E3 D3 (S (length ms) + k3) -> (base.size B3 + S (length ms) <= currentSize)%nat ->
     exists st' qs, HandleFileTransfer j acks f' st3 = Ok st' /\ queued rid st' = queued rid st3 ++ qs /\
       Forall2 (packet_carries st'.2) qs (ms ++ match e with Complete => [FileEnd upload (finalCrc s)] | _ => [] end)) /\
    ((start < length content)%nat -> forall n, exists blocks, let ask := RoundEnd upload (first_round (Z.of_nat start)) (len blocks) in
       transfer_rounds (S n) (Z.to_nat MAX_CHUNKS_PER_ROUND) upload content (totalSize s) (Z.of_nat start) (first_round (Z.of_nat start))
         (replicate n (Some [0])) =
       Ok (Some (chunk_messages upload blocks ++ concat (replicate n [ask; block_message upload content start 0]) ++ [ask], AckTimeout))).
Proof.
  intros rid announce Hx Hh Hdk Ht Hs Hm Hok Hroom.
  destruct (request_starts user upload (Z.of_nat start) f ptr s st B E D k) as (p & q & st1 & st2 & E' & D' & Ha & Hreq & Hok2 & Hq & Hc); try done.
  exists p, q, st1, st2, E', D'. do 2 eexists. split_and!; try done.
  assert (Hu : length upload = UUID_SIZE).
  { destruct Hs as (Hu & _ & _). apply Forall_cons_1 in Hu as [_ Hu]. by apply Forall_cons_1 in Hu as [? _]. }
  set (f' := set_theap _ f). assert (Hh' : theap f' !! ptr = Some (make_room s)) by (cbn [f' set_theap theap]; by rewrite lookup_insert_eq).
  destruct (transfer_sends_file rid upload content start acks f' ptr (make_room s)) as (ms & e & Htr & Hg & Hall & Hrun); try done; [apply make_room_slots|].
  replace (length (roundOffsets (make_room s))) with (Z.to_nat MAX_CHUNKS_PER_ROUND) in Htr by (symmetry; apply length_resize).
  exists ms, e. split_and!; try done. intros Hlt n. rewrite Ht. apply transfer_insists; [by rewrite rc_eq|done].
Qed.

(** ** Acknowledgements *)

(** The state of a completed upload has its round reset to 0 and a download never sets
    it, so the acknowledgement of any later round is dropped: the manager and the state
    stay as they were, the packet is returned, and the wait of the transfer goes on until
    it times out.  (For round 0 the missing chunks are stored and the wait ends.) *)
Theorem later_round_acks_dropped upload r missing f ptr s s0 st B E D k :
  downloadableFiles f !! bytesToHex upload = Some ptr -> theap f !! ptr = Some s ->
  currentRound s = currentRound (clearState s0) -> sound (FileAck upload r missing) ->
  chat_ok st B E D k -> (base.size B < currentSize)%nat ->
  exists p st1 st2 E', arrive (FileAck upload r missing) st = Ok (p, st1) /\
    onAckReceived p f st1 = Ok (if r =? 0 then set_theap (<[ptr := set_ack missing true s]> (theap f)) f else f, st2) /\
    chat_ok st2 B E' D k /\ st2.1 = st.1.
Proof.
  intros Hx Hh Hr Hs Hok Hroom.
  destruct (arrive_take read_FileAck (upload, r, missing) _ st B E D k Hok Hroom Hs)
    as (p & st1 & st2 & E' & Ha & Ht & Hok2 & Hq & _); [by intros pkt Hpkt|].
  exists p, st1, st2, E'. split_and!; try done. unfold onAckReceived. rewrite Ht. cbn [obind]. rewrite Hx.
  unfold state_at. rewrite Hh. cbn [obind]. rewrite Hr. change (currentRound (clearState s0)) with 0.
  by destruct (r =? 0).
Qed.

End WithChecksum.

(** ** Names *)

Lemma digit_clean n : is_separator (Ascii.byte_of_ascii (pretty_N_char n)) = false.
Proof. unfold pretty_N_char. by repeat case_match. Qed.

Lemma pretty_clean n s :
  (forall c, c ∈ str s -> is_separator c = false) -> forall c, c ∈ str (pretty_N_go n s) -> is_separator c = false.
Proof.
  revert s. induction (N.lt_wf_0 n) as [n _ IH]; intros s Hs. destruct (decide (0 < n)%N) as [Hn|Hn].
  - rewrite pretty_N_go_step by done. apply IH; [by apply N.div_lt|].
    intros c [->|Hc]%elem_of_cons; [apply digit_clean|by apply Hs].
  - by replace n with 0%N by lia.
Qed.

Lemma unnamed_clean n c : c ∈ str "unnamed_" ++ str (pretty (n : N)) -> is_separator c = false.
Proof.
  intros [Hc|Hc]%elem_of_app.
  - cbn in Hc. repeat (apply elem_of_cons in Hc as [->|Hc]; [done|]). by apply elem_of_nil in Hc.
  - revert c Hc. unfold pretty, pretty_N. case_decide; [|apply pretty_clean].
    + intros c [->|Hc]%elem_of_cons; [done|]. by apply elem_of_nil in Hc.
    + intros c Hc. by apply elem_of_nil in Hc.
Qed.

(** A file name from the network cannot leave the upload directory: whatever the
    client sends, the sanitized name is not empty, contains no path separator and is
    neither "." nor "..". *)
Theorem sanitize_confined now name :
  sanitize now name <> [] /\ sanitize now name <> str "." /\ sanitize now name <> str ".." /\
  forall c, c ∈ sanitize now name -> is_separator c = false.
Proof.
  unfold sanitize. repeat case_bool_decide; cbn [orb]; try by (split_and!; try done; apply unnamed_clean).
  split_and!; try done. unfold path_filename. apply after_separators_clean. intros c Hc. by apply elem_of_nil in Hc.
Qed.

(** ** Evaluation *)

Definition done_state : TransferState :=
  mkTransfer (str "ada") (str "bob") (bytesToHex (zeros 16)) (str "a.txt") (str "./uploads/a.txt") [] 5 0 0 0 7 false [] (replicate 1024 0) [] false.
Definition done_files : FileTransferManager :=
  mkFiles {[ 0%nat := done_state ]} 1 ∅ ∅ {[ bytesToHex (zeros 16) := 0%nat ]} [] {[ str "./uploads/a.txt" := str "hello" ]}.

(** A completed upload is asked for; its chunk is reported missing once and sent again. *)
Definition completed_files : FileTransferManager := set_theap {[ 0%nat := clearState done_state ]} done_files.

Lemma download_sends_file_witness :
  exists st p st1 j f' st2, arrive (C := compute_soft) (DownloadReq (zeros 16) (zeros 16) 0) st = Ok (p, st1) /\
    HandleDownloadRequest (C := compute_soft) p completed_files st1 = Ok (Some j, f', st2) /\
    exists st3 st', HandleFileTransfer (C := compute_soft) j [Some [0]; Some []] f' st3 = Ok st'.
Proof.
  destruct (fresh_chat one_connection 60) as (st & Hok & _); [eapply reg_history_inv, first_connection_history|lia|].
  destruct (download_sends_file (C := compute_soft) (zeros 16) (zeros 16) (str "hello") 0 [Some [0]; Some []] completed_files 0 (clearState done_state)
    st ∅ ∅ ∅ 59) as (p & q & st1 & st2 & E' & D' & j & f' & Ha & Hreq & _ & _ & _ & ms & e & Htr & _ & _ & Hrun & _).
  - reflexivity.
  - reflexivity.
  - reflexivity.
  - reflexivity.
  - split_and!; [repeat constructor|vm_compute; split; [discriminate|reflexivity]|vm_compute; lia].
  - repeat constructor.
  - exact Hok.
  - rewrite size_empty. pose proof currentSize_Z. lia.
  - exists st, p, st1, j, f', st2. split; [exact Ha|]. split; [exact Hreq|].
    assert (Hl : length ms = 4%nat) by (vm_compute in Htr; injection Htr as <- _; reflexivity).
    destruct (Hrun st ∅ ∅ ∅ 0%nat) as (st' & qs & Hr & _).
    + rewrite Hl. eapply chat_ok_weaken, Hok. lia.
    + rewrite Hl, size_empty. pose proof currentSize_Z. lia.
    + exists st, st'. exact Hr.
Defined.

Lemma later_round_acks_dropped_witness :
  exists st p st1 st2, arrive (C := compute_soft) (FileAck (zeros 16) 1 []) st = Ok (p, st1) /\
    onAckReceived p done_files st1 = Ok (done_files, st2).
Proof.
  destruct (fresh_chat one_connection 6) as (st & Hok & _); [eapply reg_history_inv, first_connection_history|lia|].
  destruct (later_round_acks_dropped (C := compute_soft) (zeros 16) 1 [] done_files 0 done_state done_state st ∅ ∅ ∅ 6)
    as (p & st1 & st2 & E' & Ha & H & _).
  - reflexivity.
  - reflexivity.
  - reflexivity.
  - split_and!; [repeat constructor|split; [lia|constructor]|vm_compute; lia].
  - exact Hok.
  - rewrite size_empty. pose proof currentSize_Z. lia.
  - exists st, p, st1, st2. split; [exact Ha|exact H].
Defined.
