(* ===== verification/Transfers.v ===== *)
(** The transfer states of the server in memory: who owns a [TransferState*], over any
    history of the handlers of filetransfer/FileTransferManager.cpp and FIleDownload.cpp,
    up to [stopAllTransfers], which the destructor calls. *)

From S2P Require Import Prelude Crc32c Packet Serialize CircularBuffer Fqueue PacketPool Framing Session Offline Network AuthStore Auth Delivery Groups GroupChat FileTransfer Rounds Upload Download.

(** ** Definitions *)

(** The loop over [activeTransfers]: deleting what is not there is undefined. *)
Fixpoint delete_all (ptrs : list nat) (h : gmap nat TransferState) : outcome (gmap nat TransferState) :=
  match ptrs with
  | [] => Ok h
  | p :: ptrs => match h !! p with None => UB | Some _ => delete_all ptrs (delete p h) end
  end.

(** The thread of the download links has been joined. *)
Definition stopAllTransfers (f : FileTransferManager) : outcome FileTransferManager :=
  let! h := delete_all (map_to_list (activeTransfers f)).*2 (theap f) in
  Ok (mkFiles h (tnext f) ∅ ∅ (downloadableFiles f) (completedUpload f) (disk f)).

(** The state in which the manager is constructed; [files] are the files on disk. *)
Definition new_files (files : gmap bstr bstr) : FileTransferManager := mkFiles ∅ 0 ∅ ∅ ∅ [] files.

Section Histories.
Context {C : Checksum} {N : Sodium}.

(** One call of a handler that returns, with any packet and in any state of the rest of the
    server.  (Which calls do not return is part of the theorem below.) *)
Inductive file_step : FileTransferManager -> FileTransferManager -> Prop :=
| step_start now opens p sender f st f' st' : handleFileStart now opens p sender f st = Ok (f', st') -> file_step f f'
| step_chunk p f st f' st' : handleFileChunk p f st = Ok (f', st') -> file_step f f'
| step_round p f st f' st' : handleRoundEnd p f st = Ok (f', st') -> file_step f f'
| step_finish now p f st f' st' : handleFileEnd now p f st = Ok (f', st') -> file_step f f'
| step_link gs f st f' st' : send_link gs f st = Ok (f', st') -> file_step f f'
| step_request p f st j f' st' : HandleDownloadRequest p f st = Ok (j, f', st') -> file_step f f'
| step_ack p f st f' st' : onAckReceived p f st = Ok (f', st') -> file_step f f'.

(** The handler a message about files goes to, as [MessageRouter] calls it. *)
Definition file_call (now : Z) (opens : bool) (sender : bstr) (m : message) (p : nat) (f : FileTransferManager) (st : @State Net)
  : outcome (FileTransferManager * @State Net) :=
  match m with
  | FileStart _ _ _ _ _ => handleFileStart now opens p sender f st
  | FileChunk _ _ _ => handleFileChunk p f st
  | RoundEnd _ _ _ => handleRoundEnd p f st
  | FileEnd _ _ => handleFileEnd now p f st
  | DownloadReq _ _ _ => let! (_, f, st) := HandleDownloadRequest p f st in Ok (f, st)
  | FileAck _ _ _ => onAckReceived p f st
  | _ => Ok (f, st)
  end.

Definition file_message (m : message) : bool :=
  match m with
  | FileStart _ _ _ _ _ | FileChunk _ _ _ | RoundEnd _ _ _ | FileEnd _ _ | DownloadReq _ _ _ | FileAck _ _ _ => true
  | _ => false
  end.

(** The two calls that go wrong, both about an upload in progress: the end of its round with
    more chunks than the round buffer has, and the end of the file before all bytes came. *)
Definition in_progress (up : bstr) (f : FileTransferManager) : option TransferState :=
  getTransferState (bytesToHex up) f ≫= fun ptr => theap f !! ptr.
Definition undefined_call (m : message) (f : FileTransferManager) : bool :=
  match m with
  | RoundEnd up r n =>
      match in_progress up f with Some s => (r =? currentRound s) && (len (roundBuffer s) <? n) | None => false end
  | FileEnd up _ => match in_progress up f with Some s => negb (receivedOffset s =? totalSize s) | None => false end
  | _ => false
  end.

(** ** The invariant *)

(** The two maps of uploads agree; a state belongs to one upload, or to those that are
    complete, and it is there. *)
Record files_inv (f : FileTransferManager) : Prop := mkFilesInv {
  fi_same : uploadIdToTransferState f = activeTransfers f;
  fi_active : forall up p, activeTransfers f !! up = Some p -> is_Some (theap f !! p);
  fi_once : forall up up' p, activeTransfers f !! up = Some p -> activeTransfers f !! up' = Some p -> up = up';
  fi_completed : forall p, p ∈ completedUpload f -> is_Some (theap f !! p);
  fi_download : forall up p, downloadableFiles f !! up = Some p -> is_Some (theap f !! p);
  fi_apart : forall up p, activeTransfers f !! up = Some p ->
    p ∉ completedUpload f /\ forall up', downloadableFiles f !! up' <> Some p;
  fi_fresh : forall p, is_Some (theap f !! p) -> (p < tnext f)%nat
}.

Lemma new_files_inv files : files_inv (new_files files).
Proof.
  constructor; cbn [new_files uploadIdToTransferState activeTransfers theap completedUpload downloadableFiles tnext].
  - done.
  - intros up p H. by rewrite lookup_empty in H.
  - intros up up' p H. by rewrite lookup_empty in H.
  - intros p H. by apply not_elem_of_nil in H.
  - intros up p H. by rewrite lookup_empty in H.
  - intros up p H. by rewrite lookup_empty in H.
  - intros p [? H]. by rewrite lookup_empty in H.
Qed.

(** A handler that writes to a state that is there. *)
Lemma update_state_inv f ptr s s' dk :
  files_inv f -> theap f !! ptr = Some s ->
  files_inv (mkFiles (<[ptr := s']> (theap f)) (tnext f) (activeTransfers f) (uploadIdToTransferState f) (downloadableFiles f) (completedUpload f) dk).
Proof.
  intros [Hs Ha Ho Hc Hd Hap Hf] Hp.
  assert (Hl : forall p, is_Some (theap f !! p) <-> is_Some (<[ptr := s']> (theap f) !! p)).
  { intros p. destruct (decide (p = ptr)) as [->|Hne]; [rewrite lookup_insert_eq, Hp; split; eauto|by rewrite lookup_insert_ne]. }
  constructor; cbn [uploadIdToTransferState activeTransfers theap completedUpload downloadableFiles tnext]; try done.
  - intros up p H. by eapply Hl, Ha.
  - intros p H. by apply Hl, Hc.
  - intros up p H. by eapply Hl, Hd.
  - intros p H. by apply Hf, Hl.
Qed.

(** A new upload, perhaps in the place of an older one with the same id. *)
Lemma start_upload_inv f up s dk :
  files_inv f ->
  files_inv (mkFiles (<[tnext f := s]> (theap f)) (S (tnext f)) (<[up := tnext f]> (activeTransfers f))
    (<[up := tnext f]> (uploadIdToTransferState f)) (downloadableFiles f) (completedUpload f) dk).
Proof.
  intros [Hs Ha Ho Hc Hd Hap Hf].
  assert (Hnew : theap f !! tnext f = None).
  { apply eq_None_not_Some. intros H. apply Hf in H. lia. }
  assert (Hl : forall p, is_Some (theap f !! p) -> is_Some (<[tnext f := s]> (theap f) !! p)).
  { intros p H. destruct (decide (p = tnext f)) as [->|Hne]; [rewrite lookup_insert_eq; eauto|by rewrite lookup_insert_ne]. }
  assert (Hno : forall p, is_Some (theap f !! p) -> p <> tnext f) by (intros p H ->; rewrite Hnew in H; by destruct H).
  constructor; cbn [uploadIdToTransferState activeTransfers theap completedUpload downloadableFiles tnext].
  - by rewrite Hs.
  - intros u p. destruct (decide (u = up)) as [->|Hne].
    + rewrite lookup_insert_eq. intros [= <-]. rewrite lookup_insert_eq. eauto.
    + rewrite lookup_insert_ne by done. intros H. by eapply Hl, Ha.
  - intros u u' p H1 H2. apply lookup_insert_Some in H1 as [[<- <-]|[? H1]]; apply lookup_insert_Some in H2 as [[<- E]|[? H2]]; try done.
    + exfalso. by eapply Hno; [eapply Ha|].
    + subst p. exfalso. by eapply Hno; [eapply Ha|].
    + by eapply Ho.
  - intros p H. by apply Hl, Hc.
  - intros u p H. by eapply Hl, Hd.
  - intros u p H. apply lookup_insert_Some in H as [[<- <-]|[? H]]; [|by eapply Hap]. split.
    + intros Hin. by apply (Hno _ (Hc _ Hin)).
    + intros u' Hd'. by apply (Hno _ (Hd _ _ Hd')).
  - intros p H. destruct (decide (p = tnext f)) as [->|Hne]; [lia|]. rewrite lookup_insert_ne in H by done. apply Hf in H. lia.
Qed.

(** An upload that is complete. *)
Lemma complete_inv f up ptr s s' dk :
  files_inv f -> activeTransfers f !! up = Some ptr -> theap f !! ptr = Some s ->
  files_inv (mkFiles (<[ptr := s']> (theap f)) (tnext f) (delete up (activeTransfers f)) (delete up (uploadIdToTransferState f))
    (downloadableFiles f) (completedUpload f ++ [ptr]) dk).
Proof.
  intros Hi Hact Hp. pose proof (update_state_inv f ptr s s' dk Hi Hp) as [Hs Ha Ho Hc Hd Hap Hf].
  cbn [uploadIdToTransferState activeTransfers theap completedUpload downloadableFiles tnext] in *.
  constructor; cbn [uploadIdToTransferState activeTransfers theap completedUpload downloadableFiles tnext].
  - by rewrite Hs.
  - intros u p H. apply lookup_delete_Some in H as [_ H]. by eapply Ha.
  - intros u u' p H1 H2. apply lookup_delete_Some in H1 as [_ H1]. apply lookup_delete_Some in H2 as [_ H2]. by eapply Ho.
  - intros p H. apply elem_of_app in H as [H|H]; [by apply Hc|]. apply list_elem_of_singleton in H as ->. by eapply Ha.
  - done.
  - intros u p H. apply lookup_delete_Some in H as [Hne H]. destruct (Hap _ _ H) as [Hnc Hnd]. split; [|done].
    intros Hin. apply elem_of_app in Hin as [?|Hin]; [done|]. apply list_elem_of_singleton in Hin as ->. apply Hne. by eapply Ho.
  - done.
Qed.

(** A completed upload whose link is announced. *)
Lemma announce_inv f up ptr rest :
  files_inv f -> completedUpload f = ptr :: rest ->
  files_inv (set_downloadable (<[up := ptr]> (downloadableFiles f)) (set_completed rest f)).
Proof.
  intros [Hs Ha Ho Hc Hd Hap Hf] Hq. rewrite Hq in Hc, Hap.
  constructor; cbn [set_downloadable set_completed uploadIdToTransferState activeTransfers theap completedUpload downloadableFiles tnext]; try done.
  - intros p H. apply Hc. by apply list_elem_of_further.
  - intros u p H. apply lookup_insert_Some in H as [[<- <-]|[_ H]]; [apply Hc; apply list_elem_of_here|by eapply Hd].
  - intros u p H. destruct (Hap _ _ H) as [Hnc Hnd]. apply not_elem_of_cons in Hnc as [Hne Hnc]. split; [done|].
    intros u' Hu. apply lookup_insert_Some in Hu as [[_ E]|[_ Hu]]; [congruence|by eapply Hnd].
Qed.

Lemma state_at_some ptr f s : state_at ptr f = Ok s -> theap f !! ptr = Some s.
Proof. unfold state_at. destruct (theap f !! ptr); [by intros [= ->]|done]. Qed.

Lemma file_step_inv f f' : files_inv f -> file_step f f' -> files_inv f'.
Proof.
  intros Hi Hstep. destruct Hstep as [now opens p sender f st f' st' H|p f st f' st' H|p f st f' st' H|now p f st f' st' H|gs f st f' st' H|p f st j f' st' H|p f st f' st' H].
  - unfold handleFileStart in H. returned H. case_match; [returned H; by injection H as <- _|]. destruct opens; cbn [negb] in H; [|by injection H as <- _].
    returned H. injection H as <- _. by apply start_upload_inv.
  - unfold handleFileChunk in H. returned H. case_match; [|by injection H as <- _]. returned H. apply state_at_some in E0.
    case_match; injection H as <- _; [done|]. by eapply update_state_inv.
  - unfold handleRoundEnd in H. returned H. case_match; [|by injection H as <- _]. returned H. apply state_at_some in E0.
    case_match; returned H; injection H as <- _; [done|]. exact (update_state_inv f _ _ _ _ Hi E0).
  - unfold handleFileEnd in H. returned H. case_match eqn:Hx; [|by injection H as <- _]. returned H. apply state_at_some in E0.
    unfold getTransferState in Hx. case_match.
    + injection E1 as <-. injection H as <- _. cbn [set_completed set_theap theap tnext activeTransfers uploadIdToTransferState downloadableFiles completedUpload disk].
      eapply complete_inv; [done| |exact E0]. rewrite <- (fi_same _ Hi). exact Hx.
    + exfalso. unfold cleanupTransfer in E1. cbn [set_theap uploadIdToTransferState] in E1. rewrite Hx in E1. returned E1. done.
  - unfold send_link in H. destruct (completedUpload f) as [|ptr rest] eqn:Hq; [by injection H as <- _|].
    returned H. case_match; [|done]. returned H. injection H as <- _. by apply announce_inv.
  - unfold HandleDownloadRequest in H. returned H. case_match; [by injection H as _ <- _|]. case_match; returned H; injection H as _ <- _; [|done].
    apply state_at_some in E0. by eapply update_state_inv.
  - unfold onAckReceived in H. returned H. case_match; [|by injection H as <- _]. returned H. apply state_at_some in E0.
    case_match; injection H as <- _; [done|]. by eapply update_state_inv.
Qed.

Lemma file_history_inv f f' : files_inv f -> rtc file_step f f' -> files_inv f'.
Proof. intros Hi Hrun. induction Hrun as [f|f f1 f' Hs _ IH]; [done|]. by eapply IH, file_step_inv. Qed.

(** ** Which calls return *)

Context {L : ChecksumLaws C}.

Lemma deliver_returns m id st B E D k :
  chat_ok st B E D (S k) -> (base.size B < currentSize)%nat -> uuids_ok m -> exists st', deliver m id st = Ok st'.
Proof. intros Hok Hroom Hm. destruct (deliver_ok m id st B E D k Hok Hroom Hm) as (p & st' & _ & Hd & _). by exists st'. Qed.

Section Calls.
Context (f : FileTransferManager) (Hi : files_inv f) (st : @State Net) (B E D : gset nat) (k : nat).
Context (Hok : chat_ok st B E D (S k)) (Hroom : (base.size B < currentSize)%nat).

(** What is known behind the reading of the packet: a reply can be sent. *)
Lemma call_reads {A} (read : Packet -> outcome A) (a : A) m :
  sound m -> (forall pkt, received m pkt -> read pkt = Ok a) ->
  exists p st1 st2, arrive m st = Ok (p, st1) /\ take_packet read p st1 = Ok (a, st2) /\
    exists E', chat_ok st2 B E' D (S k).
Proof.
  intros Hs Hread. destruct (arrive_take read a m st B E D (S k) Hok Hroom Hs Hread)
    as (p & st1 & st2 & E' & Ha & Ht & Hok2 & _). exists p, st1, st2. eauto.
Qed.

Lemma start_returns now opens sender recv up name total crc :
  sound (FileStart recv up name total crc) ->
  exists p st1 f' st', arrive (FileStart recv up name total crc) st = Ok (p, st1) /\
    handleFileStart now opens p sender f st1 = Ok (f', st').
Proof.
  intros Hs. destruct (call_reads read_FileStart (recv, up, total, crc, name) _ Hs) as (p & st1 & st2 & Ha & Ht & E' & Hok2); [done|].
  unfold handleFileStart. exists p, st1. rewrite Ha, Ht. cbn [obind]. case_match.
  - destruct (deliver_returns (StringMsg PKT_FILE_ERROR (bytesToHex up ++ str " " ++ str " file is too big ")) (bytesToHex recv) st2 B E' D k Hok2 Hroom)
      as [st' Hd]; [constructor|]. unfold SendErrorPacket. rewrite Hd. by do 2 eexists.
  - destruct opens; [|by do 2 eexists]. cbn [negb].
    match goal with |- context [deliver ?m _ _] => destruct (deliver_returns m sender st2 B E' D k Hok2 Hroom) as [st' Hd] end;
      [repeat constructor; apply hexToBytes_length|]. rewrite Hd. by do 2 eexists.
Qed.

Lemma chunk_returns up off c :
  sound (FileChunk up off c) ->
  exists p st1 f' st', arrive (FileChunk up off c) st = Ok (p, st1) /\ handleFileChunk p f st1 = Ok (f', st').
Proof.
  intros Hs. destruct (call_reads read_FileChunk (up, off, crc32c c 0, c) _ Hs) as (p & st1 & st2 & Ha & Ht & _); [done|].
  unfold handleFileChunk. exists p, st1. rewrite Ha, Ht. cbn [obind].
  destruct (getTransferState (bytesToHex up) f) as [ptr|] eqn:Hx; [|by do 2 eexists].
  unfold getTransferState in Hx. rewrite (fi_same _ Hi) in Hx. destruct (fi_active _ Hi _ _ Hx) as [s Hh].
  unfold state_at. rewrite Hh. cbn [obind]. case_match; by do 2 eexists.
Qed.

Lemma ack_returns up r missing :
  sound (FileAck up r missing) ->
  exists p st1 f' st', arrive (FileAck up r missing) st = Ok (p, st1) /\ onAckReceived p f st1 = Ok (f', st').
Proof.
  intros Hs. destruct (call_reads read_FileAck (up, r, missing) _ Hs) as (p & st1 & st2 & Ha & Ht & _); [done|].
  unfold onAckReceived. exists p, st1. rewrite Ha, Ht. cbn [obind].
  destruct (downloadableFiles f !! bytesToHex up) as [ptr|] eqn:Hx; [|by do 2 eexists].
  destruct (fi_download _ Hi _ _ Hx) as [s Hh]. unfold state_at. rewrite Hh. cbn [obind]. case_match; by do 2 eexists.
Qed.

Lemma request_returns user up start :
  sound (DownloadReq user up start) ->
  exists p st1 j f' st', arrive (DownloadReq user up start) st = Ok (p, st1) /\ HandleDownloadRequest p f st1 = Ok (j, f', st').
Proof.
  intros Hs. destruct (call_reads (fun pkt => Ok (read_DownloadReq pkt)) (user, up, start) _ Hs)
    as (p & st1 & st2 & Ha & Ht & E' & Hok2); [intros pkt Hpkt; by f_equal|].
  unfold HandleDownloadRequest. exists p, st1. rewrite Ha, Ht. cbn [obind]. case_match; [by do 3 eexists|].
  destruct (downloadableFiles f !! bytesToHex up) as [ptr|] eqn:Hx.
  - destruct (fi_download _ Hi _ _ Hx) as [s Hh]. unfold state_at. rewrite Hh. cbn [obind].
    destruct (with_registry_receiving true (bytesToHex user) st2 _ _ _ _ Hok2) as (st3 & Hw & Hok3 & _).
    unfold setRecievingFileTrue. rewrite Hw. cbn [obind].
    edestruct (deliver_returns (FileStart (hexToBytes (senderId s)) (hexToBytes (uploadId s)) (fileName s) (totalSize s) (finalCrc s))
      (bytesToHex user) st3 B E' D k Hok3 Hroom) as [st' Hd]; [repeat constructor; apply hexToBytes_length|].
    rewrite Hd. by do 3 eexists.
  - edestruct (deliver_returns (StringMsg PKT_FILE_ERROR (bytesToHex up ++ str " " ++ str "File not found")) (bytesToHex user) st2 B E' D k Hok2 Hroom)
      as [st' Hd]; [constructor|]. unfold SendErrorPacket. rewrite Hd. by do 3 eexists.
Qed.

Lemma round_end_returns up r n :
  sound (RoundEnd up r n) ->
  exists p st1, arrive (RoundEnd up r n) st = Ok (p, st1) /\
    if undefined_call (RoundEnd up r n) f then handleRoundEnd p f st1 = UB
    else exists f' st', handleRoundEnd p f st1 = Ok (f', st').
Proof.
  intros Hs. unfold undefined_call, in_progress, getTransferState.
  destruct (uploadIdToTransferState f !! bytesToHex up) as [ptr|] eqn:Hx; cbn [mbind option_bind].
  - pose proof Hx as Hx'. rewrite (fi_same _ Hi) in Hx'. destruct (fi_active _ Hi _ _ Hx') as [s Hh]. rewrite Hh.
    pose proof Hs as (Hu & (Hr & Hn) & _). apply Forall_cons_1 in Hu as [Hu _].
    destruct (round_end_answers up r n f ptr s st B E D k Hx Hh Hu Hr Hn Hok Hroom) as (p & st1 & Ha & Hrun).
    exists p, st1. split; [done|]. destruct (Z.eqb_spec r (currentRound s)) as [Hc|Hc]; cbn [andb].
    + destruct (Z.ltb_spec (len (roundBuffer s)) n).
      * by rewrite decide_True in Hrun by done.
      * rewrite decide_False in Hrun by lia. destruct (round_end_result r n ptr s f) as [[f' ack] ms].
        destruct Hrun as (st' & q & d & -> & _). by do 2 eexists.
    + rewrite decide_False in Hrun by naive_solver. destruct (round_end_result r n ptr s f) as [[f' ack] ms].
      destruct Hrun as (st' & q & d & -> & _). by do 2 eexists.
  - destruct (call_reads (fun pkt => Ok (read_RoundEnd pkt)) (up, r, n) _ Hs) as (p & st1 & st2 & Ha & Ht & _);
      [intros pkt Hpkt; by f_equal|].
    exists p, st1. split; [done|]. unfold handleRoundEnd. rewrite Ht. cbn [obind]. unfold getTransferState. rewrite Hx. by do 2 eexists.
Qed.

Lemma file_end_returns now up crc :
  sound (FileEnd up crc) ->
  exists p st1, arrive (FileEnd up crc) st = Ok (p, st1) /\
    if undefined_call (FileEnd up crc) f then handleFileEnd now p f st1 = UB
    else exists f' st', handleFileEnd now p f st1 = Ok (f', st').
Proof.
  intros Hs. unfold undefined_call, in_progress, getTransferState.
  destruct (call_reads (fun pkt => Ok (read_FileEnd pkt)) (up, crc) _ Hs) as (p & st1 & st2 & Ha & Ht & E' & Hok2);
    [intros pkt Hpkt; by f_equal|].
  exists p, st1. split; [done|]. unfold handleFileEnd. rewrite Ht. cbn [obind]. unfold getTransferState.
  destruct (uploadIdToTransferState f !! bytesToHex up) as [ptr|] eqn:Hx; cbn [mbind option_bind]; [|by do 2 eexists].
  pose proof Hx as Hx'. rewrite (fi_same _ Hi) in Hx'. destruct (fi_active _ Hi _ _ Hx') as [s Hh]. rewrite Hh.
  assert (Hat : state_at ptr f = Ok s) by (unfold state_at; by rewrite Hh). rewrite !Hat. cbn [obind].
  destruct (receivedOffset s =? totalSize s); cbn [negb obind].
  - unfold sendFileStatus. match goal with |- context [deliver ?m ?id _] =>
      destruct (deliver_returns m id st2 B E' D k Hok2 Hroom) as [st' Hd] end; [constructor|]. rewrite Hd. by do 2 eexists.
  - unfold cleanupTransfer. cbn [set_theap uploadIdToTransferState]. rewrite Hx. unfold state_at. cbn [set_theap theap].
    by rewrite lookup_insert_eq.
Qed.

(** Every call returns, but for the two kinds of [undefined_call]. *)
Lemma file_call_returns now opens sender m :
  sound m -> file_message m = true ->
  exists p st1, arrive m st = Ok (p, st1) /\
    if undefined_call m f then file_call now opens sender m p f st1 = UB
    else exists f' st', file_call now opens sender m p f st1 = Ok (f', st') /\ file_step f f'.
Proof.
  intros Hs Hm. destruct m; try discriminate Hm; cbn [file_call undefined_call].
  - destruct (start_returns now opens sender _ _ _ _ _ Hs) as (p & st1 & f' & st' & Ha & Hr). eauto 10 using step_start.
  - destruct (chunk_returns _ _ _ Hs) as (p & st1 & f' & st' & Ha & Hr). eauto 10 using step_chunk.
  - destruct (round_end_returns _ _ _ Hs) as (p & st1 & Ha & Hr). exists p, st1. split; [done|].
    unfold undefined_call in Hr. case_match; [done|]. destruct Hr as (f' & st' & Hr). eauto using step_round.
  - destruct (ack_returns _ _ _ Hs) as (p & st1 & f' & st' & Ha & Hr). eauto 10 using step_ack.
  - destruct (file_end_returns now _ _ Hs) as (p & st1 & Ha & Hr). exists p, st1. split; [done|].
    unfold undefined_call in Hr. case_match; [done|]. destruct Hr as (f' & st' & Hr). eauto using step_finish.
  - destruct (request_returns _ _ _ Hs) as (p & st1 & j & f' & st' & Ha & Hr). exists p, st1. split; [done|].
    exists f', st'. rewrite Hr. eauto using step_request.
Qed.
End Calls.
End Histories.

(** ** The theorem *)

Lemma delete_all_live ptrs : forall h, NoDup ptrs -> (forall p, p ∈ ptrs -> is_Some (h !! p)) ->
  exists h', delete_all ptrs h = Ok h' /\ forall p, h' !! p = if bool_decide (p ∈ ptrs) then None else h !! p.
Proof.
  induction ptrs as [|q ptrs IH]; intros h Hnd Hl; cbn [delete_all].
  - exists h. split; [done|]. intros p. by rewrite bool_decide_eq_false_2 by apply not_elem_of_nil.
  - apply list.NoDup_cons in Hnd as [Hq Hnd]. destruct (Hl q) as [s Hs]; [apply list_elem_of_here|]. rewrite Hs.
    destruct (IH (delete q h) Hnd) as (h' & Hd & Hh).
    { intros p Hp. rewrite lookup_delete_ne by (intros ->; done). by apply Hl, list_elem_of_further. }
    exists h'. split; [done|]. intros p. rewrite Hh. destruct (decide (p = q)) as [->|Hne].
    + rewrite bool_decide_eq_false_2 by done. rewrite bool_decide_eq_true_2 by apply list_elem_of_here. apply lookup_delete_eq.
    + rewrite lookup_delete_ne by done. assert (Hiff : p ∈ q :: ptrs <-> p ∈ ptrs) by (rewrite elem_of_cons; tauto).
      by rewrite (bool_decide_ext _ _ Hiff).
Qed.

Lemma active_ptrs f p : p ∈ (map_to_list (activeTransfers f)).*2 <-> exists up, activeTransfers f !! up = Some p.
Proof.
  rewrite list_elem_of_fmap. split.
  - intros ([up q] & -> & H). exists up. by apply elem_of_map_to_list.
  - intros [up H]. exists (up, p). split; [done|]. by apply elem_of_map_to_list.
Qed.

Lemma active_ptrs_once f : files_inv f -> NoDup (map_to_list (activeTransfers f)).*2.
Proof.
  intros Hi. apply NoDup_fmap_2_strong; [|apply NoDup_map_to_list]. intros [u p] [u' p'] H H' E. cbn [snd] in E. subst p'.
  apply elem_of_map_to_list in H, H'. by rewrite (fi_once _ Hi _ _ _ H H').
Qed.

(** C22: the transfer states in memory.  In every state that calls of the file handlers
    lead to, a message about files that arrives is handled and its handler returns, but for
    two calls, which are undefined behaviour: the end of the current round of an upload
    with more chunks than the round buffer has, and the end of an upload before all its
    bytes came, whose [cleanupTransfer] uses the iterator it has erased.  No handler that
    returns deletes a state: every pointer the handlers take from the maps or from the queue
    of completed uploads leads to a state that is there.  And [stopAllTransfers] returns,
    having deleted exactly the states of the uploads in progress, each once; the states
    that downloads and the queue still refer to stay. *)
Theorem transfer_states_owned {C : Checksum} {L : ChecksumLaws C} {N : Sodium} files f :
  rtc file_step (new_files files) f ->
  (forall now opens sender m st B E D k,
     sound m -> file_message m = true -> chat_ok st B E D (S k) -> (base.size B < currentSize)%nat ->
     exists p st1, arrive m st = Ok (p, st1) /\
       if undefined_call m f then file_call now opens sender m p f st1 = UB
       else exists f' st', file_call now opens sender m p f st1 = Ok (f', st') /\ file_step f f') /\
  (forall up p, getTransferState up f = Some p -> exists s, state_at p f = Ok s) /\
  (forall up p, downloadableFiles f !! up = Some p -> exists s, state_at p f = Ok s) /\
  (forall p, p ∈ completedUpload f -> exists s, state_at p f = Ok s) /\
  exists f', stopAllTransfers f = Ok f' /\ activeTransfers f' = ∅ /\ uploadIdToTransferState f' = ∅ /\
    (forall p, theap f' !! p = None <-> theap f !! p = None \/ exists up, activeTransfers f !! up = Some p) /\
    (forall up p, downloadableFiles f' !! up = Some p -> is_Some (theap f' !! p)) /\
    (forall p, p ∈ completedUpload f' -> is_Some (theap f' !! p)).
Proof.
  intros Hrun. assert (Hi : files_inv f).
  { eapply file_history_inv; [apply new_files_inv|done]. }
  assert (Hat : forall p, is_Some (theap f !! p) -> exists s, state_at p f = Ok s).
  { intros p [s Hs]. exists s. unfold state_at. by rewrite Hs. }
  split_and!.
  - intros. by eapply file_call_returns.
  - intros up p Hp. apply Hat. eapply (fi_active _ Hi). rewrite <- (fi_same _ Hi). exact Hp.
  - intros up p Hp. by eapply Hat, fi_download.
  - intros p Hp. by eapply Hat, fi_completed.
  - destruct (delete_all_live (map_to_list (activeTransfers f)).*2 (theap f)) as (h & Hd & Hh).
    { by apply active_ptrs_once. }
    { intros p [up Hp]%active_ptrs. by eapply fi_active. }
    assert (Hk : forall p, is_Some (theap f !! p) -> (forall up, activeTransfers f !! up <> Some p) -> is_Some (h !! p)).
    { intros p Hp Hn. rewrite Hh, bool_decide_eq_false_2; [done|]. intros [up Hu]%active_ptrs. by eapply Hn. }
    eexists. unfold stopAllTransfers. rewrite Hd. cbn [obind]. split; [done|].
    cbn [activeTransfers uploadIdToTransferState theap downloadableFiles completedUpload]. split_and!; [done|done|..].
    + intros p. rewrite Hh. case_bool_decide as Hb.
      * split; [|done]. intros _. right. by apply active_ptrs.
      * split; [by left|]. intros [?|Hx]; [done|]. by apply active_ptrs in Hx.
    + intros up p Hp. apply Hk; [by eapply fi_download|]. intros u Hu. by apply (proj2 (fi_apart _ Hi _ _ Hu) up).
    + intros p Hp. apply Hk; [by eapply fi_completed|]. intros u Hu. by apply (proj1 (fi_apart _ Hi _ _ Hu)).
Qed.

(** ** Evaluation *)

(** The messages of an upload are such a history. *)
Lemma serve_upload_history {C : Checksum} {N : Sodium} now sender ms : forall f st f' st',
  serve_upload now sender ms f st = Ok (f', st') -> rtc file_step f f'.
Proof.
  induction ms as [|m ms IH]; intros f st f' st' H; cbn [serve_upload] in H; [by injection H as <- _|].
  returned H. apply IH in H. eapply rtc_l; [|exact H].
  unfold handle_upload in *. destruct m; eauto using step_start, step_chunk, step_round, step_finish.
Qed.

(** A file was uploaded: its state outlives the end of the server. *)
Lemma transfer_states_owned_witness :
  exists f f' p, rtc (file_step (C := compute_soft) (N := sample_sodium)) (new_files ∅) f /\ completedUpload f = [p] /\
    stopAllTransfers f = Ok f' /\ is_Some (theap f' !! p).
Proof.
  destruct (fresh_chat one_connection 6) as (st & Hok & _); [eapply reg_history_inv, first_connection_history|lia|].
  destruct (upload_complete (C := compute_soft) 0 (str "ada") sample_file (zeros 16) (zeros 16) (str "a.txt") 7 0 sample_upload
    (new_files ∅) st ∅ ∅ ∅ 0) as (f & st' & ptr & s' & Hs & _ & _ & Hc & _).
  - reflexivity.
  - reflexivity.
  - vm_compute. lia.
  - vm_compute. congruence.
  - lia.
  - reflexivity.
  - lia.
  - exact sample_sender.
  - exact Hok.
  - rewrite size_empty. pose proof currentSize_Z. cbn [length sample_upload]. lia.
  - apply (serve_upload_history (N := sample_sodium)) in Hs.
    destruct (transfer_states_owned (C := compute_soft) (N := sample_sodium) ∅ f Hs) as (_ & _ & _ & _ & f' & Hstop & _ & _ & _ & _ & Hq).
    exists f, f', ptr. split; [exact Hs|]. split; [exact Hc|]. split; [exact Hstop|]. apply Hq.
    assert (Hcc : completedUpload f' = completedUpload f).
    { unfold stopAllTransfers in Hstop. destruct (delete_all _ _) as [h| |]; [|discriminate Hstop..]. cbn [obind] in Hstop. injection Hstop as <-. reflexivity. }
    rewrite Hcc, Hc. apply list_elem_of_here.
Defined.
