(* ===== verification/DownloadThreads.v ===== *)
(** Concurrent downloads: the threads of FileTransferManager::HandleFileTransfer at the
    granularity of their accesses to the [TransferState] they share.

    Every download of an upload runs in a detached thread of its own, and all of them use
    the round buffer, the offsets, the missing chunks and the flag of one [TransferState];
    only the flag is protected by a mutex.  A system is that state and a list of threads; a
    step is one access of one thread, an acknowledgement ([onAckReceived]) or a new request
    ([HandleDownloadRequest]).  Every call of a member function of a shared vector is a step
    of its own, and accesses are sequentially consistent.  What takes longer has a spot for
    its duration: a chunk that is copied into a packet ([Copying]), during which another
    thread may overwrite it, and the loop over the missing chunks ([TakeEnd], [Resending]),
    during which an acknowledgement may free them.  A thread that this happens to is
    [Dangling]: its next access is undefined behaviour. *)

From stdpp Require Import list_numbers.
From S2P Require Import Prelude Crc32c Packet Serialize CircularBuffer Fqueue PacketPool Framing Session Offline Network AuthStore Auth Delivery FileTransfer Rounds Download.

(** ** Definitions *)

(** Where a thread stands. *)
Inductive Spot :=
| RoundTest                       (* [while (bytesSent < state->totalSize)] *)
| Reading (i : nat)               (* the inner loop, [chunksThisRound] being [i] *)
| Storing (i : nat) (block : bstr)(* behind the store of the offset *)
| Sending (i : nat)               (* the loop over the chunks of the round *)
| Copying (i : nat) (offset : Z) (behind : Spot) (* in [serializeFileChunk], with a reference to chunk [i] *)
| Asking                          (* about to send the end of the round *)
| Resetting                       (* about to clear [ackReceived] *)
| Waiting                         (* in [wait_for] *)
| CheckSize                       (* behind the wait: [missingChunks.size() == 1] *)
| CheckFirst                      (* [missingChunks[0] == -1] *)
| CheckEmpty                      (* [missingChunks.empty()] *)
| TakeBegin                       (* [for (uint32_t idx : state->missingChunks)]: its begin *)
| TakeEnd                         (* and its end *)
| Resending (i last : nat)        (* the body of that loop *)
| Dangling                        (* an iterator or a reference it uses has become invalid *)
| Finishing                       (* behind the outer loop *)
| Ended (e : Ending).

Record Thread := mkThread {
  bytesSent : Z;
  round : Z;                      (* the local variable [currentRound] *)
  chunksThisRound : nat;
  spot : Spot;
  sent : list message             (* what was given to [ManageCompletePacket] *)
}.

Definition go (p : Spot) (t : Thread) : Thread := mkThread (bytesSent t) (round t) (chunksThisRound t) p (sent t).
Definition send (m : message) (p : Spot) (t : Thread) : Thread :=
  mkThread (bytesSent t) (round t) (chunksThisRound t) p (sent t ++ [m]).

Definition set_round_data (rb : list bstr) (ro : list Z) (s : TransferState) : TransferState :=
  mkTransfer (senderId s) (receiverId s) (uploadId s) (fileName s) (tempPath s) (timestamp s) (totalSize s) (receivedOffset s)
    (currentRound s) (roundReceivedCount s) (finalCrc s) (ackReceived s) rb ro (missingChunks s) (is_open s).

(** A thread behind the opening of its file. *)
Definition new_thread (startBytes : Z) : Thread := mkThread startBytes (first_round startBytes) 0 RoundTest [].

(** [serializeFileChunk(upBin, state->roundOffsets[i], state->roundBuffer[i])]: the offset is
    read at the call, the bytes of the chunk while it runs. *)
Definition call_serialize (i : nat) (behind : Spot) (s : TransferState) (t : Thread) : outcome (TransferState * Thread) :=
  match roundOffsets s !! i with
  | Some o => if (length (roundBuffer s) <=? i)%nat then UB else Ok (s, go (Copying i o behind) t)
  | None => UB
  end.

(** The next access of a thread, [None] if it has ended or waits.  [timeout]: the fifteen
    seconds of a wait are over. *)
Definition next_access (up content : bstr) (timeout : bool) (s : TransferState) (t : Thread) : option (outcome (TransferState * Thread)) :=
  match spot t with
  | RoundTest =>
      Some (Ok (if bytesSent t <? totalSize s
        then (set_round_data (replicate (Z.to_nat MAX_CHUNKS_PER_ROUND) []) (roundOffsets s) s, go (Reading 0) t)
        else (s, go Finishing t)))
  | Reading i =>
      let behind := mkThread (bytesSent t) (round t) i (if (i =? 0)%nat then Finishing else Sending 0) (sent t) in
      if (Z.of_nat i <? MAX_CHUNKS_PER_ROUND) && (bytesSent t <? totalSize s) then
        let toRead := Z.min MAX_CHUNK_SIZE (totalSize s - bytesSent t) in
        let block := take (Z.to_nat toRead) (drop (Z.to_nat (bytesSent t)) content) in
        if bool_decide (block = []) then Some (Ok (s, behind)) else
        if (length (roundOffsets s) <=? i)%nat then Some UB else
        Some (Ok (set_round_data (roundBuffer s) (<[i := bytesSent t]> (roundOffsets s)) s,
                  mkThread (bytesSent t + len block) (round t) (chunksThisRound t) (Storing i block) (sent t)))
      else Some (Ok (s, behind))
  | Storing i block =>
      if (length (roundBuffer s) <=? i)%nat then Some UB else
      Some (Ok (set_round_data (<[i := block]> (roundBuffer s)) (roundOffsets s) s, go (Reading (S i)) t))
  | Sending i =>
      if (i <? chunksThisRound t)%nat then Some (call_serialize i (Sending (S i)) s t)
      else Some (Ok (s, go Asking t))
  | Copying i offset behind =>
      match roundBuffer s !! i with
      | Some b => Some (Ok (s, send (FileChunk up offset b) behind t))
      | None => Some UB
      end
  | Asking => Some (Ok (s, send (RoundEnd up (round t) (Z.of_nat (chunksThisRound t))) Resetting t))
  | Resetting => Some (Ok (set_ack (missingChunks s) false s, go Waiting t))
  | Waiting =>
      if ackReceived s then Some (Ok (s, go CheckSize t))
      else if timeout then Some (Ok (s, go (Ended AckTimeout) t)) else None
  | CheckSize => Some (Ok (s, go (if (length (missingChunks s) =? 1)%nat then CheckFirst else CheckEmpty) t))
  | CheckFirst =>
      match missingChunks s with
      | [] => Some UB
      | idx :: _ => Some (Ok (s, go (if idx =? 2 ^ 32 - 1 then Ended AckFailed else CheckEmpty) t))
      end
  | CheckEmpty =>
      Some (Ok (s, if bool_decide (missingChunks s = [])
        then mkThread (bytesSent t) (wrap 32 (round t + 1)) (chunksThisRound t) RoundTest (sent t)
        else go TakeBegin t))
  | TakeBegin => Some (Ok (s, go TakeEnd t))
  | TakeEnd => Some (Ok (s, go (Resending 0 (length (missingChunks s))) t))
  | Resending i last =>
      if (i =? last)%nat then Some (Ok (s, go Asking t)) else
      match missingChunks s !! i with
      | None => Some UB
      | Some idx =>
          if negb ((0 <=? idx) && (idx <? Z.of_nat (chunksThisRound t))) then Some (Ok (s, go (Resending (S i) last) t))
          else Some (call_serialize (Z.to_nat idx) (Resending (S i) last) s t)
      end
  | Dangling => Some UB
  | Finishing => Some (Ok (s, send (FileEnd up (finalCrc s)) (Ended Complete) t))
  | Ended _ => None
  end.

(** The chunks of the round buffer that the next access of a thread writes. *)
Definition writes (s : TransferState) (t : Thread) (i : nat) : bool :=
  match spot t with
  | RoundTest => bytesSent t <? totalSize s
  | Storing j _ => (i =? j)%nat
  | _ => false
  end.

(** A chunk is written while another thread copies it. *)
Definition tear (w : nat -> bool) (t : Thread) : Thread :=
  match spot t with Copying i _ _ => if w i then go Dangling t else t | _ => t end.

(** [missingChunks = std::move(missing)] frees the elements a loop is running over. *)
Fixpoint dangle_spot (p : Spot) : Spot :=
  match p with
  | TakeEnd | Resending _ _ => Dangling
  | Copying i o behind => Copying i o (dangle_spot behind)
  | _ => p
  end.
Definition dangle (t : Thread) : Thread := go (dangle_spot (spot t)) t.

Record Downloads := mkDownloads { shared : TransferState; threads : list Thread }.

(** [onAckReceived], behind the search for the state. *)
Definition acknowledge (roundId : Z) (missing : list Z) (d : Downloads) : Downloads :=
  if negb (roundId =? currentRound (shared d)) then d
  else mkDownloads (set_ack missing true (shared d)) (dangle <$> threads d).

(** [HandleDownloadRequest], behind the search for the state. *)
Definition request (startBytes : Z) (d : Downloads) : Downloads :=
  mkDownloads (make_room (shared d)) (threads d ++ [new_thread startBytes]).

(** A step of thread [i]. *)
Definition thread_turn (up content : bstr) (i : nat) (timeout : bool) (d : Downloads) : option (outcome Downloads) :=
  match threads d !! i with
  | None => None
  | Some t =>
      match next_access up content timeout (shared d) t with
      | None => None
      | Some r => Some (let! (s, t') := r in Ok (mkDownloads s (<[i := t']> (tear (writes (shared d) t) <$> threads d))))
      end
  end.

(** The threads on their own; with acknowledgements; with new requests. *)
Definition quiet_turn (up content : bstr) (d d' : Downloads) : Prop :=
  exists i timeout, thread_turn up content i timeout d = Some (Ok d').

Inductive acked_turn (up content : bstr) : Downloads -> Downloads -> Prop :=
| acked_thread d d' : quiet_turn up content d d' -> acked_turn up content d d'
| acked_ack r missing d : acked_turn up content d (acknowledge r missing d).

Inductive download_turn (up content : bstr) : Downloads -> Downloads -> Prop :=
| download_acked d d' : acked_turn up content d d' -> download_turn up content d d'
| download_request start d : download_turn up content d (request start d).

(** A thread that looks at the missing chunks: between its test of their number and the end
    of its loop over them. *)
Fixpoint inspecting (p : Spot) : bool :=
  match p with
  | CheckFirst | TakeEnd | Resending _ _ => true
  | Copying _ _ behind => inspecting behind
  | _ => false
  end.

(** The acknowledgements come while no thread looks at the list they replace. *)
Inductive polite_turn (up content : bstr) : Downloads -> Downloads -> Prop :=
| polite_thread d d' : quiet_turn up content d d' -> polite_turn up content d d'
| polite_ack r missing d :
    Forall (fun t => inspecting (spot t) = false) (threads d) -> polite_turn up content d (acknowledge r missing d).

(** A thread whose next access is undefined behaviour: what it refers to has been freed, or it
    is about to read the first element of a list that has become empty. *)
Definition overtaken (s : TransferState) (t : Thread) : bool :=
  match spot t with
  | Dangling => true
  | CheckFirst => bool_decide (missingChunks s = [])
  | _ => false
  end.

(** ** Bounds *)

(** The index a thread works at lies inside the vectors of a round. *)
Fixpoint spot_inside (s : TransferState) (p : Spot) : Prop :=
  match p with
  | Reading i => (i <= rc)%nat
  | Storing i _ => (i < rc)%nat
  | Copying i _ behind => (i < rc)%nat /\ spot_inside s behind
  | Resending i last => (i <= last)%nat /\ last = length (missingChunks s)
  | _ => True
  end.
Definition in_round (s : TransferState) (t : Thread) : Prop := (chunksThisRound t <= rc)%nat /\ spot_inside s (spot t).

Record in_bounds (d : Downloads) : Prop := {
  ib_offsets : length (roundOffsets (shared d)) = rc;
  ib_buffer : length (roundBuffer (shared d)) = rc;
  ib_threads : Forall (in_round (shared d)) (threads d)
}.

(** What the other threads rely on. *)
Definition same_acks (s s' : TransferState) : Prop :=
  missingChunks s' = missingChunks s /\ (ackReceived s' = true -> ackReceived s = true) /\
  length (roundOffsets s') = length (roundOffsets s) /\
  (length (roundBuffer s) = rc -> length (roundBuffer s') = rc).

Lemma spot_inside_same s s' p : missingChunks s' = missingChunks s -> spot_inside s p -> spot_inside s' p.
Proof. intros E. induction p; cbn [spot_inside]; rewrite ?E; tauto. Qed.

Lemma in_round_same s s' t : missingChunks s' = missingChunks s -> in_round s t -> in_round s' t.
Proof. intros E [Hc Hi]. split; [done|]. by eapply spot_inside_same. Qed.

Lemma in_round_tear s w t : in_round s t -> in_round s (tear w t).
Proof. intros [Hc Hi]. unfold tear. destruct (spot t) eqn:Es; try (by split; rewrite ?Es). by destruct (w _); split; rewrite ?Es. Qed.

Lemma same_acks_refl s : same_acks s s.
Proof. by split_and!. Qed.

Lemma set_round_data_same rb ro s :
  length ro = length (roundOffsets s) -> (length (roundBuffer s) = rc -> length rb = rc) -> same_acks s (set_round_data rb ro s).
Proof. by intros; split_and!. Qed.

Lemma max_rc : MAX_CHUNKS_PER_ROUND = Z.of_nat rc.
Proof. pose proof rc_Z. unfold MAX_CHUNKS_PER_ROUND. lia. Qed.

Lemma behind_inside s i b r ms :
  (i <= rc)%nat ->
  let t := mkThread b r i (if (i =? 0)%nat then Finishing else Sending 0) ms in
  same_acks s s /\ in_round s t.
Proof. intros Hi t. split_and!; try done; by destruct i. Qed.

Section Threads.
Context (up content : bstr).

Lemma call_inside i behind s t :
  (i < rc)%nat -> length (roundOffsets s) = rc -> length (roundBuffer s) = rc ->
  exists o, roundOffsets s !! i = Some o /\ call_serialize i behind s t = Ok (s, go (Copying i o behind) t).
Proof.
  intros Hi Ho Hb. unfold call_serialize.
  destruct (lookup_lt_is_Some_2 (roundOffsets s) i) as [o ->]; [lia|]. rewrite (proj2 (Nat.leb_gt _ _)) by lia. by exists o.
Qed.

Lemma access_inside timeout s t :
  length (roundOffsets s) = rc -> length (roundBuffer s) = rc -> in_round s t ->
  match next_access up content timeout s t with
  | Some (Ok (s', t')) => overtaken s t = false /\ same_acks s s' /\ in_round s' t'
  | Some UB => overtaken s t = true
  | Some _ => False
  | None => (exists e, spot t = Ended e) \/ spot t = Waiting /\ ackReceived s = false /\ timeout = false
  end.
Proof.
  intros Ho Hb [Hc Hi]. pose proof rc_Z as Hrc. unfold next_access, overtaken, in_round.
  destruct (spot t) as [|i|i block|i|i o p| | | | | | | | |i last| | |e] eqn:Es in *; cbn [spot_inside] in Hi; try done; try (by split_and!).
  - destruct (_ <? _); [|split_and!; done]. split; [done|]. split; [|split_and!; try done; cbn; lia].
    apply set_round_data_same; [done|]. intros _. by rewrite length_replicate, rc_eq.
  - rewrite max_rc. destruct (Z.ltb_spec (Z.of_nat i) (Z.of_nat rc)) as [Hlt|Hge]; cbn [andb].
    2: { split; [done|]. apply behind_inside. lia. }
    destruct (_ <? _); [|split; [done|apply behind_inside; lia]]. case_bool_decide; [split; [done|apply behind_inside; lia]|].
    rewrite (proj2 (Nat.leb_gt _ _)) by lia. split; [done|].
    split; [|split_and!; try done; cbn; lia]. apply set_round_data_same; [apply length_insert|done].
  - rewrite (proj2 (Nat.leb_gt _ _)) by lia. split; [done|]. split; [|split_and!; try done; cbn; lia]. apply set_round_data_same; [done|]. by rewrite length_insert.
  - destruct (Nat.ltb_spec i (chunksThisRound t)) as [Hlt|Hge]; [|split_and!; done].
    destruct (call_inside i (Sending (S i)) s t) as (o & _ & ->); [lia|done|done|]. split_and!; try done; cbn; lia.
  - destruct (lookup_lt_is_Some_2 (roundBuffer s) i) as [b ->]; [lia|]. split_and!; try done. apply Hi.
  - destruct (ackReceived s); [split_and!; done|]. destruct timeout; [split_and!; done|]. by right.
  - destruct (_ =? _)%nat; split_and!; done.
  - destruct (missingChunks s) as [|idx l]; [by rewrite bool_decide_eq_true_2|]. rewrite bool_decide_eq_false_2 by done.
    destruct (_ =? _); split_and!; done.
  - case_bool_decide; split_and!; done.
  - split_and!; try done; cbn; lia.
  - destruct Hi as [Hi ->]. destruct (Nat.eqb_spec i (length (missingChunks s))) as [->|Hne]; [split_and!; done|].
    destruct (lookup_lt_is_Some_2 (missingChunks s) i) as [idx Hx]; [lia|]. rewrite Hx.
    destruct (negb _) eqn:En; [split_and!; try done; cbn [go spot spot_inside]; lia|].
    apply negb_false_iff, andb_true_iff in En as [H1%Z.leb_le H2%Z.ltb_lt].
    destruct (call_inside (Z.to_nat idx) (Resending (S i) (length (missingChunks s))) s t) as (o & _ & ->); [lia|done|done|].
    split_and!; try done; cbn [go spot spot_inside]; lia.
  - left. by eexists.
Qed.

Lemma turn_cases i timeout d :
  in_bounds d ->
  match thread_turn up content i timeout d with
  | Some (Ok d') => in_bounds d' /\ exists t t', threads d !! i = Some t /\ overtaken (shared d) t = false /\
      next_access up content timeout (shared d) t = Some (Ok (shared d', t')) /\
      threads d' = <[i := t']> (tear (writes (shared d) t) <$> threads d) /\ same_acks (shared d) (shared d')
  | Some UB => exists t, threads d !! i = Some t /\ overtaken (shared d) t = true
  | Some _ => False
  | None => threads d !! i = None \/ exists t, threads d !! i = Some t /\
      ((exists e, spot t = Ended e) \/ spot t = Waiting /\ ackReceived (shared d) = false /\ timeout = false)
  end.
Proof.
  intros [Ho Hb Ht]. unfold thread_turn. destruct (threads d !! i) as [t|] eqn:Hi; [|by left].
  pose proof (list.Forall_lookup_1 _ _ _ _ Ht Hi) as Hr.
  pose proof (access_inside timeout (shared d) t Ho Hb Hr) as Ha.
  destruct (next_access up content timeout (shared d) t) as [[[s' t']| |]|] eqn:E; try done; cbn [obind].
  - destruct Ha as (Hov & Hs & Hr'). pose proof Hs as (Hm & _ & Ho' & Hb'). split; [|by exists t, t'].
    constructor; cbn [shared threads]; [congruence|by apply Hb'|].
    apply Forall_insert; [|done]. apply Forall_fmap. eapply list.Forall_impl; [exact Ht|].
    intros x Hx. cbn. apply in_round_tear. by eapply in_round_same.
  - by exists t.
  - right. by exists t.
Qed.

Lemma spot_inside_dangle s s' p : spot_inside s p -> spot_inside s' (dangle_spot p).
Proof. induction p; cbn [spot_inside dangle_spot]; tauto. Qed.

Lemma acknowledge_inside r missing d : in_bounds d -> in_bounds (acknowledge r missing d).
Proof.
  intros [Ho Hb Ht]. unfold acknowledge. destruct (negb _); [done|]. constructor; cbn [shared threads]; [done..|].
  apply Forall_fmap. eapply list.Forall_impl; [exact Ht|]. intros t [Hc Hi]. split; [exact Hc|]. by eapply spot_inside_dangle.
Qed.

Lemma request_inside start d : Forall (in_round (shared d)) (threads d) -> in_bounds (request start d).
Proof.
  intros Ht. constructor; cbn [request shared threads make_room roundOffsets roundBuffer]; [by rewrite length_resize, rc_eq..|].
  apply Forall_app. split.
  - eapply list.Forall_impl; [exact Ht|]. intros t. by apply in_round_same.
  - apply list.Forall_singleton. split; cbn; [lia|done].
Qed.

Lemma quiet_inside d d' : in_bounds d -> quiet_turn up content d d' -> in_bounds d'.
Proof. intros Hd (i & timeout & E). pose proof (turn_cases i timeout d Hd) as H. rewrite E in H. by destruct H. Qed.

Lemma reachable_inside start s d :
  rtc (download_turn up content) (request start (mkDownloads s [])) d -> in_bounds d.
Proof.
  revert d. apply (rtc_ind_r in_bounds); [by apply request_inside|]. intros d d' _ Hstep IH.
  destruct Hstep as [d d' [d1 d2 Hq|r missing d1]|st d].
  - by eapply quiet_inside.
  - by apply acknowledge_inside.
  - apply request_inside, IH.
Qed.

(** *** Every quiet step uses something up *)

(** A round that is read, sent and asked about. *)
Definition full_round : nat := 4 * rc + 8.

Fixpoint spot_effort (s : TransferState) (chunks : nat) (p : Spot) : nat :=
  match p with
  | Ended _ | Dangling => 0
  | Finishing => 1
  | Waiting => if ackReceived s then full_round + 2 * length (missingChunks s) + 12 else 1
  | Resetting => 2
  | Asking => 3
  | Sending i => 4 + 2 * (chunks - i)
  | Copying _ _ behind => S (spot_effort s chunks behind)
  | Reading i => 2 * (rc - i) + 2 * rc + 6
  | Storing i _ => 2 * (rc - i) + 2 * rc + 5
  | RoundTest => full_round
  | Resending i last => 4 + 2 * (last - i)
  | TakeEnd => 2 * length (missingChunks s) + 5
  | TakeBegin => 2 * length (missingChunks s) + 6
  | CheckEmpty => full_round + 2 * length (missingChunks s) + 7
  | CheckFirst => full_round + 2 * length (missingChunks s) + 8
  | CheckSize => full_round + 2 * length (missingChunks s) + 9
  end.
Definition effort (s : TransferState) (t : Thread) : nat := spot_effort s (chunksThisRound t) (spot t).

Definition budget (d : Downloads) : nat := sum_list_with (effort (shared d)) (threads d).

Lemma call_uses i behind s t s' t' :
  call_serialize i behind s t = Ok (s', t') -> s' = s /\ exists o, t' = go (Copying i o behind) t.
Proof.
  unfold call_serialize. destruct (roundOffsets s !! i) as [o|]; [|done]. destruct (_ <=? _)%nat; [done|].
  intros [= <- <-]. split; [done|]. by exists o.
Qed.

Lemma access_uses timeout s t s' t' :
  in_round s t -> next_access up content timeout s t = Some (Ok (s', t')) -> (effort s' t' < effort s t)%nat.
Proof.
  intros [Hc Hi] H. unfold next_access in H. unfold effort.
  destruct (spot t) as [|i|i block|i|i o p| | | | | | | | |i last| | |e] eqn:Es in *; cbn [spot_inside] in Hi; try done.
  - injection H as H. destruct (_ <? _); injection H as <- <-; cbn; unfold full_round; lia.
  - rewrite max_rc in H. destruct (Z.ltb_spec (Z.of_nat i) (Z.of_nat rc)) as [Hlt|Hge]; cbn [andb] in H.
    + destruct (_ <? _); [case_bool_decide|].
      * injection H as <- <-. destruct i; cbn; lia.
      * destruct (_ <=? _)%nat; [done|]. injection H as <- <-. cbn. lia.
      * injection H as <- <-. destruct i; cbn; lia.
    + injection H as <- <-. destruct i; cbn; lia.
  - destruct (_ <=? _)%nat; [done|]. injection H as <- <-. cbn. lia.
  - destruct (Nat.ltb_spec i (chunksThisRound t)); [|injection H as <- <-; cbn; lia].
    injection H as [-> [o ->]]%call_uses. cbn. lia.
  - destruct (roundBuffer s !! i) as [b|]; [|done]. injection H as <- <-. cbn. lia.
  - injection H as <- <-. cbn. lia.
  - injection H as <- <-. cbn. lia.
  - destruct (ackReceived s) eqn:Ea; [injection H as <- <-; cbn; rewrite Ea; lia|]. destruct timeout; [|done]. injection H as <- <-. cbn. rewrite Ea. lia.
  - injection H as <- <-. destruct (_ =? _)%nat; cbn; lia.
  - destruct (missingChunks s) as [|idx l] eqn:Em; [done|]. injection H as <- <-. destruct (_ =? _); cbn; rewrite Em; cbn; lia.
  - injection H as <- <-. case_bool_decide; cbn; unfold full_round; lia.
  - injection H as <- <-. cbn. lia.
  - injection H as <- <-. cbn. lia.
  - destruct Hi as [Hi ->]. destruct (Nat.eqb_spec i (length (missingChunks s))); [injection H as <- <-; cbn; lia|].
    destruct (missingChunks s !! i) as [idx|]; [|done]. destruct (negb _); [injection H as <- <-; cbn; lia|].
    injection H as [-> [o ->]]%call_uses. cbn. lia.
  - injection H as <- <-. cbn. lia.
Qed.

(** The steps of one thread cost the others nothing. *)
Lemma effort_same s s' t w : same_acks s s' -> (effort s' (tear w t) <= effort s t)%nat.
Proof.
  intros (Hm & Ha & _). assert (Hsame : forall c p, (spot_effort s' c p <= spot_effort s c p)%nat).
  { intros c p. induction p; cbn [spot_effort]; rewrite ?Hm; try lia.
    destruct (ackReceived s'); [by rewrite Ha|]. destruct (ackReceived s); lia. }
  unfold effort, tear. destruct (spot t) eqn:Es; try (rewrite Es; apply Hsame).
  destruct (w _); [cbn; lia|]. rewrite Es. apply Hsame.
Qed.

Lemma sum_insert_lt {A} (f g : A -> nat) (h : A -> A) l i x y :
  l !! i = Some x -> (forall z, g (h z) <= f z)%nat -> (g y < f x)%nat ->
  (sum_list_with g (<[i := y]> (h <$> l)) < sum_list_with f l)%nat.
Proof.
  intros Hi Hle Hlt. assert (Hall : forall l, (sum_list_with g (h <$> l) <= sum_list_with f l)%nat).
  { intros l'. induction l' as [|z l' IH]; [done|]. cbn. specialize (Hle z). lia. }
  revert i Hi. induction l as [|z l IH]; intros [|i] Hi; try done; cbn.
  - injection Hi as ->. specialize (Hall l). lia.
  - apply Nat.add_le_lt_mono; [apply Hle|exact (IH i Hi)].
Qed.

Lemma quiet_uses d d' : in_bounds d -> quiet_turn up content d d' -> (budget d' < budget d)%nat.
Proof.
  intros Hd (i & timeout & E). pose proof (turn_cases i timeout d Hd) as H. rewrite E in H.
  destruct H as (_ & t & t' & Hi & _ & Ha & Et & Hs). unfold budget. rewrite Et.
  eapply sum_insert_lt; [exact Hi|intros z; by apply effort_same|].
  eapply access_uses; [|exact Ha]. eapply list.Forall_lookup_1; [apply Hd|exact Hi].
Qed.

Lemma downloads_bounded n d d' : in_bounds d -> nsteps (quiet_turn up content) n d d' -> (n + budget d' <= budget d)%nat.
Proof.
  intros Hd H. induction H as [d|n d d1 d' Hq _ IH]; [lia|]. pose proof (quiet_uses _ _ Hd Hq).
  specialize (IH (quiet_inside _ _ Hd Hq)). lia.
Qed.

Lemma quiet_run_inside d d' : in_bounds d -> rtc (quiet_turn up content) d d' -> in_bounds d'.
Proof. intros Hd H. induction H as [d|d d1 d' Hq _ IH]; [done|]. eapply IH, quiet_inside, Hq. exact Hd. Qed.

(** A system that cannot go on: its threads have ended, or their next access is undefined. *)
Lemma stuck_ended d :
  in_bounds d -> (forall d', ~ quiet_turn up content d d') ->
  Forall (fun t => overtaken (shared d) t = true \/ exists e, spot t = Ended e) (threads d).
Proof.
  intros Hd Hstuck. apply list.Forall_forall. intros t [i Hi]%list_elem_of_lookup_1.
  pose proof (turn_cases i true d Hd) as H. destruct (thread_turn up content i true d) as [[d'| |]|] eqn:E.
  - destruct (Hstuck d'). by exists i, true.
  - done.
  - destruct H as (t' & Ht & Hsp). left. congruence.
  - destruct H as [H|(t' & Ht & [[e He]|(_ & _ & ?)])]; [congruence| |done]. right. exists e. congruence.
Qed.
End Threads.

(** ** One download: the threads implement [transfer_rounds]

    [transfer_rounds] gets the outcome of every wait in next_access.  A thread is related to
    the calls of it that begin with what the thread has done so far. *)

Section Refinement.
Context (up content : bstr) (total start : Z).

Abbreviation run acks := (transfer_rounds (S (length acks)) rc up content total start (first_round start) acks).

(** With [pre] sent, at byte [b] and round [r]: the rest is that of some whole run. *)
Definition continues (pre : list message) (b r : Z) : Prop :=
  forall acks ms e, transfer_rounds (S (length acks)) rc up content total b r acks = Ok (Some (ms, e)) ->
  exists acks0, run acks0 = Ok (Some (pre ++ ms, e)).

(** The same inside the loop of a round. *)
Definition in_loop (blocks : list (Z * bstr)) (r : Z) (mid : list message) : Prop :=
  forall acks ms e, ack_loop up r blocks acks = (ms, e) -> exists acks0, ack_loop up r blocks acks0 = (mid ++ ms, e).

Definition holds (blocks : list (Z * bstr)) (s : TransferState) : Prop :=
  forall k o b, blocks !! k = Some (o, b) -> roundOffsets s !! k = Some o /\ roundBuffer s !! k = Some b.

Lemma holds_same blocks s s' :
  roundOffsets s' = roundOffsets s -> roundBuffer s' = roundBuffer s -> holds blocks s -> holds blocks s'.
Proof. unfold holds. by intros -> ->. Qed.

Lemma holds_inside blocks s : holds blocks s -> (length blocks <= length (roundOffsets s))%nat.
Proof.
  intros H. destruct (le_lt_dec (length blocks) (length (roundOffsets s))) as [|Hl]; [done|].
  destruct (lookup_lt_is_Some_2 _ _ Hl) as [[o b] Hk]. destruct (H _ _ _ Hk) as [Ho _]. apply lookup_lt_Some in Ho. lia.
Qed.

Lemma transfer_rounds_more fuel fuel' b r acks x :
  transfer_rounds fuel rc up content total b r acks = Ok (Some x) -> (fuel <= fuel')%nat ->
  transfer_rounds fuel' rc up content total b r acks = Ok (Some x).
Proof.
  revert fuel' b r acks x. induction fuel as [|fuel IH]; intros [|fuel'] b r acks x H Hle; try done; [lia|].
  cbn [transfer_rounds] in *. destruct (b <? total); [|done].
  destruct (read_round _ _ _ _ _ _) as [[blocks sent]| |]; try done. cbn [obind] in *. case_bool_decide; [done|].
  destruct (ack_loop up r blocks acks) as [ms [[] rest]]; try done.
  destruct (transfer_rounds fuel rc up content total sent _ rest) as [[[ms' e']|]| |] eqn:E; try done.
  rewrite (IH fuel' _ _ _ _ E) by lia. exact H.
Qed.

Section Round.
Context (pre : list message) (b b' r : Z) (blocks : list (Z * bstr)) (mid : list message).
Hypothesis Hpre : continues pre b r.
Hypothesis Hb : b < total.
Hypothesis Hread : read_round rc 0 rc content total b = Ok (blocks, b').
Hypothesis Hne : blocks <> [].
Hypothesis Hmid : in_loop blocks r mid.

Abbreviation ask := (RoundEnd up r (len blocks)).

(** A round that does not complete ends the download. *)
Lemma round_fails acks e rest :
  e <> Complete -> ack_loop up r blocks acks = ([ask], (e, rest)) ->
  exists acks0, run acks0 = Ok (Some (pre ++ chunk_messages up blocks ++ mid ++ [ask], e)).
Proof.
  intros He Ha. destruct (Hmid _ _ _ Ha) as [acks1 H1]. apply (Hpre acks1).
  cbn [transfer_rounds]. rewrite (proj2 (Z.ltb_lt _ _) Hb), rc_eq, Hread. cbn [obind]. rewrite bool_decide_eq_false_2 by done.
  rewrite H1. by destruct e.
Qed.

(** A round that completes is followed by the next. *)
Lemma round_completes : continues (pre ++ chunk_messages up blocks ++ mid ++ [ask]) b' (wrap 32 (r + 1)).
Proof.
  intros acks ms e H. destruct (Hmid (Some [] :: acks) [ask] (Complete, acks) eq_refl) as [acks1 H1].
  destruct (Hpre acks1 (chunk_messages up blocks ++ (mid ++ [ask]) ++ ms) e) as [acks0 H0].
  - cbn [transfer_rounds]. rewrite (proj2 (Z.ltb_lt _ _) Hb), rc_eq, Hread. cbn [obind]. rewrite bool_decide_eq_false_2 by done.
    rewrite H1. apply ack_loop_shorter in H1. rewrite (transfer_rounds_more _ (length acks1) _ _ _ _ H) by lia. cbn [obind].
    by rewrite !app_assoc.
  - exists acks0. rewrite H0. by rewrite !app_assoc.
Qed.

(** Chunks that are sent again keep the thread in the loop, and so does a list of missing
    chunks that has become empty behind the test. *)
Lemma loop_again missing :
  (length blocks <= rc)%nat ->
  in_loop blocks r (mid ++ [ask] ++ chunk_messages up (resend blocks missing)).
Proof.
  intros Hl acks ms e Ha.
  assert (Hseen : exists seen, seen <> [] /\ seen <> [2 ^ 32 - 1] /\ resend blocks seen = resend blocks missing).
  { assert (Hno : forall idx, 2 ^ 31 <= idx -> resend blocks [idx] = []).
    { intros idx Hidx. pose proof rc_Z. unfold resend. cbn [omap list_omap].
      destruct (0 <=? idx); [|done]. by rewrite (lookup_ge_None_2 blocks) by lia. }
    destruct (decide (missing = [2 ^ 32 - 1])) as [->|]; [exists [2 ^ 32 - 2]; split_and!; [done..|]; by rewrite !Hno|].
    destruct (decide (missing = [])) as [->|]; [exists [2 ^ 32 - 2]; split_and!; [done..|]; by rewrite !Hno|]. by exists missing. }
  destruct Hseen as (seen & Hs1 & Hs2 & Hs3).
  destruct (Hmid (Some seen :: acks) (ask :: chunk_messages up (resend blocks missing) ++ ms) e) as [acks0 H0].
  - cbn [ack_loop]. rewrite !bool_decide_eq_false_2 by done. by rewrite Ha, Hs3.
  - exists acks0. rewrite H0. f_equal. by rewrite <- !app_assoc.
Qed.
End Round.

(** A thread that has read its round: [blocks], behind [pre]. *)
Record has_read (pre : list message) (blocks : list (Z * bstr)) (s : TransferState) (t : Thread) (b : Z) : Prop := {
  hr_pre : continues pre b (round t);
  hr_more : b < total;
  hr_read : read_round rc 0 rc content total b = Ok (blocks, bytesSent t);
  hr_some : blocks <> [];
  hr_count : chunksThisRound t = length blocks;
  hr_holds : holds blocks s
}.

(** A thread that reads: [got] so far, the rest from chunk [i] on. *)
Record reads (got : list (Z * bstr)) (i : nat) (s : TransferState) (t : Thread) (b : Z) : Prop := {
  rd_pre : continues (sent t) b (round t);
  rd_more : b < total;
  rd_count : length got = i;
  rd_holds : holds got s
}.

Definition round_end (blocks : list (Z * bstr)) (t : Thread) : message := RoundEnd up (round t) (len blocks).

Fixpoint follows_at (s : TransferState) (p : Spot) (t : Thread) : Prop :=
  match p with
  | RoundTest => continues (sent t) (bytesSent t) (round t)
  | Reading i => exists got b, reads got i s t b /\
      read_round rc 0 rc content total b =
        (let! (bl, x) := read_round (rc - i) i rc content total (bytesSent t) in Ok (got ++ bl, x))
  | Storing i block => exists got b o, reads got i s t b /\ roundOffsets s !! i = Some o /\
      read_round rc 0 rc content total b =
        (let! (bl, x) := read_round (rc - S i) (S i) rc content total (bytesSent t) in Ok (got ++ (o, block) :: bl, x))
  | Sending i => exists pre blocks b, has_read pre blocks s t b /\ sent t = pre ++ chunk_messages up (take i blocks)
  | Copying i o behind => exists block, roundBuffer s !! i = Some block /\ follows_at s behind (send (FileChunk up o block) behind t)
  | Asking => exists pre blocks b mid, has_read pre blocks s t b /\ in_loop blocks (round t) mid /\
      sent t = pre ++ chunk_messages up blocks ++ mid
  | Resetting | Waiting | CheckSize | CheckFirst | CheckEmpty | TakeBegin | TakeEnd =>
      exists pre blocks b mid, has_read pre blocks s t b /\ in_loop blocks (round t) mid /\
      sent t = pre ++ chunk_messages up blocks ++ mid ++ [round_end blocks t]
  | Resending i last => exists pre blocks b mid, has_read pre blocks s t b /\ in_loop blocks (round t) mid /\
      sent t = pre ++ chunk_messages up blocks ++ mid ++ [round_end blocks t] ++ chunk_messages up (resend blocks (take i (missingChunks s)))
  | Finishing => exists acks, run acks = Ok (Some (sent t, Complete))
  | Ended e => exists acks ms, run acks = Ok (Some (ms, e)) /\
      sent t = ms ++ match e with Complete => [FileEnd up (finalCrc s)] | _ => [] end
  | Dangling => True
  end.
Definition follows (s : TransferState) (t : Thread) : Prop := follows_at s (spot t) t.

Lemma has_read_same pre blocks s s' t t' b :
  roundOffsets s' = roundOffsets s -> roundBuffer s' = roundBuffer s -> bytesSent t' = bytesSent t -> round t' = round t ->
  chunksThisRound t' = chunksThisRound t -> has_read pre blocks s t b -> has_read pre blocks s' t' b.
Proof. intros E1 E2 E3 E4 E5 [? ? ? ? ? ?]. constructor; rewrite ?E3, ?E4, ?E5; try done. by eapply holds_same. Qed.

Lemma read_round_stop i b : (rc <= i)%nat \/ total <= b -> read_round (rc - i) i rc content total b = Ok ([], b).
Proof.
  intros H. destruct (rc - i)%nat eqn:E; cbn [read_round]; [done|]. destruct H as [H|H]; [lia|]. by rewrite (proj2 (Z.ltb_ge _ _) H).
Qed.

(** The end of the reading loop. *)
Lemma reads_end got i s t b :
  reads got i s t b ->
  read_round rc 0 rc content total b =
    (let! (bl, x) := read_round (rc - i) i rc content total (bytesSent t) in Ok (got ++ bl, x)) ->
  read_round (rc - i) i rc content total (bytesSent t) = Ok ([], bytesSent t) ->
  follows s (mkThread (bytesSent t) (round t) i (if (i =? 0)%nat then Finishing else Sending 0) (sent t)).
Proof.
  intros [Hpre Hb Hl Hh] Hr Hstop. rewrite Hstop in Hr. cbn [obind] in Hr. rewrite app_nil_r in Hr.
  unfold follows. cbn [spot]. destruct (Nat.eqb_spec i 0) as [->|Hi]; cbn [follows_at sent].
  - apply nil_length_inv in Hl as ->. destruct (Hpre [] [] Complete) as [acks Ha].
    + cbn [transfer_rounds]. by rewrite (proj2 (Z.ltb_lt _ _) Hb), rc_eq, Hr.
    + exists acks. by rewrite app_nil_r in Ha.
  - exists (sent t), got, b. split; [constructor; cbn; try done; by intros ->|]. cbn. by rewrite app_nil_r.
Qed.

Lemma reads_block got i t b block :
  (i < rc)%nat -> bytesSent t < total ->
  block = take (Z.to_nat (Z.min MAX_CHUNK_SIZE (total - bytesSent t))) (drop (Z.to_nat (bytesSent t)) content) ->
  read_round rc 0 rc content total b =
    (let! (bl, x) := read_round (rc - i) i rc content total (bytesSent t) in Ok (got ++ bl, x)) ->
  read_round rc 0 rc content total b = if bool_decide (block = []) then Ok (got, bytesSent t) else
    let! (bl, x) := read_round (rc - S i) (S i) rc content total (bytesSent t + len block) in Ok (got ++ (bytesSent t, block) :: bl, x).
Proof.
  intros Hi Hb -> ->. replace (rc - i)%nat with (S (rc - S i)) by lia. cbn [read_round].
  rewrite (proj2 (Z.ltb_lt _ _) Hb). case_bool_decide; cbn [obind]; [by rewrite app_nil_r|].
  rewrite (proj2 (Nat.leb_gt _ _)) by lia. by destruct (read_round _ _ _ _ _ _) as [[bl x]| |].
Qed.

(** *** One step of the thread *)

Definition carries_on (s : TransferState) (x : TransferState * Thread) : Prop :=
  follows x.1 x.2 /\ totalSize x.1 = total /\ finalCrc x.1 = finalCrc s.

Section Step.
Context (timeout : bool) (s : TransferState) (t : Thread) (x : TransferState * Thread).
Hypothesis Ho : length (roundOffsets s) = rc.
Hypothesis Hb : length (roundBuffer s) = rc.
Hypothesis Htot : totalSize s = total.
Hypothesis Hin : in_round s t.
Hypothesis Hf : follows s t.
Hypothesis H : next_access up content timeout s t = Some (Ok x).

Lemma test_follows : spot t = RoundTest -> carries_on s x.
Proof.
  intros Es. unfold follows in Hf. unfold next_access in H. rewrite Es in Hf, H. rewrite Htot in H. injection H as <-.
  destruct (Z.ltb_spec (bytesSent t) total); (split; [|done]); unfold follows; cbn [go spot sent fst snd].
  - exists [], (bytesSent t). split; [by constructor|]. rewrite Nat.sub_0_r. cbn [go bytesSent].
    by destruct (read_round rc 0 rc content total (bytesSent t)) as [[bl y]| |].
  - destruct (Hf [] [] Complete) as [acks Ha]; [|exists acks; by rewrite app_nil_r in Ha].
    cbn [transfer_rounds]. by rewrite (proj2 (Z.ltb_ge _ _)) by lia.
Qed.

Lemma reading_follows i : spot t = Reading i -> carries_on s x.
Proof.
  intros Es. destruct Hin as [_ Hi]. unfold follows in Hf. unfold next_access in H. rewrite Es in Hf, H, Hi. cbn [spot_inside] in Hi. rewrite Htot, max_rc in H.
  destruct Hf as (got & b & Hrd & Hr).
  destruct (Z.ltb_spec (Z.of_nat i) (Z.of_nat rc)); cbn [andb] in H.
  2: { injection H as <-. split; [|done]. eapply reads_end; [exact Hrd|exact Hr|]. apply read_round_stop. lia. }
  destruct (Z.ltb_spec (bytesSent t) total).
  2: { injection H as <-. split; [|done]. eapply reads_end; [exact Hrd|exact Hr|]. apply read_round_stop. lia. }
  pose proof (reads_block got i t b _ ltac:(lia) ltac:(lia) eq_refl Hr) as Hr'. case_bool_decide as Hblock.
  - injection H as <-. split; [|done]. eapply reads_end; [exact Hrd|exact Hr|].
    replace (rc - i)%nat with (S (rc - S i)) by lia. cbn [read_round]. rewrite (proj2 (Z.ltb_lt _ _)) by lia. by rewrite bool_decide_eq_true_2.
  - rewrite (proj2 (Nat.leb_gt _ _)) in H by lia. injection H as <-. split; [|done]. unfold follows. cbn [spot bytesSent fst snd].
    exists got, b, (bytesSent t). destruct Hrd as [? ? Hl Hh]. split_and!; [constructor; cbn; try done| |exact Hr'].
    + intros k o c Hk. pose proof (lookup_lt_Some _ _ _ Hk). cbn. rewrite list_lookup_insert_ne by lia. by apply Hh.
    + cbn. apply list_lookup_insert_eq. lia.
Qed.

Lemma storing_follows i block : spot t = Storing i block -> carries_on s x.
Proof.
  intros Es. destruct Hin as [_ Hi]. unfold follows in Hf. unfold next_access in H. rewrite Es in Hf, H, Hi. cbn [spot_inside] in Hi.
  destruct Hf as (got & b & o & [Hp Hm Hl Hh] & Hoff & Hr). rewrite (proj2 (Nat.leb_gt _ _)) in H by lia. injection H as <-.
  split; [|done]. exists (got ++ [(o, block)]), b. split; [constructor; cbn; try done|].
  - rewrite length_app. cbn. lia.
  - intros k o' c [Hk|[Hk1 Hk2]]%lookup_app_Some.
    + pose proof (lookup_lt_Some _ _ _ Hk). cbn. rewrite list_lookup_insert_ne by lia. by apply Hh.
    + apply list_lookup_singleton_Some in Hk2 as [Hk2 [= <- <-]]. replace k with i by lia. split; [done|]. cbn. apply list_lookup_insert_eq. lia.
  - rewrite Hr. cbn [go bytesSent fst snd].
    destruct (read_round (rc - S i) (S i) rc content total (bytesSent t)) as [[bl y]| |]; cbn [obind]; [by rewrite <- app_assoc|done..].
Qed.

Lemma sending_follows i : spot t = Sending i -> carries_on s x.
Proof.
  intros Es. unfold follows in Hf. unfold next_access in H. rewrite Es in Hf, H. cbn [follows_at] in Hf.
  destruct Hf as (pre & blocks & b & Hh & Hs). pose proof (hr_count _ _ _ _ _ Hh) as Hn. destruct (Nat.ltb_spec i (chunksThisRound t)).
  - destruct (lookup_lt_is_Some_2 blocks i) as [[o c] Hk]; [lia|]. destruct (hr_holds _ _ _ _ _ Hh _ _ _ Hk) as [Hko Hkb].
    pose proof (proj1 Hin). destruct (call_inside i (Sending (S i)) s t) as (o' & Ho' & Hcall); [lia|done|done|].
    rewrite Hcall in H. injection H as <-. split; [|done]. replace o' with o by congruence.
    exists c. split; [exact Hkb|]. cbn [follows_at]. exists pre, blocks, b. split; [by eapply has_read_same, Hh|]. cbn [go send sent fst snd].
    rewrite (take_S_r _ _ _ Hk). unfold chunk_messages. by rewrite Hs, fmap_app, app_assoc.
  - injection H as <-. split; [|done]. exists pre, blocks, b, []. split_and!; [by eapply has_read_same, Hh|by intros acks ms e Ha; exists acks|].
    cbn [go sent fst snd]. by rewrite app_nil_r, Hs, take_ge by lia.
Qed.

Lemma copying_follows i o p : spot t = Copying i o p -> carries_on s x.
Proof.
  intros Es. unfold follows in Hf. unfold next_access in H. rewrite Es in Hf, H. destruct Hf as (c & Hc & Hp).
  rewrite Hc in H. injection H as <-. by split.
Qed.

(** Asking, waiting and the tests behind the wait. *)
Lemma loop_follows :
  spot t = Asking \/ spot t = Resetting \/ spot t = Waiting \/ spot t = CheckSize \/ spot t = CheckFirst \/
  spot t = CheckEmpty \/ spot t = TakeBegin \/ spot t = TakeEnd -> carries_on s x.
Proof.
  intros Es. unfold follows in Hf. unfold next_access in H.
  destruct Es as [Es|[Es|[Es|[Es|[Es|[Es|[Es|Es]]]]]]]; rewrite Es in Hf, H; destruct Hf as (pre & blocks & b & mid & Hh & Hl & Hs).
  - injection H as <-. split; [|done]. exists pre, blocks, b, mid. split_and!; [by eapply has_read_same, Hh|done|]. cbn [send sent fst snd].
    rewrite Hs, (hr_count _ _ _ _ _ Hh). unfold round_end. cbn [send round]. by rewrite <- !app_assoc.
  - injection H as <-. split; [|done]. exists pre, blocks, b, mid. split_and!; [by eapply has_read_same, Hh|done|done].
  - destruct (ackReceived s); [|destruct timeout; [|done]]; injection H as <-; (split; [|done]).
    + exists pre, blocks, b, mid. split_and!; [by eapply has_read_same, Hh|done|done].
    + destruct Hh as [H1 H2 H3 H4 _ _]. destruct (round_fails pre b _ _ blocks mid H1 H2 H3 H4 Hl [] AckTimeout []) as [acks Ha]; [done..|].
      exists acks. eexists. split; [exact Ha|]. by rewrite app_nil_r.
  - injection H as <-. split; [|done]. unfold follows. cbn [go spot fst snd].
    destruct (_ =? _)%nat; exists pre, blocks, b, mid; (split_and!; [by eapply has_read_same, Hh|done|done]).
  - destruct (missingChunks s) as [|idx l]; [done|]. injection H as <-. split; [|done]. destruct (_ =? _).
    + destruct Hh as [H1 H2 H3 H4 _ _]. destruct (round_fails pre b _ _ blocks mid H1 H2 H3 H4 Hl [Some [2 ^ 32 - 1]] AckFailed []) as [acks Ha]; [done..|].
      exists acks. eexists. split; [exact Ha|]. by rewrite app_nil_r.
    + exists pre, blocks, b, mid. split_and!; [by eapply has_read_same, Hh|done|done].
  - injection H as <-. split; [|done]. case_bool_decide as Hm.
    + unfold follows. cbn [spot follows_at sent bytesSent round fst snd]. rewrite Hs. destruct Hh as [H1 H2 H3 H4 _ _]. by apply (round_completes pre b).
    + exists pre, blocks, b, mid. split_and!; [by eapply has_read_same, Hh|done|done].
  - injection H as <-. split; [|done]. exists pre, blocks, b, mid. split_and!; [by eapply has_read_same, Hh|done|done].
  - injection H as <-. split; [|done]. exists pre, blocks, b, mid. split_and!; [by eapply has_read_same, Hh|done|].
    cbn [go sent fst snd]. by rewrite app_nil_r.
Qed.

Lemma resend_app blocks l1 l2 : resend blocks (l1 ++ l2) = resend blocks l1 ++ resend blocks l2.
Proof. apply omap_app. Qed.

Lemma resending_follows i last : spot t = Resending i last -> carries_on s x.
Proof.
  intros Es. destruct Hin as [Hc Hi]. unfold follows in Hf. unfold next_access in H. rewrite Es in Hf, H, Hi. cbn [spot_inside] in Hi.
  destruct Hf as (pre & blocks & b & mid & Hh & Hl & Hs). destruct Hi as [Hi ->].
  destruct (Nat.eqb_spec i (length (missingChunks s))) as [->|Hlt].
  { injection H as <-. split; [|done]. rewrite take_ge in Hs by lia. eexists pre, blocks, b, _. split_and!; [by eapply has_read_same, Hh| |exact Hs].
    apply loop_again; [done|]. rewrite <- Ho. by apply holds_inside, (hr_holds _ _ _ _ _ Hh). }
  destruct (lookup_lt_is_Some_2 (missingChunks s) i) as [idx Hx]; [lia|]. rewrite Hx in H.
  assert (Hnext : forall m p, resend blocks [idx] = m ->
    follows_at s (Resending (S i) (length (missingChunks s))) (mkThread (bytesSent t) (round t) (chunksThisRound t) p (sent t ++ chunk_messages up m))).
  { intros m p <-. exists pre, blocks, b, mid. split_and!; [by eapply has_read_same, Hh|done..|]. cbn [sent]. unfold round_end. cbn [round].
    rewrite (take_S_r _ _ _ Hx), resend_app. unfold chunk_messages. by rewrite Hs, fmap_app, <- !app_assoc. }
  pose proof (hr_count _ _ _ _ _ Hh) as Hn. destruct (negb _) eqn:En.
  - injection H as <-. split; [|done]. cbn [fst snd]. unfold go, follows. cbn [spot]. rewrite <- (app_nil_r (sent t)). apply (Hnext []).
    apply negb_true_iff, andb_false_iff in En. unfold resend. cbn [omap list_omap].
    destruct En as [->|E%Z.ltb_ge]; [done|]. destruct (0 <=? idx); [|done]. by rewrite (lookup_ge_None_2 blocks) by lia.
  - apply negb_false_iff, andb_true_iff in En as [E1 E2%Z.ltb_lt]. pose proof E1 as E1'%Z.leb_le.
    destruct (lookup_lt_is_Some_2 blocks (Z.to_nat idx)) as [[o c] Hk]; [lia|]. destruct (hr_holds _ _ _ _ _ Hh _ _ _ Hk) as [Hko Hkb].
    destruct (call_inside (Z.to_nat idx) (Resending (S i) (length (missingChunks s))) s t) as (o' & Ho' & Hcall); [lia|done|done|].
    rewrite Hcall in H. injection H as <-. split; [|done]. replace o' with o by congruence.
    exists c. split; [exact Hkb|]. apply (Hnext [(o, c)]). unfold resend. cbn [omap list_omap]. by rewrite E1, Hk.
Qed.

Lemma access_follows : carries_on s x.
Proof.
  destruct (spot t) as [|i|i block|i|i o p| | | | | | | | |i last| | |e] eqn:Es; try (by apply loop_follows; tauto).
  - by apply test_follows.
  - by eapply reading_follows.
  - by eapply storing_follows.
  - by eapply sending_follows.
  - by eapply copying_follows.
  - by eapply resending_follows.
  - unfold next_access in H. by rewrite Es in H.
  - unfold next_access in H. unfold follows in Hf. rewrite Es in H, Hf. destruct Hf as [acks Ha]. injection H as <-. split; [|done]. exists acks. by eexists.
  - unfold next_access in H. by rewrite Es in H.
Qed.
End Step.
End Refinement.

(** ** The system of one thread *)

Section Lone.
Context (up content : bstr).

Lemma follows_at_ack total start s p t missing :
  follows_at up content total start s p t ->
  forall p', follows_at up content total start (set_ack missing true s) (dangle_spot p) (go p' t).
Proof.
  revert t. induction p as [| | | |i o p IH| | | | | | | | | | | |e]; intros t H p'; cbn [dangle_spot follows_at] in *; try done.
  - destruct H as (got & b & [] & ?). exists got, b. by split.
  - destruct H as (got & b & o & [] & ? & ?). exists got, b, o. by split_and!.
  - destruct H as (pre & blocks & b & Hh & ?). exists pre, blocks, b. split; [by eapply has_read_same, Hh|done].
  - destruct H as (c & Hc & Hp). exists c. split; [done|]. exact (IH _ Hp _).
  - destruct H as (pre & blocks & b & mid & Hh & ?). exists pre, blocks, b, mid. split; [by eapply has_read_same, Hh|done].
  - destruct H as (pre & blocks & b & mid & Hh & ?). exists pre, blocks, b, mid. split; [by eapply has_read_same, Hh|done].
  - destruct H as (pre & blocks & b & mid & Hh & ?). exists pre, blocks, b, mid. split; [by eapply has_read_same, Hh|done].
  - destruct H as (pre & blocks & b & mid & Hh & ?). exists pre, blocks, b, mid. split; [by eapply has_read_same, Hh|done].
  - destruct H as (pre & blocks & b & mid & Hh & ?). exists pre, blocks, b, mid. split; [by eapply has_read_same, Hh|done].
  - destruct H as (pre & blocks & b & mid & Hh & ?). exists pre, blocks, b, mid. split; [by eapply has_read_same, Hh|done].
  - destruct H as (pre & blocks & b & mid & Hh & ?). exists pre, blocks, b, mid. split; [by eapply has_read_same, Hh|done].
Qed.

Lemma follows_ack total start s t missing :
  follows up content total start s t -> follows up content total start (set_ack missing true s) (dangle t).
Proof. intros H. by apply follows_at_ack. Qed.

(** The only thread follows the run of [transfer_rounds] from the state of the request. *)
Record lone (start : Z) (s0 : TransferState) (d : Downloads) (t : Thread) : Prop := {
  ln_thread : threads d = [t];
  ln_inside : in_bounds d;
  ln_total : totalSize (shared d) = totalSize s0;
  ln_crc : finalCrc (shared d) = finalCrc s0;
  ln_follows : follows up content (totalSize s0) start (shared d) t
}.

Lemma lone_acked start s0 d t d' : lone start s0 d t -> acked_turn up content d d' -> exists t', lone start s0 d' t'.
Proof.
  intros Hl Hstep. revert Hl. destruct Hstep as [d1 d2 (i & timeout & E)|r missing d1]; intros [Ht Hin Htot Hcrc Hf].
  - pose proof (turn_cases up content i timeout d1 Hin) as Hc. rewrite E in Hc. destruct Hc as (Hin' & t1 & t' & Hi & _ & Ha & Ht' & _).
    rewrite Ht in Hi, Ht'. cbn [fmap list_fmap] in Ht'. apply list_lookup_singleton_Some in Hi as [-> <-].
    destruct (access_follows up content (totalSize s0) start timeout (shared d1) t (shared d2, t')) as (Hf' & Htot' & Hcrc'); try done.
    + apply Hin.
    + apply Hin.
    + pose proof (ib_threads _ Hin) as Hall. rewrite Ht in Hall. exact (proj1 (list.Forall_singleton _ _) Hall).
    + exists t'. constructor; [done..|by rewrite <- Hcrc|done].
  - pose proof (acknowledge_inside r missing d1 Hin) as Hin'. unfold acknowledge in *. destruct (negb _); [by exists t|].
    exists (dangle t). constructor; cbn [shared threads]; try done; [by rewrite Ht|]. by apply follows_ack.
Qed.

Lemma lone_reachable start s d :
  rtc (acked_turn up content) (request start (mkDownloads s [])) d -> exists t, lone start s d t.
Proof.
  revert d. apply (rtc_ind_r (fun d => exists t, lone start s d t)).
  - exists (new_thread start). constructor; try done; [by apply request_inside|].
    intros acks ms e Ha. exists acks. exact Ha.
  - intros d d' _ Hstep [t Hl]. by eapply lone_acked.
Qed.

(** *** Acknowledgements that come in time *)

(** Nothing the thread refers to has been freed, and a list it has found to have one element
    still has it. *)
Fixpoint undisturbed (s : TransferState) (p : Spot) : Prop :=
  match p with
  | Dangling => False
  | CheckFirst => missingChunks s <> []
  | Copying _ _ behind => undisturbed s behind
  | _ => True
  end.

Lemma undisturbed_ack s missing p :
  inspecting p = false -> undisturbed s p -> undisturbed (set_ack missing true s) (dangle_spot p).
Proof. induction p; cbn [inspecting undisturbed dangle_spot]; try done. Qed.

Lemma undisturbed_access timeout s t s' t' :
  undisturbed s (spot t) -> next_access up content timeout s t = Some (Ok (s', t')) -> undisturbed s' (spot t').
Proof.
  intros Hu H. unfold next_access in H.
  destruct (spot t) as [|i|i block|i|i o p| | | | | | | | |i last| | |e] eqn:Es; cbn [undisturbed] in Hu; try done.
  - injection H as H. destruct (_ <? _); by injection H as <- <-.
  - destruct (_ && _); [case_bool_decide; [|destruct (_ <=? _)%nat; [done|]]|]; injection H as <- <-; cbn [spot]; by destruct i.
  - destruct (_ <=? _)%nat; [done|]. by injection H as <- <-.
  - destruct (_ <? _)%nat; [|by injection H as <- <-]. by injection H as [-> [o ->]]%call_uses.
  - destruct (roundBuffer s !! i); [|done]. by injection H as <- <-.
  - by injection H as <- <-.
  - by injection H as <- <-.
  - destruct (ackReceived s); [|destruct timeout; [|done]]; by injection H as <- <-.
  - injection H as <- <-. destruct (Nat.eqb_spec (length (missingChunks s)) 1) as [Hl|]; [|done].
    cbn [go spot undisturbed]. intros Hm. by rewrite Hm in Hl.
  - destruct (missingChunks s) as [|idx l]; [done|]. injection H as <- <-. by destruct (_ =? _).
  - injection H as <- <-. by case_bool_decide.
  - by injection H as <- <-.
  - by injection H as <- <-.
  - destruct (_ =? _)%nat; [by injection H as <- <-|]. destruct (missingChunks s !! i) as [idx|]; [|done].
    destruct (negb _); [by injection H as <- <-|]. by injection H as [-> [o ->]]%call_uses.
  - by injection H as <- <-.
Qed.

Lemma polite_acked d d' : polite_turn up content d d' -> acked_turn up content d d'.
Proof. intros [d1 d2 H|r missing d1 _]; [by apply acked_thread|apply acked_ack]. Qed.

Lemma polite_undisturbed start s d :
  rtc (polite_turn up content) (request start (mkDownloads s [])) d ->
  exists t, lone start s d t /\ undisturbed (shared d) (spot t).
Proof.
  revert d. apply (rtc_ind_r (fun d => exists t, lone start s d t /\ undisturbed (shared d) (spot t))).
  - destruct (lone_reachable start s _ (rtc_refl _ _)) as [t Hl]. exists t. split; [done|].
    pose proof (ln_thread _ _ _ _ Hl) as Ht. cbn in Ht. by injection Ht as <-.
  - intros d d' _ Hstep (t & Hl & Hu). destruct (lone_acked start s d t d' Hl (polite_acked _ _ Hstep)) as [t' Hl'].
    exists t'. split; [done|]. pose proof (ln_thread _ _ _ _ Hl) as Ht. pose proof (ln_thread _ _ _ _ Hl') as Ht'.
    revert Hl Hu Hl' Ht Ht'. destruct Hstep as [d1 d2 (i & timeout & E)|r missing d1 Hp]; intros Hl Hu Hl' Ht Ht'.
    + pose proof (turn_cases up content i timeout d1 (ln_inside _ _ _ _ Hl)) as Hc. rewrite E in Hc.
      destruct Hc as (_ & t1 & t2 & Hi & _ & Ha & Hts & _). rewrite Ht in Hi, Hts. apply list_lookup_singleton_Some in Hi as [-> <-].
      rewrite Ht' in Hts. injection Hts as ->. by eapply undisturbed_access.
    + rewrite Ht in Hp. pose proof (proj1 (list.Forall_singleton _ _) Hp) as Hp1. cbv beta in Hp1. unfold acknowledge in *. destruct (negb _).
      * rewrite Ht in Ht'. by injection Ht' as <-.
      * cbn [threads shared] in *. rewrite Ht in Ht'. injection Ht' as <-. by apply undisturbed_ack.
Qed.
End Lone.

(** ** The handlers of the manager *)

Section Handlers.
Context {C : Checksum}.

(** [onAckReceived] is [acknowledge] on the state of the upload. *)
Lemma ack_shared p f st upload r missing st1 ptr d :
  take_packet read_FileAck p st = Ok ((upload, r, missing), st1) ->
  downloadableFiles f !! bytesToHex upload = Some ptr -> theap f !! ptr = Some (shared d) ->
  exists f', onAckReceived p f st = Ok (f', st1) /\ theap f' !! ptr = Some (shared (acknowledge r missing d)) /\
    downloadableFiles f' = downloadableFiles f /\ disk f' = disk f.
Proof.
  intros Ht Hx Hh. unfold onAckReceived, acknowledge. rewrite Ht. cbn [obind]. rewrite Hx. unfold state_at. rewrite Hh. cbn [obind].
  destruct (negb _); [by exists f|]. eexists. split; [done|]. cbn [theap set_theap shared]. by rewrite lookup_insert_eq.
Qed.

(** A request that starts a thread is [request] on it. *)
Lemma request_shared p f st j f' st' :
  HandleDownloadRequest p f st = Ok (Some j, f', st') ->
  exists ptr s, downloadableFiles f !! job_upload j = Some ptr /\ theap f !! ptr = Some s /\
    (forall ts, theap f' !! ptr = Some (shared (request (job_start j) (mkDownloads s ts)))) /\ disk f' = disk f.
Proof.
  intros H. unfold HandleDownloadRequest in H. returned H. case_match; [done|]. destruct (downloadableFiles f !! _) as [ptr|] eqn:Hx; returned H; [|done].
  unfold state_at in *. injection H as <- <- <-. destruct (theap f !! ptr) as [s'|] eqn:Hh; [|done].
  exists ptr, s'. cbn [job_upload theap set_theap disk]. split_and!; try done. intros ts. rewrite lookup_insert_eq. cbn. congruence.
Qed.
End Handlers.

(** ** Properties *)

Section Properties.
Context {C : Checksum}.

(** C26: a download on its own does what [HandleFileTransfer] says, whenever its
    acknowledgements come.  A download is requested of a state [s] that no other thread
    uses; from then on the steps of its thread and acknowledgements, of any round and with
    any contents, come in any order.  There is always exactly this one thread; if it has
    ended, then there is a course of the waits for which [HandleFileTransfer], called once
    in a manager that holds the state, delivers exactly the messages that the thread has
    given away, in the same order, and then clears the receiving flag unless the wait timed
    out.  If it has not ended, it can go on, unless an acknowledgement has overtaken it while
    it looked at the list of missing chunks ([overtaken]): then its next access is undefined
    behaviour.  If acknowledgements never come while the thread looks at that list
    ([polite_turn]), this does not happen. *)
Theorem lone_download_refines upload content start s d f ptr :
  downloadableFiles f !! bytesToHex upload = Some ptr -> theap f !! ptr = Some (make_room s) ->
  disk f !! tempPath s = Some content -> length upload = UUID_SIZE ->
  rtc (acked_turn upload content) (request start (mkDownloads s [])) d ->
  exists t, threads d = [t] /\
    match spot t with
    | Ended e => exists acks, forall rid st, HandleFileTransfer (mkJob rid (bytesToHex upload) start) acks f st =
        (let! st := deliver_all (sent t) rid st in
         match e with AckTimeout => Ok st | _ => with_registry (setRecievingFileFalse rid) st end)
    | _ => if overtaken (shared d) t then forall timeout, thread_turn upload content 0 timeout d = Some UB
           else exists timeout d', thread_turn upload content 0 timeout d = Some (Ok d')
    end /\
    (rtc (polite_turn upload content) (request start (mkDownloads s [])) d -> overtaken (shared d) t = false).
Proof.
  intros Hx Hh Hdk Hu Hrun. destruct (lone_reachable upload content start s d Hrun) as [t [Ht Hin Htot Hcrc Hf]].
  exists t. split; [done|]. split.
  2: { intros Hpol. destruct (polite_undisturbed upload content start s d Hpol) as (t' & [Ht' _ _ _ _] & Hun).
       rewrite Ht in Ht'. injection Ht' as <-. revert Hun. unfold overtaken. destruct (spot t); try done. by apply bool_decide_eq_false_2. }
  assert (Hgo : (forall e, spot t <> Ended e) ->
    if overtaken (shared d) t then forall timeout, thread_turn upload content 0 timeout d = Some UB
    else exists timeout d', thread_turn upload content 0 timeout d = Some (Ok d')).
  { intros He. destruct (overtaken (shared d) t) eqn:Eov.
    - intros timeout. unfold thread_turn. rewrite Ht. cbn [lookup list_lookup]. unfold overtaken in Eov. unfold next_access.
      destruct (spot t); try done. apply bool_decide_eq_true_1 in Eov. by rewrite Eov.
    - exists true. pose proof (turn_cases upload content 0 true d Hin) as Hc. rewrite Ht in Hc.
      destruct (thread_turn upload content 0 true d) as [[d'| |]|]; [by exists d'|done|..].
      + destruct Hc as (t' & [= <-] & ?). congruence.
      + destruct Hc as [?|(t' & [= <-] & [[e ?]|(_ & _ & ?)])]; [done| |done]. by destruct (He e). }
  destruct (spot t) as [| | | | | | | | | | | | | | | |e] eqn:Es; try (by apply Hgo).
  unfold follows in Hf. rewrite Es in Hf. destruct Hf as (acks & ms & Hrounds & Hs). exists acks. intros rid st.
  unfold HandleFileTransfer. cbn [job_upload job_receiver job_start]. rewrite Hx. unfold state_at. rewrite Hh. cbn [obind make_room tempPath].
  rewrite Hdk, hexToBytes_bytesToHex by done. fold (make_room s). cbn [make_room totalSize roundOffsets]. rewrite length_resize, rc_eq, Hrounds. cbn [obind].
  rewrite Hs, deliver_all_app, Hcrc. destruct (deliver_all ms rid st) as [st1| |]; cbn [obind]; [|by destruct e..].
  destruct e; cbn [deliver_all]; [|done..]. by destruct (deliver _ rid st1).
Qed.

(** C27: downloads of one file, any number of them.  Requests, acknowledgements and the
    steps of all threads come in any order.  In every state that is reached, no thread
    accesses a vector of the round outside its bounds, and a step is undefined behaviour for
    exactly the threads that are [overtaken]: those whose list of missing chunks was
    replaced by an acknowledgement while they looked at it, or whose chunk was overwritten
    by another thread while they copied it.  Once no more acknowledgements and requests
    come, at most [budget] steps follow, about four thousand and twice the number of missing
    chunks for each thread, and when no step is left every thread has ended or is overtaken. *)
Theorem downloads_end upload content start s d :
  rtc (download_turn upload content) (request start (mkDownloads s [])) d ->
  (forall i timeout t, threads d !! i = Some t ->
     match thread_turn upload content i timeout d with
     | Some (Ok _) => overtaken (shared d) t = false
     | Some UB => overtaken (shared d) t = true
     | Some Throw => False
     | None => (exists e, spot t = Ended e) \/ spot t = Waiting /\ timeout = false
     end) /\
  (forall n d', nsteps (quiet_turn upload content) n d d' -> (n <= budget d)%nat) /\
  (forall d', rtc (quiet_turn upload content) d d' -> (forall d'', ~ quiet_turn upload content d' d'') ->
     Forall (fun t => overtaken (shared d') t = true \/ exists e, spot t = Ended e) (threads d')).
Proof.
  intros Hrun. pose proof (reachable_inside _ _ _ _ _ Hrun) as Hin. split_and!.
  - intros i timeout t Hi. pose proof (turn_cases upload content i timeout d Hin) as Hc. rewrite Hi in Hc.
    destruct (thread_turn upload content i timeout d) as [[d'| |]|].
    + by destruct Hc as (_ & t' & _ & [= <-] & ? & _).
    + done.
    + by destruct Hc as (t' & [= <-] & ?).
    + destruct Hc as [?|(t' & [= <-] & [?|(? & _ & ?)])]; [done|by left|by right].
  - intros n d' Hn. pose proof (downloads_bounded _ _ _ _ _ Hin Hn). lia.
  - intros d' Hq. apply stuck_ended. by eapply quiet_run_inside.
Qed.
End Properties.

(** ** Schedules *)

(** What happens next. *)
Inductive event := Turn (i : nat) (timeout : bool) | Ack (roundId : Z) (missing : list Z) | Request (start : Z).

Definition happens (up content : bstr) (e : event) (d : Downloads) : option (outcome Downloads) :=
  match e with
  | Turn i timeout => thread_turn up content i timeout d
  | Ack r missing => Some (Ok (acknowledge r missing d))
  | Request start => Some (Ok (request start d))
  end.

Fixpoint play (up content : bstr) (es : list event) (d : Downloads) : option (outcome Downloads) :=
  match es with
  | [] => Some (Ok d)
  | e :: es => match happens up content e d with Some (Ok d) => play up content es d | r => r end
  end.

Lemma play_reachable up content es d d' : play up content es d = Some (Ok d') -> rtc (download_turn up content) d d'.
Proof.
  revert d. induction es as [|e es IH]; intros d H; cbn [play] in H; [by injection H as <-|].
  destruct (happens up content e d) as [[d1| |]|] eqn:E; try done. eapply rtc_l; [|by apply IH].
  destruct e as [i timeout|r missing|start]; cbn [happens] in E.
  - apply download_acked, acked_thread. by exists i, timeout.
  - injection E as <-. apply download_acked, acked_ack.
  - injection E as <-. apply download_request.
Qed.

Definition is_request (e : event) : bool := match e with Request _ => true | _ => false end.

Lemma play_acked up content es d d' :
  existsb is_request es = false -> play up content es d = Some (Ok d') -> rtc (acked_turn up content) d d'.
Proof.
  revert d. induction es as [|e es IH]; intros d Hr H; cbn [play] in H; [by injection H as <-|].
  cbn [existsb] in Hr. apply orb_false_iff in Hr as [He Hr].
  destruct (happens up content e d) as [[d1| |]|] eqn:E; try done. eapply rtc_l; [|by apply IH].
  destruct e as [i timeout|r missing|start]; cbn [happens] in E; [|injection E as <-; apply acked_ack|done].
  apply acked_thread. by exists i, timeout.
Qed.

(** A file of one chunk, requested from its first byte. *)
Definition first_download : Downloads := request 0 (mkDownloads done_state []).
Definition hello : bstr := str "hello".
Definition turns (i n : nat) : list event := replicate n (Turn i false).

(** Sent and asked about, reported complete, ended. *)
Definition good_schedule : list event := turns 0 9 ++ [Ack 0 []] ++ turns 0 5.
(** A second download begins between the reading and the sending of the first. *)
Definition torn_schedule : list event := turns 0 4 ++ [Request 0] ++ turns 1 1 ++ turns 0 5 ++ [Ack 0 []] ++ turns 0 5.
(** The acknowledgement that reports a missing chunk comes twice. *)
Definition double_ack_schedule : list event := turns 0 9 ++ [Ack 0 [0]] ++ turns 0 6 ++ [Ack 0 [0]].
(** It is followed by one without missing chunks between the test of their number and the
    reading of the first. *)
Definition emptied_schedule : list event := turns 0 9 ++ [Ack 0 [0]] ++ turns 0 2 ++ [Ack 0 []].
(** A second download begins while the first copies a chunk. *)
Definition torn_copy_schedule : list event := turns 0 5 ++ [Request 0] ++ turns 1 1.

Definition first_thread (r : option (outcome Downloads)) : option (Spot * list message) :=
  match r with Some (Ok d) => (fun t => (spot t, sent t)) <$> threads d !! 0%nat | _ => None end.

Lemma first_thread_played up content es d p ms :
  first_thread (play up content es d) = Some (p, ms) ->
  exists d' t, play up content es d = Some (Ok d') /\ threads d' !! 0%nat = Some t /\ spot t = p /\ sent t = ms.
Proof.
  unfold first_thread. intros H. destruct (play up content es d) as [[d'| |]|]; try done. exists d'.
  destruct (threads d' !! 0%nat) as [t|]; [|done]. exists t. injection H as <- <-. done.
Qed.

(** Two downloads of one file at a time corrupt each other: the second clears the buffer of
    the round while the first is between reading and sending, and the first sends an empty
    chunk, ends completely and announces the checksum of the file. *)
Theorem concurrent_downloads_torn :
  exists d t, rtc (download_turn (zeros 16) hello) first_download d /\ threads d !! 0%nat = Some t /\ spot t = Ended Complete /\
    sent t = [FileChunk (zeros 16) 0 []; RoundEnd (zeros 16) 0 1; FileEnd (zeros 16) 7].
Proof.
  destruct (first_thread_played (zeros 16) hello torn_schedule first_download (Ended Complete)
    [FileChunk (zeros 16) 0 []; RoundEnd (zeros 16) 0 1; FileEnd (zeros 16) 7]) as (d & t & Hp & Ht & Hs & Hm); [vm_compute; reflexivity|].
  exists d, t. split_and!; [by eapply play_reachable|done..].
Qed.

(** A client that acknowledges twice makes the server use freed memory: the second list of
    missing chunks replaces the one the thread is running over, or is empty when the thread
    reads its first element. *)
Theorem double_acknowledgement_undefined :
  (exists d, rtc (acked_turn (zeros 16) hello) first_download d /\ thread_turn (zeros 16) hello 0 false d = Some UB /\
    exists t, threads d = [t] /\ spot t = Dangling) /\
  (exists d, rtc (acked_turn (zeros 16) hello) first_download d /\ thread_turn (zeros 16) hello 0 false d = Some UB /\
    exists t, threads d = [t] /\ spot t = CheckFirst).
Proof.
  assert (H : forall es p, existsb is_request es = false ->
    match play (zeros 16) hello es first_download with
    | Some (Ok d) => match threads d with [t] => spot t = p | _ => False end /\ thread_turn (zeros 16) hello 0 false d = Some UB
    | _ => False
    end ->
    exists d, rtc (acked_turn (zeros 16) hello) first_download d /\ thread_turn (zeros 16) hello 0 false d = Some UB /\
      exists t, threads d = [t] /\ spot t = p).
  { intros es p Hr H. destruct (play (zeros 16) hello es first_download) as [[d| |]|] eqn:E; try done.
    exists d. split; [by apply (play_acked _ _ es)|]. destruct H as [H1 H2]. split; [done|].
    destruct (threads d) as [|t [|]]; try done. by exists t. }
  split; [apply (H double_ack_schedule)|apply (H emptied_schedule)]; [reflexivity|vm_compute; split; reflexivity..].
Qed.

(** A second download overwrites a chunk that the first is copying into a packet. *)
Theorem concurrent_copy_undefined :
  exists d, rtc (download_turn (zeros 16) hello) first_download d /\ thread_turn (zeros 16) hello 0 false d = Some UB.
Proof.
  destruct (first_thread_played (zeros 16) hello torn_copy_schedule first_download Dangling []) as (d & t & Hp & Ht & Hs & _); [vm_compute; reflexivity|].
  exists d. split; [by eapply play_reachable|]. unfold thread_turn. rewrite Ht. unfold next_access. by rewrite Hs.
Qed.

Lemma lone_download_refines_witness :
  exists d t acks, rtc (acked_turn (zeros 16) hello) first_download d /\ threads d = [t] /\ spot t = Ended Complete /\
    sent t = [FileChunk (zeros 16) 0 hello; RoundEnd (zeros 16) 0 1; FileEnd (zeros 16) 7] /\
    forall rid st, HandleFileTransfer (C := compute_soft) (mkJob rid (bytesToHex (zeros 16)) 0) acks
        (set_theap {[ 0%nat := make_room done_state ]} done_files) st =
      (let! st := deliver_all (C := compute_soft) (sent t) rid st in with_registry (setRecievingFileFalse rid) st).
Proof.
  destruct (first_thread_played (zeros 16) hello good_schedule first_download (Ended Complete)
    [FileChunk (zeros 16) 0 hello; RoundEnd (zeros 16) 0 1; FileEnd (zeros 16) 7]) as (d & t & Hp & Ht & Hs & Hm); [vm_compute; reflexivity|].
  assert (Hrun : rtc (acked_turn (zeros 16) hello) first_download d) by (by apply (play_acked _ _ good_schedule)).
  destruct (lone_download_refines (C := compute_soft) (zeros 16) hello 0 done_state d (set_theap {[ 0%nat := make_room done_state ]} done_files) 0
    eq_refl (lookup_singleton_eq _ _) eq_refl eq_refl Hrun) as (t' & Et & Hend & _).
  rewrite Et in Ht. injection Ht as ->. rewrite Hs in Hend. destruct Hend as [acks Hacks]. exists d, t, acks. split_and!; try done.
Defined.

Lemma downloads_end_witness :
  exists d, rtc (download_turn (zeros 16) hello) first_download d /\
    forall d', rtc (quiet_turn (zeros 16) hello) d d' -> (forall d'', ~ quiet_turn (zeros 16) hello d' d'') ->
      Forall (fun t => overtaken (shared d') t = true \/ exists e, spot t = Ended e) (threads d').
Proof.
  destruct (first_thread_played (zeros 16) hello torn_schedule first_download (Ended Complete)
    [FileChunk (zeros 16) 0 []; RoundEnd (zeros 16) 0 1; FileEnd (zeros 16) 7]) as (d & t & Hp & _); [vm_compute; reflexivity|].
  exists d. split; [by eapply play_reachable|]. apply (downloads_end (zeros 16) hello 0 done_state). by eapply play_reachable.
Defined.
