(* ===== verification/Table.v ===== *)
(** The user database: datastructure/table.h with the record of token/userInfo.h.

    A record is the 280 bytes of [userInfo]; on disk and in the mapped file every byte is
    combined with a key by exclusive or.  The mapped file is a sequence of record slots,
    zeroed where nothing was written.  Whether the operating system grants a mapping is an
    argument of the operations that ask for one; zlib's [crc32] is a parameter.

    All iterators the cache stores are [freqList.end()] (line 313 is the only assignment),
    so [keyToFreq] is the set of its keys. *)

From S2P Require Import Prelude Crc32c Packet Session AuthStore.

(** ** Definitions: records *)

Definition sizeof_userInfo : nat := 280.

Definition ENC_KEY : bstr :=
  byte.of_Z <$> [0x1A; 0x2B; 0x3C; 0x4D; 0x5E; 0x6F; 0x7A; 0x8B; 0x9C; 0xAD; 0xBE; 0xCF; 0xD1; 0xE2; 0xF3; 0x04].

Definition bxor (a b : byte) : byte := byte.of_Z (Z.lxor (byte.unsigned a) (byte.unsigned b)).

Definition encryptRecord (rec : bstr) : bstr := imap (fun i c => bxor c (nth (i mod 16)%nat ENC_KEY Byte.x00)) rec.
Definition decryptRecord (rec : bstr) : bstr := encryptRecord rec.

(** The fields of a record. *)
Definition rec_user_id (r : bstr) : bstr := slice 0 16 r.
Definition rec_username (r : bstr) : bstr := slice 16 32 r.
Definition rec_password_hash (r : bstr) : bstr := slice 48 128 r.
Definition rec_email (r : bstr) : bstr := slice 176 64 r.
Definition rec_flag (off : nat) (r : bstr) : bool := negb (load 1 off r =? 0).
Definition rec_email_verified : bstr -> bool := rec_flag 240.
Definition rec_phone_hash (r : bstr) : bstr := slice 241 32 r.
Definition rec_phone_discoverable : bstr -> bool := rec_flag 273.
Definition rec_is_deleted : bstr -> bool := rec_flag 274.

(** [operator>>] on a string: the words between white space. *)
Definition is_space (c : byte) : bool := let z := byte.unsigned c in (z =? 32) || (9 <=? z) && (z <=? 13).
Fixpoint words_from (acc : bstr) (s : bstr) : list bstr :=
  match s with
  | [] => if bool_decide (acc = []) then [] else [acc]
  | c :: s => if is_space c then (if bool_decide (acc = []) then words_from [] s else acc :: words_from [] s)
              else words_from (acc ++ [c]) s
  end.
Definition words (s : bstr) : list bstr := words_from [] s.

(** Copies into the zeroed arrays of a fresh record. *)
Definition safeCopyBytes (src : bstr) (maxLen : nat) : bstr := take maxLen src ++ zeros (maxLen - length src).
Definition safeCopy (src : bstr) (maxLen : nat) : bstr :=
  let n := (length src `min` (maxLen - 1))%nat in take n src ++ zeros (maxLen - n).

Definition flag_byte (b : bool) : byte := if b then Byte.x01 else Byte.x00.
Definition is_true_word (t : bstr) : bool := bool_decide (t = str "true") || bool_decide (t = str "TRUE").

(** The record with these fields, neither deleted nor with a checksum yet. *)
Definition build_record (uid uname pw mail : bstr) (verified : bool) (phone : bstr) (discoverable : bool) : bstr :=
  safeCopyBytes uid 16 ++ safeCopy uname 32 ++ safeCopyBytes pw 128 ++ safeCopy mail 64 ++ [flag_byte verified] ++
  safeCopyBytes phone 32 ++ [flag_byte discoverable] ++ zeros 6.

Definition parseInput (data : bstr) : option bstr :=
  match words data with
  | uid :: uname :: pw :: mail :: verified :: phone :: disc :: _ =>
      Some (build_record uid uname pw mail (is_true_word verified) phone (is_true_word disc))
  | _ => None
  end.

(** ** Definitions: the table *)

Record table := mkTable {
  cacheMap : gmap bstr bstr;
  freqList : list (Z * list bstr);
  keyToFreq : gset bstr;
  pageNum : gmap bstr nat;
  emailToUid : gmap bstr bstr;
  phoneToUid : gmap bstr bstr;
  currentRecords : nat;
  mappedCapacityRecords : Z;
  mappedMemory : option (list bstr)
}.

Definition CACHE_LIMIT : Z := 10000.
Definition MIN_HEADROOM_RECORDS : Z := 1000.
Definition MAX_HEADROOM_RECORDS : Z := 50000.

(** [min(max(n * 1.5, n + MIN), n + MAX)]. *)
Definition grown (n : Z) : Z := Z.min (Z.max (3 * n / 2) (n + MIN_HEADROOM_RECORDS)) (n + MAX_HEADROOM_RECORDS).

(** [CreateFileMapping] extends a file with zeros. *)
Definition map_file (capacity : Z) (file : list bstr) : list bstr :=
  take (Z.to_nat capacity) (file ++ replicate (Z.to_nat capacity - length file) (zeros sizeof_userInfo)).

Definition set_indexes pn em ph n t := mkTable (cacheMap t) (freqList t) (keyToFreq t) pn em ph n (mappedCapacityRecords t) (mappedMemory t).
Definition set_cache c fl k t := mkTable c fl k (pageNum t) (emailToUid t) (phoneToUid t) (currentRecords t) (mappedCapacityRecords t) (mappedMemory t).
Definition set_mapping cap m t := mkTable (cacheMap t) (freqList t) (keyToFreq t) (pageNum t) (emailToUid t) (phoneToUid t) (currentRecords t) cap m.

(** The loop of [loadIndex] from slot [i] on. *)
Fixpoint load_slots (i : nat) (slots : list bstr) (t : table) : table :=
  match slots with
  | [] => t
  | rec :: slots =>
      if bool_decide (slice 0 16 rec = zeros 16) then t else
      let rec := decryptRecord rec in
      let uid := rec_user_id rec in
      let mail := cstr (rec_email rec) in
      let em := if negb (bool_decide (mail = [])) then <[mail := uid]> (emailToUid t) else emailToUid t in
      load_slots (S i) slots
        (set_indexes (<[uid := i]> (pageNum t)) em (<[rec_phone_hash rec := uid]> (phoneToUid t)) (S i) t)
  end.
Definition loadIndex (slots : list bstr) (t : table) : table :=
  load_slots 0 slots (set_indexes ∅ ∅ ∅ 0 t).

(** The table before [initStorage], and after it when the file cannot be opened: the next
    write then maps memory that no file stands behind. *)
Definition new_table : table := mkTable ∅ [] ∅ ∅ ∅ ∅ 0 0 None.

(** [views1] and [views2] say whether the first and the second mapping succeed. *)
Definition initStorage (views1 views2 : bool) (file : list bstr) : table :=
  let t := if bool_decide (file <> []) && views1 then loadIndex file new_table else new_table in
  let fileCapacityRecords := len file in
  let existingHeadroom := Z.max 0 (fileCapacityRecords - Z.of_nat (currentRecords t)) in
  let capacity := if MIN_HEADROOM_RECORDS <=? existingHeadroom then fileCapacityRecords
                  else grown (Z.of_nat (currentRecords t)) in
  set_mapping capacity (if views2 then Some (map_file capacity file) else None) t.

(** [view] says whether the larger mapping succeeds. *)
Definition ensureCapacity (view : bool) (neededRecords : Z) (t : table) : bool * table :=
  if neededRecords <=? mappedCapacityRecords t then (true, t) else
  let capacity := grown neededRecords in
  let m := if view then Some (map_file capacity (default [] (mappedMemory t))) else None in
  (view, set_mapping capacity m t).

(** What [flushAndClose] leaves in the file. *)
Definition flushAndClose (t : table) : list bstr := take (currentRecords t) (default [] (mappedMemory t)).

(** ** Definitions: the cache *)

Definition evictLFU (t : table) : table :=
  match freqList t with
  | [] => t
  | (f, []) :: _ => t
  | (f, key :: keys) :: rest =>
      set_cache (delete key (cacheMap t)) (match keys with [] => rest | _ => (f, keys) :: rest end) (keyToFreq t ∖ {[key]}) t
  end.

(** A key that is known has the iterator [end()], which is dereferenced. *)
Definition updateLFU (key value : bstr) (t : table) : outcome table :=
  if decide (key ∈ keyToFreq t) then UB else
  let fl := match reverse (freqList t) with (1, _) :: _ => freqList t | _ => freqList t ++ [(1, [])] end in
  let fl := alter (fun n => (n.1, n.2 ++ [key])) (length fl - 1)%nat fl in
  Ok (set_cache (<[key := value]> (cacheMap t)) fl ({[key]} ∪ keyToFreq t) t).

Definition evict_if_full (t : table) : table :=
  if CACHE_LIMIT <=? Z.of_nat (base.size (cacheMap t)) then evictLFU t else t.

(** ** Definitions: operations *)

Section Table.
Context (crc32 : bstr -> Z).

Definition calculateChecksum (rec : bstr) : Z := crc32 (take 276 rec).
Definition with_checksum (rec : bstr) : bstr := store 4 276 (calculateChecksum rec) rec.

(** Write slot [idx] of the mapping. *)
Definition write_slot (idx : nat) (rec : bstr) (t : table) : outcome table :=
  match mappedMemory t with
  | None => UB
  | Some m => if (length m <=? idx)%nat then UB else Ok (set_mapping (mappedCapacityRecords t) (Some (<[idx := rec]> m)) t)
  end.
Definition read_slot (idx : nat) (t : table) : outcome bstr :=
  match mappedMemory t with
  | None => UB
  | Some m => match m !! idx with Some rec => Ok rec | None => UB end
  end.

Definition writeTheData (view : bool) (dataStr : bstr) (t : table) : outcome (bool * table) :=
  match parseInput dataStr with
  | None => Ok (false, t)
  | Some record =>
      let uid := rec_user_id record in
      let record := encryptRecord (with_checksum record) in
      let (ok, t) := ensureCapacity view (Z.of_nat (currentRecords t) + 1) t in
      if negb ok then Ok (false, t) else
      let idx := currentRecords t in
      let! t := write_slot idx record t in
      let mail := cstr (rec_email record) in
      let phone := rec_phone_hash record in
      let live := negb (rec_is_deleted record) in
      let t := set_indexes (<[uid := idx]> (pageNum t))
                 (if negb (bool_decide (mail = [])) && live then <[mail := uid]> (emailToUid t) else emailToUid t)
                 (if live then <[phone := uid]> (phoneToUid t) else phoneToUid t) (S idx) t in
      let! t := updateLFU uid record (evict_if_full t) in
      Ok (true, t)
  end.

Definition updateTheData (dataStr : bstr) (t : table) : outcome (bool * table) :=
  match parseInput dataStr with
  | None => Ok (false, t)
  | Some record =>
      let uid := rec_user_id record in
      match pageNum t !! uid with
      | None => Ok (false, t)
      | Some idx =>
          let record := encryptRecord (with_checksum record) in
          let! t := write_slot idx record t in
          if bool_decide (is_Some (cacheMap t !! uid)) then let! t := updateLFU uid record t in Ok (true, t)
          else Ok (true, t)
      end
  end.

(** The user id an identifier stands for. *)
Definition resolve (identifier : bstr) (t : table) : bstr :=
  match phoneToUid t !! identifier, emailToUid t !! identifier with
  | Some uid, _ => uid
  | None, Some uid => uid
  | None, None => identifier
  end.

Definition mark_deleted (rec : bstr) : bstr := with_checksum (store 1 274 1 rec).

Definition deleteData (identifier : bstr) (t : table) : outcome (bool * table) :=
  let uid := resolve identifier t in
  match pageNum t !! uid with
  | None => Ok (false, t)
  | Some idx =>
      let! stored := read_slot idx t in
      let record := decryptRecord stored in
      if rec_is_deleted record then Ok (false, t) else
      let! t := write_slot idx (encryptRecord (mark_deleted record)) t in
      Ok (true, mkTable (delete uid (cacheMap t)) (freqList t) (keyToFreq t ∖ {[uid]}) (pageNum t)
                  (delete uid (emailToUid t)) (delete uid (phoneToUid t)) (currentRecords t) (mappedCapacityRecords t)
                  (mappedMemory t))
  end.

Definition createOutput (rec req : bstr) : bstr :=
  let shown (b : bool) := if b then str "TRUE" else str "FALSE" in
  if bool_decide (req = str "NULL") then [] else
  if bool_decide (req = str "username") then cstr (rec_username rec) ++ str " " else
  if bool_decide (req = str "password_hash") then rec_password_hash rec ++ str " " else
  if bool_decide (req = str "email") then cstr (rec_email rec) ++ str " " else
  if bool_decide (req = str "email_verified") then shown (rec_email_verified rec) ++ str " " else
  if bool_decide (req = str "phone_hash") then rec_phone_hash rec ++ str " " else
  if bool_decide (req = str "phone_discoverable") then shown (rec_phone_discoverable rec) ++ str " " else [].

Definition buildOutput (rec query : bstr) : bstr :=
  if rec_is_deleted rec then str "NOT_FOUND"
  else rec_user_id rec ++ str " " ++ (words query ≫= createOutput rec).

Definition getData (query : bstr) (t : table) : outcome (bstr * table) :=
  let key := default [] (head (words query)) in
  let uid := resolve key t in
  match cacheMap t !! uid with
  | Some record => let! t := updateLFU uid record t in Ok (buildOutput record query, t)
  | None =>
      match pageNum t !! uid with
      | None => Ok (str "NOT_FOUND", t)
      | Some idx =>
          let! stored := read_slot idx t in
          let record := decryptRecord stored in
          if rec_is_deleted record then Ok (str "NOT_FOUND", t) else
          let! t := updateLFU uid record (evict_if_full t) in
          Ok (buildOutput record query, t)
      end
  end.

Definition getAllRecords (t : table) : outcome (list bstr) :=
  match mappedMemory t with
  | None => Ok []
  | Some m =>
      if (length m <? currentRecords t)%nat then UB
      else Ok (filter (fun r => rec_is_deleted r = false) (decryptRecord <$> take (currentRecords t) m))
  end.
End Table.

(** [AuthManager::LoadUsersFromDatabase]. *)
Definition user_of_record (u : bstr) : UserRecord :=
  mkUser (rec_user_id u) (rec_username u) (take 127 (rec_password_hash u) ++ zeros 1) (rec_email u) (rec_email_verified u)
    (rec_phone_hash u) (rec_phone_discoverable u).

Definition LoadUsersFromDatabase {N : Sodium} (t : table) (us : UserStore) : outcome UserStore :=
  let! records := getAllRecords t in
  Ok (fold_left (fun us u => (Insert (user_of_record u) us).2) records us).

(** ** Lemmas: encryption *)

Lemma bxor_unsigned a b : byte.unsigned (bxor a b) = Z.lxor (byte.unsigned a) (byte.unsigned b).
Proof.
  unfold bxor. rewrite byte.unsigned_of_Z. pose proof (byte.unsigned_range a). pose proof (byte.unsigned_range b).
  unfold byte.wrap. apply Z.mod_small. by apply (lxor_range 8).
Qed.

Lemma bxor_involutive a k : bxor (bxor a k) k = a.
Proof.
  apply byte.unsigned_inj. by rewrite !bxor_unsigned, Z.lxor_assoc, Z.lxor_nilpotent, Z.lxor_0_r.
Qed.

Lemma bxor_zero a k : bxor a k = Byte.x00 -> a = k.
Proof.
  intros E. apply (f_equal byte.unsigned) in E. rewrite bxor_unsigned in E. apply byte.unsigned_inj.
  by apply Z.lxor_eq in E.
Qed.

Lemma length_encryptRecord r : length (encryptRecord r) = length r.
Proof. unfold encryptRecord. by rewrite length_imap. Qed.

Lemma decrypt_encrypt r : decryptRecord (encryptRecord r) = r.
Proof.
  unfold decryptRecord, encryptRecord. apply list_eq. intros i. rewrite !list_lookup_imap.
  destruct (r !! i); [|done]. cbn. by rewrite bxor_involutive.
Qed.

Lemma decrypt_encrypt_all (L : list bstr) : decryptRecord <$> (encryptRecord <$> L) = L.
Proof. rewrite <- list_fmap_compose. rewrite <- (list_fmap_id L) at 2. apply list_fmap_ext. intros i r _. apply decrypt_encrypt. Qed.

Lemma slot_not_empty r : (16 <= length r)%nat -> rec_user_id r <> ENC_KEY -> slice 0 16 (encryptRecord r) <> zeros 16.
Proof.
  intros Hl Hne E. apply Hne. unfold rec_user_id. apply list_eq. intros i.
  destruct (le_lt_dec 16 i) as [Hi|Hi].
  { rewrite !lookup_ge_None_2; [done|done|]. rewrite length_slice. lia. }
  assert (Hk : forall l : bstr, slice 0 16 l !! i = l !! i) by (intros l; unfold slice; by rewrite drop_0, lookup_take_lt).
  apply (f_equal (lookup i)) in E. rewrite Hk in E |- *. unfold zeros in E. rewrite lookup_replicate_2 in E by lia.
  unfold encryptRecord in E. rewrite list_lookup_imap in E. destruct (r !! i) as [c|] eqn:Ec; [|done].
  assert (Ei : (i mod 16)%nat = i) by (apply Nat.mod_small; lia). rewrite Ei in E. injection E as E. apply bxor_zero in E.
  rewrite E. symmetry.
  clear -Hi.
  do 16 (destruct i as [|i]; [reflexivity|]). lia.
Qed.

(** ** Lemmas: pages *)

(** The index from user ids to record numbers: the last record of an id counts. *)
Fixpoint pages_from (i : nat) (ids : list bstr) (m : gmap bstr nat) : gmap bstr nat :=
  match ids with
  | [] => m
  | uid :: ids => pages_from (S i) ids (<[uid := i]> m)
  end.
Definition pages (L : list bstr) : gmap bstr nat := pages_from 0 (rec_user_id <$> L) ∅.

Lemma pages_from_snoc i ids uid m : pages_from i (ids ++ [uid]) m = <[uid := (i + length ids)%nat]> (pages_from i ids m).
Proof.
  revert i m. induction ids as [|x ids IH]; intros i m; cbn [app pages_from length]; [by rewrite Nat.add_0_r|].
  rewrite IH. f_equal. lia.
Qed.

Lemma pages_snoc L r : pages (L ++ [r]) = <[rec_user_id r := length L]> (pages L).
Proof. unfold pages. rewrite fmap_app. cbn [fmap list_fmap]. by rewrite pages_from_snoc, length_fmap. Qed.

Lemma pages_insert L i r : rec_user_id <$> L !! i = Some (rec_user_id r) -> pages (<[i := r]> L) = pages L.
Proof.
  intros H. unfold pages. f_equal. rewrite list_fmap_insert. apply list_insert_id. by rewrite list_lookup_fmap.
Qed.

Lemma pages_lookup L uid i : pages L !! uid = Some i -> exists r, L !! i = Some r /\ rec_user_id r = uid.
Proof.
  induction L as [|r L IH] using rev_ind; [by unfold pages; cbn; rewrite lookup_empty|].
  rewrite pages_snoc. intros [[<- <-]|[_ H]]%lookup_insert_Some.
  - exists r. by rewrite lookup_app_r, Nat.sub_diag by lia.
  - destruct (IH H) as (r' & Hr & Hu). exists r'. split; [|done]. apply lookup_app_l_Some. done.
Qed.

(** ** The refinement relation *)

Definition good_record (r : bstr) : Prop := length r = sizeof_userInfo /\ rec_user_id r <> ENC_KEY.

(** Table [t] stores the records [L], in the order they were written. *)
Record table_of (L : list bstr) (t : table) : Prop := mkTableOf {
  to_memory : mappedMemory t =
    Some ((encryptRecord <$> L) ++ replicate (Z.to_nat (mappedCapacityRecords t) - length L) (zeros sizeof_userInfo));
  to_count : currentRecords t = length L;
  to_room : len L <= mappedCapacityRecords t;
  to_good : Forall good_record L;
  to_pages : pageNum t = pages L;
  to_cache : dom (cacheMap t) = keyToFreq t
}.

Lemma length_memory L t m : table_of L t -> mappedMemory t = Some m -> len m = mappedCapacityRecords t.
Proof.
  intros [Hm _ Hr _ _ _] E. rewrite Hm in E. injection E as <-. unfold len in *.
  rewrite length_app, length_fmap, length_replicate. lia.
Qed.

Lemma read_slot_of L t i r : table_of L t -> L !! i = Some r -> read_slot i t = Ok (encryptRecord r).
Proof.
  intros [Hm _ _ _ _ _] Hr. unfold read_slot. rewrite Hm. rewrite lookup_app_l.
  - by rewrite list_lookup_fmap, Hr.
  - rewrite length_fmap. by eapply lookup_lt_Some.
Qed.

(** Writing over a record that is there. *)
Lemma write_slot_of L t i r r' :
  table_of L t -> L !! i = Some r -> good_record r' -> rec_user_id r' = rec_user_id r ->
  exists t', write_slot i (encryptRecord r') t = Ok t' /\ table_of (<[i := r']> L) t' /\
    cacheMap t' = cacheMap t /\ freqList t' = freqList t /\ keyToFreq t' = keyToFreq t /\
    emailToUid t' = emailToUid t /\ phoneToUid t' = phoneToUid t.
Proof.
  intros Ht Hr Hg Hu. pose proof Ht as [Hm Hc Hro Hgd Hp Hca]. pose proof (lookup_lt_Some _ _ _ Hr) as Hi.
  unfold write_slot. rewrite Hm. rewrite (proj2 (Nat.leb_gt _ _)) by (rewrite length_app, length_fmap; lia).
  eexists. split; [done|]. split; [|done]. constructor; cbn [set_mapping mappedMemory mappedCapacityRecords currentRecords pageNum cacheMap keyToFreq];
    rewrite ?length_insert; try done.
  - rewrite insert_app_l by (by rewrite length_fmap). by rewrite list_fmap_insert.
  - unfold len in *. by rewrite length_insert.
  - by apply Forall_insert.
  - rewrite Hp. symmetry. apply pages_insert. rewrite Hr. cbn. by rewrite Hu.
Qed.

Lemma map_file_of cap cap' L :
  len L <= cap -> cap <= cap' ->
  map_file cap' ((encryptRecord <$> L) ++ replicate (Z.to_nat cap - length L) (zeros sizeof_userInfo)) =
  (encryptRecord <$> L) ++ replicate (Z.to_nat cap' - length L) (zeros sizeof_userInfo).
Proof.
  intros H1 H2. unfold map_file, len in *. rewrite length_app, length_fmap, length_replicate.
  rewrite <- app_assoc, <- replicate_add. rewrite take_ge.
  - do 2 f_equal. lia.
  - rewrite length_app, length_fmap, length_replicate. lia.
Qed.

Lemma grown_more n : 0 <= n -> n < grown n.
Proof. unfold grown, MIN_HEADROOM_RECORDS, MAX_HEADROOM_RECORDS. lia. Qed.

Lemma ensureCapacity_of L t :
  table_of L t -> exists t', ensureCapacity true (len L + 1) t = (true, t') /\ table_of L t' /\ len L < mappedCapacityRecords t' /\
    cacheMap t' = cacheMap t /\ freqList t' = freqList t /\ keyToFreq t' = keyToFreq t /\
    emailToUid t' = emailToUid t /\ phoneToUid t' = phoneToUid t.
Proof.
  intros Ht. pose proof Ht as [Hm Hc Hro Hgd Hp Hca]. unfold ensureCapacity.
  destruct (Z.leb_spec (len L + 1) (mappedCapacityRecords t)) as [Hle|Hgt].
  - exists t. split_and!; try done. lia.
  - eexists. split; [done|]. pose proof (grown_more (len L + 1) ltac:(unfold len; lia)).
    split_and!; try done; [|cbn [set_mapping mappedCapacityRecords]; lia].
    constructor; cbn [set_mapping mappedMemory mappedCapacityRecords currentRecords pageNum cacheMap keyToFreq]; try done; [|lia].
    rewrite Hm. cbn [from_option]. unfold id. rewrite map_file_of by lia. done.
Qed.

(** Writing behind the last record. *)
Lemma append_slot_of L t r :
  table_of L t -> len L < mappedCapacityRecords t -> good_record r ->
  write_slot (currentRecords t) (encryptRecord r) t = Ok (set_mapping (mappedCapacityRecords t)
    (Some ((encryptRecord <$> (L ++ [r])) ++
      replicate (Z.to_nat (mappedCapacityRecords t) - length (L ++ [r])) (zeros sizeof_userInfo))) t).
Proof.
  intros [Hm Hc Hro Hgd Hp Hca] Hlt Hg. unfold write_slot, len in *. rewrite Hm, Hc.
  rewrite (proj2 (Nat.leb_gt _ _)) by (rewrite length_app, length_fmap, length_replicate; lia).
  do 3 f_equal. rewrite insert_app_r_alt by (rewrite length_fmap; lia). rewrite length_fmap, Nat.sub_diag, fmap_app, <- app_assoc. f_equal.
  rewrite length_app. cbn [length].
  replace (Z.to_nat (mappedCapacityRecords t) - length L)%nat with (S (Z.to_nat (mappedCapacityRecords t) - (length L + 1))) by lia.
  done.
Qed.

(** ** Lemmas: the cache *)

Lemma evict_of L t : table_of L t -> table_of L (evict_if_full t).
Proof.
  intros [Hm Hc Hro Hgd Hp Hca]. unfold evict_if_full, evictLFU. repeat case_match; try by constructor.
  all: constructor; cbn [set_cache mappedMemory mappedCapacityRecords currentRecords pageNum cacheMap keyToFreq]; try done.
  all: rewrite dom_delete_L; by rewrite Hca.
Qed.

Lemma updateLFU_of L t uid v :
  table_of L t -> uid ∉ keyToFreq t ->
  exists t', updateLFU uid v t = Ok t' /\ table_of L t' /\ emailToUid t' = emailToUid t /\ phoneToUid t' = phoneToUid t.
Proof.
  intros [Hm Hc Hro Hgd Hp Hca] Hn. unfold updateLFU. rewrite decide_False by done. eexists. split; [done|]. split; [|done].
  constructor; cbn [set_cache mappedMemory mappedCapacityRecords currentRecords pageNum cacheMap keyToFreq]; try done.
  rewrite dom_insert_L. by rewrite Hca.
Qed.

(** ** Lemmas: parsed records *)

Lemma length_safeCopyBytes s n : length (safeCopyBytes s n) = n.
Proof. unfold safeCopyBytes. rewrite length_app, length_take, length_zeros. lia. Qed.
Lemma length_safeCopy s n : (0 < n)%nat -> length (safeCopy s n) = n.
Proof. intros Hn. unfold safeCopy. rewrite length_app, length_take, length_zeros. lia. Qed.

Lemma length_build_record uid uname pw mail v phone disc : length (build_record uid uname pw mail v phone disc) = sizeof_userInfo.
Proof.
  unfold build_record. rewrite !length_app, !length_safeCopyBytes, !length_safeCopy, length_zeros by lia. reflexivity.
Qed.

Lemma parseInput_built d r :
  parseInput d = Some r -> exists uid uname pw mail v phone disc, r = build_record uid uname pw mail v phone disc.
Proof. unfold parseInput. repeat case_match; try done. intros [= <-]. by do 7 eexists. Qed.

Lemma length_parseInput d r : parseInput d = Some r -> length r = sizeof_userInfo.
Proof. intros (? & ? & ? & ? & ? & ? & ? & ->)%parseInput_built. apply length_build_record. Qed.

Section Checksum.
Context (crc32 : bstr -> Z).

Lemma length_with_checksum r : length r = sizeof_userInfo -> length (with_checksum crc32 r) = sizeof_userInfo.
Proof.
  intros Hl. unfold with_checksum, store. rewrite length_blit; [done|]. rewrite length_le_split, Hl. unfold sizeof_userInfo. lia.
Qed.

(** The checksum changes only the last four bytes. *)
Lemma slice_with_checksum i n r :
  length r = sizeof_userInfo -> (i + n <= 276)%nat -> slice i n (with_checksum crc32 r) = slice i n r.
Proof. intros Hl Hi. unfold with_checksum, store. apply slice_blit_before; [rewrite Hl; unfold sizeof_userInfo; lia|done]. Qed.

Lemma slice_mark_deleted i n r :
  length r = sizeof_userInfo -> (i + n <= 274)%nat -> slice i n (mark_deleted crc32 r) = slice i n r.
Proof.
  intros Hl Hi. unfold mark_deleted. rewrite slice_with_checksum; [|unfold store; rewrite length_blit; [done|]; rewrite length_le_split, Hl; unfold sizeof_userInfo; lia|lia].
  unfold store. apply slice_blit_before; [rewrite Hl; unfold sizeof_userInfo; lia|done].
Qed.

Lemma good_parsed d r :
  parseInput d = Some r -> rec_user_id r <> ENC_KEY ->
  good_record (with_checksum crc32 r) /\ rec_user_id (with_checksum crc32 r) = rec_user_id r.
Proof.
  intros Hp Hk. pose proof (length_parseInput d r Hp) as Hl.
  assert (Hu : rec_user_id (with_checksum crc32 r) = rec_user_id r) by (by apply slice_with_checksum; [|lia]).
  split; [|done]. split; [by apply length_with_checksum|]. by rewrite Hu.
Qed.

Lemma good_deleted r : good_record r -> good_record (mark_deleted crc32 r) /\ rec_user_id (mark_deleted crc32 r) = rec_user_id r.
Proof.
  intros [Hl Hk]. assert (Hu : rec_user_id (mark_deleted crc32 r) = rec_user_id r) by (by apply slice_mark_deleted; [|lia]).
  split; [|done]. split; [|by rewrite Hu]. unfold mark_deleted. apply length_with_checksum.
  unfold store. rewrite length_blit; [done|]. rewrite length_le_split, Hl. unfold sizeof_userInfo. lia.
Qed.

Lemma fresh_flag_byte d r : parseInput d = Some r -> with_checksum crc32 r !! 274%nat = Some Byte.x00.
Proof.
  intros Hp. pose proof (length_parseInput d r Hp) as Hl.
  assert (Hs : slice 274 1 (with_checksum crc32 r) = [Byte.x00]).
  { rewrite slice_with_checksum by (done || lia). apply parseInput_built in Hp as (? & ? & ? & ? & ? & ? & ? & ->).
    unfold build_record. rewrite !app_assoc.
    rewrite slice_app_r; rewrite !length_app, !length_safeCopyBytes, !length_safeCopy by lia; [reflexivity|cbn [length]; lia]. }
  apply (f_equal (lookup 0%nat)) in Hs. unfold slice in Hs. rewrite lookup_take_lt, lookup_drop in Hs by lia. done.
Qed.

Lemma fresh_flag d r : parseInput d = Some r -> rec_is_deleted (with_checksum crc32 r) = false.
Proof. intros Hp. unfold rec_is_deleted, rec_flag, load. by rewrite (slice_one _ _ _ (fresh_flag_byte d r Hp)). Qed.

(** The deletion flag of a record just written, read behind its encryption, is not zero. *)
Lemma encrypted_flag d r : parseInput d = Some r -> rec_is_deleted (encryptRecord (with_checksum crc32 r)) = true.
Proof.
  intros Hp. unfold rec_is_deleted, rec_flag, load.
  assert (He : encryptRecord (with_checksum crc32 r) !! 274%nat = Some (byte.of_Z 0x3C)).
  { unfold encryptRecord. rewrite list_lookup_imap, (fresh_flag_byte d r Hp). reflexivity. }
  rewrite (slice_one _ _ _ He). reflexivity.
Qed.
End Checksum.

(** ** Lemmas: loading *)

Definition index_mail (m : gmap bstr bstr) (r : bstr) : gmap bstr bstr :=
  if negb (bool_decide (cstr (rec_email r) = [])) then <[cstr (rec_email r) := rec_user_id r]> m else m.

Lemma load_slots_of L n i t :
  Forall good_record L -> currentRecords t = i ->
  let t' := load_slots i ((encryptRecord <$> L) ++ replicate n (zeros sizeof_userInfo)) t in
  pageNum t' = pages_from i (rec_user_id <$> L) (pageNum t) /\ emailToUid t' = fold_left index_mail L (emailToUid t) /\
  currentRecords t' = (i + length L)%nat /\ cacheMap t' = cacheMap t /\ keyToFreq t' = keyToFreq t.
Proof.
  intros HL. revert i t. induction HL as [|r L [Hl Hk] HL IH]; intros i t Hi t'.
  - unfold t'. cbn [fmap list_fmap app pages_from fold_left length]. destruct n as [|n]; cbn [replicate load_slots];
      [split_and!; (done || lia)|]. rewrite bool_decide_eq_true_2 by reflexivity. split_and!; (done || lia).
  - unfold t'. cbn [fmap list_fmap app load_slots pages_from fold_left length].
    rewrite bool_decide_eq_false_2 by (apply slot_not_empty; [rewrite Hl; unfold sizeof_userInfo; lia|done]).
    rewrite decrypt_encrypt.
    edestruct (IH (S i)) as (H1 & H2 & H3 & H4 & H5); [|split_and!; [exact H1|exact H2|rewrite H3; lia|exact H4|exact H5]].
    reflexivity.
Qed.

Lemma opened_table L n :
  Forall good_record L ->
  let t := initStorage true true ((encryptRecord <$> L) ++ replicate n (zeros sizeof_userInfo)) in
  table_of L t /\ emailToUid t = fold_left index_mail L ∅.
Proof.
  intros HL t. unfold t, initStorage. set (file := (encryptRecord <$> L) ++ _).
  assert (Hload : let t0 := if bool_decide (file <> []) && true then loadIndex file new_table else new_table in
    pageNum t0 = pages L /\ emailToUid t0 = fold_left index_mail L ∅ /\ currentRecords t0 = length L /\
    cacheMap t0 = ∅ /\ keyToFreq t0 = ∅).
  { rewrite andb_true_r. case_bool_decide as Hf.
    - unfold loadIndex. destruct (load_slots_of L n 0 (set_indexes ∅ ∅ ∅ 0 new_table) HL eq_refl) as (H1 & H2 & H3 & H4 & H5).
      by split_and!.
    - unfold file in Hf. apply app_eq_nil in Hf as [Hnil _]. by destruct L. }
  destruct (if bool_decide (file <> []) && true then loadIndex file new_table else new_table) as [cm fl kf pn em ph cur cap mm].
  destruct Hload as (H1 & H2 & H3 & H4 & H5).
  cbn [pageNum emailToUid currentRecords cacheMap keyToFreq] in *. subst pn em cur cm kf. split; [|done].
  assert (Hlf : len file = len L + Z.of_nat n) by (unfold file, len; rewrite length_app, length_fmap, length_replicate; lia).
  set (cap' := if _ <=? _ then _ else _).
  assert (Hcap : len file <= cap').
  { unfold cap', grown, MIN_HEADROOM_RECORDS, MAX_HEADROOM_RECORDS. fold (len L).
    destruct (Z.leb_spec 1000 (Z.max 0 (len file - len L))); unfold len in *; lia. }
  constructor; cbn [set_mapping mappedMemory mappedCapacityRecords currentRecords pageNum cacheMap keyToFreq]; try done.
  - f_equal. rewrite <- (map_file_of (len file) cap' L) by (unfold len in *; lia). f_equal. unfold file. do 2 f_equal.
    fold file. unfold len in *. lia.
  - unfold len in *. lia.
Qed.

Lemma getAllRecords_of L t : table_of L t -> getAllRecords t = Ok (filter (fun r => rec_is_deleted r = false) L).
Proof.
  intros [Hm Hc _ _ _ _]. unfold getAllRecords. rewrite Hm, Hc.
  rewrite (proj2 (Nat.ltb_ge _ _)) by (rewrite length_app, length_fmap; lia).
  rewrite take_app_length' by (by rewrite length_fmap). by rewrite decrypt_encrypt_all.
Qed.

Lemma mails_last L1 r L2 m :
  cstr (rec_email r) <> [] -> Forall (fun r' => cstr (rec_email r') <> cstr (rec_email r)) L2 ->
  fold_left index_mail (L1 ++ r :: L2) m !! cstr (rec_email r) = Some (rec_user_id r).
Proof.
  intros Hr Hn. rewrite fold_left_app. cbn [fold_left].
  assert (H0 : index_mail (fold_left index_mail L1 m) r !! cstr (rec_email r) = Some (rec_user_id r)).
  { unfold index_mail at 1. rewrite bool_decide_eq_false_2 by done. cbn [negb]. apply lookup_insert_eq. }
  revert H0. generalize (index_mail (fold_left index_mail L1 m) r). clear -Hn. induction Hn as [|r' L2 Hne Hn IH]; intros m H0; [done|].
  cbn [fold_left]. apply IH. unfold index_mail. destruct (negb _); [|done]. by rewrite lookup_insert_ne.
Qed.

(** ** Properties *)

Section Properties.
Context (crc32 : bstr -> Z).

Inductive table_op :=
| OWrite (data : bstr)
| OUpdate (data : bstr)
| ODelete (identifier : bstr)
| OGet (query : bstr).

Inductive table_answer := ABool (b : bool) | AText (s : bstr).

Definition run_table_op (o : table_op) (t : table) : outcome (table_answer * table) :=
  match o with
  | OWrite d => let! (b, t) := writeTheData crc32 true d t in Ok (ABool b, t)
  | OUpdate d => let! (b, t) := updateTheData crc32 d t in Ok (ABool b, t)
  | ODelete i => let! (b, t) := deleteData crc32 i t in Ok (ABool b, t)
  | OGet q => let! (s, t) := getData q t in Ok (AText s, t)
  end.

(** The abstract table: a list of records.  [None] where the cache is asked for a key it
    knows; [t] is used for its cache keys and for what an identifier stands for. *)
Definition spec_table_op (o : table_op) (t : table) (L : list bstr) : option (table_answer * list bstr) :=
  match o with
  | OWrite d =>
      match parseInput d with
      | None => Some (ABool false, L)
      | Some r => if decide (rec_user_id r ∈ keyToFreq (evict_if_full t)) then None
                  else Some (ABool true, L ++ [with_checksum crc32 r])
      end
  | OUpdate d =>
      match parseInput d with
      | None => Some (ABool false, L)
      | Some r =>
          match pages L !! rec_user_id r with
          | None => Some (ABool false, L)
          | Some i => if decide (rec_user_id r ∈ keyToFreq t) then None
                      else Some (ABool true, <[i := with_checksum crc32 r]> L)
          end
      end
  | ODelete id =>
      match i ← pages L !! resolve id t; r ← L !! i; Some (i, r) with
      | None => Some (ABool false, L)
      | Some (i, r) => if rec_is_deleted r then Some (ABool false, L)
                       else Some (ABool true, <[i := mark_deleted crc32 r]> L)
      end
  | OGet q =>
      let uid := resolve (default [] (head (words q))) t in
      if decide (uid ∈ keyToFreq t) then None else
      match i ← pages L !! uid; L !! i with
      | None => Some (AText (str "NOT_FOUND"), L)
      | Some r => Some (AText (buildOutput r q), L)
      end
  end.

(** The key of the encryption is no user id. *)
Definition table_op_ok (o : table_op) : Prop :=
  match o with
  | OWrite d | OUpdate d => forall r, parseInput d = Some r -> rec_user_id r <> ENC_KEY
  | _ => True
  end.

Lemma write_spec d L t r :
  table_of L t -> parseInput d = Some r -> rec_user_id r <> ENC_KEY ->
  if decide (rec_user_id r ∈ keyToFreq (evict_if_full t)) then writeTheData crc32 true d t = UB
  else exists t', writeTheData crc32 true d t = Ok (true, t') /\ table_of (L ++ [with_checksum crc32 r]) t' /\
    emailToUid t' = emailToUid t /\ phoneToUid t' = phoneToUid t.
Proof.
  intros Ht Hp Hk. destruct (good_parsed crc32 d r Hp Hk) as [Hg Hu]. unfold writeTheData. rewrite Hp.
  destruct (ensureCapacity_of L t Ht) as (t1 & He & Ht1 & Hlt & Ec & Ef & Ek & Em & Eph).
  rewrite (to_count _ _ Ht). fold (len L). rewrite He. cbn [negb].
  rewrite (append_slot_of L t1 (with_checksum crc32 r) Ht1 Hlt Hg). cbn [obind].
  rewrite (encrypted_flag crc32 d r Hp), andb_false_r. cbn [negb].
  set (t3 := set_indexes _ _ _ _ _).
  assert (Ht3 : table_of (L ++ [with_checksum crc32 r]) t3).
  { pose proof Ht1 as [_ Hc1 Hr1 Hg1 Hp1 Hca1].
    constructor; unfold t3; cbn [set_indexes set_mapping mappedMemory mappedCapacityRecords currentRecords pageNum cacheMap keyToFreq]; try done.
    - rewrite Hc1, length_app. cbn. lia.
    - unfold len in *. rewrite length_app. cbn. lia.
    - apply Forall_app. split; [done|]. constructor; [done|constructor].
    - by rewrite Hp1, pages_snoc, Hu, Hc1. }
  assert (Hcache : cacheMap t3 = cacheMap t /\ freqList t3 = freqList t /\ keyToFreq t3 = keyToFreq t) by done.
  assert (Hidx : emailToUid t3 = emailToUid t /\ phoneToUid t3 = phoneToUid t) by done.
  assert (Hev : keyToFreq (evict_if_full t3) = keyToFreq (evict_if_full t) /\
    emailToUid (evict_if_full t3) = emailToUid t /\ phoneToUid (evict_if_full t3) = phoneToUid t).
  { destruct Hcache as (E3 & E4 & E5), Hidx as [E6 E7]. unfold evict_if_full. rewrite E3.
    destruct (CACHE_LIMIT <=? _); [|done]. unfold evictLFU. rewrite E4.
    destruct (freqList t) as [|[f [|key keys]] rest]; cbn [set_cache keyToFreq emailToUid phoneToUid]; rewrite ?E5, ?E6, ?E7; done. }
  destruct Hev as (Hk1 & Hm1 & Hph1). rewrite <- Hk1. clearbody t3. case_decide as Hin.
  - unfold updateLFU. by rewrite decide_True.
  - destruct (updateLFU_of _ _ (rec_user_id r) (encryptRecord (with_checksum crc32 r)) (evict_of _ _ Ht3) Hin) as (t4 & -> & Ht4 & E8 & E9).
    cbn [obind]. exists t4. split_and!; try done; congruence.
Qed.

(** C32: the table refines a list of records.  Related to a list, it answers a write, an
    update, a deletion (by user id, e-mail or phone) or a query as the list does and stays
    related to the list after it; a write appends, an update replaces the last record of
    its user id, a deletion marks it, and every record is found again as it was, behind
    encryption, growth of the mapping and eviction from the cache.  The one exception is
    stated too: when the operation reaches the cache with a key that is cached, it
    dereferences the end of a list and its behaviour is undefined. *)
Theorem table_refines o L t :
  table_of L t -> table_op_ok o ->
  match spec_table_op o t L with
  | Some (a, L') => exists t', run_table_op o t = Ok (a, t') /\ table_of L' t'
  | None => run_table_op o t = UB
  end.
Proof.
  intros Ht Hok. destruct o as [d|d|id|q]; cbn [run_table_op spec_table_op table_op_ok] in *.
  - destruct (parseInput d) as [r|] eqn:Hp; [|unfold writeTheData; rewrite Hp; by exists t].
    pose proof (write_spec d L t r Ht Hp (Hok r eq_refl)) as H. case_decide; [by rewrite H|].
    destruct H as (t' & -> & Ht' & _). by exists t'.
  - unfold updateTheData. destruct (parseInput d) as [r|] eqn:Hp; [|by exists t]. rewrite (to_pages _ _ Ht).
    destruct (pages L !! rec_user_id r) as [i|] eqn:Hi; [|by exists t].
    destruct (pages_lookup _ _ _ Hi) as (r0 & Hr0 & Hu0).
    destruct (good_parsed crc32 d r Hp (Hok r eq_refl)) as [Hg Hu].
    destruct (write_slot_of L t i r0 _ Ht Hr0 Hg ltac:(congruence)) as (t1 & -> & Ht1 & Ec & _ & Ek & _). cbn [obind].
    assert (Hin : bool_decide (is_Some (cacheMap t1 !! rec_user_id r)) = bool_decide (rec_user_id r ∈ keyToFreq t)).
    { apply bool_decide_ext. rewrite <- elem_of_dom, (to_cache _ _ Ht1), Ek. done. }
    rewrite Hin. clear Hin. destruct (decide (rec_user_id r ∈ keyToFreq t)) as [Hd|Hd].
    + rewrite bool_decide_eq_true_2 by done. unfold updateLFU. rewrite Ek. by rewrite decide_True.
    + rewrite bool_decide_eq_false_2 by done. by exists t1.
  - unfold deleteData. rewrite (to_pages _ _ Ht). destruct (pages L !! resolve id t) as [i|] eqn:Hi; [|by exists t].
    destruct (pages_lookup _ _ _ Hi) as (r & Hr & Hu). cbn [mbind option_bind]. rewrite Hr. cbn [mbind option_bind].
    rewrite (read_slot_of L t i r Ht Hr). cbn [obind]. rewrite decrypt_encrypt.
    destruct (rec_is_deleted r); [by exists t|].
    pose proof (Forall_lookup_1 _ _ _ _ (to_good _ _ Ht) Hr) as Hg. destruct (good_deleted crc32 r Hg) as [Hg' Hu'].
    destruct (write_slot_of L t i r _ Ht Hr Hg' Hu') as (t1 & -> & Ht1 & _). cbn [obind]. eexists. split; [done|].
    destruct Ht1. constructor; try done. cbn [cacheMap keyToFreq]. rewrite dom_delete_L. by rewrite to_cache0.
  - unfold getData. set (uid := resolve _ t). case_decide as Hin.
    + rewrite <- (to_cache _ _ Ht), elem_of_dom in Hin. destruct Hin as [v Hv]. rewrite Hv. unfold updateLFU.
      by rewrite decide_True by (rewrite <- (to_cache _ _ Ht); by eapply elem_of_dom_2).
    + assert (Hc : cacheMap t !! uid = None) by (apply not_elem_of_dom; by rewrite (to_cache _ _ Ht)). rewrite Hc.
      rewrite (to_pages _ _ Ht). destruct (pages L !! uid) as [i|] eqn:Hi; [|by exists t].
      destruct (pages_lookup _ _ _ Hi) as (r & Hr & Hu). cbn [mbind option_bind]. rewrite Hr.
      rewrite (read_slot_of L t i r Ht Hr). cbn [obind]. rewrite decrypt_encrypt.
      destruct (rec_is_deleted r) eqn:Hd; [unfold buildOutput; rewrite Hd; by exists t|].
      assert (Hin' : uid ∉ keyToFreq (evict_if_full t)).
      { unfold evict_if_full, evictLFU. repeat case_match; try done; cbn [set_cache keyToFreq]; set_solver. }
      destruct (updateLFU_of _ _ uid r (evict_of _ _ Ht) Hin') as (t1 & -> & Ht1 & _). by exists t1.
Qed.

(** The table survives a restart.  Whether the server is shut down (the file is cut to
    the records) or dies (the file keeps the zeroed headroom), opening the file again gives
    a table with the same records: the same list related, the same answer of
    [getAllRecords], which is every record that was not deleted, in order; and the e-mail
    index then leads from the e-mail of a record to its user id, if no later record has
    the same e-mail. *)
Theorem table_survives_restart L t file :
  table_of L t -> file = flushAndClose t \/ mappedMemory t = Some file ->
  let t' := initStorage true true file in
  table_of L t' /\ getAllRecords t' = getAllRecords t /\
  getAllRecords t' = Ok (filter (fun r => rec_is_deleted r = false) L) /\
  forall L1 r L2, L = L1 ++ r :: L2 -> cstr (rec_email r) <> [] ->
    Forall (fun r' => cstr (rec_email r') <> cstr (rec_email r)) L2 ->
    emailToUid t' !! cstr (rec_email r) = Some (rec_user_id r).
Proof.
  intros Ht Hf t'. pose proof Ht as [Hm Hc _ Hg _ _].
  assert (Hfile : exists n, file = (encryptRecord <$> L) ++ replicate n (zeros sizeof_userInfo)).
  { destruct Hf as [->|Hf].
    - exists 0%nat. unfold flushAndClose. rewrite Hm, Hc. cbn [from_option]. unfold id. rewrite take_app_length' by (by rewrite length_fmap).
      by rewrite app_nil_r.
    - rewrite Hm in Hf. injection Hf as <-. by eexists. }
  destruct Hfile as [n ->]. destruct (opened_table L n Hg) as [Ht' He].
  split_and!; [exact Ht'|by rewrite !(getAllRecords_of L)|by apply getAllRecords_of|].
  intros L1 r L2 -> Hr Hn. unfold t'. rewrite He. by apply mails_last.
Qed.

(** A write never reaches the secondary indexes: they are filled from the encrypted
    record, whose deletion flag reads as set.  A user who has signed up is therefore not
    found by e-mail or phone until the server is restarted. *)
Theorem writes_not_indexed d L t r :
  table_of L t -> parseInput d = Some r -> rec_user_id r <> ENC_KEY -> rec_user_id r ∉ keyToFreq (evict_if_full t) ->
  exists t', writeTheData crc32 true d t = Ok (true, t') /\ table_of (L ++ [with_checksum crc32 r]) t' /\
    emailToUid t' = emailToUid t /\ phoneToUid t' = phoneToUid t.
Proof.
  intros Ht Hp Hk Hn. pose proof (write_spec d L t r Ht Hp Hk) as H. by rewrite decide_False in H.
Qed.
End Properties.

(** ** Evaluation *)

Definition sample_crc (s : bstr) : Z := len s.
Definition sample_data : bstr := str "123456789 ada $argon2id$x ada@example.org TRUE 42 TRUE".
Definition sample_record : bstr := default [] (parseInput sample_data).

Lemma sample_parses : parseInput sample_data = Some sample_record /\ rec_user_id sample_record <> ENC_KEY /\
  cstr (rec_email sample_record) = str "ada@example.org" /\ good_record (with_checksum sample_crc sample_record).
Proof.
  assert (Hp : parseInput sample_data = Some sample_record) by reflexivity.
  assert (Hk : rec_user_id sample_record <> ENC_KEY) by (vm_compute; congruence).
  split_and!; [done|done|vm_compute; reflexivity|]. by apply (good_parsed sample_crc sample_data).
Qed.

Lemma empty_table : table_of [] (initStorage true true []).
Proof. apply (opened_table [] 0). constructor. Qed.

Lemma table_refines_witness :
  exists t', run_table_op sample_crc (OWrite sample_data) (initStorage true true []) = Ok (ABool true, t') /\
    table_of [with_checksum sample_crc sample_record] t'.
Proof.
  pose proof (table_refines sample_crc (OWrite sample_data) [] (initStorage true true [])) as H.
  assert (Hs : spec_table_op sample_crc (OWrite sample_data) (initStorage true true []) []
    = Some (ABool true, [with_checksum sample_crc sample_record])) by reflexivity.
  rewrite Hs in H. apply H.
  - exact empty_table.
  - intros r Hr. destruct sample_parses as (Hp & Hk & _). rewrite Hp in Hr. injection Hr as <-. exact Hk.
Defined.

Lemma writes_not_indexed_witness :
  exists t', writeTheData sample_crc true sample_data (initStorage true true []) = Ok (true, t') /\
    emailToUid t' !! str "ada@example.org" = None.
Proof.
  destruct sample_parses as (Hp & Hk & _).
  destruct (writes_not_indexed sample_crc sample_data [] (initStorage true true []) sample_record empty_table Hp Hk)
    as (t' & Hw & _ & He & _).
  - apply (bool_decide_unpack _). vm_compute. exact I.
  - exists t'. split; [exact Hw|]. rewrite He. reflexivity.
Defined.

Lemma table_survives_restart_witness :
  exists t, table_of [with_checksum sample_crc sample_record] t /\
    emailToUid (initStorage true true (flushAndClose t)) !! str "ada@example.org" = Some (rec_user_id (with_checksum sample_crc sample_record)).
Proof.
  destruct sample_parses as (Hp & Hk & Hm & Hg).
  destruct (opened_table [with_checksum sample_crc sample_record] 0) as [Ht _]; [constructor; [exact Hg|constructor]|].
  exists (initStorage true true ((encryptRecord <$> [with_checksum sample_crc sample_record]) ++ replicate 0 (zeros sizeof_userInfo))).
  split; [exact Ht|].
  destruct (table_survives_restart [with_checksum sample_crc sample_record] _ _ Ht (or_introl eq_refl)) as (_ & _ & _ & H).
  assert (He : cstr (rec_email (with_checksum sample_crc sample_record)) = str "ada@example.org").
  { unfold rec_email. rewrite slice_with_checksum; [exact Hm|by apply (length_parseInput sample_data)|lia]. }
  rewrite <- He. apply (H [] _ []); [reflexivity|by rewrite He|constructor].
Defined.
