(* ===== verification/SignUp.v ===== *)
(** Registration: authentication/SignUp.h and SignUp.cpp.

    The handlers of one-time-password requests, verifications and sign-up requests, and
    one turn of the two threads that work off their queues.  The clock, the random numbers
    and the salt are arguments; [std::hash] is a parameter, as is zlib's [crc32] of the
    table. *)

From stdpp Require Import pretty.
From S2P Require Import Prelude Crc32c Packet Serialize CircularBuffer Fqueue PacketPool Framing Session Offline Network AuthStore Auth Delivery Table.

(** ** Definitions *)

Record otpData := mkOtp { otp : bstr; expiry : Z; count : Z }.

Record signupState := mkSignup { su_email : bstr; su_number : bstr; su_username : bstr; su_password : bstr; su_session : bstr }.

Record SignUp := mkSignUp {
  otpQueue : list bstr;
  signUpQueue : list signupState;
  otpChecker : gmap bstr otpData;
  emailVerified : gmap bstr bool;
  requestCounter : gmap bstr Z;
  db : table
}.

Definition set_otpQueue v su := mkSignUp v (signUpQueue su) (otpChecker su) (emailVerified su) (requestCounter su) (db su).
Definition set_signUpQueue v su := mkSignUp (otpQueue su) v (otpChecker su) (emailVerified su) (requestCounter su) (db su).
Definition set_otpChecker v su := mkSignUp (otpQueue su) (signUpQueue su) v (emailVerified su) (requestCounter su) (db su).
Definition set_emailVerified v su := mkSignUp (otpQueue su) (signUpQueue su) (otpChecker su) v (requestCounter su) (db su).
Definition set_db v su := mkSignUp (otpQueue su) (signUpQueue su) (otpChecker su) (emailVerified su) (requestCounter su) v.

Definition isdigit (c : byte) : bool := let z := byte.unsigned c in (48 <=? z) && (z <=? 57).
Definition isalnum (c : byte) : bool :=
  let z := byte.unsigned c in isdigit c || (65 <=? z) && (z <=? 90) || (97 <=? z) && (z <=? 122).

(** [regex_match] with [^\+[1-9]\d{1,14}$]. *)
Definition isValidE164Phone (num : bstr) : bool :=
  match num with
  | p :: d :: ds => bool_decide ([p] = str "+") && isdigit d && negb (bool_decide ([d] = str "0")) &&
                    (1 <=? length ds)%nat && (length ds <=? 14)%nat && forallb isdigit ds
  | _ => false
  end.

Definition char_in (s : string) (c : byte) : bool := bool_decide (c ∈ str s).

(** [find('@')], [substr] and the loop over the characters. *)
Fixpoint split_at (s acc : bstr) : option (bstr * bstr) :=
  match s with
  | [] => None
  | c :: s => if char_in "@" c then Some (acc, s) else split_at s (acc ++ [c])
  end.
Definition isValidEmail (email : bstr) : bool :=
  match split_at email [] with
  | None => false
  | Some (localPart, domainPart) =>
      if bool_decide (localPart = []) || bool_decide (domainPart = []) then false else
      if negb (existsb (char_in ".") domainPart) then false else
      forallb (fun c => isalnum c || char_in "@._-" c) email
  end.

Definition isVerified (email : bstr) (su : SignUp) : bool := default false (emailVerified su !! email).
Definition isAlreadySignup (email : bstr) (su : SignUp) : bool := bool_decide (is_Some (emailToUid (db su) !! email)).

(** A reply to a session id: its pointer is not tested, a packet that is not routed is
    given back. *)
Definition notify {C : Checksum} (m : message) (id : bstr) (st : @State Net) : outcome (bool * @State Net) :=
  let! (p, pp) := borrowPacket (packets st.2) in
  match p with
  | None => UB
  | Some p =>
      let n := set_packets (write_packet p (fun pkt => (send m (set_bypassQueue true pkt)).2) pp) st.2 in
      let! (routed, n) := route_packet p id n in
      let! n := if negb routed then give_back p n else Ok n in
      Ok (routed, (st.1, n))
  end.

Definition signup_error (s : string) : message := StringMsg PKT_SIGNUP_ERROR (str s).

Section SignUp.
Context {C : Checksum} {N : Sodium} (hash : bstr -> Z) (crc32 : bstr -> Z).

Definition hashStr (input : bstr) : bstr := str (pretty (Z.to_N (hash input))).

Definition otpRequestHandler (p ptr : nat) (su : SignUp) (st : @State Net) : outcome (SignUp * @State Net) :=
  let! (email, st) := take_packet read_OtpReq p st in
  if negb (isValidEmail email) then Ok (su, st) else
  if negb (isAlreadySignup email su) then Ok (set_otpQueue (otpQueue su ++ [email]) su, st) else
  let! se := deref (registry st.2) (Some ptr) in
  let! (routed, st) := notify (signup_error "already signed !/ login ") (userId se) st in
  Ok (su, st).

(** One turn of [otpSenderLoop]: [otp] is what [otpGenerator] draws.  (The mail itself is
    printed.) *)
Definition otp_turn (now : Z) (otp : bstr) (su : SignUp) : SignUp :=
  match otpQueue su with
  | [] => su
  | email :: rest =>
      mkSignUp rest (signUpQueue su) (<[email := mkOtp (hashStr otp) (now + 300) 0]> (otpChecker su)) (emailVerified su)
        (<[email := 0]> (requestCounter su)) (db su)
  end.

Definition signUpRequestHandler (p ptr : nat) (su : SignUp) (st : @State Net) : outcome (SignUp * @State Net) :=
  let! se := deref (registry st.2) (Some ptr) in
  let sessionId := userId se in
  let! ((email, number, username, password), st) := take_packet read_Signup p st in
  if negb (isVerified email su) then
    let! (routed, st) := notify (signup_error "Signup Failed: Email not verified") sessionId st in
    Ok (su, st)
  else Ok (set_signUpQueue (signUpQueue su ++ [mkSignup email number username password sessionId]) su, st).

Definition onOtpVerificationRequest (now : Z) (p ptr : nat) (su : SignUp) (st : @State Net) : outcome (SignUp * @State Net) :=
  let! se := deref (registry st.2) (Some ptr) in
  let sessionId := userId se in
  let! ((email, otp_), st) := take_packet read_OtpVerify p st in
  match otpChecker su !! email with
  | None => let! (routed, st) := notify (signup_error "OTP not generated") sessionId st in Ok (su, st)
  | Some otCopy =>
      let su := set_otpChecker (<[email := mkOtp (otp otCopy) (expiry otCopy) (wrap 64 (count otCopy + 1))]> (otpChecker su)) su in
      if (5 <=? count otCopy) || (expiry otCopy <? now) then
        let su := set_otpChecker (delete email (otpChecker su)) su in
        let! (routed, st) := notify (signup_error "OTP expired or limit reached") sessionId st in
        Ok (su, st)
      else if bool_decide (otp otCopy = hashStr otp_) then
        let su := set_emailVerified (<[email := true]> (emailVerified su)) su in
        let su := set_otpChecker (delete email (otpChecker su)) su in
        let! (routed, st) := notify (StringMsg PKT_ACKNOWLEDGMENT (str "OTP Verified")) sessionId st in
        Ok (if negb routed then set_emailVerified (<[email := false]> (emailVerified su)) su else su, st)
      else Ok (su, st)
  end.

(** The line that is written to the database. *)
Definition db_line (userID hashed : bstr) (s : signupState) : bstr :=
  userID ++ str " " ++ su_username s ++ str " " ++ cstr hashed ++ str " " ++ su_email s ++ str " " ++ str "TRUE" ++ str " " ++
  hashStr (su_number s) ++ str " " ++ str "TRUE".

Definition new_user_record (userID hashed : bstr) (s : signupState) : UserRecord :=
  mkUser (take 16 userID ++ zeros (16 - length userID)) (char_field 32 (su_username s)) hashed (char_field 64 (su_email s)) true
    (take 32 (hashStr (su_number s)) ++ zeros (32 - length (hashStr (su_number s)))) true.

(** One turn of [signupManager]: [userID] is what [generateUserId] draws, [view] whether a
    larger file mapping is granted. *)
Definition signup_turn (userID salt : bstr) (view : bool) (su : SignUp) (a : AuthManager) : outcome (SignUp * AuthManager) :=
  match signUpQueue su with
  | [] => Ok (su, a)
  | s :: rest =>
      let su := set_signUpQueue rest su in
      match crypto_pwhash_str (su_password s) salt with
      | None => Ok (su, a)
      | Some hashed =>
          let! (written, t) := writeTheData crc32 view (db_line userID hashed s) (db su) in
          let su := set_db t su in
          if written : bool then Ok (su, (AddUserRecord (new_user_record userID hashed s) a).2) else Ok (su, a)
      end
  end.
End SignUp.

(** ** Lemmas *)

Section Notify.
Context {C : Checksum} {L : ChecksumLaws C}.

(** A reply: it always returns, leaves queues and registry alone, and is routed exactly
    when the session is registered and the system accepts the send. *)
Lemma notify_ok m id st B E D k :
  chat_ok st B E D (S k) -> (base.size B < currentSize)%nat -> uuids_ok m ->
  exists b st' B' E' D', notify m id st = Ok (b, st') /\ chat_ok st' B' E' D' k /\ B ⊆ B' /\ st'.1 = st.1 /\
    registry st'.2 = registry st.2 /\
    (forall q se, id <> [] -> registered (registry st.2) id q se -> b = answer st.2).
Proof.
  intros [Hnet Hr Hq] Hroom Hu. pose proof (net_pool _ _ _ _ _ Hnet) as Hpool. unfold notify.
  destruct (borrow_inv _ _ _ Hpool) as [[Hfull _]|(p & pp & pkt & Hb & HpB & Hlt & Hp & -> & Hpool')]; [lia|].
  rewrite Hb. cbn [obind]. set (w := write_packet p _ pp). set (n1 := set_packets w st.2).
  assert (Hsend : exists pk, pool w !! p = Some pk /\ pkt_id pk = p /\ ntohl (load 4 4 (data pk)) <= 4096).
  { unfold w. cbn [write_packet pool]. rewrite list_lookup_alter_eq, Hp. cbn. eexists. split; [done|].
    destruct (send_sendable m p Hu) as (H1 & H2 & _).
    assert (Hsb : forall q : Packet, length (data q) = sizeof_data ->
      data (send m (set_bypassQueue true q)).2 = data (send m q).2 /\ pkt_id (send m (set_bypassQueue true q)).2 = pkt_id (send m q).2).
    { intros q Hl. rewrite !send_built by done. unfold built. by destruct (_ <=? _)%nat. }
    destruct (Hsb (set_pkt_id p new_packet) (length_zeros _)) as [-> ->]. done. }
  destruct Hsend as (pk & Hw & Hid & Hlen).
  assert (Hold : forall i, i ∈ B -> pool w !! i = pool (packets st.2) !! i).
  { intros i Hi. unfold w. cbn [write_packet pool]. rewrite list_lookup_alter_ne by set_solver.
    apply (borrow_other _ _ _ _ Hb). set_solver. }
  assert (Hok1 : net_ok n1 ({[p]} ∪ B) ({[p]} ∪ E) D (S k)).
  { unfold n1. destruct Hnet. constructor; cbn [set_packets packets io]; [|done..].
    apply write_inv_at; [done|set_solver|]. intros p0. rewrite Hp. intros [= <-].
    revert Hw. unfold w. cbn [write_packet pool]. rewrite list_lookup_alter_eq, Hp. by intros [= <-]. }
  destruct (route_ready p id n1 _ _ _ k Hok1 Hr) as (b & n2 & D' & Hro & Hok2 & Hreg & Hsame & _ & Hans).
  { split; [set_solver|]. by exists pk. }
  rewrite Hro. cbn [obind].
  assert (Hq2 : forall id cq it, st.1 !! id = Some cq -> it ∈ cqueue cq -> sendable_at ({[p]} ∪ B) n2 (packet it) /\ packet it <> p).
  { intros id' cq it Hl Hit. destruct (Hq id' cq it Hl Hit) as (HB & pk' & Hpk & Hle). split; [|intros Heq; by rewrite Heq in HB].
    apply (sendable_same_data _ n1); [done|]. split; [set_solver|]. exists pk'. unfold n1. cbn [set_packets packets]. by rewrite Hold. }
  destruct b; cbn [negb obind].
  - exists true, (st.1, n2), ({[p]} ∪ B), ({[p]} ∪ E), D'. split_and!; try done; [|set_solver|].
    + constructor; cbn [fst snd]; [done|by rewrite Hreg|]. intros id' cq it Hl Hit. by destruct (Hq2 id' cq it Hl Hit).
    + intros q se Hne Hse. by destruct (Hans q se Hne Hse).
  - destruct (give_back_ok p n2 _ _ _ _ Hok2 ltac:(set_solver)) as (n3 & Hg & Hok3 & Hreg3 & _ & _).
    rewrite Hg. cbn [obind]. exists false, (st.1, n3), (({[p]} ∪ B) ∖ {[p]}), ({[p]} ∪ E), D'. split_and!; try done; [|set_solver| |].
    + constructor; cbn [fst snd]; [done|by rewrite Hreg3, Hreg|]. intros id' cq it Hl Hit.
      destruct (Hq2 id' cq it Hl Hit) as [(HB & pk' & Hpk & Hle) Hne]. split; [set_solver|]. exists pk'. split; [|done].
      unfold give_back in Hg. destruct (returnPacket (Some p) (packets n2)) as [pp3| |] eqn:Er; cbn in Hg; try done.
      injection Hg as <-. cbn [set_packets packets]. by rewrite (return_other p _ _ _ Er).
    + cbn [snd]. by rewrite Hreg3, Hreg.
    + intros q se Hne Hse. by destruct (Hans q se Hne Hse).
Qed.
End Notify.

(** ** One-time passwords *)

Section Properties.
Context {C : Checksum} {L : ChecksumLaws C} (hash : bstr -> Z).

(** What a verification makes of the registration state: [routed] says whether the
    session could be told of a success. *)
Definition verified_result (now : Z) (email otp_ : bstr) (routed : bool) (su : SignUp) : SignUp :=
  match otpChecker su !! email with
  | None => su
  | Some e =>
      if (5 <=? count e) || (expiry e <? now) then set_otpChecker (delete email (otpChecker su)) su
      else if bool_decide (otp e = hashStr hash otp_) then
        set_emailVerified (<[email := routed]> (emailVerified su)) (set_otpChecker (delete email (otpChecker su)) su)
      else set_otpChecker (<[email := mkOtp (otp e) (expiry e) (wrap 64 (count e + 1))]> (otpChecker su)) su
  end.

Lemma otp_verification_spec now p ptr pkt email otp_ se su st B E D k :
  chat_ok st B E D (S k) -> received_packet p pkt B st -> read_OtpVerify pkt = Ok (email, otp_) ->
  deref (registry st.2) (Some ptr) = Ok se ->
  exists routed st' B' E' D', onOtpVerificationRequest hash now p ptr su st = Ok (verified_result now email otp_ routed su, st') /\
    chat_ok st' B' E' D' k /\ st'.1 = st.1 /\ registry st'.2 = registry st.2 /\
    (forall q s', userId se <> [] -> registered (registry st.2) (userId se) q s' ->
       forall e, otpChecker su !! email = Some e -> count e < 5 -> now <= expiry e -> otp e = hashStr hash otp_ ->
       routed = answer st.2).
Proof.
  intros Hok Hrp Hread Hse.
  destruct (take_ok read_OtpVerify (email, otp_) p pkt st B E D (S k) Hok Hrp Hread)
    as (st1 & Ht & Hok1 & Hq1 & Hr1 & _ & Ha1 & _ & Hroom).
  unfold onOtpVerificationRequest, verified_result. rewrite Hse. cbn [obind]. rewrite Ht. cbn [obind].
  assert (Hnot : forall m, uuids_ok m -> exists b st' B' E' D', notify m (userId se) st1 = Ok (b, st') /\ chat_ok st' B' E' D' k /\
    st'.1 = st.1 /\ registry st'.2 = registry st.2 /\
    (forall q s', userId se <> [] -> registered (registry st.2) (userId se) q s' -> b = answer st.2)).
  { intros m Hm. destruct (notify_ok m (userId se) st1 _ _ _ k Hok1 Hroom Hm) as (b & st' & B' & E' & D' & Hn & Hok' & _ & Hq' & Hr' & Hb).
    exists b, st', B', E', D'. split_and!; try done; [congruence|congruence|].
    intros q s' Hne Hs'. rewrite <- (answer_eq _ _ Ha1). rewrite <- Hr1 in Hs'. by apply (Hb q s'). }
  destruct (otpChecker su !! email) as [e|] eqn:He.
  2: { destruct (Hnot (signup_error "OTP not generated")) as (b & st' & B' & E' & D' & -> & H1 & H2 & H3 & _); [constructor|].
       by exists b, st', B', E', D'. }
  destruct (Z.leb_spec 5 (count e)) as [Hc|Hc]; cbn [orb].
  { destruct (Hnot (signup_error "OTP expired or limit reached")) as (b & st' & B' & E' & D' & -> & H1 & H2 & H3 & _); [constructor|].
    exists b, st', B', E', D'. cbn [obind set_otpChecker otpChecker]. rewrite delete_insert_eq. split_and!; try done.
    intros q s' _ _ e' [= <-]. lia. }
  destruct (Z.ltb_spec (expiry e) now) as [Hx|Hx].
  { destruct (Hnot (signup_error "OTP expired or limit reached")) as (b & st' & B' & E' & D' & -> & H1 & H2 & H3 & _); [constructor|].
    exists b, st', B', E', D'. cbn [obind set_otpChecker otpChecker]. rewrite delete_insert_eq. split_and!; try done.
    intros q s' _ _ e' [= <-]. lia. }
  case_bool_decide as Hh.
  - destruct (Hnot (StringMsg PKT_ACKNOWLEDGMENT (str "OTP Verified"))) as (b & st' & B' & E' & D' & -> & H1 & H2 & H3 & Hb); [constructor|].
    exists b, st', B', E', D'. cbn [obind]. split_and!; try done.
    + destruct b; cbn [negb set_emailVerified set_otpChecker otpChecker emailVerified otpQueue signUpQueue requestCounter db];
        rewrite delete_insert_eq; [done|]. by rewrite insert_insert_eq.
    + intros q s' Hne Hs' _ _ _ _ _. by apply (Hb q s').
  - exists false, st1, (B ∖ {[p]}), E, D. split_and!; try done; [by eapply chat_ok_weaken, Hok1; lia|].
    intros q s' _ _ e' [= <-]. done.
Qed.

(** The verification of a one-time password, on every branch.  The handler always
    returns and leaves queues and registry alone.  Without a password for the e-mail
    nothing changes; after five attempts or the expiry the password is discarded; a wrong
    one is counted; and only the right one, in time and within five attempts, makes the
    e-mail verified, provided that the session could be told so, and uses up the
    password. *)
Theorem otp_verification_answers now p ptr pkt email otp_ se su st B E D k :
  chat_ok st B E D (S k) -> received_packet p pkt B st -> read_OtpVerify pkt = Ok (email, otp_) ->
  deref (registry st.2) (Some ptr) = Ok se ->
  exists routed st' B' E' D', onOtpVerificationRequest hash now p ptr su st = Ok (verified_result now email otp_ routed su, st') /\
    chat_ok st' B' E' D' k /\ st'.1 = st.1 /\ registry st'.2 = registry st.2 /\
    (forall q s', userId se <> [] -> registered (registry st.2) (userId se) q s' ->
       forall e, otpChecker su !! email = Some e -> count e < 5 -> now <= expiry e -> otp e = hashStr hash otp_ ->
       routed = answer st.2).
Proof. apply otp_verification_spec. Qed.

(** A verification request for [email] with the guess [g], handled in some state of the
    network. *)
Definition guess (email g : bstr) (su su' : SignUp) : Prop :=
  exists now p ptr pkt se st B E D k st',
    chat_ok st B E D (S k) /\ received_packet p pkt B st /\ read_OtpVerify pkt = Ok (email, g) /\
    deref (registry st.2) (Some ptr) = Ok se /\ onOtpVerificationRequest hash now p ptr su st = Ok (su', st').

(** [n] requests with guesses that are not the password [otp_]. *)
Inductive wrong_guesses (email otp_ : bstr) : nat -> SignUp -> SignUp -> Prop :=
| no_guess su : wrong_guesses email otp_ 0 su su
| one_more n g su su' su'' :
    wrong_guesses email otp_ n su su' -> hashStr hash g <> hashStr hash otp_ -> guess email g su' su'' ->
    wrong_guesses email otp_ (S n) su su''.

Lemma guess_result email g su su' : guess email g su su' -> exists now routed, su' = verified_result now email g routed su.
Proof.
  intros (now & p & ptr & pkt & se & st & B & E & D & k & st' & Hok & Hrp & Hread & Hse & Hrun).
  destruct (otp_verification_spec now p ptr pkt email g se su st B E D k Hok Hrp Hread Hse) as (routed & st1 & B' & E' & D' & Hrun' & _).
  rewrite Hrun in Hrun'. injection Hrun' as -> _. by eexists _, _.
Qed.

Lemma wrong_guesses_count email otp_ n su0 su su' :
  otpChecker su !! email = Some (mkOtp (hashStr hash otp_) su0 0) -> wrong_guesses email otp_ n su su' ->
  emailVerified su' = emailVerified su /\
  (otpChecker su' !! email = None \/
   exists e, otpChecker su' !! email = Some e /\ otp e = hashStr hash otp_ /\ count e = Z.of_nat n /\ (n <= 5)%nat).
Proof.
  intros H0. induction 1 as [su|n g su su' su'' Hw IH Hg Hstep].
  { split; [done|]. right. eexists. split_and!; [exact H0|done|done|lia]. }
  destruct (IH H0) as [Hv He]. destruct (guess_result _ _ _ _ Hstep) as (now & routed & ->). unfold verified_result.
  destruct He as [He|(e & He & Ho & Hc & Hn)].
  { rewrite He. split; [done|]. by left. }
  rewrite He. destruct (Z.leb_spec 5 (count e)) as [Hc5|Hc5]; cbn [orb].
  { split; [done|]. left. cbn [set_otpChecker otpChecker]. apply lookup_delete_eq. }
  destruct (expiry e <? now).
  { split; [done|]. left. cbn [set_otpChecker otpChecker]. apply lookup_delete_eq. }
  rewrite bool_decide_eq_false_2 by congruence. split; [done|]. right. cbn [set_otpChecker otpChecker].
  eexists. split; [apply lookup_insert_eq|]. cbn [otp count]. split_and!; [done| |lia]. rewrite wrap_small by lia. lia.
Qed.

(** C34: a one-time password stands at most five guesses.  After one was generated for an
    e-mail and five or more requests with wrong guesses were handled, whatever else the
    network did and however long it took, no further request makes the e-mail verified,
    not even the right one, and it leaves no password behind. *)
Theorem otp_five_guesses now otp_ email rest n g su su1 su2 :
  otpQueue su = email :: rest -> (5 <= n)%nat ->
  wrong_guesses email otp_ n (otp_turn hash now otp_ su) su1 -> guess email g su1 su2 ->
  isVerified email su2 = isVerified email su /\ otpChecker su2 !! email = None.
Proof.
  intros Hq Hn Hw Hg.
  assert (H0 : otpChecker (otp_turn hash now otp_ su) !! email = Some (mkOtp (hashStr hash otp_) (now + 300) 0) /\
    emailVerified (otp_turn hash now otp_ su) = emailVerified su).
  { unfold otp_turn. rewrite Hq. cbn [otpChecker emailVerified]. by rewrite lookup_insert_eq. }
  destruct H0 as [H0 Hv0]. destruct (wrong_guesses_count _ _ _ _ _ _ H0 Hw) as [Hv He].
  destruct (guess_result _ _ _ _ Hg) as (now' & routed & ->). unfold verified_result, isVerified.
  destruct He as [He|(e & He & Ho & Hc & H5)]; rewrite He.
  - by rewrite Hv, Hv0.
  - rewrite (proj2 (Z.leb_le _ _)) by lia. cbn [orb set_otpChecker otpChecker emailVerified].
    rewrite Hv, Hv0. split; [done|]. apply lookup_delete_eq.
Qed.
End Properties.

(** ** Signing up *)

(** A word of the line written to the database. *)
Definition clean (w : bstr) : Prop := w <> [] /\ forallb (fun c => negb (is_space c)) w = true.

Lemma words_from_clean acc w s :
  forallb (fun c => negb (is_space c)) w = true -> words_from acc (w ++ s) = words_from (acc ++ w) s.
Proof.
  revert acc. induction w as [|c w IH]; intros acc Hw; cbn [app]; [by rewrite app_nil_r|].
  cbn [forallb] in Hw. apply andb_true_iff in Hw as [Hc Hw]. apply negb_true_iff in Hc. cbn [words_from]. rewrite Hc.
  rewrite IH by done. by rewrite <- app_assoc.
Qed.

Lemma words_cons w s : clean w -> words (w ++ str " " ++ s) = w :: words s.
Proof.
  intros [Hne Hw]. unfold words. rewrite words_from_clean by done. cbn. by rewrite bool_decide_eq_false_2.
Qed.

Lemma words_single w : clean w -> words w = [w].
Proof.
  intros [Hne Hw]. unfold words. rewrite <- (app_nil_r w) at 1. rewrite words_from_clean by done. cbn.
  by rewrite bool_decide_eq_false_2.
Qed.

Lemma digit_not_space n : is_space (Ascii.byte_of_ascii (pretty_N_char n)) = false.
Proof. unfold pretty_N_char. by repeat case_match. Qed.

Lemma pretty_go_clean n s :
  forallb (fun c => negb (is_space c)) (str s) = true -> forallb (fun c => negb (is_space c)) (str (pretty_N_go n s)) = true.
Proof.
  revert s. induction (N.lt_wf_0 n) as [n _ IH]; intros s Hs. destruct (decide (0 < n)%N) as [Hn|Hn].
  - rewrite pretty_N_go_step by done. apply IH; [by apply N.div_lt|].
    change (str (String _ s)) with (Ascii.byte_of_ascii (pretty_N_char (n mod 10)) :: str s). cbn [forallb].
    by rewrite digit_not_space, Hs.
  - by replace n with 0%N by lia.
Qed.

Lemma pretty_go_nonempty n s : str s <> [] -> str (pretty_N_go n s) <> [].
Proof.
  revert s. induction (N.lt_wf_0 n) as [n _ IH]; intros s Hs. destruct (decide (0 < n)%N) as [Hn|Hn].
  - rewrite pretty_N_go_step by done. apply IH; [by apply N.div_lt|]. done.
  - by replace n with 0%N by lia.
Qed.

Lemma pretty_N_clean (n : N) : clean (str (pretty n)).
Proof.
  unfold pretty, pretty_N. case_decide as Hn; [by split|]. split; [|by apply pretty_go_clean].
  rewrite pretty_N_go_step by lia. by apply pretty_go_nonempty.
Qed.

Section SigningUp.
Context {C : Checksum} {N : Sodium} (hash crc32 : bstr -> Z).

Lemma hashStr_clean s : clean (hashStr hash s).
Proof. apply pretty_N_clean. Qed.

(** The e-mail and the user name of [u] are not those of another user. *)
Definition new_to (u : UserRecord) (us : UserStore) : Prop :=
  email_to_uid_ us !! cstr (email u) = None /\ username_to_uid_ us !! cstr (username u) = None.

Lemma inserted_found u us : new_to u us -> FindByEmail (cstr (email u)) (Insert u us).2 = Some u.
Proof.
  intros [He Hn]. unfold Insert. rewrite He, Hn, !(bool_decide_eq_false_2 (is_Some None)), andb_false_r by (by intros [? ?]).
  unfold FindByEmail. cbn [snd email_to_uid_ records_]. rewrite lookup_insert_eq. cbn [mbind option_bind].
  apply lookup_insert_eq.
Qed.

Lemma AddUserRecord_store u a : user_store_ (AddUserRecord u a).2 = (Insert u (user_store_ a)).2.
Proof. unfold AddUserRecord. by destruct (Insert u (user_store_ a)). Qed.

(** The password hash is a C string in its array. *)
Definition hash_string (hashed h : bstr) : Prop :=
  hashed = h ++ zeros (128 - length h) /\ (length h <= 127)%nat /\ clean h /\ Byte.x00 ∉ h.

Lemma cstr_app h n : Byte.x00 ∉ h -> cstr (h ++ zeros n) = h.
Proof.
  induction h as [|c h IH]; intros Hn; cbn [app cstr].
  - by destruct n.
  - rewrite decide_False by set_solver. f_equal. apply IH. set_solver.
Qed.

Lemma parse_db_line userID hashed h s :
  clean userID -> clean (su_username s) -> clean (su_email s) -> hash_string hashed h ->
  parseInput (db_line hash userID hashed s) =
  Some (build_record userID (su_username s) h (su_email s) true (hashStr hash (su_number s)) true).
Proof.
  intros Hu Hn He (-> & _ & Hh & H0). unfold parseInput, db_line. rewrite cstr_app by done.
  assert (Hw : words (userID ++ str " " ++ su_username s ++ str " " ++ h ++ str " " ++ su_email s ++ str " " ++ str "TRUE" ++ str " " ++
    hashStr hash (su_number s) ++ str " " ++ str "TRUE")
    = [userID; su_username s; h; su_email s; str "TRUE"; hashStr hash (su_number s); str "TRUE"]).
  { do 4 (rewrite words_cons by done). rewrite words_cons by (by split). rewrite words_cons by apply hashStr_clean.
    by rewrite words_single by (by split). }
  by rewrite Hw.
Qed.

Lemma safeCopy_char_field w s : (0 < w)%nat -> safeCopy s w = char_field w s.
Proof.
  intros Hw. unfold safeCopy, char_field. rewrite length_take. destruct (le_lt_dec (length s) (w - 1)) as [Hl|Hl].
  - rewrite Nat.min_l, Nat.min_r, !take_ge by lia. done.
  - rewrite Nat.min_r, Nat.min_l by lia. done.
Qed.

(** The fields of a built record, read back. *)
Lemma user_of_built userID username h mail phone hashed :
  hash_string hashed h ->
  user_of_record (with_checksum crc32 (build_record userID username h mail true phone true)) =
  mkUser (safeCopyBytes userID 16) (char_field 32 username) hashed (char_field 64 mail) true (safeCopyBytes phone 32) true.
Proof.
  intros (-> & Hl & _ & _). pose proof (length_build_record userID username h mail true phone true) as Hb.
  unfold user_of_record, rec_user_id, rec_username, rec_password_hash, rec_email, rec_phone_hash, rec_email_verified,
    rec_phone_discoverable, rec_flag, load.
  rewrite !slice_with_checksum by (done || lia). unfold build_record.
  rewrite <- (safeCopy_char_field 32 username), <- (safeCopy_char_field 64 mail) by lia.
  pose proof (length_safeCopyBytes userID 16). pose proof (length_safeCopy username 32 ltac:(lia)).
  pose proof (length_safeCopyBytes h 128). pose proof (length_safeCopy mail 64 ltac:(lia)). pose proof (length_safeCopyBytes phone 32).
  assert (Hpw : take 127 (safeCopyBytes h 128) ++ zeros 1 = h ++ zeros (128 - length h)).
  { unfold safeCopyBytes, zeros. rewrite (take_ge h) by lia. rewrite take_app_ge by lia. rewrite take_replicate, <- app_assoc, <- replicate_add.
    do 2 f_equal. lia. }
  set (a := safeCopyBytes userID 16) in *. set (b := safeCopy username 32) in *. set (c := safeCopyBytes h 128) in *.
  set (d := safeCopy mail 64) in *. set (e := safeCopyBytes phone 32) in *. clearbody a b c d e.
  assert (Hsl : forall i n x y z, length x = i -> length y = n -> slice i n (x ++ y ++ z) = y).
  { intros i n x y z <- <-. rewrite slice_app_r by lia. rewrite Nat.sub_diag. by apply slice_prefix. }
  f_equal.
  - rewrite (slice_prefix 16); [done|lia].
  - by apply (Hsl 16%nat 32%nat a).
  - rewrite <- Hpw. f_equal. f_equal. rewrite (app_assoc a). apply Hsl; [rewrite length_app; lia|done].
  - rewrite (app_assoc b), (app_assoc a). apply Hsl; [rewrite !length_app; lia|done].
  - rewrite (app_assoc c), (app_assoc b), (app_assoc a). rewrite Hsl; [done|rewrite !length_app; lia|done].
  - rewrite (app_assoc d), (app_assoc c), (app_assoc b), (app_assoc a). apply Hsl; [rewrite !length_app; cbn; lia|done].
  - rewrite (app_assoc _ e), (app_assoc d), (app_assoc c), (app_assoc b), (app_assoc a).
    rewrite Hsl; [done|rewrite !length_app; cbn; lia|done].
Qed.

Lemma load_of L t us :
  table_of L t ->
  LoadUsersFromDatabase t us =
  Ok (fold_left (fun us u => (Insert (user_of_record u) us).2) (filter (fun r => rec_is_deleted r = false) L) us).
Proof. intros Ht. unfold LoadUsersFromDatabase. by rewrite (getAllRecords_of L). Qed.

(** C33: a sign-up is complete and lasts.  Take a request in the queue whose user name and
    e-mail are single words, a user id that is a single word, not in the cache and not the
    sixteen bytes of the encryption key (whose record would read as an empty slot), and a
    table that can be mapped.  When the password is hashed, one turn of the sign-up thread
    writes a record to the database and passes the user, e-mail verified and with the hash
    of the password, to [AddUserRecord]: the user is found by e-mail from then on unless the
    e-mail or the user name is already taken.  When the server is then shut down and started
    again, the database gives exactly the users it gave before and inserts the same user,
    with the same fields, after them. *)
Theorem signup_persists userID salt hashed h s rest su a L :
  let u := new_user_record hash userID hashed s in
  table_of L (db su) -> signUpQueue su = s :: rest ->
  crypto_pwhash_str (su_password s) salt = Some hashed -> hash_string hashed h ->
  clean userID -> clean (su_username s) -> clean (su_email s) ->
  safeCopyBytes userID 16 <> ENC_KEY -> safeCopyBytes userID 16 ∉ keyToFreq (evict_if_full (db su)) ->
  exists su' a', signup_turn hash crc32 userID salt true su a = Ok (su', a') /\
    signUpQueue su' = rest /\ emailVerified su' = emailVerified su /\
    a' = (AddUserRecord u a).2 /\ (new_to u (user_store_ a) -> FindByEmail (cstr (email u)) (user_store_ a') = Some u) /\
    forall us, LoadUsersFromDatabase (initStorage true true (flushAndClose (db su'))) us =
      let! us' := LoadUsersFromDatabase (db su) us in Ok (Insert u us').2.
Proof.
  intros u Ht Hq Hpw Hh Hu Hn He Hk Hc.
  pose proof (parse_db_line userID hashed h s Hu Hn He Hh) as Hp. set (r := build_record _ _ _ _ _ _ _) in Hp.
  assert (Hid : rec_user_id r = safeCopyBytes userID 16).
  { unfold rec_user_id, r, build_record. apply slice_prefix. by rewrite length_safeCopyBytes. }
  pose proof (write_spec crc32 _ L (db su) r Ht Hp ltac:(by rewrite Hid)) as Hw. rewrite Hid, decide_False in Hw by done.
  destruct Hw as (t & Hw & Ht' & _ & _). unfold signup_turn. rewrite Hq, Hpw. cbn [set_signUpQueue db]. rewrite Hw. cbn [obind].
  do 2 eexists. split; [done|]. cbn [set_db set_signUpQueue signUpQueue emailVerified db]. split_and!; try done.
  { rewrite AddUserRecord_store. apply inserted_found. }
  intros us.
  assert (Hre : table_of (L ++ [with_checksum crc32 r]) (initStorage true true (flushAndClose t))).
  { pose proof Ht' as [Hm Hcnt _ Hg _ _]. destruct (opened_table _ 0 Hg) as [Ho _]. cbn [replicate] in Ho. rewrite app_nil_r in Ho.
    unfold flushAndClose. rewrite Hm, Hcnt. cbn [from_option]. unfold id. by rewrite take_app_length' by (by rewrite length_fmap). }
  rewrite (load_of _ _ us Hre), (load_of _ _ us Ht). cbn [obind].
  rewrite list.filter_app, fold_left_app, filter_cons_True by (by apply (fresh_flag crc32 (db_line hash userID hashed s))).
  cbn [filter list_filter fold_left]. unfold r. by rewrite (user_of_built _ _ _ _ _ hashed Hh).
Qed.
End SigningUp.

(** ** Evaluation *)

(** A user name of two words moves every later field of the record by one: the second
    word becomes the password hash and the hash becomes the e-mail. *)
Example spaced_username_shifts_record :
  exists r, parseInput (db_line (fun _ => 42) (str "123456789") (str "HASH") (mkSignup (str "ada@example.org") (str "+1") (str "ada l") (str "pw") [])) = Some r /\
    cstr (rec_username r) = str "ada" /\ cstr (rec_password_hash r) = str "l" /\ cstr (rec_email r) = str "HASH".
Proof. eexists. split; [reflexivity|]. split_and!; vm_compute; reflexivity. Qed.

(** Libsodium with a hash that is a C string in an array of 128 bytes. *)
Definition array_sodium : Sodium := {|
  crypto_auth := @crypto_auth sample_sodium;
  crypto_auth_verify := @crypto_auth_verify sample_sodium;
  crypto_pwhash_str pw salt := Some (str "$argon2id$" ++ pw ++ zeros (118 - length pw));
  crypto_pwhash_str_verify h pw := bool_decide (h = str "$argon2id$" ++ pw ++ zeros (118 - length pw));
  sodium_bin2hex := @sodium_bin2hex sample_sodium
|}.

Definition sample_signup : signupState := mkSignup (str "ada@example.org") (str "+15550100") (str "ada") (str "pw") (str "100id").
Definition waiting : SignUp := mkSignUp [str "ada@example.org"] [sample_signup] ∅ ∅ ∅ (initStorage true true []).

Lemma signup_persists_witness :
  exists su' a', signup_turn (N := array_sodium) (fun _ => 42) sample_crc (str "123456789") [] true waiting (mkAuth (mkUsers ∅ ∅ ∅) ∅ [] [] 1) = Ok (su', a') /\
    is_Some (FindByEmail (str "ada@example.org") (user_store_ a')) /\
    exists us, LoadUsersFromDatabase (N := array_sodium) (initStorage true true (flushAndClose (db su'))) (mkUsers ∅ ∅ ∅) = Ok us /\
      email_verified <$> FindByEmail (str "ada@example.org") us = Some true.
Proof.
  destruct (signup_persists (N := array_sodium) (fun _ => 42) sample_crc (str "123456789") [] (str "$argon2id$pw" ++ zeros 116)
    (str "$argon2id$pw") sample_signup [] waiting (mkAuth (mkUsers ∅ ∅ ∅) ∅ [] [] 1) []) as (su' & a' & Hrun & _ & _ & _ & Hfound & Hload).
  - exact empty_table.
  - reflexivity.
  - reflexivity.
  - split_and!; [reflexivity|cbn; lia|split; [done|reflexivity]|apply (bool_decide_unpack _); vm_compute; exact I].
  - split; [done|reflexivity].
  - split; [done|reflexivity].
  - split; [done|reflexivity].
  - vm_compute. congruence.
  - apply (bool_decide_unpack _). vm_compute. exact I.
  - exists su', a'. split; [exact Hrun|].
    split; [eexists; apply Hfound; split; vm_compute; reflexivity|]. eexists. split; [apply Hload|]. vm_compute. reflexivity.
Defined.

(** The password "1234" was sent to Ada, whose session is that of [one_connection]. *)
Definition ada : bstr := str "ada@example.org".
Definition sample_hash (s : bstr) : Z := le_combine s.
Definition sent : SignUp := otp_turn sample_hash 1000 (str "1234") waiting.

Lemma otp_packet_sound g : (length g <= 100)%nat -> sound (C := compute_soft) (OtpVerification ada g).
Proof.
  intros Hg. split_and!; [constructor|exact I|]. unfold fits. cbn [payload]. rewrite !length_app, !length_be.
  pose proof sizeof_data_Z. change (length ada) with 15%nat. unfold HEADER_SIZE. lia.
Qed.

(** A packet with a guess, in some state of the network. *)
Lemma guess_arrives g :
  (length g <= 100)%nat -> exists p pkt se st B E D,
    chat_ok st B E D 6 /\ received_packet p pkt B st /\ read_OtpVerify pkt = Ok (ada, g) /\ deref (registry st.2) (Some 0%nat) = Ok se.
Proof.
  intros Hg. destruct (fresh_chat one_connection 6) as (st & Hok & _ & Hr & _); [eapply reg_history_inv, first_connection_history|lia|].
  destruct (arrive_ok _ st ∅ ∅ ∅ 6 Hok ltac:(rewrite size_empty; pose proof currentSize_Z; lia) (otp_packet_sound g Hg))
    as (p & pkt & st1 & Ha & _ & Hok1 & Hrp & Hrec & _ & _ & _ & Hr1 & _).
  destruct one_connection_session as [se Hse].
  exists p, pkt, se, st1, ({[p]} ∪ ∅), ({[p]} ∪ ∅), ∅. split_and!; [done|done|exact Hrec|].
  rewrite Hr1, Hr. by eapply deref_registered.
Qed.

Lemma guess_possible g su : (length g <= 100)%nat -> exists su', guess (C := compute_soft) sample_hash ada g su su'.
Proof.
  intros Hg. destruct (guess_arrives g Hg) as (p & pkt & se & st & B & E & D & Hok & Hrp & Hrec & Hd).
  destruct (otp_verification_spec (C := compute_soft) sample_hash 1100 p 0 pkt ada g se su st B E D 5 Hok Hrp Hrec Hd)
    as (routed & st' & B' & E' & D' & Hrun & _).
  eexists. exists 1100, p, 0%nat, pkt, se, st, B, E, D, 5%nat, st'. by split_and!.
Qed.

Lemma wrong_possible n su : exists su', wrong_guesses (C := compute_soft) sample_hash ada (str "1234") n su su'.
Proof.
  induction n as [|n [su' IH]]; [by eexists; constructor|].
  destruct (guess_possible (str "9") su') as [su'' H]; [cbn; lia|]. exists su''. econstructor; [exact IH| |exact H].
  vm_compute. congruence.
Qed.

Lemma otp_verification_answers_witness :
  exists p routed st st', onOtpVerificationRequest (C := compute_soft) sample_hash 1100 p 0 sent st
    = Ok (verified_result sample_hash 1100 ada (str "1234") routed sent, st').
Proof.
  destruct (guess_arrives (str "1234")) as (p & pkt & se & st & B & E & D & Hok & Hrp & Hrec & Hd); [cbn; lia|].
  destruct (otp_verification_answers (C := compute_soft) sample_hash 1100 p 0 pkt ada (str "1234") se sent st B E D 5 Hok Hrp Hrec Hd)
    as (routed & st' & B' & E' & D' & Hrun & _).
  exists p, routed, st, st'. exact Hrun.
Defined.

Lemma otp_five_guesses_witness :
  exists su1 su2, wrong_guesses (C := compute_soft) sample_hash ada (str "1234") 5 sent su1 /\
    guess (C := compute_soft) sample_hash ada (str "1234") su1 su2 /\ isVerified ada su2 = false.
Proof.
  destruct (wrong_possible 5 sent) as [su1 Hw]. destruct (guess_possible (str "1234") su1) as [su2 Hg]; [cbn; lia|].
  exists su1, su2. split; [exact Hw|]. split; [exact Hg|].
  destruct (otp_five_guesses (C := compute_soft) sample_hash 1000 (str "1234") ada [] 5 (str "1234") waiting su1 su2) as [Hv _].
  - reflexivity.
  - lia.
  - exact Hw.
  - exact Hg.
  - rewrite Hv. reflexivity.
Defined.
