(* ===== verification/Shape.v ===== *)
(** The shape of the server's memory under any input: packet pool, I/O contexts and send
    queues, as every operation on them keeps it when it returns.

    The invariants [net_ok] and [chat_ok] of Network.v and Delivery.v say when an operation
    returns, for packets that are what they should be.  Here nothing is assumed about the
    contents of packets: what is kept is that the lists of free objects are right and that
    every pointer to a packet is one that the pool handed out. *)

From S2P Require Import Prelude Crc32c Packet Serialize CircularBuffer Fqueue PacketPool Framing Session Groups Offline Network AuthStore Auth Delivery GroupChat FileTransfer Table SignUp.

(** ** The packet pool without the contents *)

Definition bare (p : Packet) : Packet := set_pkt_id (pkt_id p) new_packet.

Definition skeleton (pp : PacketPool) : PacketPool :=
  mkPool (bare <$> pool pp) (availableIdx pp) (inUse pp) (currentPacketUse pp) (peak pp).

Definition keeps_id (f : Packet -> Packet) : Prop := forall p, pkt_id (f p) = pkt_id p.

Lemma skeleton_new : skeleton new_pool = new_pool.
Proof. unfold skeleton, new_pool. cbn [pool availableIdx inUse currentPacketUse peak]. by rewrite fmap_replicate. Qed.

Lemma skeleton_write ptr f pp : keeps_id f -> skeleton (write_packet ptr f pp) = skeleton pp.
Proof.
  intros Hf. unfold skeleton, write_packet. cbn [pool availableIdx inUse currentPacketUse peak]. f_equal.
  apply list_eq. intros i. rewrite !list_lookup_fmap. destruct (decide (i = ptr)) as [->|Hne].
  - rewrite list_lookup_alter_eq. destruct (pool pp !! ptr) as [p|]; [|done]. cbn. unfold bare. by rewrite Hf.
  - by rewrite list_lookup_alter_ne.
Qed.

Lemma skeleton_borrow pp o pp' : borrowPacket pp = Ok (o, pp') -> borrowPacket (skeleton pp) = Ok (o, skeleton pp').
Proof.
  unfold borrowPacket. cbn [skeleton availableIdx inUse]. destruct (availableIdx pp) as [|i l]; [by intros [= <- <-]|].
  destruct (borrow_loop (inUse pp) (i :: l)) as [[id rest]| |]; cbn [obind]; try done.
  destruct (currentSize <=? id)%nat; [done|]. intros [= <- <-]. cbn [skeleton pool currentPacketUse peak]. do 3 f_equal.
  unfold skeleton. cbn [pool availableIdx inUse currentPacketUse peak]. f_equal. apply list_eq. intros j. rewrite list_lookup_fmap.
  destruct (decide (j = id)) as [->|Hne].
  - rewrite !list_lookup_alter_eq, list_lookup_fmap. by destruct (pool pp !! id).
  - by rewrite !list_lookup_alter_ne, list_lookup_fmap.
Qed.

Lemma skeleton_return p pp pp' : returnPacket (Some p) pp = Ok pp' -> returnPacket (Some p) (skeleton pp) = Ok (skeleton pp').
Proof.
  cbn [returnPacket skeleton pool]. rewrite list_lookup_fmap. destruct (pool pp !! p) as [pkt|]; [|done]. cbn [fmap option_fmap option_map].
  change (pkt_id (bare pkt)) with (pkt_id pkt). destruct (currentSize <=? pkt_id pkt)%nat; [by intros [= <-]|].
  cbn [skeleton inUse availableIdx currentPacketUse peak]. assert (Hs : <[p := scrub (bare pkt)]> (bare <$> pool pp) = bare <$> <[p := scrub pkt]> (pool pp)) by by rewrite list_fmap_insert.
  rewrite Hs. destruct (inUse pp !! pkt_id pkt) as [[|]|]; [..|done]; intros [= <-]; reflexivity.
Qed.

(** ** The invariant *)

(** The contexts are numbered, and those of sends refer to packets in [E]. *)
Record io_shape (ip : IOContextPool) (E : gset nat) : Prop := mkIoShape {
  ios_len : length (io_pool ip) = io_maxSize;
  ios_ids : forall i d, io_pool ip !! i = Some d -> io_id d = i;
  ios_packets : forall i d p, io_pool ip !! i = Some d -> io_packet d = Some p -> p ∈ E
}.

(** [E0] is a set of packets that the pool has handed out at some time. *)
Definition mem_ok (E0 : gset nat) (st : @State Net) : Prop :=
  exists B E, E0 ⊆ E /\ pool_inv (skeleton (packets st.2)) B E /\ io_shape (io st.2) E /\
    forall id cq it, st.1 !! id = Some cq -> it ∈ cqueue cq -> packet it ∈ E.

Lemma in_new (p : nat) (E0 : gset nat) : p ∈ {[p]} ∪ E0.
Proof. set_solver. Qed.

Lemma mem_ok_weaken E0 E1 st : E1 ⊆ E0 -> mem_ok E0 st -> mem_ok E1 st.
Proof. intros Hs (B & E & HE & H). exists B, E. split; [set_solver|done]. Qed.

(** An operation that leaves the sessions alone. *)
Definition quiet (E0 : gset nat) (st st' : @State Net) : Prop := mem_ok E0 st' /\ registry st'.2 = registry st.2.

Lemma quiet_refl E0 st : mem_ok E0 st -> quiet E0 st st.
Proof. done. Qed.

Lemma quiet_trans E0 st1 st2 st3 : quiet E0 st1 st2 -> quiet E0 st2 st3 -> quiet E0 st1 st3.
Proof. intros [_ H1] [H2 H3]. split; [done|congruence]. Qed.

Lemma quiet_weaken E0 E1 st st' : E1 ⊆ E0 -> quiet E0 st st' -> quiet E1 st st'.
Proof. intros Hs [H ?]. split; [by eapply mem_ok_weaken|done]. Qed.

Lemma mem_write E0 q n p f : keeps_id f -> mem_ok E0 (q, n) -> mem_ok E0 (q, set_packets (write_packet p f (packets n)) n).
Proof. intros Hf (B & E & HE & Hp & H). exists B, E. cbn [fst snd set_packets packets io] in *. by rewrite skeleton_write. Qed.

Lemma mem_borrow E0 q n p pp :
  mem_ok E0 (q, n) -> borrowPacket (packets n) = Ok (Some p, pp) -> mem_ok ({[p]} ∪ E0) (q, set_packets pp n).
Proof.
  intros (B & E & HE & Hp & Hio & Hq) Hb. apply skeleton_borrow in Hb. cbn [fst snd] in *.
  destruct (borrow_inv _ _ _ Hp) as [[_ Hn]|(id & pp' & pk & Hb' & _ & _ & _ & _ & Hi)]; rewrite Hb in *; [done|].
  apply Ok_pair_inj in Hb' as [[= <-] <-]. exists ({[p]} ∪ B), ({[p]} ∪ E). cbn [fst snd set_packets packets io]. split_and!.
  - set_solver.
  - exact Hi.
  - destruct Hio as [H1 H2 H3]. constructor; [done|done|]. intros i d p' Hd Hp'. apply elem_of_union_r. by eapply H3.
  - intros id cq it Hl Hit. apply elem_of_union_r. by eapply Hq.
Qed.

Lemma mem_borrow_none E0 q n pp : mem_ok E0 (q, n) -> borrowPacket (packets n) = Ok (None, pp) -> mem_ok E0 (q, set_packets pp n).
Proof.
  intros Hm Hb. assert (pp = packets n) as ->.
  { unfold borrowPacket in Hb. destruct (availableIdx (packets n)); [by injection Hb|].
    destruct (borrow_loop _ _) as [[? ?]| |]; cbn [obind] in Hb; try done. by destruct (_ <=? _)%nat. }
  by destruct n.
Qed.

Lemma mem_give_back E0 q n p n' : mem_ok E0 (q, n) -> p ∈ E0 -> give_back p n = Ok n' -> quiet E0 (q, n) (q, n').
Proof.
  intros (B & E & HE & Hp & H) Hin Hg. unfold give_back in Hg. destruct (returnPacket (Some p) (packets n)) as [pp| |] eqn:Hr; cbn [obind] in Hg; try done.
  injection Hg as <-. split; [|done]. apply skeleton_return in Hr. destruct (return_inv _ _ _ p Hp) as (pp' & Hr' & Hi); [set_solver|].
  cbn [fst snd] in *. rewrite Hr in Hr'. injection Hr' as <-. by exists (B ∖ {[p]}), E.
Qed.

(** ** Sending *)

Lemma io_shape_mono ip E E' : E ⊆ E' -> io_shape ip E -> io_shape ip E'.
Proof. intros Hs [H1 H2 H3]. constructor; [done|done|]. intros i d p Hd Hp. by eapply Hs, H3. Qed.

Lemma io_shape_borrow ip E : io_shape ip E -> io_shape (borrowIOPdata ip).2 E.
Proof. intros []. unfold borrowIOPdata. destruct (pop (io_free ip)) as [q [z|]]; [destruct (_ <=? _)|]; by constructor. Qed.

Lemma io_shape_write ip E i d : io_shape ip E -> io_id d = i -> (forall p, io_packet d = Some p -> p ∈ E) -> io_shape (write_io i d ip) E.
Proof.
  intros [H1 H2 H3] Hid Hp. constructor; cbn [write_io io_pool].
  - by rewrite length_insert.
  - intros j dj Hj. apply list_lookup_insert_Some in Hj as [(-> & <- & _)|[_ Hj]]; [done|by apply H2].
  - intros j dj p Hj. apply list_lookup_insert_Some in Hj as [(-> & <- & _)|[_ Hj]]; [apply Hp|by eapply H3].
Qed.

Lemma io_shape_return ip E i ip' : io_shape ip E -> returnIOPdata (Some i) ip = Ok ip' -> io_shape ip' E.
Proof.
  intros Hs Hr. cbn [returnIOPdata] in Hr. destruct (io_pool ip !! i) as [d|] eqn:Hd; [|done].
  destruct (_ <=? _)%nat; [by injection Hr as <-|]. injection Hr as <-.
  destruct (io_shape_write ip E i (mkIo (buf_off d) (buf_len d) (operationType d) None 0 0 (io_id d)) Hs) as [H1 H2 H3];
    [exact (ios_ids _ _ Hs _ _ Hd)|done|by constructor].
Qed.

Lemma mem_io E0 q n ip l l' l'' :
  mem_ok E0 (q, n) -> (forall E, E0 ⊆ E -> io_shape (io n) E -> io_shape ip E) -> mem_ok E0 (q, mkNet ip (packets n) (registry n) l l' l'').
Proof. intros (B & E & HE & Hp & Hio & Hq) Hi. exists B, E. split_and!; try done. by apply Hi. Qed.

Lemma initiate_send_quiet E0 q sk p n b n' :
  mem_ok E0 (q, n) -> p ∈ E0 -> initiate_send sk p n = Ok (b, n') -> quiet E0 (q, n) (q, n').
Proof.
  intros Hm Hp H. unfold initiate_send in H. destruct (borrowIOPdata (io n)) as [[ptr|] ip] eqn:Hb; [|done].
  destruct (pool (packets n) !! p) as [pkt|]; [|done]. destruct (io_pool ip !! ptr) as [d|] eqn:Hd; [|done].
  destruct (_ <? _); [done|]. set (ip' := write_io ptr _ ip) in H.
  assert (Hio : forall E, E0 ⊆ E -> io_shape (io n) E -> io_shape ip' E).
  { intros E HE Hs. apply io_shape_borrow in Hs. rewrite Hb in Hs. apply io_shape_write; [done|exact (ios_ids _ _ Hs _ _ Hd)|].
    intros p' [= <-]. by apply HE. }
  assert (Hf : forall b1 b2 b3, keeps_id (fun pkt => set_sentFail b1 (set_sent b2 (set_sending b3 pkt)))) by done.
  destruct (answer n).
  - apply Ok_pair_inj in H as [_ <-]. split; [|done].
    by apply (mem_io E0 q (set_packets _ n)); [apply mem_write; [apply Hf|done]|].
  - returned H. apply Ok_pair_inj in H as [_ <-]. split; [|done].
    apply (mem_io E0 q (set_packets _ n)); [apply mem_write; [apply Hf|done]|].
    intros E' HE Hs. eapply io_shape_return; [|exact E]. by apply Hio.
Qed.

Lemma sendPacket_quiet E0 q se p sk n b n' :
  mem_ok E0 (q, n) -> p ∈ E0 -> sendPacket se p sk n = Ok (b, n') -> quiet E0 (q, n) (q, n').
Proof. intros Hm Hp. unfold sendPacket. destruct (iocp se); [by apply initiate_send_quiet|]. by intros [_ <-]%Ok_pair_inj. Qed.

Lemma route_packet_quiet E0 q p id n b n' :
  mem_ok E0 (q, n) -> p ∈ E0 -> route_packet p id n = Ok (b, n') -> quiet E0 (q, n) (q, n').
Proof.
  intros Hm Hp H. unfold route_packet in H. case_decide; [by apply Ok_pair_inj in H as [_ <-]|].
  destruct (findSession id (registry n)) as [ptr|]; [|by apply Ok_pair_inj in H as [_ <-]]. returned H. by eapply sendPacket_quiet.
Qed.

Lemma postRecv_quiet E0 q sk n b n' : mem_ok E0 (q, n) -> postRecv sk n = Ok (b, n') -> quiet E0 (q, n) (q, n').
Proof.
  intros Hm H. unfold postRecv in H. destruct (borrowIOPdata (io n)) as [[ptr|] ip] eqn:Hb; [|done].
  destruct (io_pool ip !! ptr) as [d|] eqn:Hd; [|done]. set (ip' := write_io ptr _ ip) in H.
  assert (Hio : forall E, E0 ⊆ E -> io_shape (io n) E -> io_shape ip' E).
  { intros E HE Hs. apply io_shape_borrow in Hs. rewrite Hb in Hs. apply io_shape_write; [done|exact (ios_ids _ _ Hs _ _ Hd)|done]. }
  destruct (answer n).
  - apply Ok_pair_inj in H as [_ <-]. split; [|done]. by apply (mem_io E0 q n).
  - returned H. apply Ok_pair_inj in H as [_ <-]. split; [|done]. apply (mem_io E0 q n); [done|].
    intros E' HE Hs. eapply io_shape_return; [|exact E]. by apply Hio.
Qed.

(** ** The queues *)

Lemma mem_queue E0 st id cq :
  mem_ok E0 st -> (forall E it, E0 ⊆ E -> (forall cq' it', st.1 !! id = Some cq' -> it' ∈ cqueue cq' -> packet it' ∈ E) ->
    it ∈ cqueue cq -> packet it ∈ E) -> mem_ok E0 (<[id := cq]> st.1, st.2).
Proof.
  intros (B & E & HE & Hp & Hio & Hq) Hcq. exists B, E. split_and!; try done. cbn [fst].
  intros id' cq' it Hl Hit. apply lookup_insert_Some in Hl as [[<- <-]|[_ Hl]]; [|by eapply Hq]. apply (Hcq E); [done| |done]. intros. by eapply Hq.
Qed.

(** What the queues of [id] hold is known to be from the pool. *)
Lemma mem_known E0 st id cq : mem_ok E0 st -> st.1 !! id = Some cq -> mem_ok (list_to_set (packet <$> cqueue cq) ∪ E0) st.
Proof.
  intros (B & E & HE & Hp & Hio & Hq) Hl. exists B, E. split; [|done]. intros p. rewrite elem_of_union, elem_of_list_to_set, list_elem_of_fmap.
  intros [(it & -> & Hit)|?]; [by eapply Hq|by apply HE].
Qed.

Lemma send_front_quiet E0 id cq st st' :
  mem_ok E0 st -> (forall it, it ∈ cqueue cq -> packet it ∈ E0) -> send_front id cq st = Ok st' -> quiet E0 st st'.
Proof.
  intros Hm Hcq H. unfold send_front in H. destruct (cqueue cq) as [|front rest] eqn:Hc; [done|]. destruct st as [q n]. cbn [fst snd] in *.
  returned H. injection H as <-. destruct (route_packet_quiet E0 q (packet front) id n b n0 Hm) as [Hm' Hr]; [apply Hcq; left|exact E|].
  split; [|exact Hr]. apply (mem_queue E0 (q, n0)); [done|]. intros E' it HE _ Hit. apply HE, Hcq. rewrite <- Hc. by destruct b.
Qed.

Lemma claim_items cq : cqueue (cq_claim cq).2 = cqueue cq.
Proof. unfold cq_claim. by destruct (flag cq). Qed.

(** Whoever gets the flag sends the front of the queue. *)
Lemma claim_quiet E0 id cq st st' :
  mem_ok (list_to_set (packet <$> cqueue cq) ∪ E0) st ->
  (let (owner, cq) := cq_claim cq in if owner : bool then send_front id cq st else Ok (<[id := cq]> st.1, st.2)) = Ok st' -> quiet E0 st st'.
Proof.
  intros Hm H. pose proof (claim_items cq) as Hci. destruct (cq_claim cq) as [owner cq']. cbn [snd] in Hci.
  assert (Hin : forall it, it ∈ cqueue cq' -> packet it ∈ (list_to_set (packet <$> cqueue cq) ∪ E0 : gset nat)).
  { intros it Hit. rewrite Hci in Hit. apply elem_of_union_l, elem_of_list_to_set, list_elem_of_fmap. by exists it. }
  apply (quiet_weaken (list_to_set (packet <$> cqueue cq) ∪ E0)); [set_solver|]. destruct owner.
  - by eapply send_front_quiet.
  - injection H as <-. split; [|done]. apply (mem_queue _ st); [done|]. intros E it HE _ Hit. by apply HE, Hin.
Qed.

Lemma ManageCompletePacket_quiet E0 p id st st' :
  mem_ok E0 st -> p ∈ E0 -> ManageCompletePacket p id st = Ok st' -> quiet E0 st st'.
Proof.
  intros Hm Hp H. eapply claim_quiet; [|exact H]. unfold cq_push. cbn [cqueue]. rewrite fmap_app, list_to_set_app_L.
  destruct (st.1 !! id) as [c|] eqn:Hl; cbn [default cqueue].
  - eapply mem_ok_weaken, (mem_known E0 st id c Hm Hl). cbn. set_solver.
  - eapply mem_ok_weaken, Hm. cbn. set_solver.
Qed.

Lemma notifySend_quiet E0 id st st' : mem_ok E0 st -> notifySend id st = Ok st' -> quiet E0 st st'.
Proof.
  intros Hm H. unfold notifySend in H. destruct (st.1 !! id) as [cq|] eqn:Hl; [|by injection H as <-].
  destruct (negb (cq_empty cq)); [|by injection H as <-]. eapply claim_quiet; [|exact H]. by apply (mem_known _ _ id).
Qed.

Lemma drainNext_quiet E0 id sk st st' : mem_ok E0 st -> drainNext id sk st = Ok st' -> quiet E0 st st'.
Proof.
  intros Hm H. unfold drainNext in H. destruct (st.1 !! id) as [cq|] eqn:Hl; [|by injection H as <-].
  pose proof (mem_known E0 st id cq Hm Hl) as Hm1. apply (quiet_weaken (list_to_set (packet <$> cqueue cq) ∪ E0)); [set_solver|].
  set (cq1 := if negb (cq_empty cq) then cq_pop cq else cq) in H.
  assert (Hin : forall it, it ∈ cqueue cq1 -> packet it ∈ (list_to_set (packet <$> cqueue cq) ∪ E0 : gset nat)).
  { intros it Hit. apply elem_of_union_l, elem_of_list_to_set, list_elem_of_fmap. exists it. split; [done|].
    unfold cq1, cq_pop in Hit. destruct (negb (cq_empty cq)); [|done]. cbn [cqueue] in Hit.
    destruct (cqueue cq); [done|by apply list_elem_of_further]. }
  destruct (negb (cq_empty cq1)).
  - destruct (cqueue cq1) as [|next rest] eqn:Hc; [done|]. destruct st as [q n]. cbn [fst snd] in *. returned H. injection H as <-.
    destruct (initiate_send_quiet _ q sk (packet next) n b n0 Hm1) as [Hm' Hr]; [apply Hin; left|exact E|].
    split; [|exact Hr]. apply (mem_queue _ (q, n0)); [done|]. intros E' it HE _ Hit. apply HE, Hin. rewrite <- Hc. by destruct b.
  - injection H as <-. split; [|done]. apply (mem_queue _ st); [done|]. intros E it HE _ Hit. by apply HE, Hin.
Qed.

Lemma clearFlag_quiet E0 id st : mem_ok E0 st -> quiet E0 st (clearFlag id st).
Proof.
  intros Hm. unfold clearFlag. destruct (st.1 !! id) as [cq|] eqn:Hl; [|done]. split; [|done].
  apply (mem_queue _ st); [done|]. intros E it HE Hq Hit. by eapply Hq.
Qed.

(** ** What the handlers share *)

Lemma take_packet_quiet {A} E0 (read : Packet -> outcome A) p st a st' :
  mem_ok E0 st -> p ∈ E0 -> take_packet read p st = Ok (a, st') -> quiet E0 st st'.
Proof.
  intros Hm Hp H. unfold take_packet in H. destruct st as [q n]. cbn [fst snd] in *.
  destruct (pool (packets n) !! p) as [pkt|]; [|done]. returned H. apply Ok_pair_inj in H as [_ <-]. by eapply mem_give_back.
Qed.

Section WithChecksum.
Context {C : Checksum}.

(** A serializer keeps the number of its packet. *)
Lemma send_keeps_id m : keeps_id (fun p => (send m p).2).
Proof.
  assert (Hfold : forall l q, pkt_id (fold_left (fun p chunk => append (le_split 4 (htonl chunk)) p) l q) = pkt_id q).
  { intros l. induction l as [|c l IH]; intros q; [done|]. cbn [fold_left]. by rewrite IH. }
  intros p. destruct m; cbn [send];
    unfold serialize, serializeFileStart, serializeFileStartResponse, serializeFileChunk, serializeRoundEnd, serializeFileAck,
      serializeFileEnd, serializeLink, serializeDownloadReq, serializeLogin, serializeOtpRequest, serializeOtpVerification,
      serializeSignup, serializeUserId, serializeToken, serializeString, serializeRaw, finalizePacket;
    cbv zeta; repeat case_match; try reflexivity.
  all: exact (Hfold _ _).
Qed.

Lemma deliver_quiet E0 m id st st' : mem_ok E0 st -> deliver m id st = Ok st' -> quiet E0 st st'.
Proof.
  intros Hm H. unfold deliver in H. destruct st as [q n]. cbn [fst snd] in *. 
  destruct (borrowPacket (packets n)) as [[[p|] pp]| |] eqn:Hb; try done. cbn [obind] in H.
  pose proof (mem_borrow E0 q n p pp Hm Hb) as Hm1. apply (mem_write _ _ _ p _ (send_keeps_id m)) in Hm1.
  apply (quiet_weaken ({[p]} ∪ E0)); [set_solver|]. by destruct (ManageCompletePacket_quiet _ _ _ _ _ Hm1 (in_new _ _) H) as [H1 H2].
Qed.

Lemma deliver_all_quiet E0 ms id : forall st st', mem_ok E0 st -> deliver_all ms id st = Ok st' -> quiet E0 st st'.
Proof.
  induction ms as [|m ms IH]; intros st st' Hm H; cbn [deliver_all] in H; [by injection H as <-|]. returned H.
  pose proof (deliver_quiet _ _ _ _ _ Hm E) as H1. eapply quiet_trans; [exact H1|]. apply IH; [apply H1|done].
Qed.

Lemma respond_quiet E0 q ptr fill n n' : keeps_id fill -> mem_ok E0 (q, n) -> respond ptr fill n = Ok n' -> quiet E0 (q, n) (q, n').
Proof.
  intros Hf Hm H. unfold respond in H. destruct (deref (registry n) (Some ptr)) as [se| |]; try done. cbn [obind] in H.
  destruct (negb (iocp se)); [by injection H as <-|].
  destruct (borrowPacket (packets n)) as [[[p|] pp]| |] eqn:Hb; try done; cbn [obind] in H; [|injection H as <-; split; [by eapply mem_borrow_none|done]].
  pose proof (mem_borrow E0 q n p pp Hm Hb) as Hm1. apply (mem_write _ _ _ p (fun p => set_bypassQueue true (fill p))) in Hm1; [|exact Hf].
  apply (quiet_weaken ({[p]} ∪ E0)); [set_solver|]. returned H.
  destruct (sendPacket_quiet _ _ _ _ _ _ _ _ Hm1 (in_new _ _) E) as [Hm2 Hr2].
  destruct b; cbn [negb] in H; [by injection H as <-|].
  destruct (mem_give_back _ _ _ _ _ Hm2 (in_new _ _) H) as [Hm3 Hr3]. split; [done|]. cbn [snd] in *. by rewrite Hr3, Hr2.
Qed.

Lemma notify_quiet E0 m id st b st' : mem_ok E0 st -> notify m id st = Ok (b, st') -> quiet E0 st st'.
Proof.
  intros Hm H. unfold notify in H. destruct st as [q n]. cbn [fst snd] in *.
  destruct (borrowPacket (packets n)) as [[[p|] pp]| |] eqn:Hb; try done. cbn [obind] in H.
  pose proof (mem_borrow E0 q n p pp Hm Hb) as Hm1.
  apply (mem_write _ _ _ p (fun pkt => (send m (set_bypassQueue true pkt)).2)) in Hm1; [|intros x; exact (send_keeps_id m _)].
  apply (quiet_weaken ({[p]} ∪ E0)); [set_solver|].
  destruct (route_packet p id _) as [[routed n1]| |] eqn:Hro; try done. cbn [obind] in H.
  destruct (route_packet_quiet _ _ _ _ _ _ _ Hm1 (in_new _ _) Hro) as [Hm2 Hr2].
  destruct routed; cbn [negb] in H; returned H; apply Ok_pair_inj in H as [_ <-].
  - injection E as <-. by split.
  - destruct (mem_give_back _ _ _ _ _ Hm2 (in_new _ _) E) as [Hm3 Hr3]. split; [done|]. cbn [snd] in *. by rewrite Hr3, Hr2.
Qed.
End WithChecksum.

Lemma send_members_quiet E0 ms sender p : forall st b st',
  mem_ok E0 st -> send_members ms sender p st = Ok (b, st') -> quiet E0 st st'.
Proof.
  induction ms as [|m ms IH]; intros st b st' Hm H; cbn [send_members] in H; [by apply Ok_pair_inj in H as [_ <-]|].
  case_decide; [by eapply IH|]. destruct st as [q n]. cbn [fst snd] in *.
  destruct (borrowPacket (packets n)) as [[[o|] pp]| |] eqn:Hb; try done; cbn [obind] in H.
  - destruct (pool pp !! p) as [src|]; [|done]. destruct (_ <? _); [done|]. returned H.
    pose proof (mem_borrow E0 q n o pp Hm Hb) as Hm1. apply (mem_write _ _ _ o (copy_packet src)) in Hm1; [|done].
    destruct (ManageCompletePacket_quiet _ _ _ _ _ Hm1 (in_new _ _) E) as [Hm2 Hr2].
    apply (mem_ok_weaken _ E0) in Hm2; [|set_solver]. destruct (IH _ _ _ Hm2 H) as [Hm3 Hr3]. split; [done|by rewrite Hr3, Hr2].
  - apply Ok_pair_inj in H as [_ <-]. split; [by eapply mem_borrow_none|done].
Qed.

Lemma routeGroupMessage_quiet {N : Sodium} E0 p gs st st' :
  mem_ok E0 st -> p ∈ E0 -> routeGroupMessage p gs st = Ok st' -> quiet E0 st st'.
Proof.
  intros Hm Hp H. unfold routeGroupMessage in H. destruct (pool _ !! p) as [src|]; [|done].
  destruct (getGroup _ gs) as [g|]; [|by injection H as <-]. returned H. pose proof (send_members_quiet E0 _ _ _ _ _ _ Hm E) as H1.
  destruct b; [|by injection H as <-]. returned H. injection H as <-. eapply quiet_trans; [exact H1|]. destruct s as [q n]. by eapply mem_give_back; [apply H1|..].
Qed.

(** ** The receive path *)

(** The framing loop: it ends, and the packets in the local queue come from the pool. *)
Lemma frame_loop_shape q fuel : forall E0 b n l dis b' pp' l',
  wf b -> mem_ok E0 (q, n) -> Forall (.∈ E0) l ->
  frame_loop fuel b (packets n) l = Some (Ok (dis, b', pp', l')) ->
  wf b' /\ exists E1, E0 ⊆ E1 /\ mem_ok E1 (q, set_packets pp' n) /\ Forall (.∈ E1) l'.
Proof.
  induction fuel as [|fuel IH]; intros E0 b n l dis b' pp' l' Hb Hm Hl H; cbn [frame_loop] in H; [done|].
  assert (Hdone : forall v, Some (Ok (v, b, packets n, l)) = Some (Ok (dis, b', pp', l')) -> wf b' /\ exists E1, E0 ⊆ E1 /\ mem_ok E1 (q, set_packets pp' n) /\ Forall (.∈ E1) l').
  { intros v [= <- <- <- <-]. split; [done|]. exists E0. split; [done|]. split; [by destruct n|done]. }
  destruct (CircularBuffer.size b <? _); [by eapply Hdone|]. destruct (copy _ b) as [hdr|]; [|done].
  destruct (packet_size hdr) as [sz|] eqn:Hsz; [|by eapply Hdone]. destruct (Z.ltb_spec (CircularBuffer.size b) sz); [by eapply Hdone|].
  destruct (borrowPacket (packets n)) as [[[p|] pp]| |] eqn:Hbo; try done.
  - destruct (consume sz b) as [[bytes|] b1] eqn:Hc; [|done]. apply packet_size_bounds in Hsz.
    assert (Hb1 : wf b1).
    { unfold consume in Hc. destruct (_ <? _); [done|]. injection Hc as _ <-. apply retire_contents; [done|lia]. }
    pose proof (mem_borrow E0 q n p pp Hm Hbo) as Hm1. apply (mem_write _ _ _ p (fill bytes)) in Hm1; [|done].
    destruct (IH _ b1 (set_packets (write_packet p (fill bytes) pp) n) (l ++ [p]) dis b' pp' l' Hb1 Hm1) as (Hb' & E1 & HE & Hm2 & Hl2).
    { apply Forall_app. split; [|apply list.Forall_singleton, in_new]. eapply list.Forall_impl; [exact Hl|]. intros x. apply elem_of_union_r. }
    { exact H. }
    split; [done|]. exists E1. split; [|done]. etrans; [apply union_subseteq_r|exact HE].
  - injection H as <- <- <- <-. split; [done|]. exists E0. split; [done|]. split; [by eapply mem_borrow_none|done].
Qed.

Lemma frame_loop_ends fuel : forall b pp l, wf b -> CircularBuffer.size b < 16 * Z.of_nat fuel -> frame_loop fuel b pp l <> None.
Proof.
  induction fuel as [|fuel IH]; intros b pp l Hb Hf; cbn [frame_loop].
  { pose proof (size_range b). lia. }
  destruct (CircularBuffer.size b <? _); [done|]. destruct (copy _ b); [|done]. destruct (packet_size _) as [sz|] eqn:Hsz; [|done].
  apply packet_size_bounds in Hsz. destruct (Z.ltb_spec (CircularBuffer.size b) sz) as [|Hle]; [done|].
  destruct (borrowPacket pp) as [[[p|] pp1]| |]; try done. unfold consume. rewrite (proj2 (Z.ltb_ge _ _)) by done.
  destruct (retire_contents b sz Hb ltac:(lia)) as [Hb1 Hc]. apply IH; [done|].
  pose proof (len_contents b) as H1. rewrite <- len_contents, Hc. unfold len in *. rewrite length_drop. lia.
Qed.

(** What the system can give: no more bytes than there is room for. *)
Definition recv_fits (conn : option ConnectionBuffer) (r : recv_result) : Prop :=
  match conn, r with
  | Some c, RecvBytes bytes => len bytes <= bufs_total (getWriteBuffers (cbuf c))
  | _, _ => True
  end.

Definition conn_wf (conn : option ConnectionBuffer) : Prop := match conn with Some c => wf (cbuf c) | None => True end.

Lemma on_recv_shape E0 q n conn r dis conn' pp' l :
  conn_wf conn -> recv_fits conn r -> mem_ok E0 (q, n) -> on_recv conn r (packets n) = Some (Ok (dis, conn', pp', l)) ->
  conn_wf conn' /\ exists E1, E0 ⊆ E1 /\ mem_ok E1 (q, set_packets pp' n) /\ Forall (.∈ E1) l.
Proof.
  intros Hw Hr Hm H.
  assert (Hsame : forall v c, conn_wf c -> Some (Ok (v, c, packets n, [])) = Some (Ok (dis, conn', pp', l)) ->
    conn_wf conn' /\ exists E1, E0 ⊆ E1 /\ mem_ok E1 (q, set_packets pp' n) /\ Forall (.∈ E1) l).
  { intros v c Hc [= <- <- <- <-]. split; [done|]. exists E0. split; [done|]. split; [by destruct n|done]. }
  unfold on_recv in H. destruct conn as [c|]; [|by eapply Hsame]. destruct (disconnected c); [by eapply Hsame|].
  destruct (_ <? _)%nat; [|by eapply Hsame]. destruct r as [wb|[|x bytes]]; [by eapply Hsame..|].
  cbn [conn_wf recv_fits] in *. rewrite bufs_total_free in Hr by done. destruct (receive_contents (cbuf c) (x :: bytes) Hw Hr) as [Hw1 _].
  destruct (frame_loop _ _ _ _) as [[[[[dis1 b1] pp1] l1]| |]|] eqn:Hf; try done. cbn [obind] in H. injection H as <- <- <- <-.
  destruct (frame_loop_shape q _ _ _ _ _ _ _ _ _ Hw1 Hm (list.Forall_nil_2 _) Hf) as [Hb1 HE]. by split.
Qed.

Lemma on_recv_ends conn r pp : conn_wf conn -> recv_fits conn r -> on_recv conn r pp <> None.
Proof.
  intros Hw Hr. unfold on_recv. destruct conn as [c|]; [|done]. destruct (disconnected c); [done|].
  destruct (_ <? _)%nat; [|done]. destruct r as [wb|[|x bytes]]; [done..|].
  cbn [conn_wf recv_fits] in *. rewrite bufs_total_free in Hr by done. destruct (receive_contents (cbuf c) (x :: bytes) Hw Hr) as [Hw1 _].
  pose proof (frame_loop_ends loop_fuel (receive (x :: bytes) (cbuf c)) pp [] Hw1) as He.
  destruct (frame_loop _ _ _ _); [done|]. intros _. apply He; [|done]. destruct Hw1 as (_ & _ & _ & Hs). unfold loop_fuel, capacity in *. lia.
Qed.
