(* ===== verification/Handlers.v ===== *)
(** What the handlers leave of the server's memory and sessions, for any packet: the
    handlers of filetransfer/FileTransferManager.cpp, filetransfer/FIleDownload.cpp,
    SignUp/SignUp.cpp and authentication/AuthManager.cpp keep the invariants of Shape.v and
    Seats.v whenever they return. *)

From S2P Require Import Prelude Crc32c Packet Serialize CircularBuffer Fqueue PacketPool Framing Session Groups Offline Network AuthStore Auth Delivery GroupChat FileTransfer Table SignUp Shape Seats.

(** ** Calls that keep both invariants *)

Definition calm (E0 : gset nat) (st st' : @State Net) : Prop :=
  mem_ok E0 st' /\
  (seats_ok (registry st.2) -> seats_ok (registry st'.2) /\ forall p, attached p (registry st.2) -> attached p (registry st'.2)).

Lemma quiet_calm E0 st st' : quiet E0 st st' -> calm E0 st st'.
Proof. intros [Hm Hr]. split; [done|]. by rewrite Hr. Qed.

Lemma calm_refl E0 st : mem_ok E0 st -> calm E0 st st.
Proof. intros Hm. apply quiet_calm. by apply quiet_refl. Qed.

Lemma calm_trans E0 st1 st2 st3 : calm E0 st1 st2 -> (mem_ok E0 st2 -> calm E0 st2 st3) -> calm E0 st1 st3.
Proof.
  intros [Hm2 H12] H23. destruct (H23 Hm2) as [Hm3 H3]. split; [done|]. intros Hs. destruct (H12 Hs) as [Hs2 Ha2].
  destruct (H3 Hs2) as [Hs3 Ha3]. split; [done|]. intros p Ha. by apply Ha3, Ha2.
Qed.

Lemma calm_weaken E0 E1 st st' : E1 ⊆ E0 -> calm E0 st st' -> calm E1 st st'.
Proof. intros HE [Hm H]. split; [by eapply mem_ok_weaken|done]. Qed.

Lemma mem_registry E0 (st : @State Net) r : mem_ok E0 st -> mem_ok E0 (st.1, set_registry r st.2).
Proof. done. Qed.

Lemma receiving_calm E0 v id st st' : mem_ok E0 st -> with_registry (setRecievingFile v id) st = Ok st' -> calm E0 st st'.
Proof.
  intros Hm H. unfold with_registry in H. returned H. injection H as <-. split; [by apply mem_registry|].
  intros Hs. by apply (receiving_seats v id).
Qed.

Section Handlers.
Context {C : Checksum} {N : Sodium}.

Lemma take_calm {A} E0 (read : Packet -> outcome A) p st a st' :
  p ∈ E0 -> mem_ok E0 st -> take_packet read p st = Ok (a, st') -> calm E0 st st'.
Proof. intros Hp Hm H. apply quiet_calm. by eapply take_packet_quiet. Qed.

Lemma deliver_calm E0 m id st st' : mem_ok E0 st -> deliver m id st = Ok st' -> calm E0 st st'.
Proof. intros Hm H. apply quiet_calm. by eapply deliver_quiet. Qed.

Lemma notify_calm E0 m id st b st' : mem_ok E0 st -> notify m id st = Ok (b, st') -> calm E0 st st'.
Proof. intros Hm H. apply quiet_calm. by eapply notify_quiet. Qed.
End Handlers.

(** A chain of calls: each is in a hypothesis, in the order of the states. *)
Ltac calm_call :=
  match goal with
  | Hp : ?p ∈ ?E0, Hm : mem_ok ?E0 ?st, H : take_packet _ ?p ?st = Ok (_, _) |- calm ?E0 ?st _ => exact (take_calm _ _ _ _ _ _ Hp Hm H)
  | Hm : mem_ok ?E0 ?st, H : deliver _ _ ?st = Ok _ |- calm ?E0 ?st _ => exact (deliver_calm _ _ _ _ _ Hm H)
  | Hm : mem_ok ?E0 ?st, H : sendAck _ _ _ _ ?st = Ok _ |- calm ?E0 ?st _ => exact (deliver_calm _ _ _ _ _ Hm H)
  | Hm : mem_ok ?E0 ?st, H : sendFileStatus _ _ _ ?st = Ok _ |- calm ?E0 ?st _ => exact (deliver_calm _ _ _ _ _ Hm H)
  | Hm : mem_ok ?E0 ?st, H : SendErrorPacket _ _ _ ?st = Ok _ |- calm ?E0 ?st _ => exact (deliver_calm _ _ _ _ _ Hm H)
  | Hm : mem_ok ?E0 ?st, H : notify _ _ ?st = Ok (_, _) |- calm ?E0 ?st _ => exact (notify_calm _ _ _ _ _ _ Hm H)
  | Hm : mem_ok ?E0 ?st, H : with_registry _ ?st = Ok _ |- calm ?E0 ?st _ => exact (receiving_calm _ _ _ _ _ Hm H)
  end.
Ltac calmly :=
  solve [assumption | repeat first [apply calm_refl; assumption | eapply calm_trans; [calm_call|let Hm := fresh "Hm" in intros Hm]]].

Section FileHandlers.
Context {C : Checksum} {N : Sodium}.

Lemma handleFileStart_calm E0 now opens p sender f st f' st' :
  p ∈ E0 -> mem_ok E0 st -> handleFileStart now opens p sender f st = Ok (f', st') -> calm E0 st st'.
Proof.
  intros Hp Hm H. unfold handleFileStart in H. returned H. case_match; [returned H; injection H as _ <-; calmly|].
  destruct opens; cbn [negb] in H; [|injection H as _ <-; calmly]. returned H. injection H as _ <-. calmly.
Qed.

Lemma handleFileChunk_calm E0 p f st f' st' :
  p ∈ E0 -> mem_ok E0 st -> handleFileChunk p f st = Ok (f', st') -> calm E0 st st'.
Proof.
  intros Hp Hm H. unfold handleFileChunk in H. returned H. case_match; [|injection H as _ <-; calmly]. returned H.
  case_match; injection H as _ <-; calmly.
Qed.

Lemma handleRoundEnd_calm E0 p f st f' st' :
  p ∈ E0 -> mem_ok E0 st -> handleRoundEnd p f st = Ok (f', st') -> calm E0 st st'.
Proof.
  intros Hp Hm H. unfold handleRoundEnd in H. returned H. case_match; [|injection H as _ <-; calmly]. returned H.
  case_match; returned H; injection H as _ <-; calmly.
Qed.

Lemma handleFileEnd_calm E0 now p f st f' st' :
  p ∈ E0 -> mem_ok E0 st -> handleFileEnd now p f st = Ok (f', st') -> calm E0 st st'.
Proof.
  intros Hp Hm H. unfold handleFileEnd in H. returned H. case_match; [|injection H as _ <-; calmly]. returned H. injection H as _ <-. calmly.
Qed.

Lemma onAckReceived_calm E0 p f st f' st' :
  p ∈ E0 -> mem_ok E0 st -> onAckReceived p f st = Ok (f', st') -> calm E0 st st'.
Proof.
  intros Hp Hm H. unfold onAckReceived in H. returned H. case_match; [|injection H as _ <-; calmly]. returned H.
  case_match; injection H as _ <-; calmly.
Qed.

Lemma HandleDownloadRequest_calm E0 p f st j f' st' :
  p ∈ E0 -> mem_ok E0 st -> HandleDownloadRequest p f st = Ok (j, f', st') -> calm E0 st st'.
Proof.
  intros Hp Hm H. unfold HandleDownloadRequest in H. returned H. case_match; [injection H as _ _ <-; calmly|].
  case_match; returned H; injection H as _ _ <-; calmly.
Qed.

Lemma HandleDisconnectRequest_calm E0 p st st' :
  p ∈ E0 -> mem_ok E0 st -> HandleDisconnectRequest p st = Ok st' -> calm E0 st st'.
Proof.
  intros Hp Hm H. unfold HandleDisconnectRequest in H. case_match; [|done]. case_match; [injection H as <-; calmly|]. returned H.
  case_match; [injection H as <-|]; calmly.
Qed.

Lemma send_link_calm E0 gs f st f' st' : mem_ok E0 st -> send_link gs f st = Ok (f', st') -> calm E0 st st'.
Proof.
  intros Hm H. unfold send_link in H. destruct (completedUpload f) as [|ptr rest]; [injection H as _ <-; calmly|]. destruct st as [q n]. cbn [fst snd] in *.
  destruct (borrowPacket (packets n)) as [[[p|] pp]| |] eqn:Hb; try done; cbn [obind] in H. returned H. injection H as _ <-.
  pose proof (mem_borrow E0 q n p pp Hm Hb) as Hm1.
  match type of E1 with context [fun pkt => (send ?m pkt).2] => apply (mem_write _ _ _ p _ (send_keeps_id m)) in Hm1 end.
  apply (calm_weaken ({[p]} ∪ E0)); [set_solver|]. apply quiet_calm. case_match.
  - by destruct (routeGroupMessage_quiet _ _ _ _ _ Hm1 (in_new _ _) E1).
  - by destruct (ManageCompletePacket_quiet _ _ _ _ _ Hm1 (in_new _ _) E1).
Qed.

Lemma drain_links_calm E0 k gs : forall f st f' st', mem_ok E0 st -> drain_links k gs f st = Ok (f', st') -> calm E0 st st'.
Proof.
  induction k as [|k IH]; intros f st f' st' Hm H; cbn [drain_links] in H; [injection H as _ <-; calmly|]. returned H.
  eapply calm_trans; [by eapply send_link_calm|]. intros Hm1. by eapply IH.
Qed.

Lemma HandleFileTransfer_calm E0 j acks f st st' : mem_ok E0 st -> HandleFileTransfer j acks f st = Ok st' -> calm E0 st st'.
Proof.
  intros Hm H. unfold HandleFileTransfer in H. case_match; returned H; [|calmly]. case_match; returned H; [|calmly].
  case_match; [|done]. case_match. returned H. eapply calm_trans; [apply quiet_calm; by eapply deliver_all_quiet|]. intros Hm1.
  case_match; returned H; [calmly|injection H as <-; calmly|calmly].
Qed.

(** ** Registration *)

Lemma otpRequestHandler_calm E0 p ptr su st su' st' :
  p ∈ E0 -> mem_ok E0 st -> otpRequestHandler p ptr su st = Ok (su', st') -> calm E0 st st'.
Proof.
  intros Hp Hm H. unfold otpRequestHandler in H. returned H. case_match; [injection H as _ <-; calmly|].
  case_match; [injection H as _ <-; calmly|]. returned H. injection H as _ <-. calmly.
Qed.

Lemma signUpRequestHandler_calm E0 p ptr su st su' st' :
  p ∈ E0 -> mem_ok E0 st -> signUpRequestHandler p ptr su st = Ok (su', st') -> calm E0 st st'.
Proof.
  intros Hp Hm H. unfold signUpRequestHandler in H. returned H. case_match; returned H; injection H as _ <-; calmly.
Qed.

Lemma onOtpVerificationRequest_calm E0 hash now p ptr su st su' st' :
  p ∈ E0 -> mem_ok E0 st -> onOtpVerificationRequest hash now p ptr su st = Ok (su', st') -> calm E0 st st'.
Proof.
  intros Hp Hm H. unfold onOtpVerificationRequest in H. returned H. case_match; returned H; [|injection H as _ <-; calmly].
  case_match; returned H; [injection H as _ <-; calmly|]. case_match; returned H; injection H as _ <-; calmly.
Qed.
End FileHandlers.

(** ** Authentication *)

(** What an authentication handler may do to the sessions. *)
Definition auth_outcome {N : Sodium} (success : bool) (ptr : nat) (r r' : Registry) : Prop :=
  if success then exists uid ex, length uid = 16%nat /\ r' = update_session (authenticated uid ex) ptr r
  else r' = r \/ r' = update_session unauthenticated ptr r.

Section Auth.
Context {C : Checksum} {N : Sodium} {LN : SodiumLaws N}.

Lemma issue_some key uid now nf : exists r nf', IssueTokenPair key uid now nf = (Some r, nf').
Proof.
  unfold IssueTokenPair. destruct (auth_total key (access_bytes (mkAccess (take 16 uid) now (wrap 64 (now + ACCESS_TOKEN_LIFETIME)) 0))) as [sig ->].
  destruct (auth_total key (refresh_bytes (mkRefresh (take 16 uid) nf 1 (wrap 64 (now + REFRESH_TOKEN_LIFETIME)) 0))) as [sig' ->]. by do 2 eexists.
Qed.

Lemma failure_quiet E0 q ptr reason n n' : mem_ok E0 (q, n) -> SendAuthFailure ptr reason n = Ok n' -> quiet E0 (q, n) (q, n').
Proof. apply respond_quiet. exact (send_keeps_id (StringMsg PKT_AUTH_FAIL reason)). Qed.

Lemma granted_quiet E0 q ptr r n n' : mem_ok E0 (q, n) -> SendTokenGranted ptr r n = Ok n' -> quiet E0 (q, n) (q, n').
Proof. apply respond_quiet. exact (send_keeps_id (grant r)). Qed.

Lemma cache_quiet E0 q ptr uid ex r n n' :
  length uid = 16%nat -> mem_ok E0 (q, n) -> SendTokenGranted ptr r (CacheAuthOnSession ptr uid ex n) = Ok n' ->
  mem_ok E0 (q, n') /\ auth_outcome true ptr (registry n) (registry n').
Proof.
  intros Hu Hm H. destruct (granted_quiet E0 q ptr r (CacheAuthOnSession ptr uid ex n) n' Hm H) as [Hm' Hr]. split; [done|].
  cbn [snd] in Hr. rewrite Hr. by exists uid, ex.
Qed.

Lemma HandleLoginPacket_calm E0 q now p ptr a n b a' n' :
  p ∈ E0 -> mem_ok E0 (q, n) -> ids_ok (user_store_ a) -> HandleLoginPacket now p ptr a n = Ok (b, a', n') ->
  mem_ok E0 (q, n') /\ user_store_ a' = user_store_ a /\ auth_outcome b ptr (registry n) (registry n').
Proof.
  intros Hp Hm Hids H. unfold HandleLoginPacket in H. destruct (pool (packets n) !! p) as [pkt|]; [|done].
  destruct (read_Login pkt) as [[ident pw]| |]; try done. cbn [obind] in H. destruct (give_back p n) as [n0| |] eqn:Hg; try done. cbn [obind] in H.
  destruct (mem_give_back E0 q n p _ Hm Hp Hg) as [Hm1 Hr1]. cbn [snd] in Hr1. rewrite <- Hr1.
  assert (Hfail : forall reason a1 n2, SendAuthFailure ptr reason n0 = Ok n2 -> Ok (false, a1, n2) = Ok (b, a', n') ->
    user_store_ a1 = user_store_ a -> mem_ok E0 (q, n') /\ user_store_ a' = user_store_ a /\ auth_outcome b ptr (registry n0) (registry n')).
  { intros reason a1 n2 Hf [= <- <- <-] Ha. destruct (failure_quiet _ _ _ _ _ _ Hm1 Hf) as [Hm2 Hr2]. split_and!; [done|done|by left]. }
  case_match; [returned H; by eapply Hfail|]. destruct (ProcessLogin _ _ _ _ _ _) as [[[res a1] n1]| |] eqn:E2; try done. cbn [obind] in H.
  unfold ProcessLogin in E2. destruct (match FindByEmail ident (user_store_ a) with Some r => Some r | None => _ end) as [u|] eqn:Hrec; [|returned E2; injection E2 as <- <- <-; by eapply Hfail].
  case_match; [returned E2; injection E2 as <- <- <-; by eapply Hfail|]. case_match; [returned E2; injection E2 as <- <- <-; by eapply Hfail|].
  destruct (issue_some (signing_key_ a) (user_id u) now (next_family_id_ a)) as (r & nf & Hi). rewrite Hi in E2. destruct (SendTokenGranted _ _ _) as [n2| |] eqn:Hs; try done. cbn [obind] in E2. injection E2 as <- <- <-.
  injection H as <- <- <-. cbn. destruct (cache_quiet _ _ _ _ _ _ _ _ (found_id _ _ _ Hids Hrec) Hm1 Hs) as [Hm2 Ho]. by split_and!.
Qed.

Lemma HandleTokenPacket_calm E0 q now now' p ptr a n b a' n' :
  p ∈ E0 -> mem_ok E0 (q, n) -> HandleTokenPacket now now' p ptr a n = Ok (b, a', n') ->
  mem_ok E0 (q, n') /\ user_store_ a' = user_store_ a /\ auth_outcome b ptr (registry n) (registry n').
Proof.
  intros Hp Hm H. unfold HandleTokenPacket in H. destruct (pool (packets n) !! p) as [pkt|]; [|done].
  destruct (give_back p n) as [n0| |] eqn:Hg; try done. cbn [obind] in H.
  destruct (mem_give_back E0 q n p _ Hm Hp Hg) as [Hm1 Hr1]. cbn [snd] in Hr1. rewrite <- Hr1. case_match eqn:Hv.
  - destruct (issue_some (signing_key_ a) (at_user_id a0) now' (next_family_id_ a)) as (r & nf & Hi). rewrite Hi in H. destruct (SendTokenGranted _ _ _) as [n2| |] eqn:Hs; try done. cbn [obind] in H.
    injection H as <- <- <-. destruct (cache_quiet _ _ _ _ _ _ _ _ (validate_access_id _ _ _ _ Hv) Hm1 Hs) as [Hm2 Ho]. by split_and!.
  - destruct (SendAuthFailure _ _ _) as [n2| |] eqn:Hs; try done. cbn [obind] in H. injection H as <- <- <-.
    destruct (failure_quiet _ _ _ _ _ _ Hm1 Hs) as [Hm2 Hr2]. split_and!; [done|done|by left].
Qed.

Lemma HandleRefreshPacket_calm E0 q now now' p ptr a n b a' n' :
  p ∈ E0 -> mem_ok E0 (q, n) -> HandleRefreshPacket now now' p ptr a n = Ok (b, a', n') ->
  mem_ok E0 (q, n') /\ user_store_ a' = user_store_ a /\ auth_outcome b ptr (registry n) (registry n').
Proof.
  intros Hp Hm H. unfold HandleRefreshPacket in H. destruct (pool (packets n) !! p) as [pkt|]; [|done].
  destruct (give_back p n) as [n0| |] eqn:Hg; try done. cbn [obind] in H.
  destruct (mem_give_back E0 q n p _ Hm Hp Hg) as [Hm1 Hr1]. cbn [snd] in Hr1. rewrite <- Hr1. case_match eqn:Hv.
  2: { destruct (SendAuthFailure _ _ _) as [n2| |] eqn:Hs; try done. cbn [obind] in H. injection H as <- <- <-.
    destruct (failure_quiet _ _ _ _ _ _ Hm1 Hs) as [Hm2 Hr2]. split_and!; [done|done|by left]. }
  destruct (AdvanceTokenId _ _ _) as [valid fs]. destruct (negb valid).
  - destruct (SendAuthFailure _ _ _) as [n2| |] eqn:Hs; try done. cbn [obind] in H. injection H as <- <- <-.
    destruct (failure_quiet E0 q ptr _ (on_session unauthenticated ptr _) _ Hm1 Hs) as [Hm2 Hr2]. split_and!; [done|done|by right].
  - destruct (issue_some (signing_key_ a) (rt_user_id r) now' (next_family_id_ a)) as (r1 & nf & Hi). cbn [set_family_store signing_key_ next_family_id_] in H.
    rewrite Hi in H. destruct (SendTokenGranted _ _ _) as [n2| |] eqn:Hs; try done. cbn [obind] in H. injection H as <- <- <-.
    destruct (cache_quiet _ _ _ _ _ _ _ _ (validate_refresh_id _ _ _ _ Hv) Hm1 Hs) as [Hm2 Ho]. by split_and!.
Qed.
End Auth.

Create HintDb calm.
#[export] Hint Resolve quiet_calm ManageCompletePacket_quiet routeGroupMessage_quiet : calm.
#[export] Hint Resolve handleFileStart_calm handleFileChunk_calm handleRoundEnd_calm handleFileEnd_calm onAckReceived_calm
  HandleDownloadRequest_calm HandleDisconnectRequest_calm otpRequestHandler_calm signUpRequestHandler_calm onOtpVerificationRequest_calm : calm.
