(* ===== verification/Router.v ===== *)
(** The message router and the dispatch of received packets: chat/MessageRouter.cpp
    (handlePacket) and network/IOCPManager.cpp (workerThread, after the framing).

    This is where the components meet: [Server] is the state of all of them, a packet that
    was parsed goes through the authentication gate to the handler of its type. *)

From S2P Require Import Prelude Crc32c Packet Serialize CircularBuffer Fqueue PacketPool Framing Session Groups Offline Network AuthStore Auth Delivery GroupChat FileTransfer Table SignUp.

(** ** Definitions *)

Record Server := mkServer {
  auth : AuthManager;
  signup : SignUp;
  files : FileTransferManager;
  groups : GroupManager;
  conns : Connections;
  chat : @State Net;                 (* the send queues and the network *)
  threads : list Job                 (* downloads that were started *)
}.

Definition set_authm v s := mkServer v (signup s) (files s) (groups s) (conns s) (chat s) (threads s).
Definition set_signup v s := mkServer (auth s) v (files s) (groups s) (conns s) (chat s) (threads s).
Definition set_files v s := mkServer (auth s) (signup s) v (groups s) (conns s) (chat s) (threads s).
Definition set_groups v s := mkServer (auth s) (signup s) (files s) v (conns s) (chat s) (threads s).
Definition set_conns v s := mkServer (auth s) (signup s) (files s) (groups s) v (chat s) (threads s).
Definition set_chat v s := mkServer (auth s) (signup s) (files s) (groups s) (conns s) v (threads s).
Definition set_net (n : Net) s := set_chat ((chat s).1, n) s.
Definition net (s : Server) : Net := (chat s).2.

(** The readings of the clock during one packet, and whether a file can be opened. *)
Record Env := mkEnv { t_gate : Z; t_check : Z; t_issue : Z; can_open : bool }.

Definition bypassAuth (t : PacketType) : bool :=
  match t with
  | PKT_LOGIN | PKT_SIGN_UP | PKT_OTP_REQ | PKT_OTP_VERIFY | PKT_TOKEN | PKT_REFRESH => true
  | _ => false
  end.

Section Router.
Context {C : Checksum} {N : Sodium} (hash : bstr -> Z).

(** [if (!sender->updated) sessionManager->updateNewId(tempId, sender)]. *)
Definition register_new_id (tempId : bstr) (ptr : nat) (s : Server) : outcome (bool * Server) :=
  let! se := deref (registry (net s)) (Some ptr) in
  if updated se then Ok (false, s) else
  let! (r, cs) := updateNewId tempId ptr (registry (net s)) (conns s) in
  Ok (true, set_conns cs (set_net (set_registry r (net s)) s)).

(** The packet with the user's id after a login. *)
Definition send_user_id (ptr : nat) (s : Server) : outcome Server :=
  let! se := deref (registry (net s)) (Some ptr) in
  let! (p, pp) := borrowPacket (packets (net s)) in
  match p with
  | None => UB
  | Some p =>
      let n := set_packets (write_packet p (fun pkt =>
                 set_bypassQueue true (send (UserId (cached_user_id se) (cached_user_id se)) pkt).2) pp) (net s) in
      let! (routed, n) := route_packet p (userId se) n in
      let! n := if negb routed then give_back p n else Ok n in
      Ok (set_net n s)
  end.

Definition notify_sender (ptr : nat) (s : Server) : outcome Server :=
  let! se := deref (registry (net s)) (Some ptr) in
  let! st := notifySend (userId se) (chat s) in
  Ok (set_chat st s).

Definition on_login (e : Env) (p ptr : nat) (s : Server) : outcome Server :=
  let! se := deref (registry (net s)) (Some ptr) in
  let tempId := userId se in
  let! (succes, a, n) := HandleLoginPacket (t_check e) p ptr (auth s) (net s) in
  let s := set_authm a (set_net n s) in
  if negb succes then Ok s else
  let! (renamed, s) := register_new_id tempId ptr s in
  let! s := if renamed : bool then send_user_id ptr s else Ok s in
  notify_sender ptr s.

Definition on_token (refresh : bool) (e : Env) (p ptr : nat) (s : Server) : outcome Server :=
  let! se := deref (registry (net s)) (Some ptr) in
  let tempId := userId se in
  let! (succes, a, n) :=
    if refresh then HandleRefreshPacket (t_check e) (t_issue e) p ptr (auth s) (net s)
    else HandleTokenPacket (t_check e) (t_issue e) p ptr (auth s) (net s) in
  let s := set_authm a (set_net n s) in
  if negb succes then Ok s else
  let! (renamed, s) := register_new_id tempId ptr s in
  notify_sender ptr s.

Definition lift_files (g : FileTransferManager -> @State Net -> outcome (FileTransferManager * @State Net)) (s : Server) : outcome Server :=
  let! (f, st) := g (files s) (chat s) in Ok (set_files f (set_chat st s)).
Definition lift_signup (g : SignUp -> @State Net -> outcome (SignUp * @State Net)) (s : Server) : outcome Server :=
  let! (su, st) := g (signup s) (chat s) in Ok (set_signup su (set_chat st s)).
Definition lift_groups (g : bstr -> bstr -> GroupManager -> bool * GroupManager) (pkt : Packet) (s : Server) : outcome Server :=
  let recvId := UserIdToHexString (payload_uuid 16 pkt) in
  let sendId := UserIdToHexString (payload_uuid 0 pkt) in
  Ok (set_groups (g recvId sendId (groups s)).2 s).
Definition return_received (p : nat) (s : Server) : outcome Server :=
  let! n := give_back p (net s) in Ok (set_net n s).

(** The switch of [handlePacket]. *)
Definition handle_type (e : Env) (t : PacketType) (pkt : Packet) (p ptr : nat) (s : Server) : outcome Server :=
  match t with
  | PKT_LOGIN => on_login e p ptr s
  | PKT_TOKEN => on_token false e p ptr s
  | PKT_REFRESH => on_token true e p ptr s
  | PKT_LOGOUT =>
      let! se := deref (registry (net s)) (Some ptr) in
      let! r := removeSession (userId se) (registry (net s)) in
      return_received p (set_net (set_registry r (net s)) s)
  | PKT_PRIVATE_MESSAGE =>
      let! st := ManageCompletePacket p (UserIdToHexString (payload_uuid 16 pkt)) (chat s) in
      Ok (set_chat st s)
  | PKT_GROUP_MESSAGE => let! st := routeGroupMessage p (groups s) (chat s) in Ok (set_chat st s)
  | PKT_CREATE_GROUP => lift_groups createGroup pkt s
  | PKT_JOIN_GROUP => lift_groups joinGroup pkt s
  | PKT_LEAVE_GROUP => lift_groups leaveGroup pkt s
  | PKT_FILE_START =>
      let! se := deref (registry (net s)) (Some ptr) in
      lift_files (handleFileStart (t_check e) (can_open e) p (userId se)) s
  | PKT_FILE_CHUNK => lift_files (handleFileChunk p) s
  | PKT_ROUND_END => lift_files (handleRoundEnd p) s
  | PKT_FILE_END => lift_files (handleFileEnd (t_check e) p) s
  | PKT_FILE_ACK => lift_files (onAckReceived p) s
  | PKT_ACKNOWLEDGMENT => return_received p s
  | FILE_DWNLD_DISCONNECT_REQUEST => let! st := HandleDisconnectRequest p (chat s) in Ok (set_chat st s)
  | DOWNLOAD_REQUEST =>
      let! (j, f, st) := HandleDownloadRequest p (files s) (chat s) in
      Ok (mkServer (auth s) (signup s) f (groups s) (conns s) st (threads s ++ match j with Some j => [j] | None => [] end))
  | PKT_OTP_REQ => lift_signup (otpRequestHandler p ptr) s
  | PKT_OTP_VERIFY => lift_signup (onOtpVerificationRequest hash (t_check e) p ptr) s
  | PKT_SIGN_UP => lift_signup (signUpRequestHandler p ptr) s
  | _ => Ok s
  end.

(** [handlePacket] returns true on every path. *)
Definition handlePacket (e : Env) (p ptr : nat) (s : Server) : outcome Server :=
  match pool (packets (net s)) !! p with
  | None => UB
  | Some pkt =>
      let! se := deref (registry (net s)) (Some ptr) in
      let ptype := type_of_code (type (header pkt)) in
      if negb (default false (bypassAuth <$> ptype)) && negb (ValidateSessionHotPath se (t_gate e)) then
        let! n := SendAuthFailure ptr (str "Unauthorized access - please login") (net s) in
        return_received p (set_net n s)
      else match ptype with
      | None => Ok s
      | Some t => handle_type e t pkt p ptr s
      end
  end.

(** One packet of the local queue: parsed, and handled or returned. *)
Definition dispatch_one (e : Env) (p ptr : nat) (s : Server) : outcome Server :=
  match pool (packets (net s)) !! p with
  | None => UB
  | Some pkt =>
      let (parsed, pkt) := parseHeader pkt in
      let! (parsedData, pkt) := parseData pkt in
      let s := set_net (set_packets (write_packet p (fun _ => pkt) (packets (net s))) (net s)) s in
      if negb parsed || negb parsedData then return_received p s else handlePacket e p ptr s
  end.

Fixpoint dispatch_all (clock : nat -> Env) (i : nat) (ps : list nat) (ptr : nat) (s : Server) : outcome Server :=
  match ps with
  | [] => Ok s
  | p :: ps => let! s := dispatch_one (clock i) p ptr s in dispatch_all clock (S i) ps ptr s
  end.

Fixpoint return_all (ps : list nat) (s : Server) : outcome Server :=
  match ps with
  | [] => Ok s
  | p :: ps => let! s := return_received p s in return_all ps s
  end.

(** The session of the socket, created if need be, and the packets of the local queue. *)
Definition dispatch_batch (clock : nat -> Env) (sk : Z) (localQueue : list nat) (shouldDisconnect : bool) (s : Server) : outcome (bool * Server) :=
  match localQueue with
  | [] => Ok (shouldDisconnect, s)
  | _ =>
      let! (ptr, r) := session_for sk (registry (net s)) in
      let s := set_net (set_registry r (net s)) s in
      match ptr with
      | None => let! s := return_all localQueue s in Ok (true, s)
      | Some ptr => let! s := dispatch_all clock 0 localQueue ptr s in Ok (shouldDisconnect, s)
      end
  end.

(** The part of [workerThread] behind the framing of a receive: the packets, then the
    next receive or the end of the connection.  [clock i] is the environment of packet
    [i]. *)
Definition after_receive (clock : nat -> Env) (sk : Z) (localQueue : list nat) (shouldDisconnect : bool) (s : Server) : outcome Server :=
  let! (shouldDisconnect, s) := dispatch_batch clock sk localQueue shouldDisconnect s in
  let disconnect s :=
    let! (r, cs) := handleDisconnect sk (registry (net s)) (conns s) in
    Ok (set_conns cs (set_net (set_registry r (net s)) s)) in
  if shouldDisconnect : bool then disconnect s else
  let! (posted, n) := postRecv sk (net s) in
  let s := set_net n s in
  if negb posted then disconnect s else Ok s.
End Router.

(** ** Lemmas: what the replies leave alone *)

Lemma initiate_send_keeps sk p n b n' i :
  initiate_send sk p n = Ok (b, n') -> content <$> pool (packets n') !! i = content <$> pool (packets n) !! i.
Proof.
  unfold initiate_send. destruct (borrowIOPdata (io n)) as [[q|] ip]; [|done]. destruct (pool (packets n) !! p); [|done].
  destruct (io_pool ip !! q); [|done]. destruct (_ <? _); [done|]. destruct (answer n).
  - intros [_ <-]%Ok_pair_inj. by apply content_write_packet.
  - destruct (returnIOPdata _ _); cbn [obind]; try done. intros [_ <-]%Ok_pair_inj. by apply content_write_packet.
Qed.

Lemma give_back_keeps p n n' i : give_back p n = Ok n' -> i <> p -> pool (packets n') !! i = pool (packets n) !! i.
Proof.
  unfold give_back. destruct (returnPacket (Some p) (packets n)) as [pp| |] eqn:E; cbn [obind]; try done.
  intros [= <-] Hne. by apply (return_other p).
Qed.

Lemma respond_keeps ptr fill n n' B E D k i :
  net_ok n B E D k -> respond ptr fill n = Ok n' -> i ∈ B -> content <$> pool (packets n') !! i = content <$> pool (packets n) !! i.
Proof.
  intros Hok Hrun Hi. unfold respond in Hrun. destruct (deref (registry n) (Some ptr)) as [se| |]; cbn [obind] in Hrun; try done.
  destruct (negb (iocp se)); [by injection Hrun as <-|].
  destruct (borrow_inv _ _ _ (net_pool _ _ _ _ _ Hok)) as [[_ Hb]|(r & pp & pkt & Hb & HrB & _)]; rewrite Hb in Hrun; cbn [obind] in Hrun.
  { by injection Hrun as <-. }
  assert (Hne : i <> r) by (intros ->; done).
  destruct (sendPacket se r (socket se) _) as [[sent n1]| |] eqn:Es; cbn [obind] in Hrun; try done.
  assert (H1 : content <$> pool (packets n1) !! i = content <$> pool (packets n) !! i).
  { unfold sendPacket in Es. destruct (iocp se).
    - rewrite (initiate_send_keeps _ _ _ _ _ i Es). cbn [set_packets packets write_packet pool].
      rewrite list_lookup_alter_ne by done. by rewrite (borrow_other _ _ _ _ Hb Hne).
    - apply Ok_pair_inj in Es as [_ <-]. cbn [set_packets packets write_packet pool].
      rewrite list_lookup_alter_ne by done. by rewrite (borrow_other _ _ _ _ Hb Hne). }
  destruct sent; cbn [negb] in Hrun; [by injection Hrun as <-|]. by rewrite (give_back_keeps _ _ _ _ Hrun Hne).
Qed.

(** Queues stay sendable when the bytes of their packets stay. *)
Lemma chat_ok_keeps st n' B B' E' D' k :
  (forall id cq it, st.1 !! id = Some cq -> it ∈ cqueue cq -> sendable_at B st.2 (packet it)) ->
  net_ok n' B' E' D' k -> registry_inv (registry n') ->
  (forall id cq it, st.1 !! id = Some cq -> it ∈ cqueue cq -> packet it ∈ B' /\
     content <$> pool (packets n') !! packet it = content <$> pool (packets st.2) !! packet it) ->
  chat_ok (st.1, n') B' E' D' k.
Proof.
  intros Hq Hok Hr Hk. constructor; cbn [fst snd]; [done|done|]. intros id cq it Hl Hit.
  destruct (Hq id cq it Hl Hit) as (_ & pk & Hpk & Hle), (Hk id cq it Hl Hit) as [Hin Hc]. split; [done|].
  rewrite Hpk in Hc. destruct (pool (packets n') !! packet it) as [pk'|]; [|done]. exists pk'. split; [done|].
  cbn in Hc. unfold content in Hc. by injection Hc as _ ->.
Qed.

(** ** The authentication gate *)

Section Properties.
Context {C : Checksum} {L : ChecksumLaws C} {N : Sodium} (hash : bstr -> Z).

(** C4: nothing happens without authentication.  A packet of any type but the six that log
    in, sign up or present a token, known type or not, on a session that is not
    authenticated or whose authentication has expired, is answered with a failure and
    returned to the pool; the users, sign-ups, files, groups, connections, sessions, send
    queues and downloads are exactly as before, and the network is in order. *)
Theorem unauthenticated_rejected e p ptr pkt se s B E D k :
  chat_ok (chat s) B E D (S k) -> received_packet p pkt B (chat s) -> deref (registry (net s)) (Some ptr) = Ok se ->
  default false (bypassAuth <$> type_of_code (type (header pkt))) = false -> ValidateSessionHotPath se (t_gate e) = false ->
  exists n' B' E' D', handlePacket hash e p ptr s = Ok (set_net n' s) /\ chat_ok ((chat s).1, n') B' E' D' k /\ p ∉ B' /\
    registry n' = registry (net s) /\
    replied (failure (str "Unauthorized access - please login")) se (bool_decide (base.size B < currentSize)%nat) (net s) n'.
Proof.
  intros [Hnet Hr Hq] (Hin & Hp & Hfree) Hse Hby Hval. unfold handlePacket. unfold net in *. rewrite Hp, Hse. cbn [obind].
  rewrite Hby, Hval. cbn [negb andb].
  destruct (failure_spec (str "Unauthorized access - please login") ptr se _ _ _ _ k Hnet Hse) as
    (n1 & B1 & E1 & D1 & Hs & Hok1 & HB1 & HE1 & Hr1 & Hrep & _); [vm_compute; lia|].
  rewrite Hs. cbn [obind]. pose proof (proj1 (pool_sub _ _ _ (net_pool _ _ _ _ _ Hnet)) p Hin) as HinE.
  destruct (give_back_ok p n1 B1 E1 D1 k Hok1 (HE1 p HinE)) as (n2 & Hg & Hok2 & Hr2 & Hpo2 & Ha2).
  exists n2, (B1 ∖ {[p]}), E1, D1. unfold return_received, net. cbn [set_net set_chat chat snd]. rewrite Hg. cbn [obind].
  split_and!; [done| |set_solver|by rewrite Hr2|].
  - apply (chat_ok_keeps _ _ B); [done|done|by rewrite Hr2, Hr1|]. intros id cq it Hl Hit.
    destruct (Hq id cq it Hl Hit) as [HinB _]. pose proof (Hfree id cq it Hl Hit) as Hne. split; [set_solver|].
    rewrite (give_back_keeps _ _ _ _ Hg Hne). by apply (respond_keeps _ _ _ _ _ _ _ _ _ Hnet Hs).
  - revert Hrep. unfold replied. by rewrite Hpo2.
Qed.

(** ** Private messages *)

Lemma answer_set_packets n pp : answer (set_packets pp n) = answer n.
Proof. done. Qed.

(** The first packet for an idle receiver who is connected is sent at once. *)
Lemma manage_idle p id q se st B E D k :
  chat_ok st B E D (S k) -> sendable_at B st.2 p -> st.1 !! id = None \/ st.1 !! id = Some (mkCq [] false) ->
  id <> [] -> registered (registry st.2) id q se ->
  exists st' bytes, ManageCompletePacket p id st = Ok st' /\
    posted st'.2 = posted st.2 ++ (if answer st.2 then [(socket se, p, bytes)] else []).
Proof.
  intros [Hnet Hr Hq] Hs Hidle Hne Hse. unfold ManageCompletePacket.
  assert (Hcq : cq_push (mkItem id p) (default (mkCq [] false) (st.1 !! id)) = mkCq [mkItem id p] false) by (by destruct Hidle as [-> | ->]).
  rewrite Hcq. unfold cq_claim. cbn [flag cqueue]. unfold send_front. cbn [cqueue packet].
  destruct (route_ready p id st.2 B E D k Hnet Hr Hs) as (b & n' & D' & Hro & _ & _ & _ & _ & Hans).
  change (routePacket p id st.2) with (route_packet p id st.2). rewrite Hro. cbn [obind].
  destruct (Hans q se Hne Hse) as (-> & bytes & Hpo). eexists _, bytes. split; [done|]. exact Hpo.
Qed.

Lemma type_of_frame t pl : type_of_code (type (frame_header t pl)) = Some t.
Proof. apply type_of_code_code. Qed.

(** A private message reaches its receiver.  When it arrives on an authenticated
    session, it is put, as it came, at the end of the receiver's queue, and if the receiver
    is connected and has nothing in its queue, it is handed to the receiver's socket at
    once.  No other queue and nothing else in the server changes.  (The sender's id in the
    message is not compared with the session: the theorem holds for any.) *)
Theorem private_message_delivered e claimed recv user text ts ptr se s B E D k :
  let m := Chat PKT_PRIVATE_MESSAGE claimed recv user text ts in
  let rid := UserIdToHexString recv in
  sound m -> chat_ok (chat s) B E D (S k) -> (base.size B < currentSize)%nat ->
  deref (registry (net s)) (Some ptr) = Ok se -> ValidateSessionHotPath se (t_gate e) = true ->
  exists p st1 st' E' D', arrive m (chat s) = Ok (p, st1) /\
    handlePacket hash e p ptr (set_chat st1 s) = Ok (set_chat st' s) /\
    chat_ok st' ({[p]} ∪ B) E' D' k /\ registry st'.2 = registry (net s) /\
    queued rid st' = queued rid (chat s) ++ [p] /\ (forall id, id <> rid -> st'.1 !! id = (chat s).1 !! id) /\
    (exists d, data <$> pool (packets st'.2) !! p = Some d /\ carries m d) /\
    (forall q se', (chat s).1 !! rid = None \/ (chat s).1 !! rid = Some (mkCq [] false) -> rid <> [] ->
       registered (registry (net s)) rid q se' ->
       exists bytes, posted st'.2 = posted (net s) ++ (if answer (net s) then [(socket se', p, bytes)] else [])).
Proof.
  intros m rid Hm Hok Hroom Hse Hval.
  destruct (arrive_ok m (chat s) B E D (S k) Hok Hroom Hm) as
    (p & pkt & st1 & Ha & HpB & Hok1 & (Hin & Hp & Hfree) & Hrec & Hhd & Hhf & Hq & Hr & Hpo & Han & Hold).
  assert (Hs : sendable_at ({[p]} ∪ B) st1.2 p).
  { split; [done|]. exists pkt. split; [done|]. rewrite (length_field_frame _ _ _ Hhf).
    destruct Hm as (_ & _ & Hf). unfold fits in Hf. pose proof sizeof_data_Z. unfold len. lia. }
  destruct (manage_ok p rid st1 _ _ _ k Hok1 Hs) as (st' & D' & Hmng & Hok' & Hreg & Hsame & Hqu & Hoth).
  exists p, st1, st', ({[p]} ∪ E), D'. split; [done|].
  assert (Hid : payload_uuid 16 pkt = recv).
  { cbn [received m] in Hrec. unfold read_ChatMessage in Hrec. destruct (payload_string _ _ pkt); cbn in Hrec; try done.
    by injection Hrec. }
  split_and!; try done.
  - unfold handlePacket, net. cbn [set_chat chat]. rewrite Hp. unfold net in Hse. rewrite Hr, Hse. cbn [obind].
    rewrite Hhd, type_of_frame. cbn [message_type m fmap option_fmap option_map default bypassAuth negb andb]. rewrite Hval. cbn [negb andb].
    cbn [handle_type set_chat chat]. rewrite Hid. fold rid. rewrite Hmng. done.
  - by rewrite Hreg, Hr.
  - rewrite Hqu. unfold queued. by rewrite Hq.
  - intros id Hne. by rewrite Hoth, Hq.
  - rewrite (same_data_bytes _ _ p Hsame), Hp. eexists. split; [done|]. intros _.
    destruct Hhf as (_ & _ & Hi & Hwr). unfold wire in Hwr. by rewrite Hi in Hwr.
  - intros q se' Hidle Hne Hse'. destruct (manage_idle p rid q se' st1 _ _ _ k Hok1 Hs) as (st2 & bytes & Hm2 & Hpo2);
      [by rewrite Hq|done|by rewrite Hr|].
    rewrite Hmng in Hm2. injection Hm2 as <-. exists bytes. unfold net. by rewrite Hpo2, Hpo, (answer_eq _ _ Han).
Qed.

(** ** Logins *)

(** Waking up the queue of a user who has logged in. *)
Lemma notifySend_ok id st B E D k :
  chat_ok st B E D (S k) ->
  exists st' D', notifySend id st = Ok st' /\ chat_ok st' B E D' k /\ registry st'.2 = registry st.2 /\
    (forall id', queued id' st' = queued id' st).
Proof.
  intros [Hnet Hr Hq]. unfold notifySend.
  assert (Hweak : forall D', net_ok st.2 B E D' (S k) -> net_ok st.2 B E D' k) by (intros D' H; by eapply net_ok_weaken, H; lia).
  destruct (st.1 !! id) as [cq|] eqn:Ecq.
  2: { exists st, D. split_and!; try done. constructor; [by apply Hweak|done|done]. }
  unfold cq_empty. case_bool_decide as Hemp; cbn [negb].
  { exists st, D. split_and!; try done. constructor; [by apply Hweak|done|done]. }
  assert (Hins : forall (n' : Net) D' (cq' : clientQueue), net_ok n' B E D' k -> registry n' = registry st.2 -> same_data st.2 n' -> cqueue cq' = cqueue cq ->
    chat_ok (<[id := cq']> st.1, n') B E D' k /\ forall id', queued id' (<[id := cq']> st.1, n') = queued id' st).
  { intros n' D' cq' Hok' Hreg Hsame Hc. split.
    - constructor; cbn [fst snd]; [done|by rewrite Hreg|]. intros id' c it [[<- <-]|[_ Hl]]%lookup_insert_Some Hit.
      + rewrite Hc in Hit. by apply (sendable_same_data _ st.2), (Hq id cq).
      + by apply (sendable_same_data _ st.2), (Hq id' c).
    - intros id'. unfold queued. cbn [fst]. destruct (decide (id' = id)) as [->|Hne].
      + rewrite lookup_insert_eq, Ecq. cbn. by rewrite Hc.
      + by rewrite lookup_insert_ne. }
  unfold cq_claim. destruct (flag cq).
  { destruct (Hins st.2 D cq) as [H1 H2]; [by apply Hweak|done|done|done|]. eexists _, D. split; [done|]. by split_and!. }
  unfold send_front. cbn [cqueue]. destruct (cqueue cq) as [|front rest] eqn:Ef; [done|].
  destruct (route_ready (packet front) id st.2 B E D k Hnet Hr) as (b & n' & D' & Hro & Hok' & Hreg & Hsame & _).
  { apply (Hq id cq); [done|]. rewrite Ef. by left. }
  change (routePacket (packet front) id st.2) with (route_packet (packet front) id st.2). rewrite Hro. cbn [obind].
  destruct (Hins n' D' (if negb b then cq_clear (mkCq (front :: rest) true) else mkCq (front :: rest) true)) as [H1 H2];
    [done|done|done|by destruct b|].
  eexists _, D'. split; [done|]. by split_and!.
Qed.

(** A message in a borrowed packet, marked not to be queued. *)
Lemma send_bypass_sendable m p :
  uuids_ok m ->
  exists pk, set_bypassQueue true (send m (set_pkt_id p new_packet)).2 = pk /\ pkt_id pk = p /\ ntohl (load 4 4 (data pk)) <= 4096.
Proof.
  intros Hu. destruct (send_sendable m p Hu) as (Hid & Hlen & _). destruct (send m (set_pkt_id p new_packet)) as [b pk].
  by eexists.
Qed.

(** The id packet after a login. *)
Lemma send_user_id_ok ptr se s B E D k :
  chat_ok (chat s) B E D (S k) -> (base.size B < currentSize)%nat -> deref (registry (net s)) (Some ptr) = Ok se ->
  length (cached_user_id se) = UUID_SIZE ->
  exists n' B' E' D', send_user_id ptr s = Ok (set_net n' s) /\ chat_ok ((chat s).1, n') B' E' D' k /\ registry n' = registry (net s).
Proof.
  intros [Hnet Hr Hq] Hroom Hse Hid. pose proof (net_pool _ _ _ _ _ Hnet) as Hpool. unfold send_user_id, net in *. rewrite Hse. cbn [obind].
  destruct (borrow_inv _ _ _ Hpool) as [[Hfull _]|(p & pp & pkt & Hb & HpB & Hlt & Hp & -> & Hpool')]; [lia|].
  rewrite Hb. cbn [obind]. set (w := write_packet p _ pp). set (n1 := set_packets w (chat s).2).
  destruct (send_bypass_sendable (UserId (cached_user_id se) (cached_user_id se)) p) as (pk & Hpk & Hpid & Hlen); [by repeat constructor|].
  assert (Hw : pool w !! p = Some pk).
  { unfold w. cbn [write_packet pool]. rewrite list_lookup_alter_eq, Hp. cbn [fmap option_fmap option_map]. by rewrite Hpk. }
  assert (Hold : forall i, i ∈ B -> pool w !! i = pool (packets (chat s).2) !! i).
  { intros i Hi. assert (Hne : i <> p) by (intros ->; done). unfold w. cbn [write_packet pool]. rewrite list_lookup_alter_ne by done.
    by apply (borrow_other _ _ _ _ Hb). }
  assert (Hok1 : net_ok n1 ({[p]} ∪ B) ({[p]} ∪ E) D (S k)).
  { unfold n1. destruct Hnet. constructor; cbn [set_packets packets io]; [|done..].
    apply write_inv_at; [done|set_solver|]. intros p0. rewrite Hp. intros [= <-]. rewrite Hpk. exact Hpid. }
  clearbody w.
  destruct (route_ready p (userId se) n1 _ _ _ k Hok1 Hr) as (b & n2 & D' & Hro & Hok2 & Hreg & Hsame & _ & _).
  { split; [set_solver|]. eexists. split; [exact Hw|]. exact Hlen. }
  rewrite Hro. cbn [obind].
  assert (Hkeep : forall id cq it, (chat s).1 !! id = Some cq -> it ∈ cqueue cq -> packet it ∈ B /\ packet it <> p /\
    content <$> pool (packets n2) !! packet it = content <$> pool (packets (chat s).2) !! packet it).
  { intros id cq it Hl Hit. destruct (Hq id cq it Hl Hit) as [HB _]. split_and!; [done|intros Heq; by rewrite Heq in HB|].
    rewrite (Hsame (packet it)). unfold n1. cbn [set_packets packets]. by rewrite Hold. }
  destruct b; cbn [negb obind].
  - exists n2, ({[p]} ∪ B), ({[p]} ∪ E), D'. split_and!; [done| |done].
    apply (chat_ok_keeps _ _ B); [done|done|by rewrite Hreg|]. intros id cq it Hl Hit.
    destruct (Hkeep id cq it Hl Hit) as (H1 & _ & H2). split; [set_solver|done].
  - destruct (give_back_ok p n2 _ _ _ _ Hok2 ltac:(set_solver)) as (n3 & Hg & Hok3 & Hreg3 & _). rewrite Hg. cbn [obind].
    exists n3, (({[p]} ∪ B) ∖ {[p]}), ({[p]} ∪ E), D'. split_and!; [done| |by rewrite Hreg3].
    apply (chat_ok_keeps _ _ B); [done|done|by rewrite Hreg3, Hreg|]. intros id cq it Hl Hit.
    destruct (Hkeep id cq it Hl Hit) as (H1 & H2 & H3). split; [set_solver|]. by rewrite (give_back_keeps _ _ _ _ Hg H2).
Qed.

Context {LN : SodiumLaws N}.

Lemma hex_real_id uid : length uid = 16%nat -> real_id (UserIdToHexString uid).
Proof.
  intros Hu. unfold UserIdToHexString, ToHex. split.
  - intros E. pose proof (bin2hex_length uid) as Hl. rewrite E, Hu in Hl. done.
  - intros sk E. pose proof (bin2hex_digits uid) as Hd. rewrite E in Hd. unfold temp_id in Hd. apply Forall_app in Hd as [_ Hd].
    apply Forall_cons_1 in Hd as [Hd _]. revert Hd. apply (bool_decide_unpack _). vm_compute. exact I.
Qed.

(** A login with the right credentials, over the queues. *)
Lemma login_granted now p ptr pkt ident pw se a u st B E D k :
  chat_ok st B E D (S k) -> received_packet p pkt B st -> read_Login pkt = Ok (ident, pw) ->
  deref (registry st.2) (Some ptr) = Ok se -> ids_ok (user_store_ a) -> 0 <= now < 2 ^ 63 -> credentials a ident pw = Some u ->
  exists n' B' E' D', HandleLoginPacket now p ptr a st.2 = Ok (true, logged_in (user_id u) a, n') /\
    net_ok n' B' E' D' k /\ registry n' = update_session (authenticated (user_id u) (now + 900)) ptr (registry st.2) /\
    (base.size B' <= base.size B)%nat /\ length (user_id u) = 16%nat /\
    (forall id cq it, st.1 !! id = Some cq -> it ∈ cqueue cq -> packet it ∈ B' /\
       content <$> pool (packets n') !! packet it = content <$> pool (packets st.2) !! packet it).
Proof.
  intros [Hnet Hr Hq] (Hin & Hp & Hfree) Hread Hse Hids Hnow Hcred.
  unfold HandleLoginPacket. rewrite Hp, Hread. cbn [obind]. unfold credentials in Hcred.
  destruct (bool_decide (ident = []) || bool_decide (pw = [])); [done|]. unfold ProcessLogin.
  destruct (match FindByEmail ident (user_store_ a) with Some r => Some r | None => _ end) as [u'|] eqn:Eu; [|done].
  cbn [mbind option_bind] in Hcred. destruct (email_verified u') eqn:Ev; [|done]. cbn [andb] in Hcred.
  destruct (crypto_pwhash_str_verify (password_hash u') pw) eqn:Epw; [|done]. injection Hcred as ->.
  pose proof (found_id _ _ _ Hids Eu) as Hu.
  destruct (issue_lengths (signing_key_ a) (user_id u) now (next_family_id_ a) Hu Hnow) as (r & Hiss & Ha & Hrf & Hex & Hfam).
  destruct (grant_after r (user_id u) (now + 900) p ptr se st.2 B E D k Hnet Hin Hse Ha Hrf)
    as (n1 & n' & B' & E' & D' & Hg & Hs & Hok' & Hreg & _ & HB' & Hsz).
  pose proof (proj1 (pool_sub _ _ _ (net_pool _ _ _ _ _ Hnet)) p Hin) as HinE.
  destruct (give_back_ok p st.2 B E D (S k) Hnet HinE) as (n1' & Hg' & Hok1 & _). rewrite Hg in Hg'. injection Hg' as <-.
  rewrite Hg. cbn [obind negb]. rewrite Hiss, Hex, Hfam, Hs. cbn [obind].
  exists n', B', E', D'. split; [by rewrite take_ge by lia|]. split_and!; try done. intros id cq it Hl Hit.
  destruct (Hq id cq it Hl Hit) as [HinB _]. pose proof (Hfree id cq it Hl Hit) as Hne. split; [set_solver|].
  rewrite (respond_keeps _ _ _ _ (B ∖ {[p]}) _ _ _ _ (net_ok_session _ _ _ _ _ _ _ Hok1) Hs) by set_solver.
  unfold CacheAuthOnSession, on_session. cbn [set_registry packets]. by rewrite (give_back_keeps _ _ _ _ Hg Hne).
Qed.
(** The new id of a session that was authenticated in place. *)
Lemma register_authenticated uid ex tid ptr se r cs :
  registry_inv r -> registered r tid ptr se -> length uid = 16%nat ->
  let newid := UserIdToHexString uid in
  exists r' cs', updateNewId tid ptr (update_session (authenticated uid ex) ptr r) cs = Ok (r', cs') /\ registry_inv r' /\
    registered r' newid ptr (set_updated true (authenticated uid ex se)) /\
    (forall id q o, registered r id q o -> id <> tid -> id <> newid -> registered r' id q o) /\
    (forall q o, registered r newid q o -> newid <> tid -> cs' = HandleDisconnectWithoutLock (socket o) cs) /\
    (sessions r !! newid = None -> cs' = cs).
Proof.
  intros Hr Hse Hu newid. pose proof (hex_real_id uid Hu) as Hnew. fold newid in Hnew.
  set (f := set_auth AUTHENTICATED (take 16 uid) ex). set (r1 := update_session f ptr r).
  destruct (update_session_inv r ptr f Hr) as [Hr1 Hreg1]; [by intros|]. fold r1 in Hr1, Hreg1.
  pose proof (Hreg1 _ _ _ Hse) as Hse1. rewrite decide_True in Hse1 by done.
  assert (Hrun : updateNewId tid ptr (update_session (authenticated uid ex) ptr r) cs = first_login newid ptr r1 cs).
  { unfold first_login. rewrite (deref_registered _ _ _ _ Hse1). cbn [obind].
    replace (userId (f se)) with tid by (symmetry; apply Hse). f_equal.
    unfold r1, update_session. cbn [set_pool pool_of spool freeIndices]. by rewrite list_alter_alter_eq. }
  rewrite Hrun. assert (Hses : sessions r1 = sessions r) by done.
  assert (Hother : forall id q o, registered r id q o -> id <> tid -> registered r1 id q o).
  { intros id q o H Hne. pose proof (Hreg1 _ _ _ H) as H1. rewrite decide_False in H1; [done|].
    intros ->. apply Hne. symmetry. by apply (registered_ptr r tid id ptr se o). }
  destruct (login_eq r1 cs tid newid ptr (f se) Hr1 Hse1 Hnew) as [[Hfree Hl]|(old & o & Hold & Hne & Hl)]; rewrite Hl.
  - destruct (rename_spec r1 tid newid ptr (f se) Hr1 Hse1 Hnew Hfree) as (H1 & H2 & H3). eexists _, _. split_and!; try done.
    + intros id q o H Hn _. apply H3; [by apply Hother|done].
    + intros q o H Hn. destruct Hfree as [Hf|]; [|done]. rewrite Hses in Hf. destruct H. congruence.
  - pose proof (registered_unregister r1 newid old o tid ptr (f se) Hold Hse1 (not_eq_sym Hne)) as Hse2.
    destruct (rename_spec (unregister newid old o r1) tid newid ptr (f se) (unregister_inv _ _ _ _ Hr1 Hold) Hse2 Hnew) as (H1 & H2 & H3).
    { left. apply lookup_delete_eq. }
    eexists _, _. split_and!; try done.
    + intros id q o' H Hn Hn'. apply H3; [|done]. apply registered_unregister; [done| |done]. by apply Hother.
    + intros q o' H Hn. pose proof (Hother _ _ _ H Hn) as H'. destruct Hold, H'. congruence.
    + intros Hn. destruct Hold. congruence.
Qed.
(** What the router does once a login was granted: new id, id packet, waiting messages. *)
Lemma after_grant uid ex tid ptr se s s1 B E D k :
  registry_inv (registry (net s)) -> registered (registry (net s)) tid ptr se -> updated se = false -> length uid = 16%nat ->
  registry (net s1) = update_session (authenticated uid ex) ptr (registry (net s)) -> conns s1 = conns s ->
  net_ok (net s1) B E D (S (S k)) -> (base.size B < currentSize)%nat ->
  (forall id cq it, (chat s1).1 !! id = Some cq -> it ∈ cqueue cq -> sendable_at B (net s1) (packet it)) ->
  let newid := UserIdToHexString uid in
  exists st' cs' B' E' D',
    (let! (renamed, s) := register_new_id tid ptr s1 in
     let! s := if renamed : bool then send_user_id ptr s else Ok s in
     notify_sender ptr s) = Ok (set_conns cs' (set_chat st' s1)) /\
    chat_ok st' B' E' D' k /\ (forall id, queued id st' = queued id (chat s1)) /\
    registered (registry st'.2) newid ptr (set_updated true (authenticated uid ex se)) /\
    (forall id q o, registered (registry (net s)) id q o -> id <> tid -> id <> newid -> registered (registry st'.2) id q o) /\
    (forall q o, registered (registry (net s)) newid q o -> newid <> tid -> cs' = HandleDisconnectWithoutLock (socket o) (conns s)) /\
    (sessions (registry (net s)) !! newid = None -> cs' = conns s).
Proof.
  intros Hr Hse Hupd Hu Hreg Hcs Hok Hroom Hq newid.
  destruct (register_authenticated uid ex tid ptr se _ (conns s) Hr Hse Hu) as (r' & cs' & Hrun & Hr' & Hnew & Hoth & Hdis & Hfree).
  assert (Hd1 : deref (registry (net s1)) (Some ptr) = Ok (authenticated uid ex se)).
  { rewrite Hreg. unfold deref, update_session. cbn. rewrite list_lookup_alter_eq, (reg_obj _ _ _ _ Hse). done. }
  unfold register_new_id. rewrite Hd1. cbn [obind]. change (updated (authenticated uid ex se)) with (updated se). rewrite Hupd.
  rewrite Hcs, Hreg, Hrun. cbn [obind].
  set (n2 := set_registry r' (net s1)). set (s2 := set_conns cs' (set_net n2 s1)).
  assert (Hok2 : chat_ok (chat s2) B E D (S (S k))).
  { constructor; [by destruct Hok; constructor|done|done]. }
  pose proof (deref_registered _ _ _ _ Hnew) as Hd2.
  destruct (send_user_id_ok ptr (set_updated true (authenticated uid ex se)) s2 B E D (S k) Hok2 Hroom Hd2) as (n3 & B3 & E3 & D3 & Hs & Hok3 & Hr3).
  { change (length (take 16 uid) = UUID_SIZE). rewrite take_ge by lia. done. }
  rewrite Hs. cbn [obind]. unfold notify_sender. change (registry (net (set_net n3 s2))) with (registry n3). rewrite Hr3.
  change (registry (net s2)) with r'. rewrite Hd2. cbn [obind].
  change (chat (set_net n3 s2)) with ((chat s2).1, n3).
  destruct (notifySend_ok (userId (set_updated true (authenticated uid ex se))) _ _ _ _ _ Hok3) as (st' & D' & Hn & Hok' & Hr4 & Hqu).
  rewrite Hn. cbn [obind]. exists st', cs', B3, E3, D'. rewrite Hr4. cbn [snd]. rewrite Hr3. split_and!; try done.
Qed.
(** A login with the right credentials on a session that was not renamed yet. *)
Lemma login_registers_spec e p ptr pkt ident pw tid se u s B E D k :
  chat_ok (chat s) B E D (S (S (S k))) -> received_packet p pkt B (chat s) -> (base.size B < currentSize)%nat ->
  type_of_code (type (header pkt)) = Some PKT_LOGIN -> read_Login pkt = Ok (ident, pw) ->
  registered (registry (net s)) tid ptr se -> updated se = false -> ids_ok (user_store_ (auth s)) ->
  0 <= t_check e < 2 ^ 63 -> credentials (auth s) ident pw = Some u ->
  let newid := UserIdToHexString (user_id u) in
  exists s' B' E' D', handlePacket hash e p ptr s = Ok s' /\ chat_ok (chat s') B' E' D' k /\
    auth s' = logged_in (user_id u) (auth s) /\ signup s' = signup s /\ files s' = files s /\ groups s' = groups s /\ threads s' = threads s /\
    (forall id, queued id (chat s') = queued id (chat s)) /\
    (exists se', registered (registry (net s')) newid ptr se' /\ socket se' = socket se /\
       forall t, ValidateSessionHotPath se' t = (t <? t_check e + 900)) /\
    (forall id q o, registered (registry (net s)) id q o -> id <> tid -> id <> newid -> registered (registry (net s')) id q o) /\
    (forall q o, registered (registry (net s)) newid q o -> newid <> tid -> conns s' = HandleDisconnectWithoutLock (socket o) (conns s)) /\
    (sessions (registry (net s)) !! newid = None -> conns s' = conns s).
Proof.
  intros Hok Hrec Hroom Ht Hread Hse Hupd Hids Hnow Hcred newid.
  pose proof (deref_registered _ _ _ _ Hse) as Hd. pose proof (reg_userId _ _ _ _ Hse) as Hid.
  destruct (login_granted (t_check e) p ptr pkt ident pw se (auth s) u (chat s) B E D (S (S k)) Hok Hrec Hread Hd Hids Hnow Hcred)
    as (n1 & B1 & E1 & D1 & Hlog & Hok1 & Hreg1 & Hsz & Hu & Hkeep).
  set (s1 := set_authm (logged_in (user_id u) (auth s)) (set_net n1 s)).
  assert (Hq1 : forall id cq it, (chat s1).1 !! id = Some cq -> it ∈ cqueue cq -> sendable_at B1 (net s1) (packet it)).
  { intros id cq it Hl Hit. destruct (chat_queues _ _ _ _ _ Hok id cq it Hl Hit) as (_ & pk & Hpk & Hle), (Hkeep id cq it Hl Hit) as [Hin Hc].
    split; [done|]. rewrite Hpk in Hc. change (packets (net s1)) with (packets n1).
    destruct (pool (packets n1) !! packet it) as [pk'|]; [|done]. exists pk'. split; [done|]. cbn in Hc. unfold content in Hc. by injection Hc as _ ->. }
  destruct (after_grant (user_id u) (t_check e + 900) tid ptr se s s1 B1 E1 D1 k (chat_reg _ _ _ _ _ Hok) Hse Hupd Hu Hreg1 eq_refl Hok1)
    as (st' & cs' & B' & E' & D' & Hrun & Hok' & Hqu & Hnew & Hoth & Hdis & Hfree); [lia|done|].
  exists (set_conns cs' (set_chat st' s1)), B', E', D'. destruct Hrec as (_ & Hp & _). split_and!; try done.
  - unfold handlePacket. change (packets (net s)) with (packets (chat s).2). rewrite Hp, Hd. cbn [obind]. rewrite Ht.
    cbn [fmap option_fmap option_map default bypassAuth negb andb handle_type]. unfold on_login. rewrite Hd. cbn [obind]. rewrite Hid.
    change (net s) with (chat s).2. rewrite Hlog. cbn [obind negb]. exact Hrun.
  - eexists. split_and!; [exact Hnew|done|]. intros t0. unfold ValidateSessionHotPath. cbn. done.
Qed.

(** A login makes the user reachable.  On a login packet with the right credentials, on
    a session that was registered under its temporary id and not renamed yet, the router
    ends with the session registered under the user's id and valid for 15 minutes, a new
    refresh family in the store, nobody else's session touched except one that was logged
    in as the same user, which is disconnected; and with every send queue holding what it
    held. *)
Theorem login_registers e p ptr pkt ident pw tid se u s B E D k :
  chat_ok (chat s) B E D (S (S (S k))) -> received_packet p pkt B (chat s) -> (base.size B < currentSize)%nat ->
  type_of_code (type (header pkt)) = Some PKT_LOGIN -> read_Login pkt = Ok (ident, pw) ->
  registered (registry (net s)) tid ptr se -> updated se = false -> ids_ok (user_store_ (auth s)) ->
  0 <= t_check e < 2 ^ 63 -> credentials (auth s) ident pw = Some u ->
  let newid := UserIdToHexString (user_id u) in
  exists s' B' E' D', handlePacket hash e p ptr s = Ok s' /\ chat_ok (chat s') B' E' D' k /\
    auth s' = logged_in (user_id u) (auth s) /\ signup s' = signup s /\ files s' = files s /\ groups s' = groups s /\ threads s' = threads s /\
    (forall id, queued id (chat s') = queued id (chat s)) /\
    (exists se', registered (registry (net s')) newid ptr se' /\ socket se' = socket se /\
       forall t, ValidateSessionHotPath se' t = (t <? t_check e + 900)) /\
    (forall id q o, registered (registry (net s)) id q o -> id <> tid -> id <> newid -> registered (registry (net s')) id q o) /\
    (forall q o, registered (registry (net s)) newid q o -> newid <> tid -> conns s' = HandleDisconnectWithoutLock (socket o) (conns s)) /\
    (sessions (registry (net s)) !! newid = None -> conns s' = conns s).
Proof. apply login_registers_spec. Qed.

(** A login on a session that was renamed before. *)
Lemma relogin_spec e p ptr pkt ident pw se u s B E D k :
  chat_ok (chat s) B E D (S k) -> received_packet p pkt B (chat s) ->
  type_of_code (type (header pkt)) = Some PKT_LOGIN -> read_Login pkt = Ok (ident, pw) ->
  deref (registry (net s)) (Some ptr) = Ok se -> updated se = true -> ids_ok (user_store_ (auth s)) ->
  0 <= t_check e < 2 ^ 63 -> credentials (auth s) ident pw = Some u ->
  let newid := UserIdToHexString (user_id u) in
  (chat s).1 !! newid = None ->
  exists s', handlePacket hash e p ptr s = Ok s' /\ auth s' = logged_in (user_id u) (auth s) /\ conns s' = conns s /\
    (chat s').1 = (chat s).1 /\
    (exists se', deref (registry (net s')) (Some ptr) = Ok se' /\ userId se' = newid /\
       forall t, ValidateSessionHotPath se' t = (t <? t_check e + 900)) /\
    registry (net s') = update_session (authenticated (user_id u) (t_check e + 900)) ptr (registry (net s)).
Proof.
  intros Hok Hrec Ht Hread Hd Hupd Hids Hnow Hcred newid Hidle.
  destruct (login_granted (t_check e) p ptr pkt ident pw se (auth s) u (chat s) B E D k Hok Hrec Hread Hd Hids Hnow Hcred)
    as (n1 & B1 & E1 & D1 & Hlog & _ & Hreg1 & _).
  set (s1 := set_authm (logged_in (user_id u) (auth s)) (set_net n1 s)).
  assert (Hd1 : deref (registry (net s1)) (Some ptr) = Ok (authenticated (user_id u) (t_check e + 900) se)).
  { change (registry (net s1)) with (registry n1). rewrite Hreg1. revert Hd. unfold net, deref, update_session. cbn.
    rewrite list_lookup_alter_eq. destruct (spool _ !! ptr); [|done]. by intros [= ->]. }
  exists s1. destruct Hrec as (_ & Hp & _). split_and!; try done.
  - unfold handlePacket. change (packets (net s)) with (packets (chat s).2). rewrite Hp, Hd. cbn [obind]. rewrite Ht.
    cbn [fmap option_fmap option_map default bypassAuth negb andb handle_type]. unfold on_login. rewrite Hd. cbn [obind].
    change (net s) with (chat s).2. rewrite Hlog. cbn [obind negb]. change (set_authm _ (set_net n1 s)) with s1.
    unfold register_new_id, notify_sender. rewrite Hd1. cbn [obind].
    change (updated (authenticated (user_id u) (t_check e + 900) se)) with (updated se). rewrite Hupd. cbn [obind]. rewrite Hd1. cbn [obind].
    unfold notifySend. change (chat s1).1 with (chat s).1. cbn [authenticated set_userId userId]. fold newid. rewrite Hidle. done.
  - eexists. split_and!; [exact Hd1|done|]. intros t0. unfold ValidateSessionHotPath. cbn. done.
Qed.

(** A second login on a session is not registered.  When the session was renamed before,
    by an earlier login on the connection or, since [returnSession] does not reset the
    flag, on an earlier connection that used the same session object, a login with the
    right credentials authenticates the session and sends the tokens, but the registry
    still has it under the old id: a user who was not connected stays unreachable. *)
Theorem recycled_login_not_registered e p ptr pkt ident pw se u s B E D k :
  chat_ok (chat s) B E D (S k) -> received_packet p pkt B (chat s) ->
  type_of_code (type (header pkt)) = Some PKT_LOGIN -> read_Login pkt = Ok (ident, pw) ->
  deref (registry (net s)) (Some ptr) = Ok se -> updated se = true -> ids_ok (user_store_ (auth s)) ->
  0 <= t_check e < 2 ^ 63 -> credentials (auth s) ident pw = Some u ->
  let newid := UserIdToHexString (user_id u) in
  (chat s).1 !! newid = None ->
  exists s', handlePacket hash e p ptr s = Ok s' /\ auth s' = logged_in (user_id u) (auth s) /\ conns s' = conns s /\
    (chat s').1 = (chat s).1 /\
    (exists se', deref (registry (net s')) (Some ptr) = Ok se' /\ userId se' = newid /\
       forall t, ValidateSessionHotPath se' t = (t <? t_check e + 900)) /\
    (forall id, findSession id (registry (net s')) = findSession id (registry (net s))) /\
    socketToUserId (registry (net s')) = socketToUserId (registry (net s)).
Proof.
  intros Hok Hrec Ht Hread Hd Hupd Hids Hnow Hcred newid Hidle.
  destruct (relogin_spec e p ptr pkt ident pw se u s B E D k Hok Hrec Ht Hread Hd Hupd Hids Hnow Hcred Hidle)
    as (s' & Hrun & Ha & Hc & Hq & Hse & Hreg). exists s'. destruct Hse as (se' & Hd' & Hse).
  split_and!; [done|done|done|done|by exists se'|by intros id; rewrite Hreg|by rewrite Hreg].
Qed.
End Properties.

(** ** Evaluation *)

(** The session of [one_connection], changed. *)
Definition prepared (f : Session -> Session) : Registry := update_session f 0 one_connection.

Definition keeps_identity (f : Session -> Session) : Prop :=
  forall s, sid (f s) = sid s /\ socket (f s) = socket s /\ userId (f s) = userId s /\ iocp (f s) = iocp s.

Lemma prepared_session f :
  keeps_identity f -> registry_inv (prepared f) /\ exists se, registered (prepared f) (str "100id") 0 (f se).
Proof.
  intros Hf. destruct one_connection_session as [se Hse].
  destruct (update_session_inv one_connection 0 f) as [H1 H2]; [eapply reg_history_inv, first_connection_history|done|].
  split; [done|]. exists se. apply (H2 _ _ _ Hse).
Qed.

Definition sample_server (st : @State Net) : Server :=
  mkServer sample_auth sent (mkFiles ∅ 0 ∅ ∅ ∅ [] ∅) ∅ no_connections st [].

(** A server with the prepared session, and a message that has just arrived there. *)
Lemma message_at_server f m :
  keeps_identity f -> sound (C := compute_soft) m -> exists p pkt st se,
    chat_ok st {[p]} {[p]} ∅ 6 /\ received_packet p pkt {[p]} st /\ received (C := compute_soft) m pkt /\
    header pkt = frame_header (C := compute_soft) (message_type m) (payload (C := compute_soft) m) /\
    registered (registry st.2) (str "100id") 0 (f se) /\ st.1 = ∅.
Proof.
  intros Hf Hm. destruct (prepared_session f Hf) as [Hr [se Hse]].
  destruct (fresh_chat (prepared f) 6 Hr) as (st & Hok & H0 & Hreg & _); [lia|].
  destruct (arrive_ok m st ∅ ∅ ∅ 6 Hok) as (p & pkt & st1 & _ & _ & Hok1 & Hrp & Hrec & Hhd & _ & Hq & Hr1 & _); [|done|].
  { rewrite size_empty. pose proof currentSize_Z. lia. }
  rewrite !(right_id_L ∅ (∪)) in Hok1, Hrp. exists p, pkt, st1, se. rewrite Hr1, Hreg, Hq. by split_and!.
Qed.

Definition sample_env : Env := mkEnv 1000 1000 1000 true.
Definition sample_note : message := Chat PKT_PRIVATE_MESSAGE (zeros 16) (replicate 16 Byte.x01) [] (str "hi") 0.

Lemma sample_note_sound : sound (C := compute_soft) sample_note.
Proof. split_and!; [repeat constructor|exact I|vm_compute; lia]. Qed.
Lemma sample_login_sound : sound (C := compute_soft) (Login (str "ada") (str "pw")).
Proof. split_and!; [repeat constructor|exact I|vm_compute; lia]. Qed.

(** A private message from a connection that has not logged in. *)
Lemma unauthenticated_rejected_witness :
  exists p s n', handlePacket (C := compute_soft) (N := sample_sodium) sample_hash sample_env p 0 s = Ok (set_net n' s) /\
    registry n' = registry (net s).
Proof.
  destruct (message_at_server (set_auth 0 [] 0) sample_note) as (p & pkt & st & se & Hok & Hrp & _ & Hhd & Hse & _);
    [done|apply sample_note_sound|].
  destruct (unauthenticated_rejected (C := compute_soft) (N := sample_sodium) sample_hash sample_env p 0 pkt
    (set_auth 0 [] 0 se) (sample_server st) {[p]} {[p]} ∅ 5) as (n' & B' & E' & D' & Hrun & _ & _ & Hr & _).
  - exact Hok.
  - exact Hrp.
  - exact (deref_registered _ _ _ _ Hse).
  - rewrite Hhd, type_of_frame. reflexivity.
  - reflexivity.
  - exists p, (sample_server st), n'. split; [exact Hrun|exact Hr].
Defined.

(** A private message from a connection authenticated until time 2000. *)
Lemma private_message_delivered_witness :
  exists p s st1 st', handlePacket (C := compute_soft) (N := sample_sodium) sample_hash sample_env p 0 (set_chat st1 s) = Ok (set_chat st' s) /\
    queued (@UserIdToHexString sample_sodium (replicate 16 Byte.x01)) st' = [p].
Proof.
  destruct (prepared_session (set_auth AUTHENTICATED [] 2000)) as [Hr [se Hse]]; [done|].
  destruct (fresh_chat _ 6 Hr) as (st & Hok & H0 & Hreg & _); [lia|].
  destruct (private_message_delivered (C := compute_soft) (N := sample_sodium) sample_hash sample_env (zeros 16) (replicate 16 Byte.x01)
    [] (str "hi") 0 0 (set_auth AUTHENTICATED [] 2000 se) (sample_server st) ∅ ∅ ∅ 5)
    as (p & st1 & st' & E' & D' & _ & Hrun & _ & _ & Hq & _).
  - apply sample_note_sound.
  - exact Hok.
  - rewrite size_empty. pose proof currentSize_Z. lia.
  - unfold net. cbn [sample_server chat]. rewrite Hreg. exact (deref_registered _ _ _ _ Hse).
  - reflexivity.
  - exists p, (sample_server st), st1, st'. split; [exact Hrun|]. rewrite Hq. unfold queued. cbn [sample_server chat].
    rewrite H0, lookup_empty. reflexivity.
Defined.

(** Ada logs in on a connection that is not renamed yet. *)
Lemma login_registers_witness :
  exists p s s' se', handlePacket (C := compute_soft) (N := sample_sodium) sample_hash sample_env p 0 s = Ok s' /\
    registered (registry (net s')) (@UserIdToHexString sample_sodium (zeros 16)) 0 se'.
Proof.
  destruct (message_at_server (set_updated false) (Login (str "ada") (str "pw"))) as (p & pkt & st & se & Hok & Hrp & Hrec & Hhd & Hse & _);
    [done|apply sample_login_sound|].
  assert (Hu : exists u, @credentials sample_sodium sample_auth (str "ada") (str "pw") = Some u /\ user_id u = zeros 16).
  { vm_compute. eexists. split; reflexivity. }
  destruct Hu as (u & Hcred & Hid).
  destruct (login_registers (C := compute_soft) (N := sample_sodium) (LN := sample_laws) sample_hash sample_env p 0 pkt (str "ada") (str "pw")
    (str "100id") (set_updated false se) u (sample_server st) {[p]} {[p]} ∅ 3)
    as (s' & B' & E' & D' & Hrun & _ & _ & _ & _ & _ & _ & _ & (se' & Hnew & _) & _).
  - exact Hok.
  - exact Hrp.
  - rewrite size_singleton. pose proof currentSize_Z. lia.
  - rewrite Hhd. apply type_of_frame.
  - exact Hrec.
  - exact Hse.
  - reflexivity.
  - apply sample_ids.
  - cbn [sample_env t_check]. lia.
  - exact Hcred.
  - rewrite Hid in Hnew. exists p, (sample_server st), s', se'. split; [exact Hrun|exact Hnew].
Defined.

(** Ada logs in on a session object that an earlier connection had renamed. *)
Lemma recycled_login_not_registered_witness :
  exists p s s', handlePacket (C := compute_soft) (N := sample_sodium) sample_hash sample_env p 0 s = Ok s' /\
    findSession (str "100id") (registry (net s')) = findSession (str "100id") (registry (net s)).
Proof.
  destruct (message_at_server (set_updated true) (Login (str "ada") (str "pw"))) as (p & pkt & st & se & Hok & Hrp & Hrec & Hhd & Hse & H0);
    [done|apply sample_login_sound|].
  assert (Hu : exists u, @credentials sample_sodium sample_auth (str "ada") (str "pw") = Some u) by (vm_compute; eexists; reflexivity).
  destruct Hu as (u & Hcred).
  destruct (recycled_login_not_registered (C := compute_soft) (N := sample_sodium) (LN := sample_laws) sample_hash sample_env p 0 pkt (str "ada") (str "pw")
    (set_updated true se) u (sample_server st) {[p]} {[p]} ∅ 5) as (s' & Hrun & _ & _ & _ & _ & Hf & _).
  - exact Hok.
  - exact Hrp.
  - rewrite Hhd. apply type_of_frame.
  - exact Hrec.
  - exact (deref_registered _ _ _ _ Hse).
  - reflexivity.
  - apply sample_ids.
  - cbn [sample_env t_check]. lia.
  - exact Hcred.
  - cbn [sample_server chat]. rewrite H0. apply lookup_empty.
  - exists p, (sample_server st), s'. split; [exact Hrun|apply Hf].
Defined.
