(* ===== verification/Dispatch.v ===== *)
(** Whole batches of received packets through the worker thread and the router: the order
    of messages from the receive buffer of the sender to the queue of the receiver
    (network/IOCPManager.cpp, workerThread, and chat/MessageRouter.cpp). *)

From S2P Require Import Prelude Crc32c Packet Serialize CircularBuffer Fqueue PacketPool Framing Session Groups Offline Network AuthStore Auth Delivery GroupChat FileTransfer Table SignUp Router.

(** ** Lemmas: packets nobody sends keep everything *)

(** The packets that are neither [p] nor in a queue. *)
Definition idle (st : @State Net) (i : nat) : Prop :=
  forall id cq it, st.1 !! id = Some cq -> it ∈ cqueue cq -> packet it <> i.

Lemma initiate_send_other sk p n b n' i :
  initiate_send sk p n = Ok (b, n') -> i <> p -> pool (packets n') !! i = pool (packets n) !! i.
Proof.
  unfold initiate_send. destruct (borrowIOPdata (io n)) as [[q|] ip]; [|done]. destruct (pool (packets n) !! p); [|done].
  destruct (io_pool ip !! q); [|done]. destruct (_ <? _); [done|]. destruct (answer n).
  - intros [_ <-]%Ok_pair_inj Hne. by apply list_lookup_alter_ne.
  - destruct (returnIOPdata _ _); cbn [obind]; try done. intros [_ <-]%Ok_pair_inj Hne. by apply list_lookup_alter_ne.
Qed.

Lemma route_other p id n b n' i :
  route_packet p id n = Ok (b, n') -> i <> p -> pool (packets n') !! i = pool (packets n) !! i.
Proof.
  unfold route_packet. destruct (decide (id = [])); [by intros [_ <-]%Ok_pair_inj|].
  destruct (findSession id (registry n)) as [q|]; [|by intros [_ <-]%Ok_pair_inj].
  destruct (deref (registry n) (Some q)) as [se| |]; cbn [obind]; try done. unfold sendPacket.
  destruct (iocp se); [by apply initiate_send_other|by intros [_ <-]%Ok_pair_inj].
Qed.

Lemma manage_other p id st st' i :
  ManageCompletePacket p id st = Ok st' -> idle st i -> i <> p ->
  pool (packets st'.2) !! i = pool (packets st.2) !! i /\ idle st' i.
Proof.
  intros Hrun Hi Hne. unfold ManageCompletePacket in Hrun. set (old := default (mkCq [] false) (st.1 !! id)) in Hrun.
  assert (Hitems : forall it, it ∈ cqueue old ++ [mkItem id p] -> packet it <> i).
  { intros it [Hit| ->%list_elem_of_singleton]%elem_of_app; [|by apply not_eq_sym].
    unfold old in Hit. destruct (st.1 !! id) as [c|] eqn:Ec; [by eapply Hi|by apply elem_of_nil in Hit]. }
  assert (Hidle : forall (n' : Net) cq', cqueue cq' = cqueue old ++ [mkItem id p] -> idle (<[id := cq']> st.1, n') i).
  { intros n' cq' Hc id' c it. cbn [fst]. intros [[<- <-]|[_ Hl]]%lookup_insert_Some Hit; [|by eapply Hi].
    rewrite Hc in Hit. by apply Hitems. }
  unfold cq_claim in Hrun. cbn [cq_push flag cqueue] in Hrun. destruct (flag old).
  - injection Hrun as <-. split; [done|]. by apply Hidle.
  - unfold send_front in Hrun. cbn [cqueue] in Hrun. destruct (cqueue old ++ [mkItem id p]) as [|front rest] eqn:Ef; [done|].
    change (routePacket (packet front) id st.2) with (route_packet (packet front) id st.2) in Hrun.
    destruct (route_packet (packet front) id st.2) as [[b n']| |] eqn:Er; cbn [obind] in Hrun; try done.
    injection Hrun as <-. cbn [snd]. split.
    + apply (route_other _ _ _ _ _ _ Er). apply not_eq_sym, Hitems. by left.
    + apply Hidle. by destruct b.
Qed.

Lemma postRecv_ready s n B E D k :
  net_ok n B E D (S k) ->
  exists n' D', postRecv s n = Ok (answer n, n') /\ net_ok n' B E D' k /\ registry n' = registry n /\ packets n' = packets n /\
    reads n' = reads n ++ (if answer n then [s] else []).
Proof.
  intros [Hpool Hi Hsz Hy].
  pose proof (borrow_io_spec (io n) D Hi ltac:(unfold io_young; lia)) as Hb. rewrite decide_True in Hb by lia.
  destruct Hb as (i & ip & d & Eb & Hn & Hlt & Ep & Hd & Hid & Hi' & Hq). unfold postRecv. rewrite Eb, Ep, Hd. set (d' := mkIo _ _ _ _ _ _ _).
  assert (Hw : io_inv (write_io i d' ip) ({[i]} ∪ D)) by (by apply write_io_inv). destruct (answer n).
  - eexists _, ({[i]} ∪ D). split; [done|]. split_and!; try done. constructor; cbn [packets io]; try done.
    + rewrite size_union, size_singleton by (by apply disjoint_singleton_l). lia.
    + cbn [write_io io_free]. lia.
  - destruct (return_io_spec (write_io i d' ip) ({[i]} ∪ D) i d') as (ip' & -> & Hi2 & Hq'); [done| | | |].
    + apply elem_of_union_l. by apply elem_of_singleton.
    + cbn [write_io io_pool]. rewrite Ep. apply list_lookup_insert_eq. by eapply lookup_lt_Some.
    + cbn [write_io io_free]. lia.
    + cbn [write_io io_free] in Hq'. cbn [obind]. eexists _, (({[i]} ∪ D) ∖ {[i]}). split; [done|]. cbn [registry packets reads].
      rewrite app_nil_r. split_and!; try done. constructor; cbn [packets io]; try done; [|lia].
      replace (({[i]} ∪ D) ∖ {[i]}) with D by (clear -Hn; set_solver). lia.
Qed.

Lemma Forall2_impl_in {A B} (P Q : A -> B -> Prop) l l' :
  Forall2 P l l' -> (forall a b, b ∈ l' -> P a b -> Q a b) -> Forall2 Q l l'.
Proof.
  induction 1 as [|a b l l' Hab _ IH]; intros H; constructor; [apply H; [left|done]|]. apply IH. intros a' b' Hb. apply H. by right.
Qed.

(** ** A batch of private messages *)

(** The messages a client sends to other users. *)
Record Note := mkNote { n_claimed : bstr; n_recv : bstr; n_user : bstr; n_text : bstr; n_ts : Z }.
Definition note_message (m : Note) : message :=
  Chat PKT_PRIVATE_MESSAGE (n_claimed m) (n_recv m) (n_user m) (n_text m) (n_ts m).
Section Properties.
Context {C : Checksum} {L : ChecksumLaws C} {N : Sodium} (hash : bstr -> Z).

Definition note_to (m : Note) : bstr := UserIdToHexString (n_recv m).

(** The packets of a batch that are addressed to [id], in order. *)
Fixpoint addressed (id : bstr) (ms : list Note) (ps : list nat) : list nat :=
  match ms, ps with
  | m :: ms, p :: ps => if decide (note_to m = id) then p :: addressed id ms ps else addressed id ms ps
  | _, _ => []
  end.

(** A packet as the framing leaves it: it holds the frame of a message, and no queue
    has it. *)
Definition unparsed (B : gset nat) (st : @State Net) (m : Note) (p : nat) : Prop :=
  sound (note_message m) /\ p ∈ B /\ idle st p /\
  exists pkt, pool (packets st.2) !! p = Some pkt /\ holds_frame pkt PKT_PRIVATE_MESSAGE (payload (note_message m)).

Lemma note_receiver m pkt : received (note_message m) pkt -> payload_uuid 16 pkt = n_recv m.
Proof.
  cbn [received note_message]. unfold read_ChatMessage. destruct (payload_string _ _ pkt); cbn; try done. by intros [= _ <- _].
Qed.

(** Parsing a packet of the local queue that holds a frame. *)
Lemma dispatch_framed e t pl p ptr pkt s B E D k :
  p ∈ B -> idle (chat s) p -> pool (packets (net s)) !! p = Some pkt -> holds_frame pkt t pl -> chat_ok (chat s) B E D k ->
  exists pkt2 w, dispatch_one hash e p ptr s = handlePacket hash e p ptr (set_net (set_packets w (net s)) s) /\
    chat_ok ((chat s).1, set_packets w (net s)) B E D k /\ received_packet p pkt2 B ((chat s).1, set_packets w (net s)) /\
    holds_frame pkt2 t pl /\ header pkt2 = frame_header t pl /\ data pkt2 = data pkt /\
    (forall i, i <> p -> pool w !! i = pool (packets (net s)) !! i).
Proof.
  intros Hin Hidle Hp Hf Hok. set (pkt1 := set_parsedHeader true (set_header (frame_header t pl) pkt)).
  set (pkt2 := set_parsedData true pkt1). set (w := write_packet p (fun _ => pkt2) (packets (net s))).
  assert (Hw : pool w !! p = Some pkt2).
  { unfold w. cbn [write_packet pool]. by rewrite list_lookup_alter_eq, Hp. }
  assert (Hother : forall i, i <> p -> pool w !! i = pool (packets (net s)) !! i).
  { intros i Hne. unfold w. cbn [write_packet pool]. by rewrite list_lookup_alter_ne. }
  exists pkt2, w. split_and!; try done.
  - unfold dispatch_one. rewrite Hp, (parseHeader_frame _ _ _ Hf). fold pkt1. by rewrite (parseData_frame pkt1 t pl) by done.
  - destruct Hok as [Hnet Hr Hq]. constructor; cbn [fst snd]; [|done|].
    + destruct Hnet. constructor; cbn [set_packets packets io]; [|done..]. apply write_inv_at; [done|done|].
      intros p0 Hp0. rewrite Hp in Hp0. by injection Hp0 as <-.
    + intros id cq it Hl Hit. destruct (Hq id cq it Hl Hit) as (HB & pk & Hpk & Hle). split; [done|]. exists pk.
      cbn [set_packets packets]. by rewrite Hother by (by eapply Hidle).
Qed.

Lemma dispatch_note e m p ptr se s B E D k :
  unparsed B (chat s) m p -> chat_ok (chat s) B E D (S k) ->
  deref (registry (net s)) (Some ptr) = Ok se -> ValidateSessionHotPath se (t_gate e) = true ->
  exists st' D', dispatch_one hash e p ptr s = Ok (set_chat st' s) /\ chat_ok st' B E D' k /\ registry st'.2 = registry (net s) /\
    (forall id, queued id st' = queued id (chat s) ++ addressed id [m] [p]) /\
    (forall i, i <> p -> idle (chat s) i -> pool (packets st'.2) !! i = pool (packets (net s)) !! i /\ idle st' i) /\
    (forall i, data <$> pool (packets st'.2) !! i = data <$> pool (packets (net s)) !! i).
Proof.
  intros (Hm & Hin & Hidle & pkt & Hp & Hf) Hok Hse Hval. pose proof Hm as (Hu & Hi & Hfit).
  destruct (dispatch_framed e _ _ p ptr pkt s B E D (S k) Hin Hidle Hp Hf Hok)
    as (pkt2 & w & Hone & Hok1 & (_ & Hw & _) & Hf2 & Hhd & Hdat & Hother).
  set (st1 := ((chat s).1, set_packets w (net s)) : @State Net) in *. cbn [st1 snd set_packets packets] in Hw.
  assert (Hrec : received (note_message m) pkt2) by (by apply received_frame).
  assert (Hs : sendable_at B st1.2 p).
  { split; [done|]. exists pkt2. split; [done|]. rewrite (length_field_frame _ _ _ Hf2).
    unfold fits in Hfit. pose proof sizeof_data_Z. unfold len. lia. }
  destruct (manage_ok p (note_to m) st1 B E D k Hok1 Hs) as (st' & D' & Hmng & Hok' & Hreg & Hsame & Hqu & Hoth).
  exists st', D'. split_and!; try done.
  - rewrite Hone. change (set_net _ s) with (set_chat st1 s). unfold handlePacket. change (net (set_chat st1 s)) with st1.2.
    cbn [st1 snd set_packets packets]. rewrite Hw. change (registry (set_packets w (net s))) with (registry (net s)). rewrite Hse. cbn [obind].
    rewrite Hhd, type_of_frame. cbn [fmap option_fmap option_map default bypassAuth negb andb]. rewrite Hval. cbn [negb handle_type].
    change (chat (set_chat st1 s)) with st1. rewrite (note_receiver m pkt2 Hrec). fold (note_to m). rewrite Hmng. done.
  - intros id. cbn [addressed]. destruct (decide (note_to m = id)) as [<-|Hne]; [exact Hqu|].
    rewrite app_nil_r. unfold queued. by rewrite Hoth.
  - intros i Hne Hi'. destruct (manage_other _ _ _ _ i Hmng Hi' Hne) as [Hpo Hid]. split; [|done].
    rewrite Hpo. by apply Hother.
  - intros i. rewrite (same_data_bytes _ _ i Hsame). cbn [st1 snd set_packets packets]. destruct (decide (i = p)) as [->|Hne].
    + change (packets (net s)) with (packets (chat s).2). rewrite Hw, Hp. cbn. by rewrite Hdat.
    + by rewrite Hother.
Qed.

Lemma unparsed_after B st st' m p p' :
  unparsed B st m p' -> p' <> p ->
  (forall i, i <> p -> idle st i -> pool (packets st'.2) !! i = pool (packets st.2) !! i /\ idle st' i) -> unparsed B st' m p'.
Proof.
  intros (Hm & Hin & Hi & pkt & Hp & H) Hne Hk. destruct (Hk p' Hne Hi) as [Hpo Hi']. split_and!; [done|done|done|].
  exists pkt. by rewrite Hpo.
Qed.

Lemma addressed_cons id m ms p ps : addressed id (m :: ms) (p :: ps) = addressed id [m] [p] ++ addressed id ms ps.
Proof. cbn [addressed]. by destruct (decide _). Qed.

Lemma dispatch_notes clock ms ps ptr se : forall i s B E D k,
  chat_ok (chat s) B E D (length ps + k) -> Forall2 (unparsed B (chat s)) ms ps -> NoDup ps ->
  deref (registry (net s)) (Some ptr) = Ok se -> (forall j, ValidateSessionHotPath se (t_gate (clock j)) = true) ->
  exists st' D', dispatch_all hash clock i ps ptr s = Ok (set_chat st' s) /\ chat_ok st' B E D' k /\ registry st'.2 = registry (net s) /\
    (forall id, queued id st' = queued id (chat s) ++ addressed id ms ps) /\
    (forall i, data <$> pool (packets st'.2) !! i = data <$> pool (packets (net s)) !! i).
Proof.
  revert ms. induction ps as [|p ps IH]; intros ms i s B E D k Hok Hall Hnd Hse Hval; inversion Hall as [|m p' ms' ps' Hm Hms]; subst.
  - exists (chat s), D. split_and!; try done; [by destruct s|]. intros id. by rewrite app_nil_r.
  - apply list.NoDup_cons in Hnd as [Hnin Hnd]. cbn [length Nat.add] in Hok.
    destruct (dispatch_note (clock i) m p ptr se s B E D _ Hm Hok Hse (Hval i)) as (st1 & D1 & Hone & Hok1 & Hreg1 & Hq1 & Hk1 & Hd1).
    destruct (IH ms' (S i) (set_chat st1 s) B E D1 k) as (st' & D' & Hrun & Hok' & Hreg & Hq & Hd); try done.
    + apply (Forall2_impl_in (unparsed B (chat s))); [done|]. intros m' q Hq Hw. apply (unparsed_after _ (chat s) _ _ p); [done| |done].
      intros ->. done.
    + change (registry (net (set_chat st1 s))) with (registry st1.2). by rewrite Hreg1.
    + exists st', D'. cbn [dispatch_all]. rewrite Hone. cbn [obind]. rewrite Hrun. split_and!; try done.
      * change (registry (net (set_chat st1 s))) with (registry st1.2) in Hreg. by rewrite Hreg.
      * intros id. rewrite (addressed_cons id m), app_assoc, <- Hq1. apply Hq.
      * intros j. by rewrite Hd, <- Hd1.
Qed.
(** Messages arrive in the order they were sent.  When the worker thread has taken a
    batch of private messages, to any receivers, out of the receive buffer of an
    authenticated connection, it succeeds, and every receiver's queue is the old one
    followed by exactly the packets of the batch addressed to it, in their order; nothing
    else of the server changes.  Then the next receive is posted, or, when the system
    refuses it, the connection is closed. *)
Theorem batch_in_order clock ms ps tid ptr se s B E D k :
  chat_ok (chat s) B E D (length ps + S k) -> Forall2 (unparsed B (chat s)) ms ps -> NoDup ps ->
  registered (registry (net s)) tid ptr se -> (forall j, ValidateSessionHotPath se (t_gate (clock j)) = true) ->
  exists s' D', after_receive hash clock (socket se) ps false s = Ok s' /\ chat_ok (chat s') B E D' k /\
    (forall id, queued id (chat s') = queued id (chat s) ++ addressed id ms ps) /\
    auth s' = auth s /\ signup s' = signup s /\ files s' = files s /\ groups s' = groups s /\ threads s' = threads s /\
    (forall i, data <$> pool (packets (net s')) !! i = data <$> pool (packets (net s)) !! i) /\
    (registry (net s') = registry (net s) /\ conns s' = conns s /\ (exists l, reads (net s') = l ++ [socket se]) \/
     handleDisconnect (socket se) (registry (net s)) (conns s) = Ok (registry (net s'), conns s')).
Proof.
  intros Hok Hall Hnd Hse Hval. pose proof (deref_registered _ _ _ _ Hse) as Hd.
  destruct (dispatch_notes clock ms ps ptr se 0 s B E D (S k) Hok Hall Hnd Hd Hval) as (st1 & D1 & Hrun & Hok1 & Hreg1 & Hq1 & Hdat).
  assert (Hses : session_for (socket se) (registry (net s)) = Ok (Some ptr, registry (net s))).
  { unfold session_for. destruct (findBySocket_eq _ (socket se) (chat_reg _ _ _ _ _ Hok)) as [[Hn _]|(id & p & s0 & H & Hs & Ef)].
    - pose proof (reg_back _ _ _ _ Hse). unfold net in *. congruence.
    - unfold net in *. rewrite Ef. pose proof (registered_sock _ _ _ _ _ _ _ H Hse Hs) as ->. by destruct (registered_fun _ _ _ _ _ _ H Hse) as [-> _]. }
  assert (Hpre : dispatch_batch hash clock (socket se) ps false s = Ok (false, set_chat st1 s)).
  { unfold dispatch_batch. destruct ps as [|p ps]; [injection Hrun as <-; by destruct s|]. rewrite Hses. cbn [obind].
    replace (set_net _ s) with s by (destruct s as [? ? ? ? ? [q []] ?]; done). by rewrite Hrun. }
  unfold after_receive. rewrite Hpre. cbn [obind]. change (net (set_chat st1 s)) with st1.2.
  destruct (postRecv_ready (socket se) st1.2 B E D1 k (chat_net _ _ _ _ _ Hok1)) as (n2 & D2 & Hpost & Hok2 & Hreg2 & Hpk2 & Hrd).
  rewrite Hpost. cbn [obind].
  assert (Hfin : forall r, registry_inv r -> chat_ok (st1.1, set_registry r n2) B E D2 k).
  { intros r Hr. constructor; cbn [fst snd]; [by destruct Hok2; constructor|done|]. intros id cq it Hl Hit.
    destruct (chat_queues _ _ _ _ _ Hok1 id cq it Hl Hit) as [HB Hpk]. split; [done|]. by rewrite <- Hpk2 in Hpk. }
  assert (Hr2 : registry n2 = registry (net s)) by (by rewrite Hreg2).
  destruct (answer st1.2); cbn [negb].
  - exists (set_net n2 (set_chat st1 s)), D2. split_and!; try done.
    + pose proof (Hfin (registry n2)) as H. destruct n2. apply H. rewrite Hr2. apply (chat_reg _ _ _ _ _ Hok).
    + intros i. change (packets (net (set_net n2 (set_chat st1 s)))) with (packets n2). rewrite Hpk2. apply Hdat.
    + left. split_and!; [done|done|by eexists].
  - change (conns (set_net n2 (set_chat st1 s))) with (conns s). change (net (set_net n2 (set_chat st1 s))) with n2. rewrite Hr2.
    destruct (run_reg_op_inv (OpDisconnect (socket se)) (registry (net s)) (conns s) (chat_reg _ _ _ _ _ Hok) I) as (r & cs & Hdis & Hr).
    cbn [run_reg_op] in Hdis. rewrite Hdis. cbn [obind].
    exists (set_conns cs (set_net (set_registry r n2) (set_net n2 (set_chat st1 s)))), D2. split_and!; try done.
    + by apply Hfin.
    + intros i. change (data <$> pool (packets n2) !! i = data <$> pool (packets (net s)) !! i). rewrite Hpk2. apply Hdat.
    + by right.
Qed.
End Properties.

(** ** Evaluation *)

(** Two messages, to different users, that were taken out of the receive buffer. *)
Definition note_one : Note := mkNote (zeros 16) (replicate 16 Byte.x01) [] (str "hi") 0.
Definition note_two : Note := mkNote (zeros 16) (replicate 16 Byte.x02) [] (str "hello") 0.

Lemma note_sound m : length (n_claimed m) = 16%nat -> length (n_recv m) = 16%nat -> n_user m = [] -> (length (n_text m) <= 100)%nat ->
  n_ts m = 0 -> sound (C := compute_soft) (note_message m).
Proof.
  destruct m as [c r u tx ts]. cbn [n_claimed n_recv n_user n_text n_ts]. intros Hc Hr -> Htx ->. split_and!; [by repeat constructor|exact I|].
  unfold fits. cbn [note_message payload n_claimed n_recv n_user n_text n_ts]. rewrite !length_app, ?length_be.
  pose proof sizeof_data_Z. unfold HEADER_SIZE. rewrite ?Hc, ?Hr. cbn [length]. lia.
Qed.

Lemma prepared_socket f se : keeps_identity f -> registered (prepared f) (str "100id") 0 (f se) -> socket (f se) = 100.
Proof.
  intros Hf Hse. pose proof (reg_obj _ _ _ _ Hse) as H. revert H. unfold prepared, update_session. cbn [set_pool pool_of spool].
  rewrite list_lookup_alter_eq. destruct (spool (pool_of one_connection) !! 0%nat) as [x|] eqn:E0; [|done].
  intros H. apply (f_equal (fmap socket)) in H. cbn [fmap option_fmap option_map] in H. injection H as H.
  destruct (Hf x) as (_ & Hx & _). rewrite <- H, Hx. clear -E0. apply (f_equal (fmap socket)) in E0. vm_compute in E0.
  injection E0 as E0. symmetry. exact E0.
Qed.

Lemma batch_in_order_witness :
  exists p q s s', after_receive (C := compute_soft) (N := sample_sodium) sample_hash (fun _ => sample_env) 100 [p; q] false s = Ok s' /\
    queued (@note_to sample_sodium note_one) (chat s') = [p] /\ queued (@note_to sample_sodium note_two) (chat s') = [q].
Proof.
  destruct (prepared_session (set_auth AUTHENTICATED [] 2000)) as [Hr [se Hse]]; [done|].
  pose proof (prepared_socket (set_auth AUTHENTICATED [] 2000) se ltac:(done) Hse) as Hsk.
  destruct (fresh_chat _ 6 Hr) as (st & Hok & H0 & Hreg & _); [lia|].
  assert (S1 : sound (C := compute_soft) (note_message note_one)) by (apply note_sound; vm_compute; lia || reflexivity).
  assert (S2 : sound (C := compute_soft) (note_message note_two)) by (apply note_sound; vm_compute; lia || reflexivity).
  pose proof currentSize_Z as HZ.
  destruct (arrive_ok (note_message note_one) st ∅ ∅ ∅ 6 Hok) as (p & pk & st1 & _ & _ & Hok1 & (Hp & Hl & _) & _ & _ & Hf & Hq1 & Hr1 & _);
    [rewrite size_empty; lia|exact S1|]. rewrite !(right_id_L ∅ (∪)) in Hok1, Hp.
  destruct (arrive_ok (note_message note_two) st1 _ _ _ 6 Hok1) as (q & qk & st2 & _ & Hnew & Hok2 & (Hp2 & Hl2 & _) & _ & _ & Hf2 & Hq2 & Hr2 & _ & _ & Hold);
    [rewrite size_singleton; lia|exact S2|].
  assert (Hpq : p <> q) by (intros ->; by apply Hnew, elem_of_singleton).
  assert (Hempty : st2.1 = ∅) by congruence.
  destruct (batch_in_order (C := compute_soft) (N := sample_sodium) sample_hash (fun _ => sample_env) [note_one; note_two] [p; q]
    (str "100id") 0 (set_auth AUTHENTICATED [] 2000 se) (sample_server st2) ({[q]} ∪ {[p]}) ({[q]} ∪ {[p]}) ∅ 3)
    as (s' & D' & Hrun & _ & Hq & _).
  - exact Hok2.
  - constructor; [|constructor; [|constructor]]; cbn [sample_server chat].
    + split; [exact S1|]. split; [by apply elem_of_union_r, elem_of_singleton|].
      split; [intros id cq it; rewrite Hempty, lookup_empty; done|]. exists pk. split; [|exact Hf]. rewrite Hold; [exact Hl|exact Hp].
    + split; [exact S2|]. split; [by apply elem_of_union_l, elem_of_singleton|].
      split; [intros id cq it; rewrite Hempty, lookup_empty; done|]. exists qk. split; [exact Hl2|exact Hf2].
  - constructor; [by rewrite list_elem_of_singleton|]. constructor; [apply not_elem_of_nil|constructor].
  - unfold net. cbn [sample_server chat]. rewrite Hr2, Hr1, Hreg. exact Hse.
  - reflexivity.
  - rewrite Hsk in Hrun. exists p, q, (sample_server st2), s'. split; [exact Hrun|]. rewrite !Hq. unfold queued. cbn [sample_server chat].
    rewrite Hempty, !lookup_empty. split; vm_compute; reflexivity.
Defined.
