(* ===== verification/Worker.v ===== *)
(** One iteration of the threads of network/IOCPManager.cpp: a worker thread that takes a
    completion from the port (workerThread), and the thread that accepts connections
    (acceptLoop), over the state of the whole server. *)

From S2P Require Import Prelude Crc32c Packet Serialize CircularBuffer Fqueue PacketPool Framing Session Groups Offline Network AuthStore Auth Delivery GroupChat FileTransfer Table SignUp Router Dispatch.

(** ** Definitions *)

(** What [GetQueuedCompletionStatus] reports; [lpOverlapped] is the I/O context, or
    null. *)
Record completion := mkCompletion {
  success : bool;
  bytesTransferred : Z;
  completionKey : Z;
  lpOverlapped : option nat
}.

Definition shutdown_signal (c : completion) : bool :=
  (completionKey c =? 0) && (bytesTransferred c =? 0) && bool_decide (lpOverlapped c = None).

(** The part of the server that sends. *)
Definition sending_side (s : Server) : Network.Server := Network.mkServer (net s) (chat s).1 (conns s).
Definition set_sending_side (v : Network.Server) (s : Server) : Server :=
  set_conns (Network.conns v) (set_chat (Network.offline v, Network.net v) s).
Definition lift_send (f : Network.Server -> outcome Network.Server) (s : Server) : outcome Server :=
  let! v := f (sending_side s) in Ok (set_sending_side v s).

(** The shared buffer of an open socket. *)
Definition connection_of (sk : Z) (cs : Connections) : option ConnectionBuffer :=
  socketBuffers cs !! sk ≫= fun b => heap cs !! b.
Definition update_connection (sk : Z) (c : option ConnectionBuffer) (cs : Connections) : Connections :=
  match socketBuffers cs !! sk, c with
  | Some b, Some c => mkConns (<[b := c]> (heap cs)) (socketBuffers cs) (disconnectedSockets cs) (closed cs)
  | _, _ => cs
  end.

Section Worker.
Context {C : Checksum} {N : Sodium} (hash : bstr -> Z).

(** A zero-byte receive has completed; [r] is what the socket gives when it is read.  The
    result is [None] when the fuel of the framing loop does not suffice. *)
Definition on_receive (clock : nat -> Env) (sk : Z) (ptr : nat) (r : recv_result) (s : Server) : option (outcome Server) :=
  match returnIOPdata (Some ptr) (io (net s)) with
  | Throw => Some Throw
  | UB => Some UB
  | Ok ip =>
      match on_recv (connection_of sk (conns s)) r (packets (net s)) with
      | None => None
      | Some res =>
          Some (let! (shouldDisconnect, c, pp, localQueue) := res in
                let s := set_conns (update_connection sk c (conns s)) (set_net (set_packets pp (set_io ip (net s))) s) in
                after_receive hash clock sk localQueue shouldDisconnect s)
      end
  end.

(** One turn of [workerThread]: false when the thread ends. *)
Definition worker_iteration (clock : nat -> Env) (c : completion) (r : recv_result) (s : Server) : option (outcome (bool * Server)) :=
  if shutdown_signal c then Some (Ok (false, s)) else
  match lpOverlapped c with
  | None => Some UB
  | Some ptr =>
      match io_pool (io (net s)) !! ptr with
      | None => Some UB
      | Some pData =>
          let go_on (o : outcome Server) := let! s := o in Ok (true, s) in
          if negb (success c) || ((bytesTransferred c =? 0) && negb (operationType pData =? 2)) then
            Some (go_on (lift_send (on_failed (completionKey c) ptr) s))
          else if operationType pData =? 2 then
            go_on <$> on_receive clock (completionKey c) ptr r s
          else if operationType pData =? 0 then
            Some (go_on (lift_send (on_send_completion (completionKey c) ptr (bytesTransferred c)) s))
          else Some (Ok (true, s))
      end
  end.
End Worker.

(** What [WSAAccept] gives, and whether the socket could be associated with the port. *)
Inductive accept_result :=
| Accepted (sk : Z) (associated : bool)
| AcceptError (err : Z).

Definition WSAEINTR : Z := 10004.
Definition WSAENOTSOCK : Z := 10038.

(** [handleDisconnect] on the whole server. *)
Definition disconnect_socket (sk : Z) (s : Server) : outcome Server :=
  let! (r, cs) := handleDisconnect sk (registry (net s)) (conns s) in
  Ok (set_conns cs (set_net (set_registry r (net s)) s)).

(** One turn of [acceptLoop]: false when the loop ends. *)
Definition accept_iteration (a : accept_result) (s : Server) : outcome (bool * Server) :=
  match a with
  | AcceptError err => Ok (negb ((err =? WSAEINTR) || (err =? WSAENOTSOCK)), s)
  | Accepted sk false =>
      let cs := conns s in
      Ok (true, set_conns (mkConns (heap cs) (socketBuffers cs) (disconnectedSockets cs) (sk :: closed cs)) s)
  | Accepted sk true =>
      let s := set_conns (accept sk (conns s)) s in
      let! (posted, n) := postRecv sk (net s) in
      let s := set_net n s in
      let! s := if negb posted then disconnect_socket sk s else Ok s in
      Ok (true, s)
  end.

(** ** Lemmas *)

Lemma net_ok_return n B E D k i :
  net_ok n B E D (S k) -> i ∈ D ->
  exists ip, returnIOPdata (Some i) (io n) = Ok ip /\ net_ok (set_io ip n) B E (D ∖ {[i]}) k.
Proof.
  intros [Hpool Hi Hsz Hy] HiD.
  destruct (lookup_lt_is_Some_2 (io_pool (io n)) i) as [d Hd]; [rewrite (io_len _ _ Hi); by apply (io_out _ _ Hi)|].
  destruct (return_io_spec (io n) D i d Hi HiD Hd ltac:(lia)) as (ip & Hr & Hi' & Hq).
  exists ip. split; [done|]. constructor; cbn [set_io packets io]; [done|done| |lia].
  assert (base.size (D ∖ {[i]}) <= base.size D)%nat by (apply subseteq_size; set_solver). lia.
Qed.

(** Another state of the contexts under the same queues. *)
Lemma chat_ok_change st B E D D' k k' n' :
  chat_ok st B E D k -> net_ok n' B E D' k' -> registry n' = registry st.2 -> packets n' = packets st.2 ->
  chat_ok (st.1, n') B E D' k'.
Proof.
  intros [_ Hr Hq] Hn Hreg Hp. constructor; cbn [fst snd]; [done|by rewrite Hreg|]. intros id cq it Hl Hit.
  destruct (Hq id cq it Hl Hit) as [HB Hpk]. split; [done|]. by rewrite Hp.
Qed.

(** A receive that the system accepts leaves a context of kind 2 pending. *)
Lemma postRecv_pending sk n B E D k :
  net_ok n B E D (S k) -> answer n = true ->
  exists n' i d, postRecv sk n = Ok (true, n') /\ i ∉ D /\ net_ok n' B E ({[i]} ∪ D) k /\
    registry n' = registry n /\ packets n' = packets n /\ reads n' = reads n ++ [sk] /\
    io_pool (io n') !! i = Some d /\ operationType d = 2 /\ (forall j, j <> i -> io_pool (io n') !! j = io_pool (io n) !! j) /\
    answers n' = tail (answers n).
Proof.
  intros [Hpool Hi Hsz Hy] Ha.
  pose proof (borrow_io_spec (io n) D Hi ltac:(unfold io_young; lia)) as Hb. rewrite decide_True in Hb by lia.
  destruct Hb as (i & ip & d & Eb & Hn & Hlt & Ep & Hd & Hid & Hi' & Hq). unfold postRecv. rewrite Eb, Ep, Hd, Ha.
  set (d' := mkIo _ _ _ _ _ _ _). assert (Hw : io_inv (write_io i d' ip) ({[i]} ∪ D)) by (by apply write_io_inv).
  eexists _, i, d'. split; [done|]. split; [done|]. split_and!; try done.
  - constructor; cbn [packets io]; try done.
    + rewrite size_union, size_singleton by (by apply disjoint_singleton_l). lia.
    + cbn [write_io io_free]. lia.
  - cbn [io write_io io_pool]. apply list_lookup_insert_eq. rewrite Ep. by eapply lookup_lt_Some.
  - intros j Hne. cbn [io write_io io_pool]. rewrite list_lookup_insert_ne by done. by rewrite Ep.
Qed.

Lemma connection_of_accept sk cs : connection_of sk (accept sk cs) = Some new_connection.
Proof.
  unfold connection_of, accept. cbn [socketBuffers heap]. rewrite lookup_insert_eq. cbn [mbind option_bind].
  by rewrite lookup_app_r, Nat.sub_diag by lia.
Qed.

(** A new connection is ready for its first bytes. *)
Lemma accept_pending sk s B E D k :
  chat_ok (chat s) B E D (S k) -> answer (net s) = true ->
  exists s' i d, accept_iteration (Accepted sk true) s = Ok (true, s') /\ i ∉ D /\ chat_ok (chat s') B E ({[i]} ∪ D) k /\
    (chat s').1 = (chat s).1 /\ registry (net s') = registry (net s) /\ packets (net s') = packets (net s) /\
    conns s' = accept sk (conns s) /\ auth s' = auth s /\ io_pool (io (net s')) !! i = Some d /\ operationType d = 2 /\
    (forall j, j <> i -> io_pool (io (net s')) !! j = io_pool (io (net s)) !! j) /\ answers (net s') = tail (answers (net s)).
Proof.
  intros Hok Ha. destruct (postRecv_pending sk _ _ _ _ _ (chat_net _ _ _ _ _ Hok) Ha)
    as (n' & i & d & Hp & Hi & Hok' & Hreg & Hpk & _ & Hd & Ht & Hoth & Han).
  exists (set_net n' (set_conns (accept sk (conns s)) s)), i, d. unfold accept_iteration.
  change (net (set_conns (accept sk (conns s)) s)) with (chat s).2. rewrite Hp. split_and!; try done.
  by apply (chat_ok_change _ _ _ _ _ _ _ _ Hok Hok').
Qed.

Section Properties.
Context {C : Checksum} {L : ChecksumLaws C} {N : Sodium} (hash : bstr -> Z).

Lemma deframe_batch (ms : list message) rest :
  Forall fits ms -> deframe rest = ([], false, rest) ->
  deframe (concat (message_frame <$> ms) ++ rest) = (message_frame <$> ms, false, rest).
Proof.
  intros Hf Hr. pose proof (deframe_messages ms Hf) as Hd. rewrite (deframe_app _ rest _ _ Hd). cbn [app]. rewrite Hr.
  by rewrite app_nil_r.
Qed.

(** The packets that were cut out are unparsed notes, in no queue. *)
Lemma cut_unparsed (ms : list Note) (st : @State Net) pp' B E D k q n' :
  chat_ok st B E D k -> cut (packets st.2) B E pp' q (message_frame <$> (note_message <$> ms)) ->
  Forall sound (note_message <$> ms) -> packets n' = pp' ->
  Forall2 (unparsed (list_to_set q ∪ B) (st.1, n')) ms q.
Proof.
  intros [_ _ Hq] [_ [_ Hfr] Hdata _] Hs Hn. rewrite Forall_fmap in Hs. rewrite !Forall2_fmap_r in Hdata.
  assert (Hfree : forall i, i ∈ q -> idle (st.1, n') i).
  { intros i Hi id cq it Hl Hit Heq. destruct (Hq id cq it Hl Hit) as [HB _]. apply (Hfr i Hi). by rewrite <- Heq. }
  assert (Hin : forall i, i ∈ q -> i ∈ (list_to_set q ∪ B : gset nat)) by set_solver.
  revert Hfree Hin Hs. generalize (list_to_set q ∪ B : gset nat). intros BB. clear Hfr.
  induction Hdata as [|i m q' ms' Hp _ IH]; intros Hfree Hin Hs; constructor.
  - apply Forall_cons_1 in Hs as [Hm _]. split_and!; [exact Hm|apply Hin; left|apply Hfree; left|].
    exists (fill (message_frame (note_message m)) (set_pkt_id i new_packet)). cbn [snd]. rewrite Hn. split; [exact Hp|].
    apply fill_holds_frame. apply Hm.
  - apply IH; [|intros j Hj; apply Hin; by right|by apply Forall_cons_1 in Hs as [_ ?]]. intros j Hj. apply Hfree. by right.
Qed.

Lemma chat_ok_cut st B E D k pp' q fs n' :
  chat_ok st B E D k -> cut (packets st.2) B E pp' q fs -> packets n' = pp' -> registry n' = registry st.2 ->
  net_ok (set_packets (packets st.2) n') B E D k ->
  chat_ok (st.1, n') (list_to_set q ∪ B) (list_to_set q ∪ E) D k.
Proof.
  intros [_ Hr Hq] [Hinv _ _ Hold] Hn Hreg [_ Hi Hsz Hy]. constructor; cbn [fst snd].
  - constructor; [by rewrite Hn|done|done|done].
  - by rewrite Hreg.
  - intros id cq it Hl Hit. destruct (Hq id cq it Hl Hit) as (HB & pk & Hpk & Hle). split; [set_solver|]. exists pk.
    by rewrite Hn, Hold.
Qed.

(** The receive branch up to the dispatch: the packets that were cut out of the stream. *)
Lemma on_receive_cut clock bytes ms rest i b cb sk s B E D k :
  chat_ok (chat s) B E D (S k) -> i ∈ D ->
  socketBuffers (conns s) !! sk = Some b -> heap (conns s) !! b = Some cb -> settled cb ->
  bytes <> [] -> len bytes <= bufs_total (getWriteBuffers (cbuf cb)) ->
  contents (cbuf cb) ++ bytes = concat (message_frame <$> ms) ++ rest -> deframe rest = ([], false, rest) ->
  Forall fits ms -> (base.size B + length ms <= currentSize)%nat ->
  exists cb' q n1, let cs := update_connection sk (Some cb') (conns s) in
    let s1 := set_conns cs (set_net n1 s) in
    on_receive hash clock sk i (RecvBytes bytes) s = Some (after_receive hash clock sk q false s1) /\
    registry n1 = registry (net s) /\ cut (packets (net s)) B E (packets n1) q (message_frame <$> ms) /\ length q = length ms /\
    chat_ok ((chat s).1, n1) (list_to_set q ∪ B) (list_to_set q ∪ E) (D ∖ {[i]}) k /\
    settled cb' /\ contents (cbuf cb') = rest.
Proof.
  intros Hok HiD Hsb Hh Hset Hne Hlen Hstream Hrest Hfits Hroom.
  destruct (net_ok_return _ _ _ _ _ _ (chat_net _ _ _ _ _ Hok) HiD) as (ip & Hret & Hnet).
  destruct (on_recv_spec cb bytes (packets (net s)) B E (message_frame <$> ms) false rest)
    as (cb' & pp' & q & Hrecv & Hcut & _ & Hc' & Hset'); try done.
  { apply Hok. }
  { rewrite Hstream. by apply deframe_batch. }
  { by rewrite length_fmap. }
  specialize (Hset' eq_refl). set (n1 := set_packets pp' (set_io ip (net s))).
  assert (Hconn : connection_of sk (conns s) = Some cb) by (unfold connection_of; by rewrite Hsb).
  exists cb', q, n1. cbv zeta. split_and!; try done.
  - unfold on_receive. change (io (net s)) with (io (chat s).2). rewrite Hret, Hconn, Hrecv. done.
  - by rewrite (Forall2_length (cut_data _ _ _ _ _ _ Hcut)), length_fmap.
  - pose proof (chat_ok_change _ _ _ _ _ _ _ _ Hok Hnet eq_refl eq_refl) as Hok0.
    apply (chat_ok_cut _ _ _ _ _ pp' q (message_frame <$> ms) n1 Hok0 Hcut); [done|done|]. destruct Hnet; by constructor.
Qed.

(** The receive branch on a batch of notes. *)
Lemma on_receive_notes clock bytes ms rest i b cb tid ptr se s B E D k :
  chat_ok (chat s) B E D (S (length ms + S k)) -> i ∈ D ->
  socketBuffers (conns s) !! socket se = Some b -> heap (conns s) !! b = Some cb -> settled cb ->
  bytes <> [] -> len bytes <= bufs_total (getWriteBuffers (cbuf cb)) ->
  contents (cbuf cb) ++ bytes = concat (message_frame <$> (note_message <$> ms)) ++ rest -> deframe rest = ([], false, rest) ->
  Forall sound (note_message <$> ms) -> (base.size B + length ms <= currentSize)%nat ->
  registered (registry (net s)) tid ptr se -> (forall j, ValidateSessionHotPath se (t_gate (clock j)) = true) ->
  exists s' ps cb' E' D', on_receive hash clock (socket se) i (RecvBytes bytes) s = Some (Ok s') /\
    NoDup ps /\ (forall p, p ∈ ps -> p ∉ B) /\
    chat_ok (chat s') (list_to_set ps ∪ B) E' D' k /\
    Forall2 (fun p m => exists pkt, pool (packets (net s')) !! p = Some pkt /\
               take (length (message_frame (note_message m))) (data pkt) = message_frame (note_message m)) ps ms /\
    (forall id, queued id (chat s') = queued id (chat s) ++ addressed id ms ps) /\
    auth s' = auth s /\ signup s' = signup s /\ files s' = files s /\ groups s' = groups s /\ threads s' = threads s /\
    settled cb' /\ contents (cbuf cb') = rest /\
    let cs := update_connection (socket se) (Some cb') (conns s) in
    (registry (net s') = registry (net s) /\ conns s' = cs /\ (exists l, reads (net s') = l ++ [socket se]) \/
     handleDisconnect (socket se) (registry (net s)) cs = Ok (registry (net s'), conns s')).
Proof.
  intros Hok HiD Hsb Hh Hset Hne Hlen Hstream Hrest Hs Hroom Hse Hval.
  assert (Hfits : Forall fits (note_message <$> ms)) by (eapply list.Forall_impl; [exact Hs|by intros m (_ & _ & ?)]).
  destruct (on_receive_cut clock bytes (note_message <$> ms) rest i b cb (socket se) s B E D (length ms + S k))
    as (cb' & q & n1 & Hrun & Hreg & Hcut & Hlq & Hok1 & Hset' & Hc'); try done; [by rewrite length_fmap|].
  rewrite length_fmap in Hlq. set (s1 := set_conns _ (set_net n1 s)) in Hrun.
  pose proof (cut_unparsed ms (chat s) (packets n1) B E D _ q n1 Hok Hcut Hs eq_refl) as Hun.
  destruct (cut_fresh _ _ _ _ _ _ Hcut) as [Hnd Hfr]. rewrite <- Hlq in Hok1.
  assert (Hse1 : registered (registry (net s1)) tid ptr se) by (change (registry (net s1)) with (registry n1); by rewrite Hreg).
  destruct (batch_in_order hash clock ms q tid ptr se s1 _ _ _ _ Hok1 Hun Hnd Hse1 Hval)
    as (s' & D' & Haft & Hok' & Hq & Ha & Hsu & Hfi & Hg & Hth & Hdat & Hend).
  change (registry (net s1)) with (registry n1) in Hend. rewrite Hreg in Hend.
  exists s', q, cb', (list_to_set q ∪ E), D'. split_and!; try done.
  - by rewrite Hrun, Haft.
  - pose proof (cut_data _ _ _ _ _ _ Hcut) as Hd. rewrite !Forall2_fmap_r in Hd. rewrite Forall_fmap in Hfits.
    clear -Hd Hdat Hfits L. induction Hd as [|p m q' ms' Hp _ IH]; constructor; apply Forall_cons_1 in Hfits as [Hm Hms]; [|by apply IH].
    specialize (Hdat p). change (packets (net s1)) with (packets n1) in Hdat. rewrite Hp in Hdat.
    destruct (pool (packets (net s')) !! p) as [pkt|]; [|done]. exists pkt. split; [done|]. injection Hdat as ->.
    destruct (fill_holds_frame p PKT_PRIVATE_MESSAGE (payload (note_message m)) Hm) as (_ & _ & Hi & Hw).
    unfold wire in Hw. rewrite Hi in Hw. change (message_frame (note_message m)) with (frame PKT_PRIVATE_MESSAGE (payload (note_message m))) at 1 3.
    rewrite length_frame. exact Hw.
Qed.

(** A receive that has completed is read in the turn that takes it. *)
Lemma worker_receives clock c r i d s s' :
  success c = true -> lpOverlapped c = Some i -> io_pool (io (net s)) !! i = Some d -> operationType d = 2 ->
  on_receive hash clock (completionKey c) i r s = Some (Ok s') ->
  worker_iteration hash clock c r s = Some (Ok (true, s')).
Proof.
  intros Hsuc Hov Hd Hop Hrun. unfold worker_iteration, shutdown_signal. rewrite Hov, bool_decide_false, andb_false_r by done.
  rewrite Hd, Hsuc, Hop, Hrun. cbn [negb orb Z.eqb Pos.eqb andb]. by rewrite andb_false_r.
Qed.

(** C6: from bytes to queues, in one turn of a worker thread.  The zero-byte receive of an
    authenticated connection completes, and the bytes the socket then gives, behind those
    the buffer still held, are the frames of a batch of private messages and an incomplete
    packet.  Then the turn ends without undefined behaviour: every message is in a packet
    of its own, taken from the pool, every receiver's queue is the old one followed by the
    packets of the batch addressed to it, in order, the buffer holds the incomplete packet,
    and the next receive is posted, or, when the system refuses it, the connection is
    closed; nothing else of the server changes. *)
Theorem worker_delivers clock c bytes ms rest i d b cb tid ptr se s B E D k :
  chat_ok (chat s) B E D (S (length ms + S k)) ->
  success c = true -> lpOverlapped c = Some i -> completionKey c = socket se ->
  i ∈ D -> io_pool (io (net s)) !! i = Some d -> operationType d = 2 ->
  socketBuffers (conns s) !! socket se = Some b -> heap (conns s) !! b = Some cb -> settled cb ->
  bytes <> [] -> len bytes <= bufs_total (getWriteBuffers (cbuf cb)) ->
  contents (cbuf cb) ++ bytes = concat (message_frame <$> (note_message <$> ms)) ++ rest -> deframe rest = ([], false, rest) ->
  Forall sound (note_message <$> ms) -> (base.size B + length ms <= currentSize)%nat ->
  registered (registry (net s)) tid ptr se -> (forall j, ValidateSessionHotPath se (t_gate (clock j)) = true) ->
  exists s' ps cb' E' D', worker_iteration hash clock c (RecvBytes bytes) s = Some (Ok (true, s')) /\
    NoDup ps /\ (forall p, p ∈ ps -> p ∉ B) /\
    chat_ok (chat s') (list_to_set ps ∪ B) E' D' k /\
    Forall2 (fun p m => exists pkt, pool (packets (net s')) !! p = Some pkt /\
               take (length (message_frame (note_message m))) (data pkt) = message_frame (note_message m)) ps ms /\
    (forall id, queued id (chat s') = queued id (chat s) ++ addressed id ms ps) /\
    auth s' = auth s /\ signup s' = signup s /\ files s' = files s /\ groups s' = groups s /\ threads s' = threads s /\
    settled cb' /\ contents (cbuf cb') = rest /\
    let cs := update_connection (socket se) (Some cb') (conns s) in
    (registry (net s') = registry (net s) /\ conns s' = cs /\ (exists l, reads (net s') = l ++ [socket se]) \/
     handleDisconnect (socket se) (registry (net s)) cs = Ok (registry (net s'), conns s')).
Proof.
  intros Hok Hsuc Hov Hkey HiD Hd Hop Hsb Hh Hset Hne Hlen Hstream Hrest Hs Hroom Hse Hval.
  destruct (on_receive_notes clock bytes ms rest i b cb tid ptr se s B E D k) as (s' & ps & cb' & E' & D' & Hrun & H); try done.
  exists s', ps, cb', E', D'. split; [|exact H]. eapply worker_receives; try done. by rewrite Hkey.
Qed.

(** ** Handles that are used again *)

(** The failed completion of a receive: its context goes back, the socket is disconnected. *)
Lemma failed_receive clock n sk r i d s B E D k :
  chat_ok (chat s) B E D (S k) -> i ∈ D -> io_pool (io (net s)) !! i = Some d -> operationType d = 2 ->
  exists s', worker_iteration hash clock (mkCompletion false n sk (Some i)) r s = Some (Ok (true, s')) /\
    chat_ok (chat s') B E (D ∖ {[i]}) k /\
    handleDisconnect sk (registry (net s)) (conns s) = Ok (registry (net s'), conns s').
Proof.
  intros Hok HiD Hd Hop. destruct (net_ok_return _ _ _ _ _ _ (chat_net _ _ _ _ _ Hok) HiD) as (ip & Hret & Hnet).
  destruct (run_reg_op_inv (OpDisconnect sk) (registry (net s)) (conns s) (chat_reg _ _ _ _ _ Hok) I) as (r' & cs & Hdis & Hr').
  cbn [run_reg_op] in Hdis. exists (set_conns cs (set_chat ((chat s).1, set_registry r' (set_io ip (net s))) s)). split_and!.
  - unfold worker_iteration, shutdown_signal. cbn [lpOverlapped completionKey bytesTransferred success].
    rewrite bool_decide_false, andb_false_r by done. rewrite Hd. cbn [negb orb]. unfold lift_send, on_failed.
    change (Network.net (sending_side s)) with (net s). rewrite Hd, Hop. cbn [Z.eqb].
    assert (E1 : (match io_packet d with Some _ => Ok (sending_side s) | None => Ok (sending_side s) end) = Ok (sending_side s))
      by (by destruct (io_packet d)).
    rewrite E1. cbn [obind]. unfold return_io, disconnect, sending_side. cbn [Network.net Network.conns Network.offline].
    change (io (net s)) with (io (chat s).2). rewrite Hret. cbn [obind Network.net Network.conns Network.offline].
    change (registry (set_io ip (net s))) with (registry (net s)). rewrite Hdis. done.
  - constructor; cbn [set_conns set_chat chat fst snd]; [by destruct Hnet; constructor|done|]. intros id cq it Hl Hit.
    exact (chat_queues _ _ _ _ _ Hok id cq it Hl Hit).
  - exact Hdis.
Qed.

(** A late completion of a closed connection closes the next one.  A socket was
    disconnected while a receive on it was pending.  While its handle stays unused, the
    aborted receive is harmless: it changes neither connections nor sessions.  But when the
    system gives the same handle to a new client first, the accept loop clears the mark,
    and then the aborted receive of the old connection closes the new client's socket and
    throws its buffer away. *)
Theorem late_completion_closes_successor clock n sk r i d s B E D k :
  chat_ok (chat s) B E D (S (S k)) -> answer (net s) = true -> i ∈ D -> io_pool (io (net s)) !! i = Some d ->
  operationType d = 2 -> sk ∈ disconnectedSockets (conns s) ->
  let late := mkCompletion false n sk (Some i) in
  (exists s', worker_iteration hash clock late r s = Some (Ok (true, s')) /\ conns s' = conns s /\ registry (net s') = registry (net s)) /\
  (exists s1 s2, accept_iteration (Accepted sk true) s = Ok (true, s1) /\ connection_of sk (conns s1) = Some new_connection /\
     worker_iteration hash clock late r s1 = Some (Ok (true, s2)) /\
     connection_of sk (conns s2) = None /\ sk ∈ disconnectedSockets (conns s2) /\ closed (conns s2) = sk :: closed (conns s)).
Proof.
  intros Hok Ha HiD Hd Hop Hdis late. split.
  - destruct (failed_receive clock n sk r i d s B E D (S k) Hok HiD Hd Hop) as (s' & Hrun & _ & Hh).
    exists s'. split; [exact Hrun|]. unfold handleDisconnect in Hh. rewrite decide_True in Hh by done. by injection Hh as <- <-.
  - destruct (accept_pending sk s B E D (S k) Hok Ha) as (s1 & j & dj & Hacc & Hj & Hok1 & _ & Hreg & _ & Hcs & _ & _ & _ & Hold & _).
    assert (Hij : i <> j) by (intros ->; done).
    destruct (failed_receive clock n sk r i d s1 B E ({[j]} ∪ D) k Hok1) as (s2 & Hrun & _ & Hh);
      [by apply elem_of_union_r|by rewrite Hold|done|].
    exists s1, s2. split; [done|]. split; [rewrite Hcs; apply connection_of_accept|]. split; [exact Hrun|].
    assert (Hfresh : sk ∉ disconnectedSockets (conns s1)) by (rewrite Hcs; cbn [accept disconnectedSockets]; set_solver).
    destruct (handleDisconnect_eq (registry (net s1)) (conns s1) sk (chat_reg _ _ _ _ _ Hok1)) as [[_ Hbad]|[_ Hcase]]; [done|].
    assert (Hc2 : conns s2 = HandleDisconnectWithoutLock sk (conns s1)).
    { destruct Hcase as [[_ He]|(? & ? & ? & _ & _ & He)]; rewrite He in Hh; by injection Hh. }
    rewrite Hc2. unfold HandleDisconnectWithoutLock, connection_of. rewrite decide_False by done.
    cbn [socketBuffers heap disconnectedSockets closed]. rewrite lookup_delete_eq, Hcs. split_and!; [done|set_solver|done].
Qed.

(** ** A session after its logout *)

Lemma logout_spec e p ptr pkt id se s B E D k :
  chat_ok (chat s) B E D k -> received_packet p pkt B (chat s) -> type_of_code (type (header pkt)) = Some PKT_LOGOUT ->
  registered (registry (net s)) id ptr se -> ValidateSessionHotPath se (t_gate e) = true ->
  exists n', handlePacket hash e p ptr s = Ok (set_net n' s) /\ chat_ok ((chat s).1, n') (B ∖ {[p]}) E D k /\
    registry n' = unregister id ptr se (registry (net s)) /\
    (forall i, i <> p -> pool (packets n') !! i = pool (packets (net s)) !! i).
Proof.
  intros [Hnet Hr Hq] (Hin & Hp & Hfree) Ht Hse Hval. unfold net in *.
  assert (Hrem : removeSession (userId se) (registry (chat s).2) = Ok (unregister id ptr se (registry (chat s).2))).
  { rewrite (reg_userId _ _ _ _ Hse). destruct (removeSession_eq _ id Hr) as [[Hn _]|(q & o & Ho & ->)].
    - pose proof (reg_found _ _ _ _ Hse). congruence.
    - by destruct (registered_fun _ _ _ _ _ _ Hse Ho) as [-> ->]. }
  set (n1 := set_registry (unregister id ptr se (registry (chat s).2)) (chat s).2).
  assert (Hok1 : net_ok n1 B E D k) by (by destruct Hnet; constructor).
  destruct (give_back_ok p n1 B E D k Hok1 (proj1 (pool_sub _ _ _ (net_pool _ _ _ _ _ Hnet)) p Hin)) as (n' & Hg & Hok' & Hreg & _).
  exists n'. split_and!; [| |exact Hreg|].
  - unfold handlePacket, net. rewrite Hp, (deref_registered _ _ _ _ Hse). cbn [obind]. rewrite Ht.
    cbn [fmap option_fmap option_map default bypassAuth negb andb]. rewrite Hval. cbn [negb handle_type]. unfold net.
    rewrite (deref_registered _ _ _ _ Hse). cbn [obind]. rewrite Hrem. cbn [obind]. unfold return_received, net.
    cbn [set_net set_chat chat snd]. fold n1. rewrite Hg. done.
  - constructor; cbn [fst snd]; [exact Hok'|rewrite Hreg; by apply unregister_inv|]. intros id' cq it Hl Hit.
    destruct (Hq id' cq it Hl Hit) as (HB & pk & Hpk & Hle). pose proof (Hfree id' cq it Hl Hit) as Hne. split; [set_solver|].
    exists pk. by rewrite (give_back_keeps _ _ _ _ Hg Hne).
  - intros i Hne. by rewrite (give_back_keeps _ _ _ _ Hg Hne).
Qed.

(** A new connection takes the next free session object as it is. *)
Lemma session_for_reuses sk r ptr rest o :
  socketToUserId r !! sk = None -> freeIndices (pool_of r) = ptr :: rest -> spool (pool_of r) !! ptr = Some o ->
  exists r' se, session_for sk r = Ok (Some ptr, r') /\ deref r' (Some ptr) = Ok se /\ socket se = sk /\ userId se = temp_id sk /\
    auth_state se = auth_state o /\ cached_user_id se = cached_user_id o /\ cached_expiry se = cached_expiry o /\ updated se = updated o.
Proof.
  intros Hn Hf Ho. unfold session_for, findBySocket. rewrite Hn. unfold borrowSession. rewrite Hf.
  rewrite (proj2 (Nat.ltb_lt _ _)) by (by eapply lookup_lt_Some). cbn [obind].
  unfold addSession, deref, update_session, set_pool. cbn [pool_of spool sessions socketToUserId freeIndices mbind option_bind].
  rewrite !list_lookup_alter_eq, Ho. cbn [fmap option_fmap option_map obind]. eexists _, _. split; [done|].
  cbn [pool_of spool]. rewrite !list_lookup_alter_eq, Ho. done.
Qed.

Context {LN : SodiumLaws N}.

(** C39: a logout and a login in one segment authenticate a session that is free.  The
    worker goes on with the session pointer it had when a logout returned the session to
    the pool; a login with the right credentials behind it, in the same batch, is granted
    on the free object.  No connection is logged in then; but the object keeps the login,
    since neither returning nor borrowing a session clears it afterwards, and the
    connection that is given the object next passes the authentication gate as that user
    without having presented anything. *)
Theorem login_after_logout_leaks clock p q ptr id se pkt pkt2 pl ident pw u s B E D k :
  let newid := UserIdToHexString (user_id u) in
  chat_ok (chat s) B E D (S k) -> p <> q -> p ∈ B -> q ∈ B -> idle (chat s) p -> idle (chat s) q ->
  pool (packets (net s)) !! p = Some pkt -> holds_frame pkt PKT_LOGOUT pl ->
  pool (packets (net s)) !! q = Some pkt2 -> holds_frame pkt2 PKT_LOGIN (payload (Login ident pw)) -> sound (Login ident pw) ->
  registered (registry (net s)) id ptr se -> updated se = true -> ValidateSessionHotPath se (t_gate (clock 0%nat)) = true ->
  ids_ok (user_store_ (auth s)) -> 0 <= t_check (clock 1%nat) < 2 ^ 63 -> credentials (auth s) ident pw = Some u ->
  (chat s).1 !! newid = None ->
  exists s' o, dispatch_all hash clock 0 [p; q] ptr s = Ok s' /\
    ptr ∈ freeIndices (pool_of (registry (net s'))) /\ (forall id', findSession id' (registry (net s')) <> Some ptr) /\
    spool (pool_of (registry (net s'))) !! ptr = Some o /\
    forall r sk rest, freeIndices (pool_of r) = ptr :: rest -> spool (pool_of r) !! ptr = Some o -> socketToUserId r !! sk = None ->
      exists r' se', session_for sk r = Ok (Some ptr, r') /\ deref r' (Some ptr) = Ok se' /\ socket se' = sk /\
        cached_user_id se' = take 16 (user_id u) /\ forall t, ValidateSessionHotPath se' t = (t <? t_check (clock 1%nat) + 900).
Proof.
  intros newid Hok Hpq HpB HqB Hip Hiq Hp Hfp Hq Hfq Hsound Hse Hupd Hval Hids Hnow Hcred Hidle.
  destruct (dispatch_framed hash (clock 0%nat) _ _ p ptr pkt s B E D (S k) HpB Hip Hp Hfp Hok)
    as (pk & w & Hone & Hok1 & Hrec1 & _ & Hhd1 & _ & Hoth1).
  set (s1 := set_net (set_packets w (net s)) s) in *.
  destruct (logout_spec (clock 0%nat) p ptr pk id se s1 B E D (S k) Hok1 Hrec1) as (n2 & Hout & Hok2 & Hreg2 & Hoth2);
    [rewrite Hhd1; apply type_of_frame|exact Hse|exact Hval|].
  set (s2 := set_net n2 s1) in *.
  assert (Hq2 : pool (packets (net s2)) !! q = Some pkt2).
  { change (packets (net s2)) with (packets n2). rewrite Hoth2 by done. change (packets (net s1)) with w. by rewrite Hoth1. }
  destruct (dispatch_framed hash (clock 1%nat) _ _ q ptr pkt2 s2 (B ∖ {[p]}) E D (S k) ltac:(set_solver) Hiq Hq2 Hfq Hok2)
    as (pk3 & w3 & Htwo & Hok3 & Hrec3 & Hf3 & Hhd3 & _ & _).
  set (s3 := set_net (set_packets w3 (net s2)) s2) in *.
  assert (Hobj : spool (pool_of (registry (net s3))) !! ptr = Some (reset_session se)).
  { change (registry (net s3)) with (registry n2). rewrite Hreg2. cbn [unregister pool_of spool]. apply list_lookup_insert_eq.
    eapply lookup_lt_Some, (reg_obj _ _ _ _ Hse). }
  assert (Hder : deref (registry (net s3)) (Some ptr) = Ok (reset_session se)) by (unfold deref; cbn [mbind option_bind]; by rewrite Hobj).
  destruct (relogin_spec hash (clock 1%nat) q ptr pk3 ident pw (reset_session se) u s3 (B ∖ {[p]}) E D k Hok3 Hrec3) as
    (s4 & Hin & _ & _ & _ & _ & Hreg4); [rewrite Hhd3; apply type_of_frame| |exact Hder|exact Hupd|exact Hids|exact Hnow|exact Hcred|exact Hidle|].
  { destruct Hsound as (Hu & Hi & _). exact (received_frame (Login ident pw) pk3 Hu Hi Hf3 Hhd3). }
  assert (Hreg : registry (net s4) = update_session (authenticated (user_id u) (t_check (clock 1%nat) + 900)) ptr (unregister id ptr se (registry (net s)))).
  { rewrite Hreg4. change (registry (net s3)) with (registry n2). by rewrite Hreg2. }
  exists s4, (authenticated (user_id u) (t_check (clock 1%nat) + 900) (reset_session se)). split_and!.
  - cbn [dispatch_all]. rewrite Hone. fold s1. rewrite Hout. cbn [obind]. fold s2. rewrite Htwo. fold s3. rewrite Hin. done.
  - rewrite Hreg. cbn. apply elem_of_app. right. by apply list_elem_of_singleton.
  - intros id' Hf. rewrite Hreg in Hf. unfold findSession in Hf. cbn [update_session set_pool unregister sessions] in Hf.
    destruct (delete id (sessions (registry (net s))) !! id') as [x|] eqn:Ex; [|done]. cbn in Hf. subst x.
    apply lookup_delete_Some in Ex as [Hne Ex].
    destruct (registered_found _ _ _ (chat_reg _ _ _ _ _ Hok) Ex) as [o Ho]. apply Hne. exact (registered_ptr _ _ _ _ _ _ Hse Ho).
  - rewrite Hreg. unfold update_session. cbn [set_pool pool_of spool]. rewrite list_lookup_alter_eq.
    cbn [unregister pool_of spool]. rewrite list_lookup_insert_eq; [done|]. eapply lookup_lt_Some, (reg_obj _ _ _ _ Hse).
  - intros r sk rest Hfree Ho Hsk. destruct (session_for_reuses sk r ptr rest _ Hsk Hfree Ho) as (r' & se' & H1 & H2 & H3 & _ & H5 & H6 & H7 & _).
    exists r', se'. split_and!; try done. intros t0. unfold ValidateSessionHotPath. rewrite H5, H7. done.
Qed.
(** ** The first packet of a connection *)

(** The end of a turn: the next receive, or the end of the connection. *)
Lemma repost_ok sk s B E D k :
  chat_ok (chat s) B E D (S k) ->
  exists s' D', (let! (posted, n) := postRecv sk (net s) in if negb posted then disconnect_socket sk (set_net n s) else Ok (set_net n s)) = Ok s' /\
    chat_ok (chat s') B E D' k /\ (chat s').1 = (chat s).1 /\
    auth s' = auth s /\ signup s' = signup s /\ files s' = files s /\ groups s' = groups s /\ threads s' = threads s /\
    (registry (net s') = registry (net s) /\ conns s' = conns s /\ (exists l, reads (net s') = l ++ [sk]) \/
     handleDisconnect sk (registry (net s)) (conns s) = Ok (registry (net s'), conns s')).
Proof.
  intros Hok. destruct (postRecv_ready sk _ _ _ _ _ (chat_net _ _ _ _ _ Hok)) as (n2 & D2 & Hpost & Hok2 & Hreg & Hpk & Hrd).
  change (net s) with (chat s).2. rewrite Hpost. cbn [obind].
  assert (Hfin : forall r, registry_inv r -> chat_ok ((chat s).1, set_registry r n2) B E D2 k).
  { intros r Hr. constructor; cbn [fst snd]; [by destruct Hok2; constructor|done|]. intros id cq it Hl Hit.
    destruct (chat_queues _ _ _ _ _ Hok id cq it Hl Hit) as [HB Hp]. split; [done|]. by rewrite <- Hpk in Hp. }
  destruct (answer (chat s).2); cbn [negb].
  - exists (set_net n2 s), D2. split_and!; try done.
    + pose proof (Hfin (registry n2)) as H. destruct n2. apply H. rewrite Hreg. apply (chat_reg _ _ _ _ _ Hok).
    + left. split_and!; [done|done|by eexists].
  - unfold disconnect_socket. change (conns (set_net n2 s)) with (conns s). change (net (set_net n2 s)) with n2. rewrite Hreg.
    destruct (run_reg_op_inv (OpDisconnect sk) (registry (chat s).2) (conns s) (chat_reg _ _ _ _ _ Hok) I) as (r & cs & Hdis & Hr).
    cbn [run_reg_op] in Hdis. rewrite Hdis. cbn [obind].
    exists (set_conns cs (set_net (set_registry r n2) (set_net n2 s))), D2. split_and!; try done.
    + by apply Hfin.
    + by right.
Qed.

(** C7: a client logs in with its first segment.  A connection without a session sends the
    frame of a login with the right credentials, and perhaps the beginning of another
    packet.  One turn of a worker thread cuts the packet out, takes a session object that
    no login has used before, registers it under the temporary id, checks the password,
    issues the tokens and registers the session under the user's id; the session belongs to
    the socket and is valid for 15 minutes.  The queues are unchanged, the rest of the bytes
    stays in the buffer, and the next receive is posted; or the system refuses that, and the
    connection is closed.  (A session object that an earlier login has used is authenticated
    but stays registered under its temporary id: [Router.recycled_login_not_registered].) *)
Theorem worker_first_login clock c bytes ident pw rest i d b cb sk ptr o frees u s B E D k :
  chat_ok (chat s) B E D (5 + k) ->
  success c = true -> lpOverlapped c = Some i -> completionKey c = sk ->
  i ∈ D -> io_pool (io (net s)) !! i = Some d -> operationType d = 2 ->
  socketBuffers (conns s) !! sk = Some b -> heap (conns s) !! b = Some cb -> settled cb ->
  bytes <> [] -> len bytes <= bufs_total (getWriteBuffers (cbuf cb)) ->
  contents (cbuf cb) ++ bytes = message_frame (Login ident pw) ++ rest -> deframe rest = ([], false, rest) ->
  sound (Login ident pw) -> (base.size B + 1 < currentSize)%nat ->
  0 <= sk -> socketToUserId (registry (net s)) !! sk = None ->
  freeIndices (pool_of (registry (net s))) = ptr :: frees -> spool (pool_of (registry (net s))) !! ptr = Some o -> updated o = false ->
  ids_ok (user_store_ (auth s)) -> 0 <= t_check (clock 0%nat) < 2 ^ 63 -> credentials (auth s) ident pw = Some u ->
  exists s' cb' B' E' D', worker_iteration hash clock c (RecvBytes bytes) s = Some (Ok (true, s')) /\
    chat_ok (chat s') B' E' D' k /\ auth s' = logged_in (user_id u) (auth s) /\
    (forall id, queued id (chat s') = queued id (chat s)) /\ settled cb' /\ contents (cbuf cb') = rest /\
    ((exists se', registered (registry (net s')) (UserIdToHexString (user_id u)) ptr se' /\ socket se' = sk /\
        (forall t, ValidateSessionHotPath se' t = (t <? t_check (clock 0%nat) + 900)) /\ (exists l, reads (net s') = l ++ [sk])) \/
     sk ∈ disconnectedSockets (conns s')).
Proof.
  intros Hok Hsuc Hov Hkey HiD Hd Hop Hsb Hh Hset Hne Hlen Hstream Hrest Hsound Hroom Hsk Hnone Hfree Ho Hupd Hids Hnow Hcred.
  destruct (on_receive_cut clock bytes [Login ident pw] rest i b cb sk s B E D (4 + k))
    as (cb' & q & n1 & Hrun & Hreg & Hcut & Hlq & Hok1 & Hset' & Hc'); try done.
  { cbn [fmap list_fmap concat]. by rewrite app_nil_r. }
  { constructor; [apply Hsound|constructor]. }
  { cbn [length]. lia. }
  destruct q as [|p [|]]; try done. set (s1 := set_conns _ (set_net n1 s)) in Hrun.
  destruct (cut_fresh _ _ _ _ _ _ Hcut) as [_ Hfr]. specialize (Hfr p (list_elem_of_here _ _)).
  pose proof (cut_data _ _ _ _ _ _ Hcut) as Hdat. cbn [fmap list_fmap] in Hdat. apply Forall2_cons_1 in Hdat as [Hp _].
  rewrite !list_to_set_singleton_L in Hok1.
  (* the session *)
  destruct (session_for_reuses sk (registry (net s)) ptr frees o Hnone Hfree Ho) as (r' & se & Hses & Hder & Hsock & Huid & _ & _ & _ & Hup).
  destruct (session_for_spec (registry (net s)) sk (chat_reg _ _ _ _ _ Hok) Hsk) as (ptr' & r'' & Hses' & Hr' & Hptr & _).
  rewrite Hses in Hses'. apply Ok_pair_inj in Hses' as [<- <-]. destruct Hptr as (tid & se2 & Hse & _).
  rewrite (deref_registered _ _ _ _ Hse) in Hder. injection Hder as ->.
  set (s2 := set_net (set_registry r' (net s1)) s1).
  assert (Hok2 : chat_ok (chat s2) ({[p]} ∪ B) ({[p]} ∪ E) (D ∖ {[i]}) (4 + k)).
  { destruct Hok1 as [Hn _ Hq]. constructor; [by destruct Hn; constructor|exact Hr'|exact Hq]. }
  assert (Hidle : idle (chat s2) p).
  { intros id cq it Hl Hit Heq. destruct (chat_queues _ _ _ _ _ Hok id cq it Hl Hit) as [HB _]. apply Hfr. by rewrite <- Heq. }
  (* parsing and login *)
  destruct (dispatch_framed hash (clock 0%nat) PKT_LOGIN (payload (Login ident pw)) p ptr _ s2 ({[p]} ∪ B) ({[p]} ∪ E) (D ∖ {[i]}) (4 + k)
    (elem_of_union_l _ _ _ (proj2 (elem_of_singleton p p) eq_refl)) Hidle Hp
    (fill_holds_frame p PKT_LOGIN (payload (Login ident pw)) (proj2 (proj2 Hsound))) Hok2) as (pk & w & Hone & Hok3 & Hrec & Hf3 & Hhd & _ & _).
  set (s3 := set_net (set_packets w (net s2)) s2) in *.
  destruct (login_registers_spec hash (clock 0%nat) p ptr pk ident pw tid se u s3 ({[p]} ∪ B) ({[p]} ∪ E) (D ∖ {[i]}) (S k) Hok3 Hrec)
    as (s4 & B4 & E4 & D4 & Hlog & Hok4 & Ha & _ & _ & _ & _ & Hq & (se' & Hnew & Hs' & Hv) & _).
  { rewrite size_union, size_singleton by (by apply disjoint_singleton_l). lia. }
  { rewrite Hhd. apply type_of_frame. }
  { destruct Hsound as (Hu & Hi & _). exact (received_frame (Login ident pw) pk Hu Hi Hf3 Hhd). }
  { exact Hse. } { by rewrite Hup. } { exact Hids. } { exact Hnow. } { exact Hcred. }
  destruct (repost_ok sk s4 _ _ _ _ Hok4) as (s5 & D5 & Hpost & Hok5 & Hq5 & Ha5 & _ & _ & _ & _ & Hend).
  assert (Haft : after_receive hash clock sk [p] false s1 = Ok s5).
  { unfold after_receive, dispatch_batch. change (registry (net s1)) with (registry n1). rewrite Hreg, Hses. cbn [obind].
    fold s2. cbn [dispatch_all]. rewrite Hone. fold s3. rewrite Hlog. cbn [obind]. exact Hpost. }
  exists s5, cb', B4, E4, D5. split_and!; try done.
  - eapply worker_receives; try done. by rewrite Hkey, Hrun, Haft.
  - by rewrite Ha5.
  - intros id. unfold queued. rewrite Hq5. apply Hq.
  - destruct Hend as [(Hr5 & _ & Hrd)|Hdis].
    + left. exists se'. rewrite Hr5. split_and!; try done. by rewrite Hs'.
    + right. unfold handleDisconnect in Hdis. destruct (decide (sk ∈ disconnectedSockets (conns s4))) as [Hin|Hnin]; [by injection Hdis as _ <-|].
      destruct (if decide _ then _ else _) as [r5| |]; cbn [obind] in Hdis; try done. injection Hdis as _ <-.
      unfold HandleDisconnectWithoutLock. rewrite decide_False by done. cbn [disconnectedSockets]. set_solver.
Qed.
End Properties.

(** ** Evaluation *)

(** Two messages arrive in the first segment of a connection that is authenticated. *)
Lemma worker_delivers_witness :
  exists c s s' p q, worker_iteration (C := compute_soft) (N := sample_sodium) sample_hash (fun _ => sample_env) c
      (RecvBytes (concat (message_frame (C := compute_soft) <$> (note_message <$> [note_one; note_two])))) s = Some (Ok (true, s')) /\
    queued (@note_to sample_sodium note_one) (chat s') = [p] /\ queued (@note_to sample_sodium note_two) (chat s') = [q].
Proof.
  destruct (prepared_session (set_auth AUTHENTICATED [] 2000)) as [Hr [se Hse]]; [done|].
  pose proof (prepared_socket (set_auth AUTHENTICATED [] 2000) se ltac:(done) Hse) as Hsk.
  destruct (fresh_chat _ 9 Hr) as (st & Hok & H0 & Hreg & Hans & _); [lia|].
  destruct (accept_pending 100 (sample_server st) ∅ ∅ ∅ 8 Hok) as (s & i & d & _ & _ & Hok1 & Hq1 & Hr1 & _ & Hcs & _ & Hd & Ht & _ & _).
  { unfold answer, net. cbn [sample_server chat]. by rewrite Hans. }
  assert (S1 : sound (C := compute_soft) (note_message note_one)) by (apply note_sound; vm_compute; lia || reflexivity).
  assert (S2 : sound (C := compute_soft) (note_message note_two)) by (apply note_sound; vm_compute; lia || reflexivity).
  set (bytes := concat (message_frame (C := compute_soft) <$> (note_message <$> [note_one; note_two]))).
  destruct (worker_delivers (C := compute_soft) (N := sample_sodium) sample_hash (fun _ => sample_env)
    (mkCompletion true 0 100 (Some i)) bytes [note_one; note_two] [] i d 0 new_connection (str "100id") 0 (set_auth AUTHENTICATED [] 2000 se)
    s ∅ ∅ ({[i]} ∪ ∅) 4) as (s' & ps & cb' & E' & D' & Hrun & _ & _ & _ & Hps & Hq & _).
  - exact Hok1.
  - reflexivity.
  - reflexivity.
  - symmetry. exact Hsk.
  - apply elem_of_union_l. by apply elem_of_singleton.
  - exact Hd.
  - exact Ht.
  - rewrite Hcs, Hsk. reflexivity.
  - rewrite Hcs. reflexivity.
  - apply new_connection_settled.
  - vm_compute. congruence.
  - vm_compute. congruence.
  - rewrite new_connection_contents. unfold bytes. by rewrite app_nil_r.
  - reflexivity.
  - constructor; [exact S1|]. constructor; [exact S2|]. constructor.
  - rewrite size_empty. pose proof currentSize_Z. cbn [length]. lia.
  - rewrite Hr1. unfold net. cbn [sample_server chat]. rewrite Hreg. exact Hse.
  - reflexivity.
  - destruct ps as [|p [|q [|]]]; try (apply Forall2_length in Hps; discriminate Hps).
    exists (mkCompletion true 0 100 (Some i)), s, s', p, q. split; [exact Hrun|]. rewrite !Hq. unfold queued. rewrite Hq1.
    cbn [sample_server chat]. rewrite H0, !lookup_empty. split; vm_compute; reflexivity.
Defined.

(** The first connection is closed while its receive is pending, and its handle is used
    again. *)
Lemma late_completion_closes_successor_witness :
  exists late s s1 s2, accept_iteration (Accepted 100 true) s = Ok (true, s1) /\
    worker_iteration (C := compute_soft) (N := sample_sodium) sample_hash (fun _ => sample_env) late (RecvError false) s1 = Some (Ok (true, s2)) /\
    connection_of 100 (conns s2) = None.
Proof.
  destruct (fresh_chat new_registry 5 new_registry_inv) as (st & Hok & _ & _ & Hans & _); [lia|].
  destruct (accept_pending 100 (sample_server st) ∅ ∅ ∅ 4 Hok) as (s & i & d & _ & _ & Hok1 & _ & _ & _ & Hcs & _ & Hd & Ht & _ & Han).
  { unfold answer, net. cbn [sample_server chat]. by rewrite Hans. }
  destruct (late_completion_closes_successor (C := compute_soft) (N := sample_sodium) sample_hash (fun _ => sample_env) 0 100 (RecvError false) i d
    (set_conns (HandleDisconnectWithoutLock 100 (conns s)) s) ∅ ∅ ({[i]} ∪ ∅) 2) as [_ (s1 & s2 & Hacc & _ & Hrun & Hgone & _)].
  - exact Hok1.
  - unfold answer. change (net (set_conns _ s)) with (net s). rewrite Han. unfold net. cbn [sample_server chat]. by rewrite Hans.
  - apply elem_of_union_l. by apply elem_of_singleton.
  - exact Hd.
  - exact Ht.
  - rewrite Hcs. cbn [set_conns conns]. vm_compute. reflexivity.
  - exists (mkCompletion false 0 100 (Some i)), (set_conns (HandleDisconnectWithoutLock 100 (conns s)) s), s1, s2.
    split; [exact Hacc|]. split; [exact Hrun|exact Hgone].
Defined.

(** Ada, logged in on the first connection, logs out and in again in one segment. *)
Lemma login_after_logout_leaks_witness :
  exists s s' p q o r' se', dispatch_all (C := compute_soft) (N := sample_sodium) sample_hash (fun _ => sample_env) 0 [p; q] 0 s = Ok s' /\
    spool (pool_of (registry (net s'))) !! 0%nat = Some o /\
    session_for 104 (mkRegistry ∅ ∅ (mkSessionPool [o] [0%nat])) = Ok (Some 0%nat, r') /\
    deref r' (Some 0%nat) = Ok se' /\ ValidateSessionHotPath se' 1500 = true.
Proof.
  set (f := fun se => set_updated true (set_auth AUTHENTICATED [] 2000 se)).
  destruct (prepared_session f) as [Hr [se Hse]]; [done|].
  destruct (fresh_chat _ 6 Hr) as (st & Hok & H0 & Hreg & _); [lia|].
  assert (Hu : exists u, @credentials sample_sodium sample_auth (str "ada") (str "pw") = Some u) by (vm_compute; eexists; reflexivity).
  destruct Hu as (u & Hcred). pose proof currentSize_Z as HZ.
  assert (Hs : sound (C := compute_soft) (Raw PKT_LOGOUT [])) by (split_and!; [constructor|exact I|vm_compute; lia]).
  destruct (arrive_ok (Raw PKT_LOGOUT []) st ∅ ∅ ∅ 6 Hok) as (p & pk & st1 & _ & _ & Hok1 & (Hp & Hl & _) & _ & _ & Hf & Hq1 & Hr1 & _);
    [rewrite size_empty; lia|exact Hs|]. rewrite !(right_id_L ∅ (∪)) in Hok1, Hp.
  destruct (arrive_ok (Login (str "ada") (str "pw")) st1 _ _ _ 6 Hok1) as (q & qk & st2 & _ & Hnew & Hok2 & (Hp2 & Hl2 & _) & _ & _ & Hf2 & Hq2 & Hr2 & _ & _ & Hold);
    [rewrite size_singleton; lia|exact sample_login_sound|].
  assert (Hpq : p <> q) by (intros ->; by apply Hnew, elem_of_singleton).
  assert (Hempty : st2.1 = ∅) by congruence.
  assert (Hidle : forall i, idle st2 i) by (intros i id cq it; rewrite Hempty, lookup_empty; done).
  destruct (login_after_logout_leaks (C := compute_soft) (N := sample_sodium) (LN := sample_laws) sample_hash (fun _ => sample_env) p q 0 (str "100id") (f se)
    pk qk [] (str "ada") (str "pw") u (sample_server st2) ({[q]} ∪ {[p]}) ({[q]} ∪ {[p]}) ∅ 5) as (s' & o & Hrun & Hfree & _ & Ho & Hnext).
  - exact Hok2.
  - exact Hpq.
  - by apply elem_of_union_r, elem_of_singleton.
  - by apply elem_of_union_l, elem_of_singleton.
  - apply Hidle.
  - apply Hidle.
  - unfold net. cbn [sample_server chat]. rewrite Hold; [exact Hl|exact Hp].
  - exact Hf.
  - exact Hl2.
  - exact Hf2.
  - exact sample_login_sound.
  - unfold net. cbn [sample_server chat]. rewrite Hr2, Hr1, Hreg. exact Hse.
  - reflexivity.
  - reflexivity.
  - apply sample_ids.
  - cbn [sample_env t_check]. lia.
  - exact Hcred.
  - cbn [sample_server chat]. rewrite Hempty. apply lookup_empty.
  - destruct (Hnext (mkRegistry ∅ ∅ (mkSessionPool [o] [0%nat])) 104 [] eq_refl eq_refl (lookup_empty 104)) as (r' & se' & Hses & Hd & _ & _ & Hv).
    exists (sample_server st2), s', p, q, o, r', se'. split; [exact Hrun|]. split; [exact Ho|]. split; [exact Hses|].
    split; [exact Hd|exact (Hv 1500)].
Defined.

(** Ada logs in with the first segment of a new connection to a server just started. *)
Lemma worker_first_login_witness :
  exists c s s', worker_iteration (C := compute_soft) (N := sample_sodium) sample_hash (fun _ => sample_env) c
      (RecvBytes (message_frame (C := compute_soft) (Login (str "ada") (str "pw")))) s = Some (Ok (true, s')) /\
    ((exists se', registered (registry (net s')) (@UserIdToHexString sample_sodium (zeros 16)) 0 se' /\ socket se' = 100) \/
     100 ∈ disconnectedSockets (conns s')).
Proof.
  destruct (fresh_chat new_registry 9 new_registry_inv) as (st & Hok & H0 & Hreg & Hans & _); [lia|].
  destruct (accept_pending 100 (sample_server st) ∅ ∅ ∅ 8 Hok) as (s & i & d & _ & _ & Hok1 & Hq1 & Hr1 & _ & Hcs & Hauth & Hd & Ht & _ & _).
  { unfold answer, net. cbn [sample_server chat]. by rewrite Hans. }
  assert (Hu : exists u, @credentials sample_sodium sample_auth (str "ada") (str "pw") = Some u /\ user_id u = zeros 16).
  { vm_compute. eexists. split; reflexivity. }
  destruct Hu as (u & Hcred & Hid). pose proof maxSize_Z as HZ. pose proof currentSize_Z as HC.
  change (auth (sample_server st)) with sample_auth in Hauth.
  assert (Hrs : registry (net s) = new_registry) by (rewrite Hr1; exact Hreg).
  assert (Hfree : freeIndices (pool_of (registry (net s))) = 0%nat :: seq 1 (pred maxSize)).
  { rewrite Hrs. cbn [new_registry pool_of new_session_pool freeIndices]. destruct maxSize; [lia|reflexivity]. }
  assert (Hobj : spool (pool_of (registry (net s))) !! 0%nat = Some new_session).
  { rewrite Hrs. cbn [new_registry pool_of new_session_pool spool]. apply lookup_replicate_2. lia. }
  destruct (worker_first_login (C := compute_soft) (N := sample_sodium) (LN := sample_laws) sample_hash (fun _ => sample_env)
    (mkCompletion true 0 100 (Some i)) (message_frame (C := compute_soft) (Login (str "ada") (str "pw"))) (str "ada") (str "pw") [] i d 0 new_connection
    100 0 new_session (seq 1 (pred maxSize)) u s ∅ ∅ ({[i]} ∪ ∅) 3) as (s' & cb' & B' & E' & D' & Hrun & _ & _ & _ & _ & _ & Hend).
  - exact Hok1.
  - reflexivity.
  - reflexivity.
  - reflexivity.
  - apply elem_of_union_l. by apply elem_of_singleton.
  - exact Hd.
  - exact Ht.
  - rewrite Hcs. reflexivity.
  - rewrite Hcs. reflexivity.
  - apply new_connection_settled.
  - vm_compute. congruence.
  - vm_compute. congruence.
  - rewrite new_connection_contents, app_nil_r. reflexivity.
  - reflexivity.
  - exact sample_login_sound.
  - rewrite size_empty. lia.
  - lia.
  - rewrite Hrs. apply lookup_empty.
  - exact Hfree.
  - exact Hobj.
  - reflexivity.
  - rewrite Hauth. apply sample_ids.
  - cbn [sample_env t_check]. lia.
  - rewrite Hauth. exact Hcred.
  - exists (mkCompletion true 0 100 (Some i)), s, s'. split; [exact Hrun|]. rewrite Hid in Hend.
    destruct Hend as [(se' & H1 & H2 & _)|H]; [left; exists se'; split; [exact H1|exact H2]|right; exact H].
Defined.
