(* ===== verification/Lifecycle.v ===== *)
(** Start-up and shut-down: server/Server.cpp, server/main.cpp, and [initialize],
    [acceptLoop] and [shutdown] of network/IOCPManager.cpp.

    The first part is sequential: what [main] asks of the system, for every answer of the
    system.  The second part is the end of the worker threads as a step relation: the
    completion port is a queue that the system, the threads and [shutdown] share. *)

From S2P Require Import Prelude Crc32c Packet Serialize CircularBuffer Fqueue PacketPool Framing Session Groups Offline Network AuthStore Auth Delivery GroupChat FileTransfer Table SignUp Router Dispatch Worker.

(** ** Definitions: start and stop *)

Inductive call :=
| CallStartup | CallCleanup
| CallSocket (sk : Z) | CallCloseSocket (sk : Z)
| CallCreatePort (h : Z) | CallPost (h : option Z) | CallClosePort (h : Z)
| CallSpawn (i : nat) | CallJoin (i : nat).

#[export] Instance call_eq_dec : EqDecision call.
Proof. solve_decision. Defined.

(** The answers of the system at start-up. *)
Record Boot := mkBoot {
  wsaStarts : bool;
  newSocket : Z;              (* INVALID_SOCKET when there is none *)
  binds : bool;
  listens : bool;
  newPort : option Z;         (* a null handle when there is none *)
  processors : Z
}.

(** The members of [IOCPManager] and [Server] that are about sockets, handles and threads,
    and the calls so far. *)
Record Life := mkLife {
  iocpHandle : option Z;
  listenSocket : Z;
  workerThreads : list nat;
  numWorkerThreads : Z;
  wsaInitialized : bool;
  isShuttingDown : bool;
  calls : list call
}.

Definition new_life : Life := mkLife None INVALID_SOCKET [] 0 false false [].

Definition record (cs : list call) (l : Life) : Life :=
  mkLife (iocpHandle l) (listenSocket l) (workerThreads l) (numWorkerThreads l) (wsaInitialized l) (isShuttingDown l) (calls l ++ cs).

(** [static_cast<int>(dwNumberOfProcessors * 2)], and at least 2. *)
Definition worker_count (p : Z) : Z :=
  let n := to_int32 (wrap 32 (p * 2)) in if n <? 2 then 2 else n.

Definition initialize (b : Boot) (l : Life) : bool * Life :=
  let sk := newSocket b in
  let l := mkLife (iocpHandle l) sk (workerThreads l) (numWorkerThreads l) (wsaInitialized l) (isShuttingDown l) (calls l) in
  if sk =? INVALID_SOCKET then (false, l) else
  let l := record [CallSocket sk] l in
  if negb (binds b) then (false, record [CallCloseSocket sk] l) else
  if negb (listens b) then (false, record [CallCloseSocket sk] l) else
  match newPort b with
  | None => (false, record [CallCloseSocket sk] l)
  | Some h =>
      let n := worker_count (processors b) in
      let ts := seq 0 (Z.to_nat n) in
      (true, mkLife (Some h) sk (workerThreads l ++ ts) n (wsaInitialized l) (isShuttingDown l) (calls l ++ CallCreatePort h :: (CallSpawn <$> ts)))
  end.

Definition shutdown (l : Life) : Life :=
  let l := if negb (listenSocket l =? INVALID_SOCKET) then
             mkLife (iocpHandle l) INVALID_SOCKET (workerThreads l) (numWorkerThreads l) (wsaInitialized l) (isShuttingDown l)
               (calls l ++ [CallCloseSocket (listenSocket l)])
           else l in
  let l := record (replicate (Z.to_nat (numWorkerThreads l)) (CallPost (iocpHandle l))) l in
  let l := mkLife (iocpHandle l) (listenSocket l) [] (numWorkerThreads l) (wsaInitialized l) (isShuttingDown l)
             (calls l ++ (CallJoin <$> workerThreads l)) in
  match iocpHandle l with
  | Some h => mkLife None (listenSocket l) (workerThreads l) (numWorkerThreads l) (wsaInitialized l) (isShuttingDown l) (calls l ++ [CallClosePort h])
  | None => l
  end.

Definition stop (l : Life) : Life :=
  if isShuttingDown l then l else
  let l := shutdown (mkLife (iocpHandle l) (listenSocket l) (workerThreads l) (numWorkerThreads l) (wsaInitialized l) true (calls l)) in
  if wsaInitialized l then
    mkLife (iocpHandle l) (listenSocket l) (workerThreads l) (numWorkerThreads l) false (isShuttingDown l) (calls l ++ [CallCleanup])
  else l.

(** [Server::start], up to the end of the accept loop. *)
Definition start (b : Boot) (l : Life) : bool * Life :=
  if negb (wsaStarts b) then (false, l) else
  let l := mkLife (iocpHandle l) (listenSocket l) (workerThreads l) (numWorkerThreads l) true (isShuttingDown l) (calls l ++ [CallStartup]) in
  let (ok, l) := initialize b l in
  if negb ok then (false, stop l) else (true, l).

(** [main] with the destructor of [Server], which shuts down once more. *)
Definition main (b : Boot) : Z * list call :=
  let (ok, l) := start b new_life in
  if negb ok then (1, calls (shutdown l)) else (0, calls (shutdown (stop l))).

(** [signalHandler]: the exit code and the state when the process ends. *)
Definition signalHandler (signum : Z) (l : Life) : Z * Life := (signum, stop l).

(** ** Definitions: the accept loop *)

(** [acceptLoop] on the answers of [WSAAccept]; [None] while the loop is still running. *)
Fixpoint acceptLoop (answers : list accept_result) (s : Server) : outcome (option Server) :=
  match answers with
  | [] => Ok None
  | a :: answers =>
      let! (go_on, s) := accept_iteration a s in
      if go_on : bool then acceptLoop answers s else Ok (Some s)
  end.

(** ** Definitions: construction *)

(** [AuthManager::AuthManager]; [key] is what [crypto_auth_keygen] generates. *)
Definition new_auth_manager {N : Sodium} (key salt : bstr) : AuthManager :=
  mkAuth (mkUsers ∅ ∅ ∅) ∅ key
    (match crypto_pwhash_str (str "timing_attack_mitigation_dummy_v1") salt with Some h => h | None => zeros 128 end) 1.

(** [Server::Server]: the managers are connected with each other, which the record of
    states stands for, and the users of the database are loaded. *)
Definition new_server {N : Sodium} (key salt : bstr) (db : table) (files : gmap bstr bstr) : outcome Server :=
  let a := new_auth_manager key salt in
  let! us := LoadUsersFromDatabase db (user_store_ a) in
  Ok (mkServer (set_user_store us a) (mkSignUp [] [] ∅ ∅ ∅ db) (mkFiles ∅ 0 ∅ ∅ ∅ [] files) ∅ no_connections
        (∅, mkNet new_io_pool new_pool new_registry [] [] []) []).

(** ** Definitions: the completion port at shut-down *)

Definition signal : completion := mkCompletion true 0 0 None.

Record Port := mkPort {
  pqueue : list completion;
  workers : list bool;        (* true: the thread is in its loop *)
  to_post : nat;              (* signals that [shutdown] has still to post *)
  joined : nat;
  handle_open : bool
}.

Definition new_port (n : nat) : Port := mkPort [] (replicate n true) n 0 true.

(** The steps of [shutdown] and of the threads. *)
Inductive own_step : Port -> Port -> Prop :=
| port_post p k :
    to_post p = S k -> own_step p (mkPort (pqueue p ++ [signal]) (workers p) k (joined p) (handle_open p))
| port_take p i c q :
    workers p !! i = Some true -> pqueue p = c :: q ->
    own_step p (mkPort q (<[i := negb (shutdown_signal c)]> (workers p)) (to_post p) (joined p) (handle_open p))
| port_join p :
    to_post p = 0%nat -> workers p !! joined p = Some false ->
    own_step p (mkPort (pqueue p) (workers p) (to_post p) (S (joined p)) (handle_open p))
| port_close p :
    to_post p = 0%nat -> joined p = length (workers p) -> handle_open p = true ->
    own_step p (mkPort (pqueue p) (workers p) (to_post p) (joined p) false).

(** A completion of an operation, which carries its context. *)
Definition deliver_completion (c : completion) (p : Port) : Port :=
  mkPort (pqueue p ++ [c]) (workers p) (to_post p) (joined p) (handle_open p).

(** Runs: [n] steps of their own, and any number of completions between them. *)
Inductive port_run : nat -> Port -> Port -> Prop :=
| run_none p : port_run 0 p p
| run_own n p p1 p2 : own_step p p1 -> port_run n p1 p2 -> port_run (S n) p p2
| run_deliver n p c p2 : shutdown_signal c = false -> port_run n (deliver_completion c p) p2 -> port_run n p p2.

(** ** Lemmas *)

Lemma worker_count_spec p : 2 <= worker_count p /\ (1 <= p < 2 ^ 30 -> worker_count p = 2 * p).
Proof.
  unfold worker_count. destruct (Z.ltb_spec (to_int32 (wrap 32 (p * 2))) 2) as [Hlt|Hge]; (split; [lia|]); intros Hp.
  - rewrite wrap_small, to_int32_small in Hlt by lia. lia.
  - rewrite wrap_small, to_int32_small by lia. lia.
Qed.

(** [shutdown] and [stop] at once. *)
Lemma shutdown_eq h sk ws nw wi sd cs :
  shutdown (mkLife h sk ws nw wi sd cs) =
    mkLife None INVALID_SOCKET [] nw wi sd
      (cs ++ (if sk =? INVALID_SOCKET then [] else [CallCloseSocket sk]) ++ replicate (Z.to_nat nw) (CallPost h) ++ (CallJoin <$> ws) ++
       match h with Some h => [CallClosePort h] | None => [] end).
Proof.
  unfold shutdown, record. cbn [iocpHandle listenSocket workerThreads numWorkerThreads wsaInitialized isShuttingDown calls].
  destruct (Z.eqb_spec sk INVALID_SOCKET) as [->|_]; cbn [negb iocpHandle listenSocket workerThreads numWorkerThreads wsaInitialized isShuttingDown calls];
    destruct h as [h|]; by rewrite ?app_nil_r, <- ?app_assoc.
Qed.

Lemma stop_eq h sk ws nw cs :
  stop (mkLife h sk ws nw true false cs) =
    mkLife None INVALID_SOCKET [] nw false true
      (cs ++ (if sk =? INVALID_SOCKET then [] else [CallCloseSocket sk]) ++ replicate (Z.to_nat nw) (CallPost h) ++ (CallJoin <$> ws) ++
       match h with Some h => [CallClosePort h] | None => [] end ++ [CallCleanup]).
Proof.
  unfold stop. cbn [iocpHandle listenSocket workerThreads numWorkerThreads wsaInitialized isShuttingDown calls]. rewrite shutdown_eq.
  cbn [iocpHandle listenSocket workerThreads numWorkerThreads wsaInitialized isShuttingDown calls]. by rewrite <- !app_assoc.
Qed.

(** The signals that are queued, and the threads that still run. *)
Definition signals (q : list completion) : nat := length (filter (fun c => shutdown_signal c = true) q).
Definition running (ws : list bool) : nat := length (filter (eq true) ws).

Lemma signals_app q q' : signals (q ++ q') = (signals q + signals q')%nat.
Proof. unfold signals. by rewrite list.filter_app, length_app. Qed.

Lemma signals_cons c q : signals (c :: q) = ((if shutdown_signal c then 1 else 0) + signals q)%nat.
Proof. unfold signals. rewrite filter_cons. by destruct (shutdown_signal c). Qed.

Lemma running_cons b ws : running (b :: ws) = ((if b then 1 else 0) + running ws)%nat.
Proof. unfold running. rewrite filter_cons. by destruct b. Qed.

Lemma running_insert (ws : list bool) : forall (i : nat) (b : bool), ws !! i = Some true -> (running (<[i := b]> ws) + 1 = running ws + (if b then 1 else 0))%nat.
Proof.
  induction ws as [|w ws IH]; intros i b Hi; [done|]. destruct i as [|i].
  - injection Hi as ->. change (<[0%nat := b]> (true :: ws)) with (b :: ws). rewrite !running_cons. destruct b; lia.
  - change (<[S i := b]> (w :: ws)) with (w :: <[i := b]> ws). rewrite !running_cons. specialize (IH i b Hi). lia.
Qed.

Lemma running_zero ws : running ws = 0%nat -> Forall (eq false) ws.
Proof.
  induction ws as [|w ws IH]; [by constructor|]. rewrite running_cons. intros H. destruct w; [lia|]. constructor; [done|]. apply IH. lia.
Qed.

Lemma running_some ws : (0 < running ws)%nat -> exists i, ws !! i = Some true.
Proof.
  induction ws as [|w ws IH]; [cbn; lia|]. rewrite running_cons. destruct w; [by exists 0%nat|]. intros H. destruct IH as [i Hi]; [lia|]. by exists (S i).
Qed.

Lemma running_replicate n : running (replicate n true) = n.
Proof. induction n as [|n IH]; [done|]. cbn [replicate]. rewrite running_cons, IH. lia. Qed.

(** For every thread that runs there is a signal, queued or still to be posted; the threads
    that were joined have ended; and the handle is closed last. *)
Record port_inv (n : nat) (p : Port) : Prop := mkPortInv {
  pi_signals : (signals (pqueue p) + to_post p = running (workers p))%nat;
  pi_workers : length (workers p) = n;
  pi_joined : (joined p <= n)%nat /\ forall i, (i < joined p)%nat -> workers p !! i = Some false;
  pi_closed : handle_open p = false -> to_post p = 0%nat /\ joined p = n
}.

Lemma new_port_inv n : port_inv n (new_port n).
Proof. constructor; cbn [new_port pqueue workers to_post joined handle_open]; [by rewrite running_replicate|by rewrite length_replicate|split; lia|done]. Qed.

Lemma own_step_inv n p p' : port_inv n p -> own_step p p' -> port_inv n p'.
Proof.
  intros [Hs Hl [Hj Hjd] Hc] Hstep. destruct Hstep as [p k Hk|p i c q Hi Hq|p Hp Hf|p Hp Hj2 Ho];
    constructor; cbn [pqueue workers to_post joined handle_open]; try done.
  - rewrite signals_app, signals_cons. change (shutdown_signal signal) with true. cbn. lia.
  - intros Hcl. destruct (Hc Hcl). lia.
  - rewrite Hq, signals_cons in Hs. pose proof (running_insert (workers p) i (negb (shutdown_signal c)) Hi) as Hr.
    destruct (shutdown_signal c); cbn [negb] in *; lia.
  - by rewrite length_insert.
  - split; [done|]. intros j Hlt. destruct (decide (j = i)) as [->|Hne]; [by rewrite Hjd in Hi|]. rewrite list_lookup_insert_ne by done. by apply Hjd.
  - pose proof (lookup_lt_Some _ _ _ Hf) as Hlt. split; [lia|]. intros i Hi. destruct (decide (i = joined p)) as [->|]; [done|]. apply Hjd. lia.
  - intros Hcl. destruct (Hc Hcl) as [_ ?]. pose proof (lookup_lt_Some _ _ _ Hf) as Hlt. lia.
  - intros _. split; [done|congruence].
Qed.

Lemma deliver_inv n p c : port_inv n p -> shutdown_signal c = false -> port_inv n (deliver_completion c p).
Proof.
  intros [Hs Hl Hj Hc] Hsig. constructor; cbn [deliver_completion pqueue workers to_post joined handle_open]; try done.
  rewrite signals_app, signals_cons, Hsig. cbn. lia.
Qed.

Lemma port_run_inv n k p p' : port_inv n p -> port_run k p p' -> port_inv n p'.
Proof. intros Hi Hr. revert Hi. induction Hr as [|k p p1 p2 Hs _ IH|k p c p2 Hc _ IH]; intros Hi; [done|by eapply IH, own_step_inv|by apply IH, deliver_inv]. Qed.

(** How many completions are taken until the last signal is. *)
Fixpoint last_signal (q : list completion) : nat :=
  match q with
  | [] => 0
  | c :: q => if (0 <? signals (c :: q))%nat then S (last_signal q) else 0
  end.

Lemma last_signal_none q : signals q = 0%nat -> last_signal q = 0%nat.
Proof. destruct q as [|c q]; [done|]. intros H. cbn [last_signal]. by rewrite H. Qed.

Lemma last_signal_deliver q c : shutdown_signal c = false -> last_signal (q ++ [c]) = last_signal q.
Proof.
  intros Hc. induction q as [|c' q IH]; cbn [app last_signal].
  - rewrite signals_cons, Hc. done.
  - rewrite IH, !signals_cons, signals_app, signals_cons, Hc. by rewrite Nat.add_0_r.
Qed.

(** The steps left once all signals are posted. *)
Definition steps_left (p : Port) : nat :=
  (last_signal (pqueue p) + (length (workers p) - joined p) + (if handle_open p then 1 else 0))%nat.

Lemma own_step_decreases n p p' :
  port_inv n p -> to_post p = 0%nat -> own_step p p' -> to_post p' = 0%nat /\ (S (steps_left p') <= steps_left p)%nat.
Proof.
  intros [Hs Hl [Hj Hjd] Hc] Hp Hstep. unfold steps_left.
  destruct Hstep as [p k Hk|p i c q Hi Hq|p _ Hf|p _ Hj2 Ho]; cbn [pqueue workers to_post joined handle_open]; (split; [lia|]).
  - lia.
  - rewrite Hq. cbn [last_signal]. rewrite length_insert.
    assert (Hpos : (0 < signals (c :: q))%nat).
    { rewrite <- Hq. pose proof (running_insert (workers p) i false Hi) as Hr. cbn in Hr. lia. }
    rewrite (proj2 (Nat.ltb_lt _ _)) by done. lia.
  - pose proof (lookup_lt_Some _ _ _ Hf). lia.
  - rewrite Ho. lia.
Qed.

Lemma port_run_bounded n k p p' : port_inv n p -> to_post p = 0%nat -> port_run k p p' -> (k + steps_left p' <= steps_left p)%nat /\ to_post p' = 0%nat.
Proof.
  intros Hi Hp Hr. revert Hi Hp. induction Hr as [|k p p1 p2 Hs _ IH|k p c p2 Hc _ IH]; intros Hi Hp; [lia|..].
  - destruct (own_step_decreases n p p1 Hi Hp Hs) as [Hp1 Hd]. destruct (IH (own_step_inv _ _ _ Hi Hs) Hp1) as [Hle ?]. split; [|done].
    clear -Hd Hle. lia.
  - destruct (IH (deliver_inv _ _ _ Hi Hc) Hp) as [Hle ?]. split; [|done]. unfold steps_left in *.
    cbn [deliver_completion pqueue workers joined handle_open] in Hle. by rewrite last_signal_deliver in Hle.
Qed.

Lemma port_progress n p : port_inv n p -> handle_open p = true -> exists p', own_step p p'.
Proof.
  intros [Hs Hl [Hj Hjd] Hc] Ho. destruct (to_post p) as [|k] eqn:Hp; [|eexists; by apply port_post].
  destruct (running (workers p)) as [|r] eqn:Hr.
  - apply running_zero in Hr. destruct (decide (joined p = n)) as [Heq|Hne].
    + eexists. apply port_close; congruence.
    + destruct (lookup_lt_is_Some_2 (workers p) (joined p)) as [w Hw]; [lia|].
      assert (w = false) as -> by (rewrite list.Forall_lookup in Hr; symmetry; by eapply Hr). eexists. by apply port_join.
  - destruct (running_some (workers p)) as [i Hi]; [lia|]. destruct (pqueue p) as [|c q] eqn:Hq; [cbn in Hs; lia|].
    eexists. by eapply port_take.
Qed.

(** ** Properties *)

(** The server starts in a state from which every theorem about messages starts: no session,
    no connection, all packets and contexts free. *)
Lemma new_server_ready {N : Sodium} key salt db files s k :
  new_server key salt db files = Ok s -> (k <= 1000)%nat -> chat_ok (chat s) ∅ ∅ ∅ k.
Proof.
  unfold new_server. destruct (LoadUsersFromDatabase db _) as [us| |]; [|discriminate 1..]. cbn [obind]. intros Hs Hk.
  pose proof (initial_chat_ok new_registry k new_registry_inv Hk) as H. revert Hs H.
  generalize new_registry new_pool new_io_pool. intros r pp ip [= <-] H. exact H.
Qed.

(** C13: the worker threads end, and nobody uses the port after it was closed.  [shutdown]
    posts one signal for each of the [n] threads, joins them and closes the handle, while
    the system may go on delivering completions.  In every interleaving: once the handle is
    closed, all threads have ended; as long as it is open, some step of [shutdown] or of a
    thread is possible; and after the last signal was posted, at most [steps_left] such
    steps remain, however many completions are delivered between them, since a thread takes
    the oldest one first. *)
Theorem shutdown_completes n j p :
  port_run j (new_port n) p ->
  (handle_open p = false -> Forall (eq false) (workers p)) /\
  (handle_open p = true -> exists p', own_step p p') /\
  (to_post p = 0%nat -> forall k p', port_run k p p' -> (k <= steps_left p)%nat).
Proof.
  intros Hrun. pose proof (port_run_inv n j _ _ (new_port_inv n) Hrun) as Hi. split_and!.
  - intros Hcl. destruct (pi_closed _ _ Hi Hcl) as [_ Hj]. apply list.Forall_lookup. intros i w Hw.
    rewrite (proj2 (pi_joined _ _ Hi) i) in Hw; [by injection Hw|]. rewrite Hj, <- (pi_workers _ _ Hi). by eapply lookup_lt_Some.
  - exact (port_progress n p Hi).
  - intros Hp k p' Hr. destruct (port_run_bounded n k p p' Hi Hp Hr). lia.
Qed.

(** Two threads, and a completion that comes between the two signals. *)
Lemma shutdown_completes_witness :
  exists j p, port_run j (new_port 2) p /\ to_post p = 0%nat /\ (forall k p', port_run k p p' -> (k <= 6)%nat).
Proof.
  set (late := mkCompletion false 0 100 (Some 0%nat)).
  set (p := mkPort [signal; late; signal] [true; true] 0 0 true).
  assert (Hrun : port_run 2 (new_port 2) p).
  { eapply run_own; [by apply (port_post (new_port 2) 1)|]. apply (run_deliver _ _ late); [done|].
    eapply run_own; [by apply (port_post (mkPort [signal; late] [true; true] 1 0 true) 0)|]. apply run_none. }
  exists 2%nat, p. split; [exact Hrun|]. split; [reflexivity|].
  apply (shutdown_completes 2 2 p Hrun). reflexivity.
Defined.

(** What the server asks of the system from start to exit, whatever the system answers.
    When start-up succeeds, the port is closed after its threads were joined, the listening
    socket once, Winsock is released once, and the exit code is 0; there are at least two
    threads, two for each processor.  When there is no socket, only Winsock is released.  But
    when the socket cannot be bound or listened on, or there is no port, it is closed
    twice: [initialize] closes it and keeps the handle, and [stop] closes it again. *)
Theorem server_calls b :
  let sk := newSocket b in
  let n := Z.to_nat (worker_count (processors b)) in
  main b =
    (if negb (wsaStarts b) then (1, []) else
     if sk =? INVALID_SOCKET then (1, [CallStartup; CallCleanup]) else
     match newPort b with
     | Some h =>
         if binds b && listens b then
           (0, [CallStartup; CallSocket sk; CallCreatePort h] ++ (CallSpawn <$> seq 0 n) ++ [CallCloseSocket sk] ++
               replicate n (CallPost (Some h)) ++ (CallJoin <$> seq 0 n) ++ [CallClosePort h; CallCleanup] ++
               replicate n (CallPost None))
         else (1, [CallStartup; CallSocket sk; CallCloseSocket sk; CallCloseSocket sk; CallCleanup])
     | None => (1, [CallStartup; CallSocket sk; CallCloseSocket sk; CallCloseSocket sk; CallCleanup])
     end) /\
  2 <= worker_count (processors b) /\ (1 <= processors b < 2 ^ 30 -> worker_count (processors b) = 2 * processors b).
Proof.
  cbv zeta. split; [|apply worker_count_spec]. unfold main, start, initialize. destruct (wsaStarts b); cbn [negb]; [|done].
  set (sk := newSocket b). unfold record, new_life. cbn [iocpHandle listenSocket workerThreads numWorkerThreads wsaInitialized isShuttingDown calls app].
  destruct (sk =? INVALID_SOCKET) eqn:Es; cbn [negb]; [by rewrite stop_eq, shutdown_eq, Es|].
  destruct (binds b), (listens b), (newPort b) as [h|]; cbn [negb andb]; rewrite stop_eq, shutdown_eq, Es, Z.eqb_refl; try done.
  cbn [app calls fmap list_fmap]. rewrite app_nil_r, <- !app_assoc. cbn [app]. by rewrite <- !app_assoc.
Qed.
