(* ===== verification/System.v ===== *)
(** The whole server under any input: the invariant that every turn of a thread keeps.

    The state is that of Router.v; the turns are those of the worker threads and of the
    accept loop (network/IOCPManager.cpp), of the two threads of SignUp/SignUp.cpp, of the
    thread that announces uploads and of the downloads (filetransfer).  Nothing is assumed
    about what clients send. *)

From S2P Require Import Prelude Crc32c Packet Serialize CircularBuffer Fqueue PacketPool Framing Session Groups Offline Network AuthStore Auth Delivery GroupChat FileTransfer Transfers Table SignUp Shape Seats Handlers Router Dispatch Worker Lifecycle.

(** ** The invariant *)

(** Every open socket has a receive buffer of its own, and the buffers are in order. *)
Record conns_ok (cs : Connections) : Prop := mkConnsOk {
  co_wf : Forall (fun c => wf (cbuf c)) (heap cs);
  co_there : forall sk b, socketBuffers cs !! sk = Some b -> (b < length (heap cs))%nat;
  co_own : forall sk sk' b, socketBuffers cs !! sk = Some b -> socketBuffers cs !! sk' = Some b -> sk = sk'
}.

Record server_ok (E0 : gset nat) (s : Server) : Prop := mkServerOk {
  so_mem : mem_ok E0 (chat s);
  so_seats : seats_ok (registry (net s));
  so_conns : conns_ok (conns s);
  so_groups : groups_ok (groups s);
  so_files : files_inv (files s);
  so_users : ids_ok (user_store_ (auth s))
}.

(** During a batch of packets of the session [ptr]. *)
Definition busy (E0 : gset nat) (ptr : nat) (s : Server) : Prop := server_ok E0 s /\ attached ptr (registry (net s)).

(** ** Connections *)

Lemma no_connections_ok : conns_ok no_connections.
Proof. constructor; cbn; [constructor|by intros sk b; rewrite lookup_empty|by intros sk sk' b; rewrite lookup_empty]. Qed.

Lemma accept_ok sk cs : conns_ok cs -> conns_ok (accept sk cs).
Proof.
  intros [H1 H2 H3]. constructor; cbn [accept heap socketBuffers].
  - apply Forall_app. split; [done|]. apply list.Forall_singleton. apply new_connection_settled.
  - intros sk' b [[<- <-]|[_ Hb]]%lookup_insert_Some; rewrite length_app; cbn [length]; [lia|]. apply H2 in Hb. lia.
  - intros sk1 sk2 b [[<- <-]|[_ Hb1]]%lookup_insert_Some [[<- Hb]|[_ Hb2]]%lookup_insert_Some; [done| | |by eapply H3].
    + apply H2 in Hb2. lia.
    + subst b. apply H2 in Hb1. lia.
Qed.

Lemma disconnect_ok sk cs : conns_ok cs -> conns_ok (HandleDisconnectWithoutLock sk cs).
Proof.
  intros [H1 H2 H3]. unfold HandleDisconnectWithoutLock. destruct (decide _); [done|]. constructor; cbn [heap socketBuffers].
  - destruct (socketBuffers cs !! sk) as [b|]; [|done]. apply Forall_alter; [done|]. by intros c _ Hc.
  - intros sk' b [_ Hb]%lookup_delete_Some. destruct (socketBuffers cs !! sk) as [b'|]; [rewrite length_alter|]; by eapply H2.
  - intros sk1 sk2 b [_ Hb1]%lookup_delete_Some [_ Hb2]%lookup_delete_Some. by eapply H3.
Qed.

Lemma connection_wf sk cs : conns_ok cs -> conn_wf (connection_of sk cs).
Proof.
  intros [H1 _ _]. unfold connection_of. destruct (socketBuffers cs !! sk) as [b|]; [|done]. cbn [mbind option_bind].
  destruct (heap cs !! b) as [c|] eqn:E; [|done]. by apply (list.Forall_lookup_1 _ _ _ _ H1 E).
Qed.

Lemma update_connection_ok sk c cs : conns_ok cs -> conn_wf c -> conns_ok (update_connection sk c cs).
Proof.
  intros [H1 H2 H3] Hc. unfold update_connection. destruct (socketBuffers cs !! sk) as [b|]; [|done]. destruct c as [c|]; [|done].
  constructor; cbn [heap socketBuffers]; [|intros sk' b'; rewrite length_insert; apply H2|done]. by apply Forall_insert.
Qed.

(** ** Changes of one part *)

Lemma ok_weaken E0 E1 s : E1 ⊆ E0 -> server_ok E0 s -> server_ok E1 s.
Proof. intros HE []. constructor; try done. by eapply mem_ok_weaken. Qed.

Lemma ok_chat E0 s st : server_ok E0 s -> mem_ok E0 st -> seats_ok (registry st.2) -> server_ok E0 (set_chat st s).
Proof. intros [] Hm Hs. by constructor. Qed.

Lemma busy_chat E0 ptr s st : busy E0 ptr s -> calm E0 (chat s) st -> busy E0 ptr (set_chat st s).
Proof.
  intros [Hok Ha] [Hm Hs]. destruct (Hs (so_seats _ _ Hok)) as [Hs' Ha']. split; [by apply ok_chat|]. by apply Ha'.
Qed.

Lemma busy_files E0 ptr s f : busy E0 ptr s -> files_inv f -> busy E0 ptr (set_files f s).
Proof. intros [[] Ha] Hf. split; [by constructor|done]. Qed.

Lemma busy_signup E0 ptr s su : busy E0 ptr s -> busy E0 ptr (set_signup su s).
Proof. intros [[] Ha]. split; [by constructor|done]. Qed.

Lemma busy_groups E0 ptr s gs : busy E0 ptr s -> groups_ok gs -> busy E0 ptr (set_groups gs s).
Proof. intros [[] Ha] Hg. split; [by constructor|done]. Qed.

Lemma ok_calm E0 s st : server_ok E0 s -> calm E0 (chat s) st -> server_ok E0 (set_chat st s).
Proof. intros Hok [Hm Hs]. apply ok_chat; [done|done|]. by apply Hs, Hok. Qed.

Lemma return_calm E0 p s s' : p ∈ E0 -> mem_ok E0 (chat s) -> return_received p s = Ok s' -> exists st, s' = set_chat st s /\ calm E0 (chat s) st.
Proof.
  intros Hp Hm H. unfold return_received in H. destruct (give_back p (net s)) as [n| |] eqn:E; try done. cbn [obind] in H. injection H as <-.
  exists ((chat s).1, n). split; [done|]. unfold net in E. destruct (chat s) as [q n0]. apply quiet_calm. by eapply mem_give_back.
Qed.

Lemma return_busy E0 ptr p s s' : p ∈ E0 -> busy E0 ptr s -> return_received p s = Ok s' -> busy E0 ptr s'.
Proof. intros Hp Hb H. destruct (return_calm E0 p s s' Hp (so_mem _ _ (proj1 Hb)) H) as (st & -> & Hc). by apply busy_chat. Qed.

Lemma disconnect_server_ok E0 sk s s' : server_ok E0 s -> disconnect_socket sk s = Ok s' -> server_ok E0 s'.
Proof.
  intros [Hm Hs Hc Hg Hf Hu] H. unfold disconnect_socket in H. destruct (disconnect_seats sk (registry (net s)) (conns s) Hs) as (r & E & Hr).
  rewrite E in H. cbn [obind] in H. injection H as <-. constructor; try done. cbn [set_conns conns].
  destruct (decide _); [done|by apply disconnect_ok].
Qed.

(** ** The router *)

Lemma write_packet_same p f g pp : (forall x, pool pp !! p = Some x -> f x = g x) -> write_packet p f pp = write_packet p g pp.
Proof.
  intros H. unfold write_packet. f_equal. apply list_eq. intros i. destruct (decide (i = p)) as [->|Hne].
  - rewrite !list_lookup_alter_eq. destruct (pool pp !! p) as [x|]; [|done]. cbn. by rewrite H.
  - by rewrite !list_lookup_alter_ne.
Qed.

Lemma keeps_bypass f : keeps_id f -> keeps_id (fun p => set_bypassQueue true (f p)).
Proof. intros H p. exact (H p). Qed.

Section Router.
Context {C : Checksum} {N : Sodium} {LN : SodiumLaws N} (hash : bstr -> Z).

(** A handler that logs the session in, and the registration under the new id. *)
Lemma login_busy E0 ptr s se a n b s' :
  busy E0 ptr s -> deref (registry (net s)) (Some ptr) = Ok se ->
  mem_ok E0 ((chat s).1, n) -> user_store_ a = user_store_ (auth s) -> auth_outcome true ptr (registry (net s)) (registry n) ->
  register_new_id (userId se) ptr (set_authm a (set_net n s)) = Ok (b, s') -> busy E0 ptr s'.
Proof.
  intros [[Hm Hs Hc Hg Hf Hu] Ha] Hse Hmn Hus (uid & ex & Huid & Hr) H. unfold deref in Hse. cbn [mbind option_bind] in Hse.
  destruct (spool (pool_of (registry (net s))) !! ptr) as [se'|] eqn:Hp; [|done]. injection Hse as ->.
  unfold register_new_id in H. change (net (set_authm a (set_net n s))) with n in H. rewrite Hr in H.
  unfold deref at 1 in H. cbn [update_session set_pool pool_of spool mbind option_bind] in H. rewrite list_lookup_alter_eq, Hp in H.
  cbn [fmap option_fmap option_map obind] in H. change (updated (authenticated uid ex se)) with (updated se) in H.
  destruct (updated se) eqn:Hup.
  - injection H as _ <-. destruct (relogin_seats (UserIdToHexString uid) (set_auth AUTHENTICATED (take 16 uid) ex) ptr _ se Hs Hp Hup) as [Hs' Ha']; [by intros|].
    split; [constructor; try done|]; change (net (set_authm a (set_net n s))) with n; rewrite ?Hr; [done| |done]. cbn [set_authm auth]. by rewrite Hus.
  - destruct (first_login_seats (UserIdToHexString uid) (set_auth AUTHENTICATED (take 16 uid) ex) ptr (registry (net s)) (conns s) se Hs Hp Hup Ha (hex_real_id uid Huid))
      as (r' & cs' & Hrun & Hs' & Ha' & Hcs & _); [by intros|].
    change (update_session (fun s => set_userId _ _) ptr (registry (net s))) with (update_session (authenticated uid ex) ptr (registry (net s))) in Hrun.
    change (conns (set_authm a (set_net n s))) with (conns s) in H. rewrite Hrun in H. cbn [obind] in H. injection H as _ <-.
    split; [constructor; try done|done]; cbn [set_conns conns set_net set_chat set_authm auth]; [|by rewrite Hus].
    destruct Hcs as [-> |(sk & _ & ->)]; [done|by apply disconnect_ok].
Qed.

(** A handler that did not. *)
Lemma refused_busy E0 ptr s a n :
  busy E0 ptr s -> mem_ok E0 ((chat s).1, n) -> user_store_ a = user_store_ (auth s) -> auth_outcome false ptr (registry (net s)) (registry n) ->
  busy E0 ptr (set_authm a (set_net n s)).
Proof.
  intros [[Hm Hs Hc Hg Hf Hu] Ha] Hmn Hus Ho.
  assert (H : seats_ok (registry n) /\ attached ptr (registry n)).
  { destruct Ho as [-> | ->]; [done|]. destruct (update_seats unauthenticated ptr (registry (net s))) as [H1 H2]; [by intros se|by intros se _ [=]|done|].
    split; [done|]. by apply H2. }
  destruct H. split; [constructor; try done|done]. cbn [set_authm auth]. by rewrite Hus.
Qed.

Lemma send_user_id_busy E0 ptr s s' : busy E0 ptr s -> send_user_id ptr s = Ok s' -> busy E0 ptr s'.
Proof.
  intros Hb H. unfold send_user_id in H. destruct (deref _ _) as [se| |]; try done. cbn [obind] in H.
  destruct (borrowPacket (packets (net s))) as [[[p|] pp]| |] eqn:Hbo; try done. cbn [obind] in H.
  pose proof (so_mem _ _ (proj1 Hb)) as Hm. unfold net in *. destruct (chat s) as [q n] eqn:Hc. cbn [fst snd] in *.
  pose proof (mem_borrow E0 q n p pp Hm Hbo) as Hm1. set (m := UserId _ _) in H.
  apply (mem_write _ _ _ p (fun pkt => set_bypassQueue true (send m pkt).2) (keeps_bypass _ (send_keeps_id m))) in Hm1.
  destruct (route_packet _ _ _) as [[routed n1]| |] eqn:Hro; try done. cbn [obind] in H.
  destruct (route_packet_quiet _ _ _ _ _ _ _ Hm1 (in_new _ _) Hro) as [Hm2 Hr2].
  assert (Hend : forall n2, (if negb routed then give_back p n1 else Ok n1) = Ok n2 -> quiet E0 (q, n) (q, n2)).
  { intros n2 Hg. apply (quiet_weaken ({[p]} ∪ E0)); [set_solver|]. destruct routed; cbn [negb] in Hg; [injection Hg as <-; by split|].
    destruct (mem_give_back _ _ _ _ _ Hm2 (in_new _ _) Hg) as [Hm3 Hr3]. split; [done|]. cbn [snd] in *. by rewrite Hr3, Hr2. }
  destruct (if negb routed then _ else _) as [n2| |] eqn:Hg in H; try done. cbn [obind] in H. injection H as <-. unfold set_net. rewrite Hc.
  apply (busy_chat E0 ptr s (q, n2)); [done|]. rewrite Hc. by apply quiet_calm, Hend.
Qed.

Lemma notify_sender_busy E0 ptr s s' : busy E0 ptr s -> notify_sender ptr s = Ok s' -> busy E0 ptr s'.
Proof.
  intros Hb H. unfold notify_sender in H. destruct (deref _ _) as [se| |]; try done. cbn [obind] in H.
  destruct (notifySend _ _) as [st| |] eqn:Hn; try done. cbn [obind] in H. injection H as <-. apply busy_chat; [done|].
  apply quiet_calm. eapply notifySend_quiet, Hn. apply Hb.
Qed.

Lemma on_login_busy E0 e p ptr s s' : p ∈ E0 -> busy E0 ptr s -> on_login e p ptr s = Ok s' -> busy E0 ptr s'.
Proof.
  intros Hp Hb H. unfold on_login in H. destruct (deref _ _) as [se| |] eqn:Hse; try done. cbn [obind] in H.
  destruct (HandleLoginPacket _ _ _ _ _) as [[[b a] n]| |] eqn:Hl; try done. cbn [obind] in H. pose proof (proj1 Hb) as [Hm _ _ _ _ Hu].
  rewrite (surjective_pairing (chat s)) in Hm. destruct (HandleLoginPacket_calm E0 _ _ _ _ _ _ _ _ _ Hp Hm Hu Hl) as (Hm1 & Hus & Ho).
  destruct b; cbn [negb] in H; [|injection H as <-; by apply refused_busy].
  destruct (register_new_id _ _ _) as [[renamed s1]| |] eqn:Hreg; try done. cbn [obind] in H.
  pose proof (login_busy E0 ptr s se a n renamed s1 Hb Hse Hm1 Hus Ho Hreg) as Hb1.
  destruct renamed; [|by eapply notify_sender_busy]. destruct (send_user_id ptr s1) as [s2| |] eqn:Hsu; try done. cbn [obind] in H.
  eapply notify_sender_busy, H. by eapply send_user_id_busy.
Qed.

Lemma on_token_busy E0 refresh e p ptr s s' : p ∈ E0 -> busy E0 ptr s -> on_token refresh e p ptr s = Ok s' -> busy E0 ptr s'.
Proof.
  intros Hp Hb H. unfold on_token in H. destruct (deref _ _) as [se| |] eqn:Hse; try done. cbn [obind] in H.
  destruct (if refresh then _ else _) as [[[b a] n]| |] eqn:Hl in H; try done. cbn [obind] in H. pose proof (so_mem _ _ (proj1 Hb)) as Hm.
  rewrite (surjective_pairing (chat s)) in Hm.
  assert (Hh : mem_ok E0 ((chat s).1, n) /\ user_store_ a = user_store_ (auth s) /\ auth_outcome b ptr (registry (net s)) (registry n)).
  { destruct refresh; [by eapply HandleRefreshPacket_calm|by eapply HandleTokenPacket_calm]. }
  destruct Hh as (Hm1 & Hus & Ho). destruct b; cbn [negb] in H; [|injection H as <-; by apply refused_busy].
  destruct (register_new_id _ _ _) as [[renamed s1]| |] eqn:Hreg; try done. cbn [obind] in H.
  eapply notify_sender_busy, H. by eapply login_busy.
Qed.

Lemma logout_busy E0 p ptr s se s' :
  p ∈ E0 -> busy E0 ptr s -> deref (registry (net s)) (Some ptr) = Ok se -> updated se = true ->
  (let! r := removeSession (userId se) (registry (net s)) in return_received p (set_net (set_registry r (net s)) s)) = Ok s' -> busy E0 ptr s'.
Proof.
  intros Hp [[Hm Hs Hc Hg Hf Hu] Ha] Hse Hup H. destruct (remove_seats (userId se) _ Hs) as (r & Hr & Hs' & Ha'). rewrite Hr in H. cbn [obind] in H.
  eapply return_busy, H; [done|]. split.
  - constructor; try done.
  - apply (Ha' ptr se); [|done]. unfold deref in Hse. cbn [mbind option_bind] in Hse. destruct (_ !! ptr); [|done]. by injection Hse as ->.
Qed.

Lemma validated_kept s ptr se now :
  seats_ok (registry (net s)) -> deref (registry (net s)) (Some ptr) = Ok se -> ValidateSessionHotPath se now = true -> updated se = true.
Proof.
  intros [_ Hk] Hse Hv. unfold deref in Hse. cbn [mbind option_bind] in Hse. destruct (_ !! ptr) as [se'|] eqn:Hp; [|done]. injection Hse as ->.
  apply (list.Forall_lookup_1 _ _ _ _ Hk Hp). unfold ValidateSessionHotPath in Hv. destruct (Z.eqb_spec (auth_state se) AUTHENTICATED); done.
Qed.

Lemma lift_files_busy E0 ptr g s s' :
  busy E0 ptr s -> (forall f' st', g (files s) (chat s) = Ok (f', st') -> calm E0 (chat s) st' /\ file_step (files s) f') ->
  lift_files g s = Ok s' -> busy E0 ptr s'.
Proof.
  intros Hb Hg H. unfold lift_files in H. destruct (g (files s) (chat s)) as [[f st]| |] eqn:E; try done. cbn [obind] in H. injection H as <-.
  destruct (Hg f st eq_refl) as [Hc Hf]. apply busy_files; [by apply busy_chat|]. eapply file_step_inv, Hf. apply Hb.
Qed.

Lemma lift_signup_busy E0 ptr g s s' :
  busy E0 ptr s -> (forall su' st', g (signup s) (chat s) = Ok (su', st') -> calm E0 (chat s) st') ->
  lift_signup g s = Ok s' -> busy E0 ptr s'.
Proof.
  intros Hb Hg H. unfold lift_signup in H. destruct (g (signup s) (chat s)) as [[su st]| |] eqn:E; try done. cbn [obind] in H. injection H as <-.
  apply busy_signup, busy_chat; [done|]. by apply (Hg su).
Qed.

Lemma lift_groups_busy E0 ptr g pkt s s' :
  busy E0 ptr s -> (forall x y gs, groups_ok gs -> groups_ok (g x y gs).2) -> lift_groups g pkt s = Ok s' -> busy E0 ptr s'.
Proof. intros Hb Hg H. injection H as <-. apply busy_groups; [done|]. apply Hg, Hb. Qed.

Lemma chat_call_busy E0 ptr s (o : outcome (@State Net)) s' :
  busy E0 ptr s -> (forall st', o = Ok st' -> calm E0 (chat s) st') -> (let! st := o in Ok (set_chat st s)) = Ok s' -> busy E0 ptr s'.
Proof. intros Hb Ho H. destruct o as [st| |]; try done. cbn [obind] in H. injection H as <-. apply busy_chat; [done|]. by apply Ho. Qed.

Lemma handle_type_busy E0 e t pkt p ptr se s s' :
  p ∈ E0 -> busy E0 ptr s -> deref (registry (net s)) (Some ptr) = Ok se ->
  (bypassAuth t = false -> ValidateSessionHotPath se (t_gate e) = true) -> handle_type hash e t pkt p ptr s = Ok s' -> busy E0 ptr s'.
Proof.
  intros Hp Hb Hse Hv H. pose proof (so_mem _ _ (proj1 Hb)) as Hm. destruct t; cbn [handle_type] in H; try (by injection H as <-).
  all: first
    [ by eapply on_login_busy
    | by eapply on_token_busy
    | by eapply return_busy
    | eapply lift_groups_busy, H; [done|]; intros x y gs Hg;
      solve [apply (group_step_refines (OCreate x y)); done | apply (group_step_refines (OJoin x y)); done | apply (group_step_refines (OLeave x y)); done]
    | eapply chat_call_busy, H; [done|]; intros st' Hr; solve [eauto with calm]
    | eapply lift_signup_busy, H; [done|]; intros su' st' Hr; solve [eauto with calm]
    | eapply lift_files_busy, H; [done|]; intros f' st' Hr; split; [solve [eauto with calm]|solve [econstructor; eassumption]]
    | idtac ].
  - rewrite Hse in H. cbn [obind] in H. eapply logout_busy, H; try done. eapply validated_kept; [apply Hb|done|by apply Hv].
  - rewrite Hse in H. cbn [obind] in H. eapply lift_files_busy, H; [done|]. intros f' st' Hr. split; [by eapply handleFileStart_calm|by eapply step_start].
  - destruct (HandleDownloadRequest _ _ _) as [[[j f] st]| |] eqn:Hr; try done. cbn [obind] in H. injection H as <-.
    pose proof (file_step_inv _ _ (so_files _ _ (proj1 Hb)) (step_request _ _ _ _ _ _ Hr)) as Hf.
    apply (HandleDownloadRequest_calm E0 _ _ _ _ _ _ Hp Hm) in Hr. destruct (busy_chat _ _ _ _ Hb Hr) as [[] Ha]. split; [by constructor|done].
Qed.

(** One packet through the gate: an authenticated session has been registered under a user's
    id, so a logout does not leave the batch with a session that is neither. *)
Lemma handlePacket_busy E0 e p ptr s s' : p ∈ E0 -> busy E0 ptr s -> handlePacket hash e p ptr s = Ok s' -> busy E0 ptr s'.
Proof.
  intros Hp Hb H. unfold handlePacket in H. destruct (pool _ !! p) as [pkt|]; [|done]. destruct (deref _ _) as [se| |] eqn:Hse; try done. cbn [obind] in H.
  destruct (negb (default false _) && _) eqn:Hgate.
  - destruct (SendAuthFailure _ _ _) as [n| |] eqn:Hf; try done. cbn [obind] in H. eapply return_busy, H; [done|].
    apply (busy_chat E0 ptr s ((chat s).1, n)); [done|]. apply quiet_calm. pose proof (so_mem _ _ (proj1 Hb)) as Hm. unfold net in Hf.
    destruct (chat s) as [q n0]. by eapply failure_quiet.
  - destruct (type_of_code _) as [t|]; [|by injection H as <-]. eapply handle_type_busy; try done. intros Hby. cbn in Hgate. rewrite Hby in Hgate.
    cbn in Hgate. by destruct (ValidateSessionHotPath se (t_gate e)).
Qed.

Lemma parseHeader_id p : pkt_id (parseHeader p).2 = pkt_id p.
Proof. unfold parseHeader. repeat case_match; done. Qed.

Lemma parseData_id p b p' : parseData p = Ok (b, p') -> pkt_id p' = pkt_id p.
Proof. unfold parseData. intros H. repeat first [case_match|returned H]; by injection H as _ <-. Qed.

Lemma dispatch_one_busy E0 e p ptr s s' : p ∈ E0 -> busy E0 ptr s -> dispatch_one hash e p ptr s = Ok s' -> busy E0 ptr s'.
Proof.
  intros Hp Hb H. unfold dispatch_one in H. destruct (pool _ !! p) as [pkt|] eqn:Hpkt; [|done].
  pose proof (parseHeader_id pkt) as Hid. destruct (parseHeader pkt) as [parsed pkt1]. cbn [snd] in Hid.
  destruct (parseData pkt1) as [[parsedData pkt2]| |] eqn:Hd; try done. cbn [obind] in H. apply parseData_id in Hd.
  match type of H with context [set_net ?n s] => assert (Hb1 : busy E0 ptr (set_net n s)) end.
  { destruct Hb as [[] Ha]. split; [constructor; try done|done].
    cbn [set_net set_chat chat]. unfold net in *. destruct (chat s) as [q n]. cbn [fst snd] in *.
    rewrite (write_packet_same p (fun _ => pkt2) (fun x => set_pkt_id (pkt_id x) pkt2)).
    - by apply mem_write.
    - intros x Hx. rewrite Hpkt in Hx. injection Hx as <-. rewrite <- Hid, <- Hd. by destruct pkt2. }
  case_match; [by eapply return_busy|by eapply handlePacket_busy].
Qed.

Lemma dispatch_all_busy E0 clock ps ptr : forall i s s',
  Forall (.∈ E0) ps -> busy E0 ptr s -> dispatch_all hash clock i ps ptr s = Ok s' -> busy E0 ptr s'.
Proof.
  induction ps as [|p ps IH]; intros i s s' Hps Hb H; cbn [dispatch_all] in H; [by injection H as <-|]. apply list.Forall_cons in Hps as [Hp Hps].
  destruct (dispatch_one _ _ _ _ _) as [s1| |] eqn:H1; try done. cbn [obind] in H. eapply IH, H; [done|]. by eapply dispatch_one_busy.
Qed.

Lemma return_all_ok E0 ps : forall s s', Forall (.∈ E0) ps -> server_ok E0 s -> return_all ps s = Ok s' -> server_ok E0 s'.
Proof.
  induction ps as [|p ps IH]; intros s s' Hps Hok H; cbn [return_all] in H; [by injection H as <-|]. apply list.Forall_cons in Hps as [Hp Hps].
  destruct (return_received p s) as [s1| |] eqn:H1; try done. cbn [obind] in H. eapply IH, H; [done|].
  destruct (return_calm E0 p s s1 Hp (so_mem _ _ Hok) H1) as (st & -> & Hc). by apply ok_calm.
Qed.

Lemma dispatch_batch_ok E0 clock sk ps dis s dis' s' :
  0 <= sk -> Forall (.∈ E0) ps -> server_ok E0 s -> dispatch_batch hash clock sk ps dis s = Ok (dis', s') -> server_ok E0 s'.
Proof.
  intros Hsk Hps Hok H. unfold dispatch_batch in H. destruct ps as [|p ps]; [by injection H as _ <-|].
  destruct (session_for_seats sk (registry (net s)) (so_seats _ _ Hok) Hsk) as (ptr & r & Hr & Hs & Ha). rewrite Hr in H. cbn [obind] in H.
  assert (Hok1 : server_ok E0 (set_net (set_registry r (net s)) s)) by (destruct Hok; by constructor). destruct ptr as [ptr|].
  - destruct (dispatch_all _ _ _ _ _ _) as [s1| |] eqn:H1; try done. cbn [obind] in H. injection H as _ <-.
    eapply dispatch_all_busy in H1; [apply H1|done|]. split; [done|]. by apply Ha.
  - destruct (return_all _ _) as [s1| |] eqn:H1; try done. cbn [obind] in H. injection H as _ <-. by eapply return_all_ok.
Qed.

Lemma after_receive_ok E0 clock sk ps dis s s' :
  0 <= sk -> Forall (.∈ E0) ps -> server_ok E0 s -> after_receive hash clock sk ps dis s = Ok s' -> server_ok E0 s'.
Proof.
  intros Hsk Hps Hok H. unfold after_receive in H. destruct (dispatch_batch _ _ _ _ _ _) as [[dis' s1]| |] eqn:H1; try done. cbn [obind] in H.
  pose proof (dispatch_batch_ok _ _ _ _ _ _ _ _ Hsk Hps Hok H1) as Hok1. destruct dis'; [by eapply (disconnect_server_ok E0 sk s1)|].
  destruct (postRecv sk (net s1)) as [[posted n]| |] eqn:H2; try done. cbn [obind] in H.
  assert (Hok2 : server_ok E0 (set_net n s1)).
  { apply (ok_calm E0 s1 ((chat s1).1, n)); [done|]. apply quiet_calm. pose proof (so_mem _ _ Hok1) as Hm. unfold net in H2.
    destruct (chat s1) as [q n1]. by eapply postRecv_quiet. }
  destruct posted; cbn [negb] in H; [by injection H as <-|]. by eapply (disconnect_server_ok E0 sk (set_net n s1)).
Qed.

(** ** The worker threads *)

(** The system gives a socket's bytes only as far as there is room. *)
Definition input_fits (c : completion) (r : recv_result) (s : Server) : Prop := recv_fits (connection_of (completionKey c) (conns s)) r.

Lemma on_receive_ok clock sk ptr r s s' :
  0 <= sk -> recv_fits (connection_of sk (conns s)) r -> server_ok ∅ s -> on_receive hash clock sk ptr r s = Some (Ok s') -> server_ok ∅ s'.
Proof.
  intros Hsk Hr Hok H. unfold on_receive in H. destruct (returnIOPdata (Some ptr) (io (net s))) as [ip| |] eqn:Hio; try done.
  destruct (on_recv _ _ _) as [res|] eqn:Hrecv; [|done]. destruct res as [[[[dis c] pp] l]| |]; try done. cbn [obind] in H. injection H as H.
  pose proof Hok as [Hm Hs Hc Hg Hf Hu]. set (n := set_io ip (net s)) in *.
  assert (Hm1 : mem_ok ∅ ((chat s).1, n)).
  { unfold n, net in *. destruct (chat s) as [q n0]. apply mem_io; [done|]. intros E _ Hsh. by eapply io_shape_return. }
  destruct (on_recv_shape ∅ (chat s).1 n _ r dis c pp l (connection_wf sk _ Hc) Hr Hm1 Hrecv) as (Hwf & E1 & _ & Hm2 & Hl).
  apply (ok_weaken E1); [set_solver|]. eapply after_receive_ok, H; [done|done|]. constructor; try done. by apply update_connection_ok.
Qed.
End Router.

(** *** Sends that have completed *)

Record send_ok (E0 : gset nat) (sv : Network.Server) : Prop := mkSendOk {
  sd_mem : mem_ok E0 (Network.offline sv, Network.net sv);
  sd_seats : seats_ok (registry (Network.net sv));
  sd_conns : conns_ok (Network.conns sv)
}.

(** The packet of a context is one that the pool handed out. *)
Lemma mem_context E0 q n i d p :
  mem_ok E0 (q, n) -> io_pool (io n) !! i = Some d -> io_packet d = Some p -> mem_ok ({[p]} ∪ E0) (q, n).
Proof.
  intros (B & E & HE & Hp & Hio & Hq) Hd Hpk. exists B, E. split; [|done]. apply union_subseteq. split; [|done].
  apply singleton_subseteq_l. by apply (ios_packets _ _ Hio i d).
Qed.

Lemma send_weaken E0 E1 sv : E1 ⊆ E0 -> send_ok E0 sv -> send_ok E1 sv.
Proof. intros HE []. constructor; try done. by eapply mem_ok_weaken. Qed.

Lemma send_update E0 p f sv : keeps_id f -> send_ok E0 sv -> send_ok E0 (update_packet p f sv).
Proof. intros Hf []. constructor; try done. by apply mem_write. Qed.

Lemma send_return_io E0 ptr sv sv' : send_ok E0 sv -> return_io ptr sv = Ok sv' -> send_ok E0 sv'.
Proof.
  intros [] H. unfold return_io in H. destruct (returnIOPdata _ _) as [ip| |] eqn:Hr; try done. cbn [obind] in H. injection H as <-.
  constructor; try done. apply mem_io; [done|]. intros E _ Hs. by eapply io_shape_return.
Qed.

Lemma send_return_packet E0 p sv sv' : p ∈ E0 -> send_ok E0 sv -> return_packet (Some p) sv = Ok sv' -> send_ok E0 sv'.
Proof.
  intros Hp [] H. unfold return_packet in H. destruct (returnPacket (Some p) _) as [pp| |] eqn:Hr; try done. cbn [obind] in H. injection H as <-.
  destruct (mem_give_back E0 _ _ p (set_packets pp (Network.net sv)) sd_mem0 Hp) as [Hm _]; [unfold give_back; by rewrite Hr|]. by constructor.
Qed.

Lemma send_offline E0 f sv sv' :
  send_ok E0 sv -> (forall st', f (Network.offline sv, Network.net sv) = Ok st' -> quiet E0 (Network.offline sv, Network.net sv) st') ->
  with_offline f sv = Ok sv' -> send_ok E0 sv'.
Proof.
  intros [] Hf H. unfold with_offline in H. destruct (f _) as [[q n]| |]; try done. cbn [obind] in H. injection H as <-.
  destruct (Hf (q, n) eq_refl) as [Hm Hr]. constructor; cbn [Network.net Network.offline Network.conns]; [done| |done]. cbn [snd] in Hr. by rewrite Hr.
Qed.

Lemma send_disconnect E0 sk sv sv' : send_ok E0 sv -> disconnect sk sv = Ok sv' -> send_ok E0 sv'.
Proof.
  intros [Hm Hs Hc] H. unfold disconnect in H. destruct (disconnect_seats sk (registry (Network.net sv)) (Network.conns sv) Hs) as (r & E & Hr).
  rewrite E in H. cbn [obind] in H. injection H as <-. constructor; [done|done|]. cbn [Network.conns]. destruct (decide _); [done|by apply disconnect_ok].
Qed.

Lemma on_failed_ok sk ptr sv sv' : send_ok ∅ sv -> on_failed sk ptr sv = Ok sv' -> send_ok ∅ sv'.
Proof.
  intros Hok H. unfold on_failed in H. destruct (io_pool _ !! ptr) as [d|] eqn:Hd; [|done].
  match type of H with obind ?o _ = _ => assert (Ho : forall sv1, o = Ok sv1 -> send_ok ∅ sv1) end.
  { intros sv1 H1. destruct (io_packet d) as [p|] eqn:Hp; [|by injection H1 as <-]. destruct (_ =? _); [|by injection H1 as <-].
    assert (Hok1 : send_ok ({[p]} ∪ ∅) sv) by (destruct Hok; constructor; [by eapply mem_context|done..]). apply (send_weaken ({[p]} ∪ ∅)); [set_solver|].
    match type of H1 with context [update_packet p ?f sv] => apply (send_update _ p f) in Hok1; [|done] end.
    destruct (pool _ !! p) as [pkt|]; [|done]. destruct (negb (bypassQueue pkt)).
    - eapply send_offline, H1; [done|]. intros st' Hst. eapply ManageCompletePacket_quiet, Hst; [apply Hok1|apply in_new].
    - eapply send_return_packet, H1; [apply in_new|done]. }
  destruct (match io_packet d with Some _ => _ | None => _ end) as [sv1| |] eqn:H1 in H; try done. cbn [obind] in H. specialize (Ho sv1 H1).
  destruct (return_io ptr sv1) as [sv2| |] eqn:H2; try done. cbn [obind] in H. eapply send_disconnect, H. by eapply send_return_io.
Qed.

Lemma send_context E0 ptr d l sv :
  send_ok E0 sv -> io_id d = ptr -> (forall p, io_packet d = Some p -> p ∈ E0) ->
  send_ok E0 (Network.mkServer (mkNet (write_io ptr d (io (Network.net sv))) (packets (Network.net sv)) (registry (Network.net sv)) (posted (Network.net sv))
    (reads (Network.net sv)) l) (Network.offline sv) (Network.conns sv)).
Proof.
  intros [] Hid Hp. constructor; try done. apply mem_io; [done|]. intros E HE Hs. apply io_shape_write; [done|done|]. intros p' Hp'. by apply HE, Hp.
Qed.

Lemma send_io_id E0 sv ptr d : send_ok E0 sv -> io_pool (io (Network.net sv)) !! ptr = Some d -> io_id d = ptr.
Proof. intros [(B & E & _ & _ & Hio & _) _ _] Hd. by apply (ios_ids _ _ Hio). Qed.

Lemma on_send_completion_ok sk ptr n sv sv' : send_ok ∅ sv -> on_send_completion sk ptr n sv = Ok sv' -> send_ok ∅ sv'.
Proof.
  intros Hok H. unfold on_send_completion in H. destruct (io_pool _ !! ptr) as [d|] eqn:Hd; [|done].
  destruct (io_packet d) as [p|] eqn:Hp; [|by eapply send_return_io]. pose proof (send_io_id _ _ _ _ Hok Hd) as Hid.
  assert (Hok1 : send_ok ({[p]} ∪ ∅) sv) by (destruct Hok; constructor; [by eapply mem_context|done..]). apply (send_weaken ({[p]} ∪ ∅)); [set_solver|].
  assert (Hin : forall p', Some p = Some p' -> p' ∈ ({[p]} ∪ ∅ : gset nat)) by (intros p' [= <-]; apply in_new).
  destruct (_ <? _).
  - match type of H with context [Network.mkServer (mkNet (write_io ptr ?d' _) _ _ _ _ ?l) _ _] => pose proof (send_context _ ptr d' l sv Hok1 Hid Hin) as Hok2 end.
    destruct (answer _); [by injection H as <-|]. 
    match type of H with context [update_packet p ?f ?sv1] => apply (send_update _ p f) in Hok2; [|done] end.
    destruct (return_io ptr _) as [sv2| |] eqn:H2; try done. cbn [obind] in H. pose proof (send_return_io _ _ _ _ Hok2 H2) as Hok3.
    destruct (with_offline _ sv2) as [sv3| |] eqn:H3; try done. cbn [obind] in H. eapply send_disconnect, H.
    eapply send_offline, H3; [done|]. intros st' [= <-]. apply clearFlag_quiet, Hok3.
  - match type of H with context [set_io (write_io ptr ?d' _) _] => pose proof (send_context _ ptr d' (answers (Network.net sv)) sv Hok1 Hid Hin) as Hok2 end.
    destruct (pool _ !! p) as [pkt|]; [|done].
    match type of H with context [update_packet p ?f ?sv1] => apply (send_update _ p f) in Hok2; [|done] end.
    destruct (return_packet (Some p) _) as [sv2| |] eqn:H2; try done. cbn [obind] in H. pose proof (send_return_packet _ _ _ _ (in_new _ _) Hok2 H2) as Hok3.
    destruct (if negb (bypassQueue pkt) then _ else _) as [sv3| |] eqn:H3 in H; try done. cbn [obind] in H. eapply send_return_io, H.
    destruct (negb (bypassQueue pkt)); [|by injection H3 as <-]. eapply send_offline, H3; [done|]. intros st' Hst. eapply drainNext_quiet, Hst. apply Hok3.
Qed.

Lemma lift_send_ok f s s' :
  (forall sv sv', send_ok ∅ sv -> f sv = Ok sv' -> send_ok ∅ sv') -> server_ok ∅ s -> lift_send f s = Ok s' -> server_ok ∅ s'.
Proof.
  intros Hf [Hm Hs Hc Hg Hfi Hu] H. unfold lift_send in H. destruct (f (sending_side s)) as [sv| |] eqn:E; try done. cbn [obind] in H. injection H as <-.
  destruct (Hf (sending_side s) sv) as [Hm' Hs' Hc']; [constructor; [exact Hm|done..]|done|]. by constructor.
Qed.

(** ** Turns of the threads *)

Section Turns.
Context {C : Checksum} {N : Sodium} {LN : SodiumLaws N} (hash crc32 : bstr -> Z).

(** One turn of a thread that returns.  A completion may report anything, for any I/O
    context; socket handles are not negative, and what [WSARecv] gives fits into the buffers
    it was passed.  [otp] and [userID] are what the generators draw; a download is one that a
    request has started. *)
Inductive server_turn : Server -> Server -> Prop :=
| turn_worker clock c r go_on s s' :
    0 <= completionKey c -> input_fits c r s -> worker_iteration hash clock c r s = Some (Ok (go_on, s')) -> server_turn s s'
| turn_accept a go_on s s' : accept_iteration a s = Ok (go_on, s') -> server_turn s s'
| turn_otp now otp s : server_turn s (set_signup (otp_turn hash now otp (signup s)) s)
| turn_signup userID salt view s su a :
    signup_turn hash crc32 userID salt view (signup s) (auth s) = Ok (su, a) -> server_turn s (set_authm a (set_signup su s))
| turn_links s f st : sendDownloadLinks (groups s) (files s) (chat s) = Ok (f, st) -> server_turn s (set_files f (set_chat st s))
| turn_download j acks s st : j ∈ threads s -> HandleFileTransfer j acks (files s) (chat s) = Ok st -> server_turn s (set_chat st s).

Lemma worker_ok clock c r go_on s s' :
  0 <= completionKey c -> input_fits c r s -> server_ok ∅ s -> worker_iteration hash clock c r s = Some (Ok (go_on, s')) -> server_ok ∅ s'.
Proof.
  intros Hk Hr Hok H. unfold worker_iteration in H. destruct (shutdown_signal c); [by injection H as _ <-|].
  destruct (lpOverlapped c) as [ptr|]; [|done]. destruct (io_pool _ !! ptr) as [d|]; [|done].
  assert (Hgo : forall (o : outcome Server), (let! s := o in Ok (true, s)) = Ok (go_on, s') -> o = Ok s').
  { intros o Ho. destruct o; try done. cbn [obind] in Ho. by injection Ho as _ <-. }
  destruct (_ || _); [|destruct (operationType d =? 2); [|destruct (operationType d =? 0); [|by injection H as _ <-]]].
  - injection H as H. apply Hgo in H. eapply lift_send_ok, H; [|done]. intros sv sv'. apply on_failed_ok.
  - destruct (on_receive _ _ _ _ _ _) as [o|] eqn:Ho; [|done]. cbn in H. injection H as H. apply Hgo in H. subst o. by eapply on_receive_ok.
  - injection H as H. apply Hgo in H. eapply lift_send_ok, H; [|done]. intros sv sv'. apply on_send_completion_ok.
Qed.

Lemma accept_turn_ok a go_on s s' : server_ok ∅ s -> accept_iteration a s = Ok (go_on, s') -> server_ok ∅ s'.
Proof.
  intros Hok H. destruct a as [sk [|]|err]; cbn [accept_iteration] in H; [| |by injection H as _ <-].
  - assert (Hok1 : server_ok ∅ (set_conns (accept sk (conns s)) s)) by (destruct Hok; constructor; try done; by apply accept_ok).
    destruct (postRecv sk _) as [[posted n]| |] eqn:Hp; try done. cbn [obind] in H.
    assert (Hok2 : server_ok ∅ (set_net n (set_conns (accept sk (conns s)) s))).
    { apply (ok_calm _ _ ((chat s).1, n)); [done|]. apply quiet_calm. pose proof (so_mem _ _ Hok) as Hm. change (net _) with (chat s).2 in Hp.
      cbn [set_conns chat]. destruct (chat s) as [q n0]. by eapply postRecv_quiet. }
    destruct posted; cbn [negb obind] in H; [by injection H as _ <-|]. destruct (disconnect_socket _ _) as [s1| |] eqn:Hd; try done.
    cbn [obind] in H. injection H as _ <-. by eapply disconnect_server_ok.
  - injection H as _ <-. destruct Hok as [? ? [] ? ? ?]. by constructor.
Qed.

Lemma insert_ids r us : ids_ok us -> length (user_id r) = 16%nat -> ids_ok (Insert r us).2.
Proof.
  intros Hu Hr. unfold Insert. repeat case_match; cbn [snd]; try done. all: intros k r'; cbn [records_].
  all: intros [[_ <-]|[_ Hl]]%lookup_insert_Some; [done|by eapply Hu].
Qed.

Lemma signup_turn_ok userID salt view s su a :
  server_ok ∅ s -> signup_turn hash crc32 userID salt view (signup s) (auth s) = Ok (su, a) -> server_ok ∅ (set_authm a (set_signup su s)).
Proof.
  intros [] H. constructor; try done. cbn [set_authm auth]. unfold signup_turn in H. destruct (signUpQueue _) as [|req rest]; [by injection H as _ <-|].
  destruct (crypto_pwhash_str _ _) as [hashed|]; [|by injection H as _ <-]. destruct (writeTheData _ _ _ _) as [[written t]| |]; try done. cbn [obind] in H.
  destruct written; [|by injection H as _ <-]. injection H as _ <-. unfold AddUserRecord. set (u := new_user_record _ _ _ _).
  assert (Hl : length (user_id u) = 16%nat) by (cbn; lens). pose proof (insert_ids u _ so_users0 Hl) as Hi. by destruct (Insert u _).
Qed.

Lemma drain_links_inv k gs : forall f st f' st', files_inv f -> drain_links k gs f st = Ok (f', st') -> files_inv f'.
Proof.
  induction k as [|k IH]; intros f st f' st' Hf H; cbn [drain_links] in H; [by injection H as <- _|].
  destruct (send_link gs f st) as [[f1 st1]| |] eqn:E; try done. cbn [obind] in H. eapply IH, H. eapply file_step_inv; [exact Hf|]. by eapply step_link.
Qed.

Lemma turn_ok s s' : server_ok ∅ s -> server_turn s s' -> server_ok ∅ s'.
Proof.
  intros Hok H. destruct H as [clock c r go_on s s' Hk Hr H|a go_on s s' H|now otp s|userID salt view s su a H|s f st H|j acks s st Hj H].
  - by eapply worker_ok.
  - by eapply accept_turn_ok.
  - destruct Hok. by constructor.
  - by eapply signup_turn_ok.
  - pose proof (drain_links_calm ∅ _ _ _ _ _ _ (so_mem _ _ Hok) H) as Hc. pose proof (drain_links_inv _ _ _ _ _ _ (so_files _ _ Hok) H) as Hf.
    destruct (ok_calm ∅ s st Hok Hc). by constructor.
  - apply ok_calm; [done|]. eapply HandleFileTransfer_calm, H. apply Hok.
Qed.

(** ** Start *)

Lemma fold_insert_ids records : forall us, ids_ok us -> Forall (fun r => length r = sizeof_userInfo) records ->
  ids_ok (fold_left (fun us u => (Insert (user_of_record u) us).2) records us).
Proof.
  induction records as [|r records IH]; intros us Hu Hr; [done|]. apply list.Forall_cons in Hr as [Hl Hr]. cbn [fold_left]. apply IH; [|done].
  apply insert_ids; [done|]. cbn [user_of_record user_id]. unfold rec_user_id. rewrite length_slice, Hl. reflexivity.
Qed.

Lemma initStorage_slots v1 v2 file m :
  Forall (fun r => length r = sizeof_userInfo) file -> mappedMemory (initStorage v1 v2 file) = Some m -> Forall (fun r => length r = sizeof_userInfo) m.
Proof.
  intros Hf H. unfold initStorage in H. cbn [set_mapping mappedMemory] in H. destruct v2; [|done]. injection H as <-. unfold map_file.
  apply Forall_take, Forall_app. split; [done|]. apply Forall_replicate. apply length_zeros.
Qed.

Lemma new_io_pool_packets i d : io_pool new_io_pool !! i = Some d -> io_packet d = None.
Proof. cbn [new_io_pool io_pool]. rewrite list_lookup_fmap. destruct (seq 0 io_maxSize !! i); [|done]. by intros [= <-]. Qed.

Lemma new_memory r : mem_ok ∅ (∅, mkNet new_io_pool new_pool r [] [] []).
Proof.
  pose proof (new_pool_inv) as Hp. rewrite <- skeleton_new in Hp. destruct new_io_pool_inv as [[_ _ Hlen Hids _] _]. pose proof new_io_pool_packets as Hpk.
  generalize dependent new_pool. intros pp Hp. generalize dependent new_io_pool. intros ip Hlen Hids Hpk. exists ∅, ∅. split_and!; [done|exact Hp| |].
  - constructor; [done|done|]. intros i d p Hd Hdp. by rewrite (Hpk i d Hd) in Hdp.
  - intros id cq it Hc. cbn [fst] in Hc. by rewrite lookup_empty in Hc.
Qed.

Lemma new_server_ok key salt v1 v2 file fs s :
  Forall (fun r => length r = sizeof_userInfo) file -> new_server key salt (initStorage v1 v2 file) fs = Ok s -> server_ok ∅ s.
Proof.
  intros Hf H. unfold new_server in H. destruct (LoadUsersFromDatabase _ _) as [us| |] eqn:Hl; try discriminate H. cbn [obind] in H.
  assert (Hu : ids_ok us).
  { unfold LoadUsersFromDatabase in Hl. destruct (getAllRecords _) as [records| |] eqn:Hr; try discriminate Hl. cbn [obind] in Hl. injection Hl as <-.
    apply fold_insert_ids; [intros k r Hk; cbn [new_auth_manager user_store_ records_] in Hk; by rewrite lookup_empty in Hk|].
    unfold getAllRecords in Hr.
    destruct (mappedMemory _) as [m|] eqn:Hm; [|injection Hr as <-; constructor]. destruct (_ <? _)%nat; [done|]. injection Hr as <-.
    eapply list.Forall_forall. intros r [_ Hin]%list_elem_of_filter. revert r Hin. apply list.Forall_forall, Forall_fmap, Forall_take. eapply list.Forall_impl; [by eapply initStorage_slots|]. intros r Hlen. cbn.
    unfold decryptRecord, encryptRecord. by rewrite length_imap. }
  pose proof (new_memory new_registry) as Hmem.
  pose proof new_seats as Hseats. revert H Hmem Hseats. generalize new_registry new_pool new_io_pool. intros r0 pp ip [= <-] Hmem Hseats.
  constructor; cbn [chat conns groups files auth set_user_store user_store_]; [exact Hmem|exact Hseats|apply no_connections_ok|apply map_Forall_empty|apply (new_files_inv fs)|exact Hu].
Qed.
End Turns.

(** ** Well-formed servers *)

(** A packet that the pool has handed out: it is an object of the pool and knows its own
    number, by which it is returned. *)
Definition real_packet (s : Server) (p : nat) : Prop :=
  exists pkt, pool (packets (net s)) !! p = Some pkt /\ pkt_id pkt = p.

Record well_formed (s : Server) : Prop := mkWellFormed {
  (* the packet pool: nothing is free twice, or free and in use, and nothing is lost *)
  sw_free : NoDup (availableIdx (packets (net s)));
  sw_unused : forall i, i ∈ availableIdx (packets (net s)) -> inUse (packets (net s)) !! i = Some false;
  sw_count : currentPacketUse (packets (net s)) + len (availableIdx (packets (net s))) = Z.of_nat currentSize;
  (* the packets in send queues and pending sends *)
  sw_queues : forall id cq it, (chat s).1 !! id = Some cq -> it ∈ cqueue cq -> real_packet s (packet it);
  sw_contexts : forall i d, io_pool (io (net s)) !! i = Some d -> io_id d = i /\ forall p, io_packet d = Some p -> real_packet s p;
  (* sessions: the two maps agree, no two ids share a session, none is registered and free *)
  sw_sessions : forall id ptr, sessions (registry (net s)) !! id = Some ptr -> exists p se, ptr = Some p /\
    spool (pool_of (registry (net s))) !! p = Some se /\ sid se = p /\ socketToUserId (registry (net s)) !! socket se = Some id /\
    p ∉ freeIndices (pool_of (registry (net s)));
  sw_sockets : forall sk id, socketToUserId (registry (net s)) !! sk = Some id -> exists p se,
    sessions (registry (net s)) !! id = Some (Some p) /\ spool (pool_of (registry (net s))) !! p = Some se /\ socket se = sk;
  sw_one_id : forall id id' p, sessions (registry (net s)) !! id = Some (Some p) -> sessions (registry (net s)) !! id' = Some (Some p) -> id = id';
  sw_session_free : NoDup (freeIndices (pool_of (registry (net s))));
  (* the receive buffers, groups, transfers and users *)
  sw_conns : conns_ok (conns s);
  sw_groups : groups_ok (groups s);
  sw_files : files_inv (files s);
  sw_users : ids_ok (user_store_ (auth s))
}.

Lemma server_well_formed s : server_ok ∅ s -> well_formed s.
Proof.
  intros [(B & E & _ & Hp & Hio & Hq) Hs Hc Hg Hf Hu].
  assert (Hreal : forall p, p ∈ E -> real_packet s p).
  { intros p Hin. pose proof (proj2 (pool_sub _ _ _ Hp) p Hin) as Hlt. rewrite <- (pool_len _ _ _ Hp) in Hlt. destruct (lookup_lt_is_Some_2 _ _ Hlt) as [b Hb].
    pose proof (pool_id _ _ _ Hp p b Hin Hb) as Hid. cbn [skeleton pool] in Hb. rewrite list_lookup_fmap in Hb. unfold real_packet, net.
    destruct (pool _ !! p) as [pkt|]; [|done]. injection Hb as <-. by exists pkt. }
  destruct (seats_meaning _ Hs) as (H1 & H2 & H3). constructor; try done.
  - exact (pool_nodup _ _ _ Hp).
  - intros i Hi. apply (pool_avail _ _ _ Hp) in Hi as [Hlt Hn]. pose proof (pool_use _ _ _ Hp i Hlt) as Huse. by rewrite bool_decide_eq_false_2 in Huse.
  - destruct (pool_count _ _ _ Hp) as [Hn Hsum]. cbn [skeleton currentPacketUse availableIdx] in Hn, Hsum. unfold net, len. rewrite Hn. lia.
  - intros id cq it Hl Hit. by eapply Hreal, Hq.
  - intros i d Hd. split; [by apply (ios_ids _ _ Hio)|]. intros p Hpk. by eapply Hreal, (ios_packets _ _ Hio).
  - intros sk id Hl. destruct (H2 sk id Hl) as (p & se & ? & ? & ? & _). by exists p, se.
  - intros id id' p Ha Hb. destruct (H1 id _ Ha) as (p1 & s1 & [= <-] & Hs1 & _ & E1 & _), (H1 id' _ Hb) as (p2 & s2 & [= <-] & Hs2 & _ & E2 & _). congruence.
Qed.

(** A turn of a worker thread does not run out of fuel. *)
Lemma worker_ends {C : Checksum} {N : Sodium} hash clock c r s : server_ok ∅ s -> input_fits c r s -> worker_iteration hash clock c r s <> None.
Proof.
  intros Hok Hr. unfold worker_iteration. destruct (shutdown_signal c); [done|]. destruct (lpOverlapped c) as [ptr|]; [|done].
  destruct (io_pool _ !! ptr) as [d|]; [|done]. destruct (_ || _); [done|]. destruct (_ =? 2); [|by destruct (_ =? 0)].
  unfold on_receive. destruct (returnIOPdata _ _); try done.
  pose proof (on_recv_ends _ r (packets (net s)) (connection_wf (completionKey c) _ (so_conns _ _ Hok)) Hr) as He. by destruct (on_recv _ _ _).
Qed.

(** ** Properties *)

Section Properties.
Context {C : Checksum} {N : Sodium} {LN : SodiumLaws N} (hash crc32 : bstr -> Z).

Lemma reachable_ok s0 s : server_ok ∅ s0 -> rtc (server_turn hash crc32) s0 s -> server_ok ∅ s.
Proof. intros Hok Hrun. induction Hrun as [s|s s1 s' Ht _ IH]; [done|]. apply IH. by eapply turn_ok. Qed.

(** C8: no client can break the server's data structures.  Start the server on any database
    file of whole records, and let worker threads, accept loop, the sign-up threads, the
    announcement of uploads and the downloads take turns in any order, on whatever bytes
    clients send and whatever the system reports.  As long as the turns return, the server
    stays well formed: no packet is free twice or free and in use, and none is lost; every
    pointer to a packet in a send queue or a pending send is one to a packet of the pool
    that knows its number; every mapped socket has a session which carries it, no two ids
    share a session and no registered session is free; every open socket has a receive
    buffer of its own, in order; groups have distinct members and none is empty; every
    transfer state that can be reached exists.  Moreover the turn of a worker thread never
    runs out of the fuel of the framing loop, and disconnecting a socket always succeeds,
    without undefined behaviour or exception. *)
Theorem server_stays_well_formed key salt v1 v2 file fs s0 s :
  Forall (fun r => length r = sizeof_userInfo) file -> new_server key salt (initStorage v1 v2 file) fs = Ok s0 ->
  rtc (server_turn hash crc32) s0 s ->
  well_formed s /\
  (forall clock c r, input_fits c r s -> worker_iteration hash clock c r s <> None) /\
  (forall sk, exists s', disconnect_socket sk s = Ok s' /\ well_formed s').
Proof.
  intros Hf Hnew Hrun. pose proof (reachable_ok s0 s (new_server_ok _ _ _ _ _ _ _ Hf Hnew) Hrun) as Hok. split_and!.
  - by apply server_well_formed.
  - intros clock c r Hr. by apply worker_ends.
  - intros sk. destruct (disconnect_seats sk (registry (net s)) (conns s) (so_seats _ _ Hok)) as (r & E & _).
    assert (Hd : disconnect_socket sk s = Ok (set_conns (if decide (sk ∈ disconnectedSockets (conns s)) then conns s else HandleDisconnectWithoutLock sk (conns s))
      (set_net (set_registry r (net s)) s))) by (unfold disconnect_socket; by rewrite E).
    eexists. split; [exact Hd|]. eapply server_well_formed, disconnect_server_ok, Hd. exact Hok.
Qed.
End Properties.

Lemma server_stays_well_formed_witness :
  exists (s0 s1 s : Server), rtc (@server_turn compute_soft sample_sodium sample_hash sample_crc) s0 s /\
    socketBuffers (conns s1) !! 100 = Some 0%nat /\ closed (conns s) = [100] /\ well_formed s.
Proof.
  assert (Hnew : exists s0, @new_server sample_sodium (zeros 32) [] (initStorage true true []) ∅ = Ok s0 /\ answers (net s0) = [] /\ conns s0 = no_connections).
  { unfold new_server. rewrite (load_of [] _ _ empty_table). cbn [obind]. eexists. split; [reflexivity|]. by split. }
  destruct Hnew as (s0 & Hnew & Ha & Hc).
  destruct (accept_pending 100 s0 ∅ ∅ ∅ 1 (new_server_ready _ _ _ _ _ 2 Hnew ltac:(lia))) as (s1 & i & d & Hacc & _ & Hok1 & _ & _ & _ & Hcs & _ & Hd & Hop & _);
    [unfold answer; by rewrite Ha|].
  destruct (failed_receive (C := compute_soft) (N := sample_sodium) sample_hash (fun _ => mkEnv 0 0 0 true) 0 100 (RecvBytes []) i d s1 ∅ ∅ ({[i]} ∪ ∅) 0)
    as (s & Hw & _ & Hdis); [exact Hok1|apply in_new|exact Hd|exact Hop|].
  assert (Hrun : rtc (@server_turn compute_soft sample_sodium sample_hash sample_crc) s0 s).
  { eapply rtc_l; [eapply turn_accept, Hacc|]. eapply rtc_once, turn_worker, Hw; [done|]. unfold input_fits. cbn [completionKey]. rewrite Hcs, Hc. vm_compute. discriminate. }
  exists s0, s1, s. split; [exact Hrun|]. split; [rewrite Hcs, Hc; reflexivity|]. split.
  - unfold handleDisconnect in Hdis. rewrite decide_False in Hdis by (rewrite Hcs, Hc; apply (bool_decide_unpack _); vm_compute; exact I).
    destruct (if decide _ then _ else _) in Hdis; try done. cbn [obind] in Hdis. injection Hdis as _ <-. rewrite Hcs, Hc. reflexivity.
  - refine (proj1 (server_stays_well_formed (C := compute_soft) (N := sample_sodium) (LN := sample_laws) sample_hash sample_crc (zeros 32) [] true true [] ∅ s0 s _ Hnew Hrun)).
    constructor.
Defined.
