(* ===== verification/Client.v ===== *)
(** The client: client/Client.h and Client.cpp, its connection and its credentials.

    [sendRawPacket], the framing of [receiveLoop] (the handling of the packets it cuts out
    of the stream is added in ClientFiles.v), the packets that carry credentials, and the
    requests of the user.  How much a call of [send] takes
    and what a call of [recv] finds is an argument.  The client and the server share the
    packet class, and the client's [bytesToHex], [hexToBytes] and [sanitize] are copies of
    the server's, so that the definitions of FileTransfer.v serve for both. *)

From S2P Require Import Prelude Crc32c Packet Serialize CircularBuffer Fqueue PacketPool Framing Session Offline Network AuthStore Auth Delivery FileTransfer.

(** ** Definitions: the connection *)

(** The loop of [sendRawPacket]: [grants] bounds what each call of [send] takes (nothing
    or less is an error); when it has run out, a call takes everything.  The result is the
    value returned and the bytes sent. *)
Fixpoint send_loop (grants : list Z) (d : bstr) (totalSize totalSent : Z) : bool * bstr :=
  if negb (totalSent <? totalSize) then (true, []) else
  match grants with
  | [] => (true, slice (Z.to_nat totalSent) (Z.to_nat (totalSize - totalSent)) d)
  | g :: grants =>
      let sent := Z.min g (totalSize - totalSent) in
      if sent <=? 0 then (false, []) else
      let (ok, bytes) := send_loop grants d totalSize (totalSent + sent) in
      (ok, slice (Z.to_nat totalSent) (Z.to_nat sent) d ++ bytes)
  end.

(** A size above that of the packet's array would make [send] read outside it. *)
Definition sendRawPacket (isConnected : bool) (grants : list Z) (p : Packet) : outcome (bool * bstr) :=
  if negb isConnected then Ok (false, []) else
  let totalSize := to_int32 (payload_length (header p) + Z.of_nat HEADER_SIZE) in
  if Z.of_nat sizeof_data <? totalSize then UB else Ok (send_loop grants (data p) totalSize 0).

(** One turn of the inner loop of [receiveLoop] on [streamBuffer], up to the call of
    [handleIncomingPacket]: stop, or go on with the rest and maybe a packet to handle. *)
Inductive turn := Stop (rest : bstr) | More (p : option Packet) (rest : bstr).

Section WithChecksum.
Context {C : Checksum}.

(** The [Packet] a function declares, as it is before anything is written to it: the class
    has no initializer for its header and its array. *)
Variable raw : Packet.

Definition receive_turn (streamBuffer : bstr) : outcome turn :=
  if (length streamBuffer <? HEADER_SIZE)%nat then Ok (Stop streamBuffer) else
  let hdr := read_header streamBuffer in
  if negb (magic hdr =? START_BYTE) then Ok (More None (drop 1 streamBuffer)) else
  let packetSize := wrap 32 (Z.of_nat HEADER_SIZE + payload_length hdr) in
  let overflow := Z.of_nat sizeof_data <? packetSize in
  if (len streamBuffer <? packetSize) || overflow then
    Ok (Stop (if overflow then drop HEADER_SIZE streamBuffer else streamBuffer))
  else
  let n := Z.to_nat packetSize in
  let (parsed, p) := parseHeader (fill (take n streamBuffer) raw) in
  if negb parsed then Ok (More None (drop n streamBuffer)) else
  let! (parsedData, p) := parseData p in
  Ok (More (if parsedData then Some p else None) (drop n streamBuffer)).

(** The framing of the inner loop: the packets to handle and what is left of the buffer;
    [None] when it takes more than [fuel] turns. *)
Fixpoint framing_turns (fuel : nat) (streamBuffer : bstr) : option (outcome (list Packet * bstr)) :=
  match fuel with
  | 0%nat => None
  | S fuel =>
      match receive_turn streamBuffer with
      | Ok (Stop rest) => Some (Ok ([], rest))
      | Ok (More p rest) =>
          match framing_turns fuel rest with
          | Some res => Some (let! (ps, rest) := res in Ok (option_list p ++ ps, rest))
          | None => None
          end
      | Throw => Some Throw
      | UB => Some UB
      end
  end.

(** The framing of [receiveLoop] over the data of successive calls of [recv]. *)
Fixpoint framing_loop (chunks : list bstr) (streamBuffer : bstr) : option (outcome (list Packet * bstr)) :=
  match chunks with
  | [] => Some (Ok ([], streamBuffer))
  | c :: chunks =>
      let s := streamBuffer ++ c in
      match framing_turns (S (length s)) s with
      | Some (Ok (ps, rest)) =>
          match framing_loop chunks rest with
          | Some res => Some (let! (qs, rest) := res in Ok (ps ++ qs, rest))
          | None => None
          end
      | Some Throw => Some Throw
      | Some UB => Some UB
      | None => None
      end
  end.
End WithChecksum.

(** ** Definitions: credentials *)

(** The members of [Client] that concern the user; [storage] is the working directory. *)
Record Client := mkClient {
  userId : bstr;
  serverId : bstr;
  access : bstr;              (* the bytes of [AccessToken] *)
  refresh : bstr;             (* the bytes of [RefreshToken] *)
  accessValid : bool;
  refreshValid : bool;
  storage : gmap bstr bstr
}.

Definition new_client (files : gmap bstr bstr) : Client :=
  mkClient [] (zeros UUID_SIZE) (zeros sizeof_AccessToken) (zeros sizeof_RefreshToken) false false files.

(** [writable] says whether the file can be opened. *)
Definition save (writable : bool) (name : string) (bytes : bstr) (files : gmap bstr bstr) : gmap bstr bstr :=
  if writable then <[str name := bytes]> files else files.

(** A file that is not opened with [std::ios::binary]: on Windows a line feed is written as
    two characters. *)
Definition text_mode (bytes : bstr) : bstr := bytes ≫= fun b => if bool_decide (b = Byte.x0a) then [Byte.x0d; Byte.x0a] else [b].

Section Credentials.
Context {C : Checksum}.

(** The first 16 bytes of a [std::string] object: [handleUserIdPacket] stores these, not
    the characters. *)
Variable object_bytes : bstr -> bstr.

Definition handleUserIdPacket (writable : bool) (p : Packet) (c : Client) : Client :=
  let (uid, sid) := read_UserId p in
  mkClient uid sid (access c) (refresh c) (accessValid c) (refreshValid c)
    (save writable "userID.bin" (text_mode (object_bytes uid)) (storage c)).

Definition handleTokenGranted (writable : bool) (p : Packet) (c : Client) : outcome Client :=
  let! (_, p) := parseData p in
  match read_TokenGranted p with
  | None => Ok c
  | Some (a, r) =>
      Ok (mkClient (userId c) (serverId c) a r true true
            (save writable "refreshToken.bin" r (save writable "accessToken.bin" a (storage c))))
  end.

(** The tokens and the id of an earlier run.  The id is read into the characters of
    [userId], which are as many as the string has. *)
Definition tokenBuildOnStartUp (c : Client) : outcome (bool * Client) :=
  match storage c !! str "userID.bin" with
  | None => Ok (false, c)
  | Some u =>
      if negb (length u =? UUID_SIZE)%nat then Ok (false, c) else
      if (length (userId c) <? UUID_SIZE)%nat then UB else
      let c := mkClient (u ++ drop UUID_SIZE (userId c)) (serverId c) (access c) (refresh c) (accessValid c) (refreshValid c) (storage c) in
      let c := match storage c !! str "accessToken.bin" with
               | Some a => if (sizeof_AccessToken <=? length a)%nat
                           then mkClient (userId c) (serverId c) (take sizeof_AccessToken a) (refresh c) true (refreshValid c) (storage c)
                           else c
               | None => c
               end in
      match storage c !! str "refreshToken.bin" with
      | None => Ok (false, c)
      | Some r =>
          if negb (length r =? sizeof_RefreshToken)%nat then Ok (false, c) else
          Ok (true, mkClient (userId c) (serverId c) (access c) r (accessValid c) true (storage c))
      end
  end.

Definition isAccessTokenValid (now : Z) (c : Client) : bool := accessValid c && (now <? at_expiry (read_access (access c))).
Definition isRefreshTokenValid (now : Z) (c : Client) : bool := refreshValid c && (now <? rt_expiry (read_refresh (refresh c))).

(** A message is serialized into a local packet and sent. *)
Variable raw : Packet.

Definition request (isConnected : bool) (grants : list Z) (m : message) : outcome (bool * bstr) :=
  sendRawPacket isConnected grants (send m raw).2.

(** The result and all bytes sent. *)
Definition reconnectWithToken (now : Z) (isConnected : bool) (grants grants' : list Z) (c : Client) : outcome (bool * bstr) :=
  let! (ok, bytes) :=
    if isAccessTokenValid now c then request isConnected grants (Raw PKT_TOKEN (access c)) else Ok (false, []) in
  if ok : bool then Ok (true, bytes) else
  let! (ok, bytes') :=
    if isRefreshTokenValid now c then request isConnected grants' (Raw PKT_REFRESH (refresh c)) else Ok (false, []) in
  Ok (ok, bytes ++ bytes').

Definition requestOtp b g email := request b g (OtpRequest email).
Definition verifyOtp b g email otp := request b g (OtpVerification email otp).
Definition signup b g email number username password := request b g (Signup email number username password).
Definition login b g identifier password := request b g (Login identifier password).

(** The messages of the chat; [now] is the time stamp. *)
Definition chat_request b g (t : PacketType) (now : Z) (receiver text : bstr) (c : Client) :=
  request b g (Chat t (hexToBytes (userId c)) (hexToBytes receiver) [] text now).
Definition sendPrivateMessage b g now receiver message := chat_request b g PKT_PRIVATE_MESSAGE now receiver message.
Definition sendGroupMessage b g now groupId message := chat_request b g PKT_GROUP_MESSAGE now groupId message.
Definition createGroup b g now groupId := chat_request b g PKT_CREATE_GROUP now groupId [].
Definition joinGroup b g now groupId := chat_request b g PKT_JOIN_GROUP now groupId [].
Definition leaveGroup b g now groupId := chat_request b g PKT_LEAVE_GROUP now groupId [].
Definition downloadFile b g uploadId (c : Client) :=
  if negb b then Ok (false, []) else request b g (DownloadReq (hexToBytes (userId c)) (hexToBytes uploadId) 0).
End Credentials.

(** ** Lemmas: sending *)

Lemma slice_plus a m n (d : bstr) : slice a (m + n) d = slice a m d ++ slice (a + m) n d.
Proof. unfold slice at 1. rewrite take_slice_next. unfold slice. by rewrite drop_drop. Qed.

Lemma send_loop_all grants d total sent :
  0 <= sent <= total -> (Z.to_nat total <= length d)%nat -> Forall (fun g => 0 < g) grants ->
  send_loop grants d total sent = (true, slice (Z.to_nat sent) (Z.to_nat (total - sent)) d).
Proof.
  intros Hs Hd Hg. revert sent Hs. induction Hg as [|g grants Hg _ IH]; intros sent Hs; cbn [send_loop];
    (destruct (Z.ltb_spec sent total); cbn [negb]; [|replace (total - sent) with 0 by lia; by unfold slice]); [done|].
  destruct (Z.leb_spec (Z.min g (total - sent)) 0); [lia|]. rewrite IH by lia. f_equal.
  rewrite Z2Nat.inj_add by lia. rewrite <- slice_plus. f_equal. lia.
Qed.

(** Whatever [send] takes each time, what was sent is a prefix. *)
Lemma send_loop_prefix grants d total sent :
  0 <= sent <= total -> (Z.to_nat total <= length d)%nat ->
  exists k, sent <= k <= total /\ send_loop grants d total sent = (bool_decide (k = total), slice (Z.to_nat sent) (Z.to_nat (k - sent)) d).
Proof.
  intros Hs Hd. revert sent Hs. induction grants as [|g grants IH]; intros sent Hs; cbn [send_loop];
    (destruct (Z.ltb_spec sent total); cbn [negb];
      [|exists total; rewrite bool_decide_eq_true_2 by done; replace (total - sent) with 0 by lia; by split; [lia|]]).
  { exists total. rewrite bool_decide_eq_true_2 by done. by split; [lia|]. }
  destruct (Z.leb_spec (Z.min g (total - sent)) 0).
  { exists sent. rewrite bool_decide_eq_false_2, Z.sub_diag by lia. by split; [lia|]. }
  destruct (IH (sent + Z.min g (total - sent)) ltac:(lia)) as (k & Hk & ->). exists k. split; [lia|]. f_equal.
  rewrite Z2Nat.inj_add by lia. rewrite <- slice_plus. f_equal. lia.
Qed.

(** ** Lemmas: receiving *)

Section Receiving.
Context {C : Checksum} {L : ChecksumLaws C} (raw : Packet) (raw_size : length (data raw) = sizeof_data).

(** A packet that was parsed and holds the message. *)
Definition holds (m : message) (p : Packet) : Prop :=
  type_of_code (type (header p)) = Some (message_type m) /\ received m p.

Lemma fill_raw_frame t pl :
  (HEADER_SIZE + length pl <= sizeof_data)%nat -> holds_frame (fill (frame t pl) raw) t pl.
Proof.
  intros Hl. unfold holds_frame, wire, fill, set_in, set_data. cbn [data in_]. rewrite length_blit by lens.
  split_and!; [lens|done|by rewrite length_frame|].
  pose proof (slice_blit_eq 0 (length (frame t pl)) (frame t pl) (data raw)) as E.
  unfold slice in E. rewrite drop_0 in E. by apply E; lens.
Qed.

(** The header in front of a stream that begins with a frame. *)
Lemma frame_front m k rest :
  fits m -> (HEADER_SIZE <= k)%nat ->
  read_header (take k (message_frame m ++ rest)) = frame_header (message_type m) (payload m).
Proof.
  intros Hf Hk. rewrite <- (read_header_frame (message_type m) (payload m) rest Hf). unfold read_header, load. unfold HEADER_SIZE in Hk.
  by rewrite !slice_take by lia.
Qed.

Lemma packet_size_message m :
  fits m -> wrap 32 (Z.of_nat HEADER_SIZE + payload_length (frame_header (message_type m) (payload m))) = Z.of_nat (length (message_frame m)).
Proof.
  intros Hf. unfold message_frame. rewrite length_frame. unfold fits in Hf. pose proof sizeof_data_Z. cbn [frame_header payload_length].
  unfold len. rewrite wrap_small by lia. lia.
Qed.

Lemma receive_turn_frame m rest :
  sound m -> exists p, receive_turn raw (message_frame m ++ rest) = Ok (More (Some p) rest) /\ holds m p.
Proof.
  intros (Hu & Hi & Hf). pose proof (length_frame (message_type m) (payload m)) as Hlen. fold (message_frame m) in Hlen.
  pose proof Hf as Hf'. unfold fits in Hf'. pose proof sizeof_data_Z as HZ.
  unfold receive_turn. rewrite length_app, (proj2 (Nat.ltb_ge _ _)) by lia.
  pose proof (frame_front m (length (message_frame m ++ rest)) rest Hf) as Hh. rewrite take_ge, length_app in Hh by done. rewrite Hh by lia.
  rewrite packet_size_message by done. cbn [frame_header magic]. rewrite Z.eqb_refl. cbn [negb].
  rewrite (proj2 (Z.ltb_ge (len (message_frame m ++ rest)) _)) by (unfold len; rewrite length_app; lia).
  rewrite (proj2 (Z.ltb_ge (Z.of_nat sizeof_data) _)) by lia. cbn [orb]. rewrite Nat2Z.id, take_app_length, drop_app_length.
  pose proof (fill_raw_frame (message_type m) (payload m) Hf) as Hfr. unfold message_frame. rewrite (parseHeader_frame _ _ _ Hfr). cbn [negb].
  rewrite (parseData_frame _ (message_type m) (payload m)) by done. cbn [obind]. eexists. split; [done|].
  split; [apply type_of_code_code|]. by apply received_frame.
Qed.

Lemma receive_turn_partial m s :
  sound m -> (length s < length (message_frame m))%nat -> s `prefix_of` message_frame m -> receive_turn raw s = Ok (Stop s).
Proof.
  intros (Hu & Hi & Hf) Hlt [t Ht]. unfold receive_turn. destruct (Nat.ltb_spec (length s) HEADER_SIZE) as [|Hge]; [done|].
  assert (Hs : s = take (length s) (message_frame m ++ [])) by (rewrite app_nil_r, Ht; by rewrite take_app_length).
  pose proof (frame_front m (length s) [] Hf Hge) as Hh. rewrite <- Hs in Hh. rewrite Hh, packet_size_message by done.
  cbn [frame_header magic]. rewrite Z.eqb_refl. cbn [negb]. rewrite (proj2 (Z.ltb_lt (len s) _)) by (unfold len; lia). cbn [orb].
  unfold message_frame in *. rewrite length_frame in *. unfold fits in Hf. pose proof sizeof_data_Z.
  rewrite (proj2 (Z.ltb_ge (Z.of_nat sizeof_data) _)) by lia. done.
Qed.

(** The state of the buffer between two calls of [recv]: less than one frame. *)
Definition less_than_frame (s : bstr) (ms : list message) : Prop :=
  match ms with
  | [] => s = []
  | m :: _ => (length s < length (message_frame m))%nat /\ s `prefix_of` message_frame m
  end.

Lemma framing_turns_frames ms s fuel ms' :
  Forall sound ms -> Forall sound ms' -> less_than_frame s ms' -> (length ms < fuel)%nat ->
  exists ps, framing_turns raw fuel (concat (message_frame <$> ms) ++ s) = Some (Ok (ps, s)) /\ Forall2 holds ms ps.
Proof.
  intros Hms Hms' Hs. revert fuel. induction Hms as [|m ms Hm _ IH]; intros fuel Hfuel; (destruct fuel as [|fuel]; [lia|]).
  - exists []. split; [|constructor]. cbn [fmap list_fmap concat app framing_turns].
    assert (Hst : receive_turn raw s = Ok (Stop s)); [|by rewrite Hst].
    destruct ms' as [|m' ms']; cbn [less_than_frame] in Hs; [by subst|]. destruct Hs as [H1 H2].
    apply (receive_turn_partial m'); [by apply Forall_cons_1 in Hms' as [? _]|done|done].
  - rewrite fmap_cons. cbn [concat]. rewrite <- app_assoc. cbn [framing_turns].
    destruct (receive_turn_frame m (concat (message_frame <$> ms) ++ s) Hm) as (p & Hp & Hh). rewrite Hp.
    destruct (IH fuel) as (ps & Hps & Hall); [cbn [length] in Hfuel; lia|]. rewrite Hps. exists (p :: ps). split; [done|by constructor].
Qed.

(** Any prefix of a stream of frames is some whole frames and less than one more. *)
Lemma cut_stream ms x y :
  concat (message_frame <$> ms) = x ++ y ->
  exists ms1 ms2 s, ms = ms1 ++ ms2 /\ x = concat (message_frame <$> ms1) ++ s /\ s ++ y = concat (message_frame <$> ms2) /\ less_than_frame s ms2.
Proof.
  revert x. induction ms as [|m ms IH]; intros x Hx.
  { symmetry in Hx. apply app_nil in Hx as [-> ->]. by exists [], [], []. }
  rewrite fmap_cons in Hx. cbn [concat] in Hx. destruct (Nat.lt_ge_cases (length x) (length (message_frame m))) as [Hlt|Hge].
  - exists [], (m :: ms), x. split_and!; [done|done|by rewrite fmap_cons|]. split; [done|].
    exists (drop (length x) (message_frame m)). apply (f_equal (take (length x))) in Hx.
    rewrite take_app_le, take_app_length in Hx by lia. rewrite <- Hx at 1. by rewrite take_drop.
  - assert (Hx' : x = message_frame m ++ drop (length (message_frame m)) x).
    { rewrite <- (take_drop (length (message_frame m)) x) at 1. f_equal. apply (f_equal (take (length (message_frame m)))) in Hx.
      rewrite take_app_length, take_app_le in Hx by lia. done. }
    rewrite Hx', <- app_assoc in Hx. apply app_inv_head in Hx. destruct (IH _ Hx) as (ms1 & ms2 & s & -> & Hd & Hs & Hl).
    exists (m :: ms1), ms2, s. split_and!; [done| |done|done]. rewrite fmap_cons. cbn [concat]. by rewrite Hx', Hd, app_assoc.
Qed.

Lemma frames_length ms : (length ms <= length (concat (message_frame <$> ms)))%nat.
Proof.
  induction ms as [|m ms IH]; [done|]. rewrite fmap_cons. cbn [concat length]. rewrite length_app. unfold message_frame at 1.
  rewrite length_frame. unfold HEADER_SIZE. lia.
Qed.

Lemma framing_loop_frames chunks : forall ms s,
  Forall sound ms -> less_than_frame s ms -> s ++ concat chunks = concat (message_frame <$> ms) ->
  exists ps, framing_loop raw chunks s = Some (Ok (ps, [])) /\ Forall2 holds ms ps.
Proof.
  induction chunks as [|c chunks IH]; intros ms s Hms Hs Heq; cbn [framing_loop].
  - cbn [concat] in Heq. rewrite app_nil_r in Heq. destruct ms as [|m ms]; cbn [less_than_frame] in Hs.
    + subst s. exists []. split; [done|constructor].
    + destruct Hs as [Hs _]. rewrite fmap_cons in Heq. cbn [concat] in Heq. apply (f_equal length) in Heq. rewrite length_app in Heq. lia.
  - cbn [concat] in Heq. rewrite app_assoc in Heq. destruct (cut_stream ms (s ++ c) (concat chunks) (eq_sym Heq)) as (ms1 & ms2 & s' & -> & Hx & Hy & Hl).
    apply Forall_app in Hms as [H1 H2].
    destruct (framing_turns_frames ms1 s' (S (length (s ++ c))) ms2 H1 H2 Hl) as (ps & Hps & Hall).
    { rewrite Hx, length_app. pose proof (frames_length ms1). lia. }
    rewrite <- Hx in Hps. rewrite Hps. destruct (IH ms2 s' H2 Hl Hy) as (qs & Hqs & Hall'). rewrite Hqs.
    exists (ps ++ qs). split; [done|by apply Forall2_app].
Qed.
End Receiving.

(** ** Lemmas: every stream *)

Section Streams.
Context {C : Checksum} (raw : Packet) (raw_size : length (data raw) = sizeof_data).

(** A header whose packet size wraps around to 0. *)
Definition zero_size (s : bstr) : Prop :=
  (HEADER_SIZE <= length s)%nat /\ magic (read_header s) = START_BYTE /\ payload_length (read_header s) = 2 ^ 32 - 16.

Lemma parseData_small p : payload_length (header p) <= 4080 -> exists b q, parseData p = Ok (b, q).
Proof.
  intros Hn. pose proof sizeof_data_Z. unfold parseData, HEADER_SIZE. destruct (parsedHeader p); cbn [negb]; [|by do 2 eexists].
  destruct (_ <? to_int32 _); [by do 2 eexists|]. rewrite (proj2 (Z.ltb_ge (Z.of_nat sizeof_data) _)) by lia.
  destruct (0 <? _); cbn [obind]; (destruct (negb _); by do 2 eexists).
Qed.

Lemma read_header_fill s n :
  (HEADER_SIZE <= n <= length s)%nat -> (n <= sizeof_data)%nat -> read_header (data (fill (take n s) raw)) = read_header s.
Proof.
  intros Hn Hs. unfold fill, set_in, set_data. cbn [data]. unfold HEADER_SIZE in Hn.
  assert (H : forall w o, (o + w <= 16)%nat -> load w o (blit 0 (take n s) (data raw)) = load w o s).
  { intros w o Ho. unfold load. f_equal. rewrite <- (slice_take o w n s) by lia.
    rewrite slice_blit_inside by lens. by rewrite Nat.sub_0_r. }
  unfold read_header. by rewrite !H by lia.
Qed.

Lemma receive_turn_cases s :
  (exists rest, receive_turn raw s = Ok (Stop rest)) \/
  (exists p n, receive_turn raw s = Ok (More p (drop n s)) /\ (0 < n <= length s)%nat) \/
  zero_size s /\ receive_turn raw s = Ok (More None s).
Proof.
  unfold receive_turn. destruct (Nat.ltb_spec (length s) HEADER_SIZE) as [|Hge]; [left; by eexists|].
  unfold HEADER_SIZE in Hge. destruct (Z.eqb_spec (magic (read_header s)) START_BYTE) as [Hm|]; cbn [negb].
  2: { right. left. exists None, 1%nat. split; [done|lia]. }
  set (n := wrap 32 _). destruct ((len s <? n) || (Z.of_nat sizeof_data <? n)) eqn:E; [left; by eexists|].
  apply orb_false_iff in E as [E1%Z.ltb_ge E2%Z.ltb_ge]. pose proof (ntohl_range (load 4 4 s)) as Hr.
  change (ntohl (load 4 4 s)) with (payload_length (read_header s)) in Hr. unfold len in E1. pose proof sizeof_data_Z as HZ.
  set (pl := payload_length (read_header s)) in *. assert (Hn : n = (16 + pl) mod 2 ^ 32) by done.
  destruct (Z.lt_ge_cases (16 + pl) (2 ^ 32)) as [Hsm|Hbig].
  - rewrite Z.mod_small in Hn by lia.
    assert (Hh : read_header (data (fill (take (Z.to_nat n) s) raw)) = read_header s) by (apply read_header_fill; unfold HEADER_SIZE; lia).
    unfold parseHeader. rewrite bytesReceived_small by (cbn [fill set_in in_]; rewrite length_take; lia).
    cbn [fill set_in in_]. rewrite length_take, Nat.min_l by lia. rewrite (proj2 (Z.ltb_ge _ _)) by (unfold HEADER_SIZE; lia).
    cbn [set_header header]. change (data (set_in _ ?x)) with (data x). change (set_in _ _) with (fill (take (Z.to_nat n) s) raw).
    unfold fill in Hh. cbn [set_in data] in Hh. unfold fill. cbn [set_in data]. rewrite Hh, Hm, Z.eqb_refl. cbn [negb].
    match goal with |- context [parseData ?p] => destruct (parseData_small p) as (b & q & ->) end.
    { cbn [set_parsedHeader set_header header]. fold pl. lia. }
    cbn [obind]. right. left. exists (if b then Some q else None), (Z.to_nat n). split; [done|lia].
  - replace ((16 + pl) mod 2 ^ 32) with (16 + pl - 2 ^ 32) in Hn by (apply Z.mod_unique with 1; lia).
    unfold parseHeader. rewrite bytesReceived_small by (cbn [fill set_in in_]; rewrite length_take; lia).
    cbn [fill set_in in_]. rewrite length_take, Nat.min_l by lia. rewrite (proj2 (Z.ltb_lt _ _)) by (unfold HEADER_SIZE; lia). cbn [negb].
    right. destruct (decide (n = 0)) as [H0|].
    + right. rewrite H0. split; [|by rewrite drop_0]. split_and!; [unfold HEADER_SIZE; lia|done|]. fold pl. lia.
    + left. exists None, (Z.to_nat n). split; [done|lia].
Qed.
End Streams.

(** ** Theorems: the connection *)

Section Connection.
Context {C : Checksum} {L : ChecksumLaws C} (raw : Packet) (raw_size : length (data raw) = sizeof_data).

(** What the client sends.  For a message that fits, and however little each call of
    [send] takes, [sendRawPacket] sends a prefix of its frame and returns true exactly when
    it is the whole frame, which it is if no call fails.  For a message that does not fit
    the serializer refuses, but its result is not looked at: what is sent then does not
    depend on the message, it is the uninitialized packet. *)
Theorem client_sends_frame m grants :
  uuids_ok m ->
  (fits m -> exists k, (k <= length (message_frame m))%nat /\
     sendRawPacket true grants (send m raw).2 = Ok (bool_decide (k = length (message_frame m)), take k (message_frame m)) /\
     (Forall (fun g => 0 < g) grants -> k = length (message_frame m))) /\
  (~ fits m -> sendRawPacket true grants (send m raw).2 = sendRawPacket true grants raw).
Proof.
  intros Hu. rewrite send_built by done. unfold built, fits. destruct (Nat.leb_spec (HEADER_SIZE + length (payload m)) sizeof_data) as [Hf|Hf].
  2: { split; [lia|done]. }
  split; [intros _|lia]. cbn [snd]. set (p := finalized _ _ _ _).
  assert (Hpl : payload_length (header p) = len (payload m)) by done.
  destruct (holds_frame_finalized (message_type m) (payload m) (data raw) (resetWritePos raw) raw_size Hf) as [Hfr Hw]. fold p in Hw, Hfr.
  unfold wire in Hfr. change (in_ p) with (HEADER_SIZE + length (payload m))%nat in Hfr. pose proof sizeof_data_Z as HZ. unfold sendRawPacket. cbn [negb]. rewrite Hpl.
  rewrite to_int32_small by (unfold len; lia). rewrite (proj2 (Z.ltb_ge _ _)) by (unfold len; lia).
  set (total := len (payload m) + Z.of_nat HEADER_SIZE). assert (Htot : total = Z.of_nat (HEADER_SIZE + length (payload m))) by (unfold total, len; lia).
  assert (Hml : length (message_frame m) = (HEADER_SIZE + length (payload m))%nat) by (unfold message_frame; apply length_frame).
  destruct (send_loop_prefix grants (data p) total 0) as (k & Hk & Hrun); [lia|lia|].
  exists (Z.to_nat k). rewrite Hrun, Hml. split_and!; [lia| |].
  - f_equal. f_equal.
    + apply bool_decide_ext. lia.
    + unfold slice. rewrite drop_0. unfold message_frame. rewrite <- Hfr, take_take. f_equal. lia.
  - intros Hg. rewrite (send_loop_all grants (data p) total 0) in Hrun by (done || lia). injection Hrun as Hb _.
    symmetry in Hb. apply bool_decide_eq_true in Hb. lia.
Qed.

(** What the client receives.  Whatever pieces [recv] delivers a stream of messages in,
    [receiveLoop] handles exactly these messages, in order, each parsed and with its fields
    intact, and keeps nothing of the stream. *)
Theorem client_receives_messages ms chunks :
  Forall sound ms -> concat chunks = concat (message_frame <$> ms) ->
  exists ps, framing_loop raw chunks [] = Some (Ok (ps, [])) /\ Forall2 holds ms ps.
Proof.
  intros Hms Heq. apply framing_loop_frames; [done|done| |done].
  destruct ms as [|m ms]; [done|]. split; [|by exists (message_frame m)].
  unfold message_frame. rewrite length_frame. unfold HEADER_SIZE. cbn [length]. lia.
Qed.
End Connection.

(** ** Theorems: credentials *)

Section Tokens.
Context {C : Checksum} {L : ChecksumLaws C} {N : Sodium} {LN : SodiumLaws N} (raw : Packet) (raw_size : length (data raw) = sizeof_data).

Lemma request_sent m grants :
  uuids_ok m -> fits m -> Forall (fun g => 0 < g) grants -> request raw true grants m = Ok (true, message_frame m).
Proof.
  intros Hu Hf Hg. unfold request. rewrite send_built by done. unfold built. pose proof Hf as Hf'. unfold fits in Hf'.
  rewrite (proj2 (Nat.leb_le _ _)) by done. cbn [snd]. set (p := finalized _ _ _ _).
  destruct (holds_frame_finalized (message_type m) (payload m) (data raw) (resetWritePos raw) raw_size Hf') as [Hfr Hw]. fold p in Hw, Hfr.
  unfold wire in Hfr. change (in_ p) with (HEADER_SIZE + length (payload m))%nat in Hfr.
  pose proof sizeof_data_Z. unfold sendRawPacket. cbn [negb]. change (payload_length (header p)) with (len (payload m)).
  rewrite to_int32_small by (unfold len; lia). rewrite (proj2 (Z.ltb_ge _ _)) by (unfold len; lia).
  rewrite send_loop_all by (done || unfold len; lia). unfold slice, message_frame. rewrite drop_0, <- Hfr. do 3 f_equal. unfold len. lia.
Qed.

(** The refresh family [fid] is stored and its first token has not been used. *)
Definition family_unused (fid : Z) (a : AuthManager) : bool :=
  match Find fid (family_store_ a) with
  | Some fam => negb (revoked fam) && (current_token_id fam =? 1)
  | None => false
  end.

Lemma family_unused_advance fid a : fst (AdvanceTokenId fid 1 (family_store_ a)) = family_unused fid a.
Proof.
  unfold family_unused, AdvanceTokenId, Find. destruct (family_store_ a !! fid) as [fam|]; [|done].
  destruct (revoked fam); [done|]. by destruct (current_token_id fam =? 1).
Qed.

(** C30: the tokens of a pair in the hands of the client and at the server.  When the client
    has handled the packet that grants a pair issued at time [now0] under family [nf], then
    at any time [now] [reconnectWithToken] sends the access token for 15 minutes, then the
    refresh token until 30 days are over, and then nothing.  At these times the access token
    passes [ValidateAccessToken] and [HandleTokenPacket] accepts it, and at no others.  The
    refresh token passes [ValidateRefreshToken] in the 30 days; [HandleRefreshPacket]
    accepts it if, besides, its family is stored, not revoked and not used yet, and only
    then.  This is so after the login that granted the pair; for a pair that was granted in
    exchange for another token it is not ([Auth.rotated_token_refused]). *)
Theorem granted_tokens_reconnect key uid now0 nf tokens writable p c grants grants' now :
  length uid = 16%nat -> 0 <= now0 -> now0 + REFRESH_TOKEN_LIFETIME < 2 ^ 64 -> 0 <= nf < 2 ^ 64 ->
  fst (IssueTokenPair key uid now0 nf) = Some tokens ->
  parseData p = Ok (true, p) -> received (Token PKT_TOKEN_GRANTED (access_token tokens) (refresh_token tokens)) p ->
  Forall (fun g => 0 < g) grants -> Forall (fun g => 0 < g) grants' ->
  exists c', handleTokenGranted writable p c = Ok c' /\ userId c' = userId c /\
    reconnectWithToken raw now true grants grants' c' =
      Ok (if now <? now0 + 900 then (true, message_frame (Raw PKT_TOKEN (access_token tokens)))
          else if now <? now0 + 2592000 then (true, message_frame (Raw PKT_REFRESH (refresh_token tokens)))
          else (false, [])) /\
    (now <? now0 + 900 = bool_decide (is_Some (ValidateAccessToken key (access_token tokens) now))) /\
    (now <? now0 + 2592000 = bool_decide (is_Some (ValidateRefreshToken key (refresh_token tokens) now))) /\
    (forall now' q ptr pkt se a n B E D k, signing_key_ a = key ->
       net_ok n B E D (S k) -> q ∈ B -> pool (packets n) !! q = Some pkt -> deref (registry n) (Some ptr) = Ok se -> 0 <= now' < 2 ^ 63 ->
       (raw_payload pkt = access_token tokens -> exists a' n',
          HandleTokenPacket now now' q ptr a n = Ok (now <? now0 + 900, a', n')) /\
       (raw_payload pkt = refresh_token tokens -> exists a' n',
          HandleRefreshPacket now now' q ptr a n = Ok ((now <? now0 + 2592000) && family_unused nf a, a', n'))) /\
    (forall a, next_family_id_ a = nf -> family_unused nf (logged_in uid a) = true).
Proof.
  intros Hu Hn Hb Hf Hiss Hparse Hrec Hg Hg'.
  destruct (issue_eq key uid now0 nf Hu Hn Hb) as (sig & sig' & Ea & Er & E). rewrite E in Hiss. injection Hiss as <-.
  cbn [access_token refresh_token] in *. set (ap := mkAccess _ _ _ _) in *. set (rp := mkRefresh _ _ _ _ _) in *.
  unfold ACCESS_TOKEN_LIFETIME, REFRESH_TOKEN_LIFETIME in *.
  assert (Hap : access_ok ap) by (unfold access_ok, ap; cbn; split_and!; (done || lia)).
  assert (Hrp : refresh_ok rp) by (unfold refresh_ok, rp; cbn; split_and!; (done || lia)).
  pose proof (auth_length _ _ _ Ea) as La. pose proof (auth_length _ _ _ Er) as Lr.
  pose proof (length_access_bytes ap Hap) as Lap. pose proof (length_refresh_bytes rp Hrp) as Lrp.
  assert (Hread : read_TokenGranted p = Some (access_bytes ap ++ sig, refresh_bytes rp ++ sig')).
  { apply Hrec; unfold sizeof_AccessToken, sizeof_RefreshToken; rewrite length_app; lia. }
  unfold handleTokenGranted. rewrite Hparse. cbn [obind]. rewrite Hread. eexists. split; [done|]. split; [done|]. split.
  - unfold reconnectWithToken, isAccessTokenValid, isRefreshTokenValid. cbn [accessValid refreshValid access refresh andb].
    assert (Hra : at_expiry (read_access (access_bytes ap ++ sig)) = now0 + 900).
    { unfold read_access. cbn [at_expiry]. unfold load. rewrite slice_app_l by lia.
      change (le_combine (slice 24 8 (access_bytes ap))) with (at_expiry (read_access (access_bytes ap))). by rewrite read_access_bytes. }
    assert (Hrr : rt_expiry (read_refresh (refresh_bytes rp ++ sig')) = now0 + 2592000).
    { unfold read_refresh. cbn [rt_expiry]. unfold load. rewrite slice_app_l by lia.
      change (le_combine (slice 32 8 (refresh_bytes rp))) with (rt_expiry (read_refresh (refresh_bytes rp))). by rewrite read_refresh_bytes. }
    rewrite Hra, Hrr. pose proof sizeof_data_Z.
    destruct (now <? now0 + 900); [|cbn [obind]; destruct (now <? now0 + 2592000); [|done]].
    + rewrite request_sent; [done|constructor| |done]. unfold fits. cbn [payload]. rewrite length_app, Lap, La. unfold HEADER_SIZE. lia.
    + rewrite request_sent; [done|constructor| |done]. unfold fits. cbn [payload]. rewrite length_app, Lrp, Lr. unfold HEADER_SIZE. lia.
  - pose proof (validate_access_eq key ap sig now Hap Ea) as Va. pose proof (validate_refresh_eq key rp sig' now Hrp Er) as Vr.
    change (at_expiry ap) with (now0 + 900) in Va. change (rt_expiry rp) with (now0 + 2592000) in Vr.
    change (at_key_id ap =? 0) with true in Va. change (rt_key_id rp =? 0) with true in Vr. rewrite andb_true_r in Va, Vr.
    split_and!.
    + rewrite Va. destruct (now <? now0 + 900); symmetry; [by apply bool_decide_eq_true_2|by apply bool_decide_eq_false_2; intros [? ?]].
    + rewrite Vr. destruct (now <? now0 + 2592000); symmetry; [by apply bool_decide_eq_true_2|by apply bool_decide_eq_false_2; intros [? ?]].
    + intros now' q ptr pkt se a n B E' D k Hkey Hok Hin Hp Hse Hnow'. split; intros Hpl.
      * destruct (token_spec now now' q ptr pkt se a n B E' D k Hok Hin Hp Hse Hnow') as (n' & B' & E2 & D' & _ & H).
        rewrite Hpl, Hkey, Va in H. destruct (now <? now0 + 900).
        -- destruct H as (r & _ & -> & _). by do 2 eexists.
        -- destruct H as (reason & -> & _). by do 2 eexists.
      * destruct (refresh_spec now now' q ptr pkt se a n B E' D k Hok Hin Hp Hse Hnow') as (n' & B' & E2 & D' & _ & H).
        rewrite Hpl, Hkey, Vr in H. destruct (now <? now0 + 2592000); cbn [andb].
        -- change (rt_family_id rp) with nf in H. change (token_id rp) with 1 in H. rewrite family_unused_advance in H.
           destruct (family_unused nf a); [destruct H as (r & _ & -> & _)|destruct H as [-> _]]; by do 2 eexists.
        -- destruct H as (reason & -> & _). by do 2 eexists.
    + intros a <-. unfold family_unused, logged_in, InsertFamily, Find. cbn [family_store_ family_id]. by rewrite lookup_insert_eq.
Qed.
End Tokens.

Lemma length_text_mode bytes : length (text_mode bytes) = (length bytes + length (filter (fun b => b = Byte.x0a) bytes))%nat.
Proof.
  induction bytes as [|b bytes IH]; [done|]. unfold text_mode in *. rewrite bind_cons, length_app, IH, filter_cons.
  case_bool_decide; case_decide; try done; cbn [length]; lia.
Qed.

(** A client that was given an id does not get it back after a restart.  If the sixteen
    bytes of the string object hold no line feed, the file has their size and they are read
    into the characters of an empty string; otherwise the file is longer and is ignored. *)
Lemma startup_loses_user_id object_bytes p c :
  length (object_bytes (payload_uuid 16 p)) = UUID_SIZE ->
  let started := new_client (storage (handleUserIdPacket object_bytes true p c)) in
  tokenBuildOnStartUp started = if decide (Byte.x0a ∈ object_bytes (payload_uuid 16 p)) then Ok (false, started) else UB.
Proof.
  intros Hl started. set (bytes := object_bytes _) in *. unfold tokenBuildOnStartUp.
  replace (storage started !! str "userID.bin") with (Some (text_mode bytes)) by (symmetry; apply lookup_insert_eq).
  rewrite length_text_mode, Hl. case_decide as Hlf.
  - destruct (filter _ bytes) as [|x l] eqn:E; [|done].
    by destruct (filter_nil_not_elem_of _ _ Byte.x0a E eq_refl).
  - replace (filter (fun b => b = Byte.x0a) bytes) with (@nil byte); [done|]. symmetry.
    destruct (filter _ bytes) as [|x l] eqn:E; [done|]. assert (Hx : x ∈ filter (fun b => b = Byte.x0a) bytes) by (rewrite E; left).
    apply list_elem_of_filter in Hx as [-> Hx]. done.
Qed.

(** ** Evaluation *)

Lemma new_packet_size : length (data new_packet) = sizeof_data.
Proof. apply length_zeros. Qed.

Definition sample_login : message := Login (str "ada") (str "pw").
Lemma sample_login_ok : sound (C := compute_soft) sample_login.
Proof. split_and!; [repeat constructor|exact I|vm_compute; lia]. Qed.

(** A login packet that the system takes in small pieces. *)
Lemma client_sends_frame_witness :
  sendRawPacket true [5; 1; 7] (send (C := compute_soft) sample_login new_packet).2 = Ok (true, message_frame (C := compute_soft) sample_login).
Proof.
  destruct (client_sends_frame (C := compute_soft) new_packet new_packet_size sample_login [5; 1; 7]) as [H _].
  - apply sample_login_ok.
  - destruct H as (k & _ & Hrun & Hall); [apply sample_login_ok|]. rewrite Hall in Hrun by (repeat constructor).
    rewrite bool_decide_eq_true_2 in Hrun by done. rewrite take_ge in Hrun by done. exact Hrun.
Defined.

(** Two messages that arrive in pieces of one byte and the rest. *)
Lemma client_receives_messages_witness :
  exists ps, framing_loop (C := compute_soft) new_packet
    [take 1 (message_frame (C := compute_soft) sample_login ++ message_frame (C := compute_soft) sample_login);
     drop 1 (message_frame (C := compute_soft) sample_login ++ message_frame (C := compute_soft) sample_login)] [] = Some (Ok (ps, [])) /\
    length ps = 2%nat.
Proof.
  set (x := message_frame (C := compute_soft) sample_login ++ message_frame (C := compute_soft) sample_login).
  destruct (client_receives_messages (C := compute_soft) new_packet new_packet_size [sample_login; sample_login] [take 1 x; drop 1 x])
    as (ps & Hrun & Hall).
  - repeat constructor; apply sample_login_ok.
  - cbn [concat fmap list_fmap]. rewrite !app_nil_r. apply take_drop.
  - exists ps. split; [exact Hrun|]. symmetry. apply (Forall2_length Hall).
Defined.

(** A frame with the length field 2^32 - 16. *)
Definition endless : bstr := [Byte.xd5; Byte.x01; Byte.x00; Byte.x01; Byte.xff; Byte.xff; Byte.xff; Byte.xf0] ++ zeros 8.

Definition sample_tokens : LoginResult := default (mkLogin [] [] 0 0) (fst (@IssueTokenPair sample_sodium (zeros 32) (zeros 16) 1000 1)).
Definition sample_grant : Packet :=
  arrived (C := compute_soft) (Token PKT_TOKEN_GRANTED (access_token sample_tokens) (refresh_token sample_tokens)) new_packet.

Lemma granted_tokens_reconnect_witness :
  exists c', handleTokenGranted (C := compute_soft) true sample_grant (new_client ∅) = Ok c' /\
    reconnectWithToken (C := compute_soft) new_packet 1500 true [] [] c' =
      Ok (true, message_frame (C := compute_soft) (Raw PKT_TOKEN (access_token sample_tokens))).
Proof.
  destruct (granted_tokens_reconnect (C := compute_soft) (N := sample_sodium) (LN := sample_laws) new_packet new_packet_size
    (zeros 32) (zeros 16) 1000 1 sample_tokens true sample_grant (new_client ∅) [] [] 1500) as (c' & H1 & _ & H2 & _).
  - reflexivity.
  - lia.
  - unfold REFRESH_TOKEN_LIFETIME. lia.
  - lia.
  - vm_compute. reflexivity.
  - vm_compute. reflexivity.
  - intros _ _. vm_compute. reflexivity.
  - constructor.
  - constructor.
  - exists c'. split; [exact H1|exact H2].
Defined.
