(* ===== verification/ClientFiles.v ===== *)
(** The client's file transfers, its handling of every packet, and the receive loop that
    calls it: client/Client.cpp.

    An upload runs in a thread of its own, [uploadWorker], which waits for the
    acknowledgements that [handleFileAck] stores: the outcomes of its waits are an
    argument, as for the downloads of the server.  The messages a function hands to
    [sendRawPacket] are its result.  The file system is a map from paths to contents. *)

From S2P Require Import Prelude Crc32c Packet Serialize CircularBuffer Fqueue PacketPool Framing Session Offline Network AuthStore Auth Delivery FileTransfer Rounds Upload Download Client.

(** ** Definitions: data *)

Record UploadState := mkUpload {
  us_uploadId : bstr;
  us_filepath : bstr;
  us_receiver : bstr;
  us_totalSize : Z;
  us_currentRound : Z;
  us_finalCrc : Z;
  us_bytesWritten : bool;
  us_startBytes : Z;
  us_ackReceived : bool;
  us_missingChunks : list Z
}.

Record DownloadState := mkDownload {
  ds_uploadId : bstr;
  ds_fileName : bstr;
  ds_totalSize : Z;
  ds_receivedOffset : Z;
  ds_currentRound : Z;
  ds_roundReceivedCount : Z;
  ds_finalCrc : Z;
  ds_roundBuffer : list bstr;
  ds_open : bool
}.

Definition set_ds_round rb off cur cnt d :=
  mkDownload (ds_uploadId d) (ds_fileName d) (ds_totalSize d) off cur cnt (ds_finalCrc d) rb (ds_open d).

(** The maps of transfers and the file system. *)
Record Transfers := mkTransfers {
  activeUploads : gmap bstr UploadState;
  activeDownloads : gmap bstr DownloadState;
  cdisk : gmap bstr bstr
}.

Definition set_uploads v t := mkTransfers v (activeDownloads t) (cdisk t).
Definition set_downloads v t := mkTransfers (activeUploads t) v (cdisk t).
Definition set_cdisk v t := mkTransfers (activeUploads t) (activeDownloads t) v.

(** How the waits of an upload end: with a time-out or with the chunks reported missing. *)
Abbreviation Waits := (list (option (list Z))).

Section WithChecksum.
Context {C : Checksum}.

(** ** Definitions: the checksum of a file *)

Definition computeFileCRC (file : option bstr) : Z :=
  match file with
  | None => 0
  | Some content => crc_blocks (S (length content)) content 0
  end.

(** ** Definitions: uploads *)

(** The sixteen bytes [generateUploadId] writes in hexadecimal: those of the system's
    generator if it succeeds, otherwise two 64-bit numbers of a Mersenne twister. *)
Definition upload_id_bytes (secure : option bstr) (gen : nat -> Z) : bstr :=
  match secure with
  | Some bytes => bytes
  | None => seq 0 (UUID_SIZE / 8) ≫= fun i => le_split 8 (gen i)
  end.

(** [random] is [upload_id_bytes]. *)
Definition sendFile (isConnected : bool) (random receiver filepath : bstr) (t : Transfers) : bool * Transfers * list message :=
  match isConnected, cdisk t !! filepath with
  | true, Some content =>
      let uploadId := bytesToHex random in
      let state := mkUpload uploadId filepath receiver (len content) 0 (computeFileCRC (Some content)) false 0 false [] in
      (true, set_uploads (<[uploadId := state]> (activeUploads t)) t,
       [FileStart (hexToBytes receiver) (hexToBytes uploadId) (path_filename filepath) (us_totalSize state) (us_finalCrc state)])
  | _, _ => (false, t, [])
  end.

(** The state for which the thread is started.  (If one of this upload is still running, the
    assignment to [uploadThread] first waits for it to end, which is not modelled.) *)
Definition HandleFileStartResponse (p : Packet) (t : Transfers) : option UploadState * Transfers :=
  let (up, resumeOffset) := read_FileStartResponse p in
  let upId := bytesToHex up in
  match activeUploads t !! upId with
  | None => (None, t)
  | Some s =>
      let s := mkUpload (us_uploadId s) (us_filepath s) (us_receiver s) (us_totalSize s) (us_currentRound s) (us_finalCrc s)
                 true resumeOffset (us_ackReceived s) (us_missingChunks s) in
      (Some s, set_uploads (<[upId := s]> (activeUploads t)) t)
  end.

Definition handleFileAck (p : Packet) (t : Transfers) : outcome Transfers :=
  let! (up, roundId, missing) := read_FileAck p in
  let upId := bytesToHex up in
  match activeUploads t !! upId with
  | None => Ok t
  | Some s =>
      if negb (roundId =? us_currentRound s) then Ok t else
      Ok (set_uploads (<[upId := mkUpload (us_uploadId s) (us_filepath s) (us_receiver s) (us_totalSize s) (us_currentRound s)
                           (us_finalCrc s) (us_bytesWritten s) (us_startBytes s) true missing]> (activeUploads t)) t)
  end.

(** [while (!roundDone)]: the messages sent and, when the round is done, the waits that
    follow. *)
Fixpoint round_loop (up : bstr) (round : Z) (blocks : list (Z * bstr)) (acks : Waits) : list message * option Waits :=
  let ask := RoundEnd up round (len blocks) in
  match acks with
  | [] | None :: _ => ([ask], None)
  | Some missing :: acks =>
      if bool_decide (missing = []) then ([ask], Some acks) else
      let (ms, e) := round_loop up round blocks acks in
      (ask :: chunk_messages up (resend blocks missing) ++ ms, e)
  end.

(** The outer loop: the messages and whether it got to its end; [None] if the rounds
    outnumber [fuel].  The vector of offsets has 1024 elements. *)
Fixpoint upload_rounds (fuel : nat) (up content : bstr) (total bytesSent round : Z) (acks : Waits)
  : outcome (option (list message * bool)) :=
  match fuel with
  | O => Ok None
  | S fuel =>
      if bytesSent <? total then
        let! (blocks, sent) := read_round (Z.to_nat MAX_CHUNKS_PER_ROUND) 0 (Z.to_nat MAX_CHUNKS_PER_ROUND) content total bytesSent in
        if bool_decide (blocks = []) then Ok (Some ([], true)) else
        let (ms, e) := round_loop up round blocks acks in
        let ms := chunk_messages up blocks ++ ms in
        match e with
        | None => Ok (Some (ms, false))
        | Some acks =>
            let! rest := upload_rounds fuel up content total sent (wrap 32 (round + 1)) acks in
            match rest with
            | Some (ms', e) => Ok (Some (ms ++ ms', e))
            | None => Ok None
            end
        end
      else Ok (Some ([], true))
  end.

(** A round uses at least one wait. *)
Definition uploadWorker (s : UploadState) (file : option bstr) (acks : Waits) : outcome (option (list message)) :=
  match file with
  | None => Ok (Some [])
  | Some content =>
      if negb (us_bytesWritten s) then Ok (Some []) else
      let up := hexToBytes (us_uploadId s) in
      let! run := upload_rounds (S (length acks)) up content (us_totalSize s) (us_startBytes s)
                    (wrap 32 (us_startBytes s / (MAX_CHUNK_SIZE * MAX_CHUNKS_PER_ROUND))) acks in
      match run with
      | None => Ok None
      | Some (ms, false) => Ok (Some ms)
      | Some (ms, true) => Ok (Some (ms ++ [FileEnd up (us_finalCrc s)]))
      end
  end.

(** ** Definitions: downloads *)

Definition download_path (fileName : bstr) : bstr := str "./downloads/" ++ fileName.

Definition handleFileStart (now : Z) (opens : bool) (p : Packet) (t : Transfers) : outcome Transfers :=
  let! (sender, upload, totalSize, finalCrc, name) := read_FileStart p in
  let uploadId := bytesToHex upload in
  let fileName := sanitize now name in
  let path := download_path fileName in
  let content := default [] (cdisk t !! path) in
  let receivedOffset := if opens then len content else 0 in
  let state := mkDownload uploadId fileName totalSize receivedOffset
                 (wrap 32 (receivedOffset / (MAX_CHUNK_SIZE * MAX_CHUNKS_PER_ROUND))) 0 finalCrc
                 (replicate (Z.to_nat MAX_CHUNKS_PER_ROUND) []) opens in
  Ok (mkTransfers (activeUploads t) (<[uploadId := state]> (activeDownloads t))
        (if opens then <[path := content]> (cdisk t) else cdisk t)).

Definition handleFileChunk (p : Packet) (t : Transfers) : outcome Transfers :=
  let! (upload, byteOffset, crcReceived, chunkData) := read_FileChunk p in
  let uploadId := bytesToHex upload in
  match activeDownloads t !! uploadId with
  | None => Ok t
  | Some d =>
      if negb (crc32c chunkData 0 =? crcReceived) then Ok t else
      let chunkIndex := Z.to_nat ((byteOffset / MAX_CHUNK_SIZE) mod MAX_CHUNKS_PER_ROUND) in
      match ds_roundBuffer d !! chunkIndex with
      | Some [] =>
          Ok (set_downloads (<[uploadId := set_ds_round (<[chunkIndex := chunkData]> (ds_roundBuffer d)) (ds_receivedOffset d)
                                 (ds_currentRound d) (wrap 32 (ds_roundReceivedCount d + 1)) d]> (activeDownloads t)) t)
      | _ => Ok t
      end
  end.

(** [writeRoundToDisk]: the offset is advanced whether or not the stream is open. *)
Definition writeRound (d : DownloadState) (dk : gmap bstr bstr) : DownloadState * gmap bstr bstr :=
  let bytes := concat (ds_roundBuffer d) in
  let path := download_path (ds_fileName d) in
  (set_ds_round (ds_roundBuffer d) (wrap 64 (ds_receivedOffset d + len bytes)) (ds_currentRound d) (ds_roundReceivedCount d) d,
   if ds_open d then <[path := default [] (dk !! path) ++ bytes]> dk else dk).

Definition sendRoundAck (uploadId : bstr) (roundId : Z) (missing : list Z) : message :=
  FileAck (hexToBytes uploadId) roundId missing.

Definition handleRoundEnd (p : Packet) (t : Transfers) : outcome (Transfers * list message) :=
  let '(upload, roundId, expectedChunkCount) := read_RoundEnd p in
  let uploadId := bytesToHex upload in
  match activeDownloads t !! uploadId with
  | None => Ok (t, [])
  | Some d =>
      if negb (roundId =? ds_currentRound d) then Ok (t, [sendRoundAck uploadId (ds_currentRound d) []]) else
      let! missing := missing_below expectedChunkCount (ds_roundBuffer d) in
      let (d, dk) :=
        if bool_decide (missing = []) then
          let (d, dk) := writeRound d (cdisk t) in
          (set_ds_round (replicate (Z.to_nat MAX_CHUNKS_PER_ROUND) []) (ds_receivedOffset d) (wrap 32 (ds_currentRound d + 1)) 0 d, dk)
        else (d, cdisk t) in
      Ok (mkTransfers (activeUploads t) (<[uploadId := d]> (activeDownloads t)) dk, [sendRoundAck uploadId roundId missing])
  end.

(** The result is what is printed: whether the download succeeded. *)
Definition handleFileEnd (p : Packet) (t : Transfers) : option bool * Transfers :=
  let (upload, finalCrc) := read_FileEnd p in
  let uploadId := bytesToHex upload in
  match activeDownloads t !! uploadId with
  | None => (None, t)
  | Some d =>
      let success := (ds_receivedOffset d =? ds_totalSize d) &&
        ((finalCrc =? 0) || (computeFileCRC (cdisk t !! download_path (ds_fileName d)) =? finalCrc)) in
      (Some success, set_downloads (delete uploadId (activeDownloads t)) t)
  end.
End WithChecksum.

(** ** Definitions: every packet *)

(** What appears on the screen. *)
Inductive shown :=
| Private (sender text : bstr)
| Grouped (group sender text : bstr)
| LinkTo (sender filename : bstr) (size : Z) (timestamp upload : bstr)
| Downloaded (filename : bstr) (success : bool)
| OtpVerified
| Text (text : bstr).

(** The state of the client; [workers] are the uploads whose threads were started. *)
Record ClientState := mkState {
  user : Client;
  transfers : Transfers;
  messagesReceived : Z;
  screen : list shown;
  workers : list UploadState
}.

Definition set_user v s := mkState v (transfers s) (messagesReceived s) (screen s) (workers s).
Definition set_transfers v s := mkState (user s) v (messagesReceived s) (screen s) (workers s).
Definition show (x : shown) s := mkState (user s) (transfers s) (messagesReceived s) (screen s ++ [x]) (workers s).

(** [msg.find(part) != npos]. *)
Fixpoint contains (part s : bstr) : bool :=
  bool_decide (take (length part) s = part) || match s with [] => false | _ :: s => contains part s end.

(** The clock, and whether files can be written. *)
Record Host := mkHost { h_now : Z; h_writable : bool }.

Section Incoming.
Context {C : Checksum} (object_bytes : bstr -> bstr).

(** The new state and the messages sent in reply. *)
Definition handleIncomingPacket (h : Host) (p : Packet) (s : ClientState) : outcome (ClientState * list message) :=
  let with_text (k : bstr -> ClientState) := let! msg := read_String p in Ok (k msg, []) in
  match type_of_code (type (header p)) with
  | Some PKT_USER_ID => Ok (set_user (handleUserIdPacket object_bytes (h_writable h) p (user s)) s, [])
  | Some PKT_PRIVATE_MESSAGE =>
      let! (sender, receiver, text) := read_ChatMessage p in
      let s := show (Private (bytesToHex sender) text) s in
      Ok (mkState (user s) (transfers s) (to_int32 (messagesReceived s + 1)) (screen s) (workers s), [])
  | Some PKT_GROUP_MESSAGE =>
      let! (sender, receiver, text) := read_ChatMessage p in
      Ok (show (Grouped (bytesToHex receiver) (bytesToHex sender) text) s, [])
  | Some DOWNLOAD_LINK =>
      let! (sender, up, filename, totalsize, timestamp) := read_DownloadLink p in
      Ok (show (LinkTo (bytesToHex sender) filename totalsize timestamp (bytesToHex up)) s, [])
  | Some PKT_FILE_START => let! t := handleFileStart (h_now h) (h_writable h) p (transfers s) in Ok (set_transfers t s, [])
  | Some PKT_FILE_CHUNK => let! t := handleFileChunk p (transfers s) in Ok (set_transfers t s, [])
  | Some PKT_ROUND_END => let! (t, ms) := handleRoundEnd p (transfers s) in Ok (set_transfers t s, ms)
  | Some PKT_FILE_END =>
      let name := ds_fileName <$> activeDownloads (transfers s) !! bytesToHex (read_FileEnd p).1 in
      let (res, t) := handleFileEnd p (transfers s) in
      let s := set_transfers t s in
      Ok (match res, name with Some ok, Some name => show (Downloaded name ok) s | _, _ => s end, [])
  | Some PKT_FILE_ACK => let! t := handleFileAck p (transfers s) in Ok (set_transfers t s, [])
  | Some FILE_START_RESPONSE =>
      let (started, t) := HandleFileStartResponse p (transfers s) in
      Ok (mkState (user s) t (messagesReceived s) (screen s) (workers s ++ option_list started), [])
  | Some PKT_ACKNOWLEDGMENT =>
      let! msg := read_String p in
      if contains (str "OTP Verified") msg then Ok (show OtpVerified s, []) else
      let! _ := parseData p in Ok (s, [])
  | Some PKT_TOKEN_GRANTED => let! c := handleTokenGranted (h_writable h) p (user s) in Ok (set_user c s, [])
  | Some PKT_FILE_STATUS | Some PKT_AUTH_FAIL | Some PKT_SIGNUP_ERROR | Some PKT_FILE_ERROR =>
      with_text (fun msg => show (Text msg) s)
  | _ => Ok (s, [])
  end.

(** Packets, one after the other. *)
Fixpoint handle_packets (h : Host) (ps : list Packet) (s : ClientState) : outcome (ClientState * list message) :=
  match ps with
  | [] => Ok (s, [])
  | p :: ps =>
      let! (s, ms) := handleIncomingPacket h p s in
      let! (s, ms') := handle_packets h ps s in
      Ok (s, ms ++ ms')
  end.

(** The inner loop of [receiveLoop]: a packet that was cut out is handled before the next
    turn.  The result is the new state, the messages sent in reply and what is left of the
    buffer; [None] when it takes more than [fuel] turns. *)
Variable raw : Packet.

Definition handle_some (h : Host) (p : option Packet) (s : ClientState) : outcome (ClientState * list message) :=
  match p with None => Ok (s, []) | Some p => handleIncomingPacket h p s end.

Fixpoint receive_turns (h : Host) (fuel : nat) (streamBuffer : bstr) (s : ClientState)
  : option (outcome (ClientState * list message * bstr)) :=
  match fuel with
  | 0%nat => None
  | S fuel =>
      match receive_turn raw streamBuffer with
      | Ok (Stop rest) => Some (Ok (s, [], rest))
      | Ok (More p rest) =>
          match handle_some h p s with
          | Ok (s, ms) =>
              match receive_turns h fuel rest s with
              | Some res => Some (let! (s, ms', rest) := res in Ok (s, ms ++ ms', rest))
              | None => None
              end
          | Throw => Some Throw
          | UB => Some UB
          end
      | Throw => Some Throw
      | UB => Some UB
      end
  end.

(** The outer loop, over the data of successive calls of [recv]. *)
Fixpoint receiveLoop (h : Host) (chunks : list bstr) (streamBuffer : bstr) (s : ClientState)
  : option (outcome (ClientState * list message * bstr)) :=
  match chunks with
  | [] => Some (Ok (s, [], streamBuffer))
  | c :: chunks =>
      let b := streamBuffer ++ c in
      match receive_turns h (S (length b)) b s with
      | Some (Ok (s, ms, rest)) =>
          match receiveLoop h chunks rest s with
          | Some res => Some (let! (s, ms', rest) := res in Ok (s, ms ++ ms', rest))
          | None => None
          end
      | r => r
      end
  end.
End Incoming.

(** ** The receive loop on every stream *)

Section Streams.
Context {C : Checksum} (object_bytes : bstr -> bstr) (raw : Packet) (h : Host).

Lemma handle_packets_app ps qs s :
  handle_packets object_bytes h (ps ++ qs) s =
    let! (s, ms) := handle_packets object_bytes h ps s in
    let! (s, ms') := handle_packets object_bytes h qs s in Ok (s, ms ++ ms').
Proof.
  revert s. induction ps as [|p ps IH]; intros s; cbn [handle_packets app obind].
  - by destruct (handle_packets object_bytes h qs s) as [[s' ms]| |].
  - destruct (handleIncomingPacket object_bytes h p s) as [[s1 ms]| |]; cbn [obind]; [|done..]. rewrite IH.
    destruct (handle_packets object_bytes h ps s1) as [[s2 ms']| |]; cbn [obind]; [|done..].
    destruct (handle_packets object_bytes h qs s2) as [[s3 ms'']| |]; cbn [obind]; [by rewrite app_assoc|done..].
Qed.

Lemma handle_option p s : handle_packets object_bytes h (option_list p) s = handle_some object_bytes h p s.
Proof.
  destruct p as [p|]; [|done]. change (option_list (Some p)) with [p]. cbn [handle_packets handle_some].
  destruct (handleIncomingPacket object_bytes h p s) as [[s1 ms]| |]; cbn [obind handle_packets]; [by rewrite app_nil_r|done..].
Qed.

(** Handling as the packets are cut out is cutting them out and then handling them. *)
Lemma receive_turns_framing fuel : forall b ps rest s,
  framing_turns raw fuel b = Some (Ok (ps, rest)) ->
  receive_turns object_bytes raw h fuel b s = Some (let! (s, ms) := handle_packets object_bytes h ps s in Ok (s, ms, rest)).
Proof.
  induction fuel as [|fuel IH]; intros b ps rest s H; [done|]. cbn [framing_turns receive_turns] in *.
  destruct (receive_turn raw b) as [[r|p r]| |]; try done; [by injection H as <- <-|].
  destruct (framing_turns raw fuel r) as [[[qs r']| |]|] eqn:E; try done. injection H as <- <-.
  rewrite handle_packets_app, handle_option. destruct (handle_some object_bytes h p s) as [[s1 ms]| |]; cbn [obind]; [|done..].
  rewrite (IH _ _ _ _ E). by destruct (handle_packets object_bytes h qs s1) as [[s2 ms']| |].
Qed.

Lemma receiveLoop_framing chunks : forall b ps rest s,
  framing_loop raw chunks b = Some (Ok (ps, rest)) ->
  receiveLoop object_bytes raw h chunks b s = Some (let! (s, ms) := handle_packets object_bytes h ps s in Ok (s, ms, rest)).
Proof.
  induction chunks as [|c chunks IH]; intros b ps rest s H; cbn [framing_loop receiveLoop] in *; [by injection H as <- <-|].
  destruct (framing_turns raw _ (b ++ c)) as [[[qs r]| |]|] eqn:E; try done.
  destruct (framing_loop raw chunks r) as [[[qs' r']| |]|] eqn:E'; try done. injection H as <- <-.
  rewrite (receive_turns_framing _ _ _ _ s E), handle_packets_app.
  destruct (handle_packets object_bytes h qs s) as [[s1 ms]| |]; cbn [obind]; [|done..].
  rewrite (IH _ _ _ s1 E'). by destruct (handle_packets object_bytes h qs' s1) as [[s2 ms']| |].
Qed.

(** The packets cut out of a stream in successive turns, and the stream behind them. *)
Inductive cut : bstr -> list Packet -> bstr -> Prop :=
| cut_nothing b : cut b [] b
| cut_turn b p rest ps b' : receive_turn raw b = Ok (More p rest) -> cut rest ps b' -> cut b (option_list p ++ ps) b'.

Hypothesis raw_size : length (data raw) = sizeof_data.

(** The loop behind one turn. *)
Lemma receive_turns_more fuel b p rest s :
  receive_turn raw b = Ok (More p rest) ->
  receive_turns object_bytes raw h (S fuel) b s =
    match handle_some object_bytes h p s with
    | Ok (s, ms) =>
        match receive_turns object_bytes raw h fuel rest s with
        | Some res => Some (let! (s, ms', rest) := res in Ok (s, ms ++ ms', rest))
        | None => None
        end
    | Throw => Some Throw
    | UB => Some UB
    end.
Proof. intros Ht. cbn [receive_turns]. by rewrite Ht. Qed.

Lemma stream_cases n : forall b, (length b <= n)%nat -> exists ps b', cut b ps b' /\
  ((exists rest, receive_turn raw b' = Ok (Stop rest) /\ forall s, receive_turns object_bytes raw h (S n) b s =
      Some (let! (s, ms) := handle_packets object_bytes h ps s in Ok (s, ms, rest))) \/
   zero_size b' /\ forall s, match handle_packets object_bytes h ps s with
     | Ok _ => forall fuel, receive_turns object_bytes raw h fuel b s = None
     | Throw => receive_turns object_bytes raw h (S n) b s = Some Throw
     | UB => receive_turns object_bytes raw h (S n) b s = Some UB
     end).
Proof.
  induction n as [|n IH]; intros b Hb;
    (destruct (receive_turn_cases raw raw_size b) as [[rest Ht]|[(p & k & Ht & Hk)|[Hz Ht]]];
      [exists [], b; split; [constructor|]; left; exists rest; split; [done|]; intros s; cbn [receive_turns]; by rewrite Ht
      |
      |exists [], b; split; [constructor|]; right; split; [done|]; intros s; cbn [handle_packets]; intros fuel;
       induction fuel as [|fuel IHf]; [done|]; rewrite (receive_turns_more _ _ _ _ _ Ht); cbn [handle_some]; by rewrite IHf]); [lia|].
  destruct (IH (drop k b)) as (ps & b' & Hc & Hcases); [rewrite length_drop; lia|].
  exists (option_list p ++ ps), b'. split; [by econstructor|].
  destruct Hcases as [(rest & Hstop & Hrun)|[Hz Hrun]]; [left; exists rest|right]; (split; [done|]); intros s;
    rewrite handle_packets_app, handle_option; rewrite ?(receive_turns_more (S n) _ _ _ _ Ht);
    (destruct (handle_some object_bytes h p s) as [[s1 ms]| |] eqn:Eh; cbn [obind]; [|done..]).
  - rewrite Hrun. by destruct (handle_packets object_bytes h ps s1) as [[s2 ms']| |].
  - specialize (Hrun s1). destruct (handle_packets object_bytes h ps s1) as [[s2 ms']| |]; cbn [obind]; [|by rewrite Hrun..].
    intros [|fuel]; [done|]. by rewrite (receive_turns_more _ _ _ _ _ Ht), Eh, Hrun.
Qed.
End Streams.

(** ** Lemmas: checksums *)

Section Lemmas.
Context {C : Checksum} {L : ChecksumLaws C}.

(** Either way the id has its 32 digits and stands for the bytes drawn. *)
Lemma upload_id_roundtrip secure gen :
  (forall b, secure = Some b -> length b = UUID_SIZE) ->
  length (upload_id_bytes secure gen) = UUID_SIZE /\
  hexToBytes (bytesToHex (upload_id_bytes secure gen)) = upload_id_bytes secure gen.
Proof.
  intros Hs. assert (Hl : length (upload_id_bytes secure gen) = UUID_SIZE).
  { destruct secure as [b|]; [by apply Hs|]. cbn [upload_id_bytes]. change (seq 0 (UUID_SIZE / 8)) with [0%nat; 1%nat].
    by rewrite !bind_cons, !length_app, !length_le_split. }
  split; [done|]. by apply hexToBytes_bytesToHex.
Qed.

Lemma computeFileCRC_eq F : F <> [] -> computeFileCRC (Some F) = crc32c F 0.
Proof. intros HF. unfold computeFileCRC. rewrite crc_blocks_eq by lia. by rewrite decide_False. Qed.

Lemma computeFileCRC_range file : 0 <= computeFileCRC file < 2 ^ 32.
Proof.
  destruct file as [F|]; [|cbn; lia]. unfold computeFileCRC. rewrite crc_blocks_eq by lia.
  case_decide; [lia|]. apply crc32c_range.
Qed.

(** ** Lemmas: the messages of an upload *)

Lemma run_chunks F up crc r l got ms :
  Forall (fun i => (i < round_count F r)%nat) l -> sender_run F up crc r (list_to_set l ∪ got) ms ->
  sender_run F up crc r got (((fun i => chunk_message up F (r * rc + i)) <$> l) ++ ms).
Proof.
  intros Hl. revert got. induction Hl as [|i l Hi _ IH]; intros got Hrun; cbn [fmap list_fmap app].
  - by replace (list_to_set [] ∪ got) with got in Hrun by set_solver.
  - apply run_chunk; [done|]. apply IH. by replace (list_to_set l ∪ ({[i]} ∪ got)) with (list_to_set (i :: l) ∪ got) by set_solver.
Qed.

Lemma missing_none F r (got : gset nat) : (forall i, (i < round_count F r)%nat -> i ∈ got) -> missing_of F r got = [].
Proof.
  intros Hg. unfold missing_of. destruct (filter (fun i => i ∉ got) (seq 0 (round_count F r))) as [|i l] eqn:E; [done|].
  assert (Hi : i ∈ filter (fun i => i ∉ got) (seq 0 (round_count F r))) by (rewrite E; by left).
  apply list_elem_of_filter in Hi as [Hn Hi%elem_of_seq]. exfalso. apply Hn, Hg. lia.
Qed.

(** The blocks of a round are its chunks. *)
Lemma round_blocks F r :
  (r * rc < chunk_count F)%nat ->
  exists blocks b', read_round rc 0 rc F (len F) (Z.of_nat (r * rc * cs)) = Ok (blocks, Z.of_nat b') /\
    (b' = S r * rc * cs \/ length F <= b' /\ length F <= S r * rc * cs)%nat /\
    length blocks = round_count F r /\ blocks <> [] /\
    forall up, chunk_messages up blocks = (fun i => chunk_message up F (r * rc + i)) <$> seq 0 (round_count F r).
Proof.
  intros Hr. destruct (read_round_spec rc 0 rc F (r * rc * cs) ltac:(lia)) as (blocks & b' & Hrun & Hbl & Hb').
  pose proof cs_Z. pose proof rc_Z.
  assert (Hk : forall k, blocks !! k = if decide (k < round_count F r)%nat then Some (block_at F (r * rc * cs) k) else None).
  { intros k. rewrite Hbl. pose proof (round_count_index F r k) as Hi. pose proof (chunk_count_spec F (r * rc + k)) as Hc.
    assert (Hx : (r * rc * cs + k * cs = (r * rc + k) * cs)%nat) by lia. repeat case_decide; (done || lia). }
  assert (Hcount : (0 < round_count F r)%nat) by (unfold round_count; lia).
  assert (Hlen : length blocks = round_count F r).
  { apply Nat.le_antisymm.
    - destruct (le_lt_dec (length blocks) (round_count F r)) as [|Hlt]; [done|]. apply lookup_lt_is_Some_2 in Hlt as [x Hx].
      rewrite Hk, decide_False in Hx by lia. done.
    - destruct (le_lt_dec (round_count F r) (length blocks)) as [|Hlt]; [done|]. specialize (Hk (length blocks)).
      rewrite decide_True, lookup_ge_None_2 in Hk by lia. done. }
  exists blocks, b'. split_and!; [done| |done| |].
  - replace (S r * rc * cs)%nat with (r * rc * cs + rc * cs)%nat by lia. lia.
  - intros ->. cbn [length] in Hlen. lia.
  - intros up. apply list_eq. intros k. unfold chunk_messages. rewrite !list_lookup_fmap, Hk. case_decide as Hd.
    + rewrite lookup_seq_lt by done. cbn. unfold chunk_message, chunk, block_at. cbn [fst snd].
      do 2 f_equal; [lia|f_equal; lia].
    + by rewrite lookup_seq_ge by lia.
Qed.

Lemma answers_chunks F up r l : forall got ms,
  Forall (fun i => (i < round_count F r)%nat) l ->
  upload_answers F up r got (((fun i => chunk_message up F (r * rc + i)) <$> l) ++ ms) = upload_answers F up r (list_to_set l ∪ got) ms.
Proof.
  induction l as [|i l IH]; intros got ms Hl; cbn [fmap list_fmap app upload_answers chunk_message].
  - by replace (list_to_set [] ∪ got) with got by set_solver.
  - apply Forall_cons_1 in Hl as [Hi Hl]. rewrite chunk_index by (apply round_count_index in Hi; lia). rewrite IH by done.
    by replace (list_to_set l ∪ ({[i]} ∪ got)) with (list_to_set (i :: l) ∪ got) by set_solver.
Qed.

(** [n] rounds are left from round [r] on. *)
Definition rounds_left (F : bstr) (r n : nat) : Prop :=
  (chunk_count F <= (r + n) * rc)%nat /\ (n <> 0 -> (r + n - 1) * rc < chunk_count F)%nat.

Lemma rounds_left_next F r n : rounds_left F r (S n) -> (r * rc < chunk_count F)%nat /\ rounds_left F (S r) n.
Proof.
  intros [H1 H2]. specialize (H2 ltac:(lia)). replace (r + S n - 1)%nat with (r + n)%nat in H2 by lia.
  pose proof rc_Z. split; [nia|]. split; [nia|]. intros Hn. replace (S r + n - 1)%nat with (r + n)%nat by lia. done.
Qed.

Lemma rounds_left_exists F r : exists n, rounds_left F r n.
Proof.
  pose proof rc_Z as Hrc. assert (Hrc0 : rc <> 0%nat) by lia. clear Hrc. unfold rounds_left. generalize (chunk_count F) as c. intros c.
  destruct (le_lt_dec c (r * rc)) as [Hle|Hlt]; [exists 0%nat; split; [nia|done]|].
  exists (S ((c - 1) / rc - r)). pose proof (Nat.div_mod_eq (c - 1) rc) as Hd. pose proof (Nat.mod_upper_bound (c - 1) rc Hrc0) as Hm.
  assert (Hq : (r <= (c - 1) / rc)%nat) by (apply Nat.div_le_lower_bound; nia). split; [nia|]. intros _.
  replace (r + S ((c - 1) / rc - r) - 1)%nat with ((c - 1) / rc)%nat by lia. nia.
Qed.

(** The acknowledgements of [n] complete rounds from round [r] on. *)
Definition round_acks (up : bstr) (r n : nat) : list message := (fun j => FileAck up (Z.of_nat j) []) <$> seq r n.

(** One turn of the outer loop. *)
Lemma upload_rounds_turn fuel up content total bytesSent round acks :
  upload_rounds (S fuel) up content total bytesSent round acks =
    if bytesSent <? total then
      let! (blocks, sent) := read_round (Z.to_nat MAX_CHUNKS_PER_ROUND) 0 (Z.to_nat MAX_CHUNKS_PER_ROUND) content total bytesSent in
      if bool_decide (blocks = []) then Ok (Some ([], true)) else
      let (ms, e) := round_loop up round blocks acks in
      match e with
      | None => Ok (Some (chunk_messages up blocks ++ ms, false))
      | Some acks =>
          let! rest := upload_rounds fuel up content total sent (wrap 32 (round + 1)) acks in
          match rest with Some (ms', e) => Ok (Some ((chunk_messages up blocks ++ ms) ++ ms', e)) | None => Ok None end
      end
    else Ok (Some ([], true)).
Proof. reflexivity. Qed.

(** One wait that is answered with nothing missing for every round: the worker sends what
    a sender of the file sends, and these are the answers of the server. *)
Lemma upload_rounds_run F up crc n : forall r b,
  len F <= 5 * 1024 * 1024 -> rounds_left F r n -> (b = r * rc * cs \/ length F <= b /\ length F <= r * rc * cs)%nat ->
  exists ms, upload_rounds (S n) up F (len F) (Z.of_nat b) (Z.of_nat r) (replicate n (Some [])) = Ok (Some (ms, true)) /\
    sender_run F up crc r ∅ (ms ++ [FileEnd up crc]) /\
    upload_answers F up r ∅ (ms ++ [FileEnd up crc]) = round_acks up r n ++ [upload_status up].
Proof.
  induction n as [|n IH]; intros r b HF Hn Hb; pose proof cs_Z; pose proof rc_Z; pose proof (chunk_count_spec F (r * rc)) as Hcc.
  { cbn [upload_rounds]. destruct Hn as [Hn _]. rewrite Nat.add_0_r in Hn. rewrite (proj2 (Z.ltb_ge _ _)) by (unfold len; lia).
    exists []. split_and!; [done|by apply run_end|done]. }
  destruct (rounds_left_next _ _ _ Hn) as [Hr Hn']. rewrite upload_rounds_turn, (proj2 (Z.ltb_lt _ _)) by (unfold len; lia).
  destruct Hb as [->|?]; [|lia]. rewrite rc_eq.
  destruct (round_blocks F r Hr) as (blocks & b' & -> & Hb' & Hlen & Hne & Hms). cbn [obind]. rewrite bool_decide_eq_false_2 by done.
  cbn [replicate round_loop]. rewrite bool_decide_eq_true_2 by done.
  assert (Hw : wrap 32 (Z.of_nat r + 1) = Z.of_nat (S r)) by (unfold len in HF; rewrite wrap_small by nia; lia). rewrite Hw.
  destruct (IH (S r) b' HF Hn' Hb') as (ms & Hup & Hrun & Hans). rewrite Hup. cbn [obind].
  eexists. split; [done|]. rewrite <- !app_assoc, Hms. cbn [app].
  replace (RoundEnd up (Z.of_nat r) (len blocks)) with (round_message up F r) by (unfold round_message, len; by rewrite Hlen).
  assert (Hall : Forall (fun i => (i < round_count F r)%nat) (seq 0 (round_count F r))).
  { apply Forall_forall. intros i Hi%list_elem_of_In%elem_of_seq. lia. }
  assert (Hno : missing_of F r (list_to_set (seq 0 (round_count F r)) ∪ ∅) = []).
  { apply missing_none. intros i Hi. apply elem_of_union_l, elem_of_list_to_set, elem_of_seq. lia. }
  split.
  - apply run_chunks; [done|]. by apply run_next.
  - rewrite answers_chunks by done. cbn [upload_answers round_message]. rewrite Hno, decide_True by done. by rewrite Hans.
Qed.

(** A wait too few: the worker ends, but not with the end of the file. *)
Lemma upload_rounds_cut F up n : forall r b j,
  len F <= 5 * 1024 * 1024 -> rounds_left F r n -> (j < n)%nat -> (b = r * rc * cs)%nat ->
  exists ms, upload_rounds (S j) up F (len F) (Z.of_nat b) (Z.of_nat r) (replicate j (Some [])) = Ok (Some (ms, false)) /\
    Forall (fun m => forall crc, m <> FileEnd up crc) ms.
Proof.
  induction n as [|n IH]; intros r b j HF Hn Hj ->; [lia|]. pose proof cs_Z. pose proof rc_Z.
  pose proof (chunk_count_spec F (r * rc)) as Hcc. destruct (rounds_left_next _ _ _ Hn) as [Hr Hn'].
  rewrite upload_rounds_turn, (proj2 (Z.ltb_lt _ _)) by (unfold len; lia). rewrite rc_eq.
  destruct (round_blocks F r Hr) as (blocks & b' & -> & Hb' & Hlen & Hne & Hms). cbn [obind]. rewrite bool_decide_eq_false_2 by done.
  assert (Hchunks : forall x, Forall (fun m => forall crc, m <> FileEnd up crc) (chunk_messages up blocks ++ [RoundEnd up x (len blocks)])).
  { intros x. apply Forall_app. split; [|by constructor]. rewrite Hms. apply Forall_fmap, Forall_forall. by intros. }
  destruct j as [|j]; cbn [replicate round_loop]; [by eexists|]. rewrite bool_decide_eq_true_2 by done.
  assert (Hw : wrap 32 (Z.of_nat r + 1) = Z.of_nat (S r)) by (unfold len in HF; rewrite wrap_small by nia; lia). rewrite Hw.
  assert (b' = (S r * rc * cs)%nat) as ->.
  { destruct n as [|n]; [lia|]. destruct (rounds_left_next _ _ _ Hn') as [Hr' _]. apply chunk_count_spec in Hr'. lia. }
  destruct (IH (S r) (S r * rc * cs)%nat j HF Hn' ltac:(lia) eq_refl) as (ms & Hup & Hall). rewrite Hup. cbn [obind].
  eexists. split; [done|]. by apply Forall_app.
Qed.
End Lemmas.

(** ** Theorems *)

Section Receive.
Context {C : Checksum} (object_bytes : bstr -> bstr) (raw : Packet) (raw_size : length (data raw) = sizeof_data).

(** C31: the client's receive loop on every stream of bytes [b] and in every state [s] of
    the client.  The loop cuts packets [ps] out of the stream and handles each before the
    next, which is the same as handling them all in order; it comes to a point [b'] where
    it either stops or never ends.  If it stops, then within one turn per byte, and the
    result is that of the handlers: undefined behaviour exactly if a handler has it.  The
    other case is a header whose length field is 2^32 - 16: the packet size wraps around
    to 0, no byte is taken away, and the loop never ends, if the handlers of the packets
    before it returned. *)
Theorem receive_ends_or_hangs h b : exists ps b', cut raw b ps b' /\
  ((exists rest, receive_turn raw b' = Ok (Stop rest) /\ forall s, receive_turns object_bytes raw h (S (length b)) b s =
      Some (let! (s, ms) := handle_packets object_bytes h ps s in Ok (s, ms, rest))) \/
   zero_size b' /\ forall s, match handle_packets object_bytes h ps s with
     | Ok _ => forall fuel, receive_turns object_bytes raw h fuel b s = None
     | Throw => receive_turns object_bytes raw h (S (length b)) b s = Some Throw
     | UB => receive_turns object_bytes raw h (S (length b)) b s = Some UB
     end).
Proof. apply stream_cases; [done|lia]. Qed.
End Receive.

Section Uploads.
Context {C : Checksum} {L : ChecksumLaws C}.

(** C20: an upload from the client to the server, both ends together.  [sendFile] announces
    the file, the server answers with the number of bytes it has, whole rounds of the same
    file, and [uploadWorker] is started; it waits once for each of the [n] rounds that are
    left.  If each of these waits is answered and nothing is reported missing, the worker
    ends, and the server that handles its messages has then stored the whole file, in one
    piece and byte for byte; and these are the answers the server gives: what it queues for
    the client is the number of bytes it has, an acknowledgement without missing chunks for
    each of the [n] rounds, in order, and the success status.  If an acknowledgement gets
    lost, so that only [j < n] waits are answered, the worker ends too, but without the
    message that ends the file. *)
Theorem client_upload_stored random receiver filepath F t p r :
  length random = 16%nat -> cdisk t !! filepath = Some F -> len F <= 5 * 1024 * 1024 -> (length (path_filename filepath) <= 4000)%nat ->
  (r * rc * cs <= length F)%nat -> received (FileStartResponse random (Z.of_nat (r * rc * cs))) p ->
  exists t1 m0 s t2 n ms, sendFile true random receiver filepath t = (true, t1, [m0]) /\
    HandleFileStartResponse p t1 = (Some s, t2) /\ rounds_left F r n /\
    uploadWorker s (Some F) (replicate n (Some [])) = Ok (Some ms) /\
    (forall now sender f st B E D k,
      let path := partial_path now (path_filename filepath) random in
      default [] (disk f !! path) = prefix_rounds F r ->
      chat_ok st B E D (S (length ms) + k) -> (base.size B + S (length ms) <= currentSize)%nat ->
      exists f' st' ptr s', serve_upload now sender (m0 :: ms) f st = Ok (f', st') /\
        disk f' !! path = Some F /\ (forall q, q <> path -> disk f' !! q = disk f !! q) /\
        completedUpload f' = completedUpload f ++ [ptr] /\ theap f' !! ptr = Some s' /\ totalSize s' = len F /\
        sends sender (FileStartResponse random (Z.of_nat (r * rc * cs)) :: round_acks random r n ++ [upload_status random]) st st') /\
    (forall j, (j < n)%nat -> exists ms', uploadWorker s (Some F) (replicate j (Some [])) = Ok (Some ms') /\
       Forall (fun m => forall crc, m <> FileEnd random crc) ms').
Proof.
  intros Hrnd Hdk HF Hname Hr Hp. unfold sendFile. rewrite Hdk. destruct (rounds_left_exists F r) as [n Hn].
  set (crc := computeFileCRC (Some F)). pose proof (computeFileCRC_range (Some F)) as Hcrc. fold crc in Hcrc. pose proof cs_Z as Hcs. pose proof rc_Z as Hrc.
  assert (Hround : wrap 32 (Z.of_nat (r * rc * cs) / (MAX_CHUNK_SIZE * MAX_CHUNKS_PER_ROUND)) = Z.of_nat r).
  { unfold MAX_CHUNK_SIZE, MAX_CHUNKS_PER_ROUND. replace (Z.of_nat (r * rc * cs)) with (Z.of_nat r * (3840 * 1024)) by lia.
    rewrite Z.div_mul by lia. apply wrap_small. unfold len in HF. nia. }
  destruct (upload_rounds_run F random crc n r (r * rc * cs)%nat HF Hn) as (ms & Hms & Hrun & Hans); [by left|].
  eexists _, _, _, _, n, (ms ++ [FileEnd random crc]). split; [reflexivity|]. cbn [received] in Hp. unfold HandleFileStartResponse. rewrite Hp. cbn [set_uploads activeUploads].
  rewrite lookup_insert_eq. split; [reflexivity|]. split; [exact Hn|].
  unfold uploadWorker. cbn [us_bytesWritten us_uploadId us_totalSize us_startBytes us_finalCrc negb]. rewrite hexToBytes_bytesToHex by done.
  rewrite Hround, length_replicate, Hms. cbn [obind]. split; [reflexivity|]. split.
  - cbn zeta. intros now sender f st B E D k Hdisk Hok Hroom.
    destruct (upload_complete now sender F (hexToBytes receiver) random (path_filename filepath) crc r _ f st B E D k
      (hexToBytes_length receiver) Hrnd Hname HF Hcrc Hdisk Hr Hrun Hok Hroom)
      as (f' & st' & ptr & s' & H1 & H2 & H3 & H4 & H5 & _ & H7 & _ & H8 & _).
    assert (Hpre : len (prefix_rounds F r) = Z.of_nat (r * rc * cs)) by (unfold len, prefix_rounds; rewrite length_take; lia).
    rewrite Hans, Hpre in H8. exists f', st', ptr, s'. by split_and!.
  - intros j Hj. destruct (upload_rounds_cut F random n r _ j HF Hn Hj eq_refl) as (ms' & Hms' & Hall).
    exists ms'. rewrite length_replicate, Hms'. by split.
Qed.
End Uploads.

(** ** Lemmas: downloads *)

(** The download of [F] into a file that had the contents [X] before, in round [r] with the
    chunks in [got] received. *)
Record downloading (F X up : bstr) (r : nat) (got : gset nat) (name : bstr) (t : Transfers) (d : DownloadState) : Prop := mkDownloading {
  dl_active : activeDownloads t !! bytesToHex up = Some d;
  dl_buffer : ds_roundBuffer d = round_buffer F r got;
  dl_round : (r * rc < chunk_count F)%nat -> ds_currentRound d = Z.of_nat r;
  dl_offset : ds_receivedOffset d = len X + len (prefix_rounds F r);
  dl_total : ds_totalSize d = len F;
  dl_name : ds_fileName d = name;
  dl_open : ds_open d = true;
  dl_disk : cdisk t !! download_path name = Some (X ++ prefix_rounds F r)
}.

Section Downloads.
Context {C : Checksum} {L : ChecksumLaws C}.

Lemma download_chunk F X up r got name t d i p :
  downloading F X up r got name t d -> (i < round_count F r)%nat -> received (chunk_message up F (r * rc + i)) p ->
  exists t' d', handleFileChunk p t = Ok t' /\ downloading F X up r ({[i]} ∪ got) name t' d' /\
    activeUploads t' = activeUploads t /\ (forall q, q <> download_path name -> cdisk t' !! q = cdisk t !! q).
Proof.
  intros Hd Hi Hp. pose proof (proj1 (round_count_index F r i) Hi) as [Hrc Hlt]. cbn [received chunk_message] in Hp.
  unfold handleFileChunk. rewrite Hp. cbn [obind]. rewrite (dl_active _ _ _ _ _ _ _ _ Hd), Z.eqb_refl. cbn [negb].
  rewrite chunk_index, (dl_buffer _ _ _ _ _ _ _ _ Hd), round_buffer_lookup by done.
  destruct (decide (i ∈ got)) as [Hg|Hg].
  - destruct (chunk F (r * rc + i)) as [|c l] eqn:Ec; [apply chunk_nil in Ec; lia|]. exists t, d.
    replace ({[i]} ∪ got) with got by set_solver. by split_and!.
  - eexists _, (set_ds_round (<[i := chunk F (r * rc + i)]> (round_buffer F r got)) (ds_receivedOffset d) (ds_currentRound d)
      (wrap 32 (ds_roundReceivedCount d + 1)) d). split; [reflexivity|]. destruct Hd. split_and!; try done. constructor; try done.
    + apply lookup_insert_eq.
    + cbn [set_ds_round ds_roundBuffer]. by apply round_buffer_insert.
Qed.

Lemma download_round F X up r got name t d p :
  downloading F X up r got name t d -> (r * rc < chunk_count F)%nat -> len X + len F < 2 ^ 64 -> (r < chunk_count F)%nat -> Z.of_nat (chunk_count F) < 2 ^ 32 - 1 ->
  length up = 16%nat -> received (C := C) (round_message up F r) p ->
  exists t' d', handleRoundEnd p t = Ok (t', [FileAck up (Z.of_nat r) (Z.of_nat <$> missing_of F r got)]) /\
    (if decide (missing_of F r got = []) then downloading F X up (S r) ∅ name t' d' else downloading F X up r got name t' d') /\
    activeUploads t' = activeUploads t /\ (forall q, q <> download_path name -> cdisk t' !! q = cdisk t !! q).
Proof.
  intros Hd Hr Hsum Hrc Hcc Hup Hp. cbn [received round_message] in Hp. unfold handleRoundEnd. rewrite Hp.
  rewrite (dl_active _ _ _ _ _ _ _ _ Hd), (dl_round _ _ _ _ _ _ _ _ Hd Hr), Z.eqb_refl. cbn [negb].
  rewrite (dl_buffer _ _ _ _ _ _ _ _ Hd), round_buffer_missing. cbn [obind]. unfold sendRoundAck. rewrite hexToBytes_bytesToHex by done.
  destruct (decide (missing_of F r got = [])) as [Hm|Hm].
  2: { rewrite bool_decide_eq_false_2 by (destruct (missing_of F r got); done). exists (mkTransfers (activeUploads t) (<[bytesToHex up := d]> (activeDownloads t)) (cdisk t)), d.
       split; [done|]. destruct Hd. split_and!; try done. constructor; try done. cbn [activeDownloads]. by rewrite lookup_insert_eq. }
  rewrite Hm. cbn [fmap list_fmap]. rewrite bool_decide_eq_true_2 by done. unfold writeRound.
  rewrite (dl_open _ _ _ _ _ _ _ _ Hd), (dl_name _ _ _ _ _ _ _ _ Hd), (dl_disk _ _ _ _ _ _ _ _ Hd), (dl_buffer _ _ _ _ _ _ _ _ Hd).
  rewrite round_buffer_complete by done. cbn [from_option]. unfold Datatypes.id. rewrite <- app_assoc, <- prefix_next.
  match goal with |- context [mkTransfers ?u (<[?k := ?x]> ?m) ?dk] => exists (mkTransfers u (<[k := x]> m) dk), x end. split; [reflexivity|]. split_and!; [|done|intros q Hq; cbn [cdisk]; by rewrite lookup_insert_ne].
  pose proof cs_Z. pose proof rc_Z. destruct Hd. constructor; cbn [activeDownloads set_ds_round ds_roundBuffer ds_currentRound ds_receivedOffset ds_totalSize ds_fileName ds_open cdisk]; try done.
  - apply lookup_insert_eq.
  - intros _. rewrite dl_round0 by done. rewrite wrap_small by lia. lia.
  - rewrite dl_offset0. rewrite prefix_next. unfold len in *. rewrite length_app, wrap_small.
    + lia.
    + unfold prefix_rounds. rewrite length_take, length_slice. lia.
  - by rewrite lookup_insert_eq.
Qed.

Variable object_bytes : bstr -> bstr.

(** What handling the packets of a download does. *)
Record download_done (F X up : bstr) (ok : bool) (name : bstr) (s s' : ClientState) : Prop := mkDone {
  dd_file : cdisk (transfers s') !! download_path name = Some (X ++ F);
  dd_disk : forall q, q <> download_path name -> cdisk (transfers s') !! q = cdisk (transfers s) !! q;
  dd_uploads : activeUploads (transfers s') = activeUploads (transfers s);
  dd_gone : activeDownloads (transfers s') !! bytesToHex up = None;
  dd_user : user s' = user s;
  dd_screen : screen s' = screen s ++ [Downloaded name ok]
}.

Lemma small_count F : len F <= 5 * 1024 * 1024 -> Z.of_nat (chunk_count F) < 2 ^ 32 - 1.
Proof.
  intros HF. unfold chunk_count, MAX_CHUNK_SIZE. pose proof (len_nonneg F).
  pose proof (Z.div_le_upper_bound (len F + 3840 - 1) 3840 (len F + 3840 - 1) ltac:(lia) ltac:(lia)).
  pose proof (Z.div_pos (len F + 3840 - 1) 3840 ltac:(lia) ltac:(lia)). lia.
Qed.

Lemma done_before F X up ok name s s1 s' :
  (forall q, q <> download_path name -> cdisk (transfers s1) !! q = cdisk (transfers s) !! q) ->
  activeUploads (transfers s1) = activeUploads (transfers s) -> user s1 = user s -> screen s1 = screen s ->
  download_done F X up ok name s1 s' -> download_done F X up ok name s s'.
Proof.
  intros Hd Hu Hus Hsc [H1 H2 H3 H4 H5 H6]. constructor; try done; try congruence. intros q Hq. rewrite H2 by done. auto.
Qed.

Lemma download_run h F X up crc r got name ms :
  sender_run F up crc r got ms -> len F <= 5 * 1024 * 1024 -> len X < 2 ^ 32 -> length up = 16%nat ->
  forall ps s d, Forall2 holds ms ps -> downloading F X up r got name (transfers s) d ->
    exists s' acks, handle_packets object_bytes h ps s = Ok (s', acks) /\
      download_done F X up ((len X + len F =? len F) && ((crc =? 0) || (computeFileCRC (Some (X ++ F)) =? crc))) name s s'.
Proof.
  intros Hrun HF HX Hup. pose proof (small_count F HF) as Hcc. pose proof rc_Z as Hrc.
  induction Hrun as [r Hr|r got i ms Hi _ IH|r got ms Hr Hm _ IH|r got ms Hr Hm _ IH]; intros ps s d Hps Hd;
    inversion Hps as [|m p ms' ps' [Hty Hrec] Hps']; subst; cbn [handle_packets]; unfold handleIncomingPacket; rewrite Hty; cbn [message_type chunk_message round_message].
  - inversion Hps'; subst. cbn [received] in Hrec. unfold handleFileEnd. rewrite Hrec. cbn [fst].
    rewrite (dl_active _ _ _ _ _ _ _ _ Hd). cbn [fmap option_fmap option_map obind]. eexists _, _. split; [reflexivity|].
    pose proof Hd as [Ha Hb Hro Ho Ht Hn Hop Hdk]. rewrite prefix_complete in Ho, Hdk by done.
    constructor; cbn [show set_transfers transfers set_downloads cdisk activeDownloads activeUploads user screen]; try done.
    + apply lookup_delete_eq.
    + rewrite Ho, Ht, Hn, Hdk. done.
  - destruct (download_chunk F X up r got name (transfers s) d i p Hd Hi Hrec) as (t' & d' & Hh & Hd' & Hu' & Hdk').
    rewrite Hh. cbn [obind]. destruct (IH ps' (set_transfers t' s) d' Hps' Hd') as (s' & acks & Hrun' & Hdone). rewrite Hrun'. cbn [obind].
    eexists _, _. split; [reflexivity|]. by apply (done_before _ _ _ _ _ s (set_transfers t' s)).
  - destruct (download_round F X up r got name (transfers s) d p Hd Hr ltac:(lia) ltac:(nia) Hcc Hup Hrec) as (t' & d' & Hh & Hd' & Hu' & Hdk').
    rewrite decide_False in Hd' by done. rewrite Hh. cbn [obind].
    destruct (IH ps' (set_transfers t' s) d' Hps' Hd') as (s' & acks & Hrun' & Hdone). rewrite Hrun'. cbn [obind].
    eexists _, _. split; [reflexivity|]. by apply (done_before _ _ _ _ _ s (set_transfers t' s)).
  - destruct (download_round F X up r got name (transfers s) d p Hd Hr ltac:(lia) ltac:(nia) Hcc Hup Hrec) as (t' & d' & Hh & Hd' & Hu' & Hdk').
    rewrite decide_True in Hd' by done. rewrite Hh. cbn [obind].
    destruct (IH ps' (set_transfers t' s) d' Hps' Hd') as (s' & acks & Hrun' & Hdone). rewrite Hrun'. cbn [obind].
    eexists _, _. split; [reflexivity|]. by apply (done_before _ _ _ _ _ s (set_transfers t' s)).
Qed.

Lemma download_starts h F X sender up name crc s p :
  let fn := sanitize (h_now h) name in
  h_writable h = true -> default [] (cdisk (transfers s) !! download_path fn) = X -> (length X < rc * cs)%nat ->
  received (FileStart sender up name (len F) crc) p ->
  exists t' d, handleFileStart (h_now h) (h_writable h) p (transfers s) = Ok t' /\ downloading F X up 0 ∅ fn t' d /\
    activeUploads t' = activeUploads (transfers s) /\
    (forall q, q <> download_path fn -> cdisk t' !! q = cdisk (transfers s) !! q).
Proof.
  intros fn Hw HX Hl Hp. cbn [received] in Hp. unfold handleFileStart. rewrite Hp, Hw. cbn [obind]. fold fn. rewrite HX.
  match goal with |- context [mkTransfers ?u (<[?k := ?x]> ?m) ?dk] => exists (mkTransfers u (<[k := x]> m) dk), x end.
  split; [reflexivity|]. pose proof cs_Z. pose proof rc_Z.
  split_and!; [|done|intros q Hq; cbn [cdisk]; by rewrite lookup_insert_ne].
  constructor; cbn [activeDownloads ds_roundBuffer ds_currentRound ds_receivedOffset ds_totalSize ds_fileName ds_open cdisk].
  - apply lookup_insert_eq.
  - by apply round_buffer_empty.
  - intros _. unfold MAX_CHUNK_SIZE, MAX_CHUNKS_PER_ROUND. rewrite Z.div_small by (unfold len; nia). done.
  - unfold prefix_rounds. cbn [Nat.mul]. rewrite take_0. unfold len. cbn [length]. lia.
  - done.
  - done.
  - done.
  - unfold prefix_rounds. cbn [Nat.mul]. rewrite take_0, app_nil_r. apply lookup_insert_eq.
Qed.

(** *** An earlier file of a round or more *)

(** The download has begun in a later round: the first one does not get anything written. *)
Record stalled (F X up : bstr) (name : bstr) (t : Transfers) (d : DownloadState) : Prop := mkStalled {
  sl_active : activeDownloads t !! bytesToHex up = Some d;
  sl_round : ds_currentRound d <> 0;
  sl_offset : ds_receivedOffset d = len X;
  sl_total : ds_totalSize d = len F;
  sl_name : ds_fileName d = name;
  sl_disk : cdisk t !! download_path name = Some X
}.

Lemma stalled_starts h F X sender up name crc s p :
  let fn := sanitize (h_now h) name in
  h_writable h = true -> default [] (cdisk (transfers s) !! download_path fn) = X -> (rc * cs <= length X)%nat -> len X < 2 ^ 53 ->
  received (FileStart sender up name (len F) crc) p ->
  exists t' d, handleFileStart (h_now h) (h_writable h) p (transfers s) = Ok t' /\ stalled F X up fn t' d /\
    activeUploads t' = activeUploads (transfers s) /\
    (forall q, q <> download_path fn -> cdisk t' !! q = cdisk (transfers s) !! q).
Proof.
  intros fn Hw HX Hl Hbig Hp. cbn [received] in Hp. unfold handleFileStart. rewrite Hp, Hw. cbn [obind]. fold fn. rewrite HX.
  match goal with |- context [mkTransfers ?u (<[?k := ?x]> ?m) ?dk] => exists (mkTransfers u (<[k := x]> m) dk), x end.
  split; [reflexivity|]. pose proof cs_Z. pose proof rc_Z.
  split_and!; [|done|intros q Hq; cbn [cdisk]; by rewrite lookup_insert_ne].
  constructor; cbn [activeDownloads ds_currentRound ds_receivedOffset ds_totalSize ds_fileName cdisk]; try done.
  - apply lookup_insert_eq.
  - unfold MAX_CHUNK_SIZE, MAX_CHUNKS_PER_ROUND. unfold len in *.
    assert (1 <= Z.of_nat (length X) / (3840 * 1024)) by (apply Z.div_le_lower_bound; nia).
    assert (Z.of_nat (length X) / (3840 * 1024) < 2 ^ 32) by (apply Z.div_lt_upper_bound; lia).
    rewrite wrap_small by lia. lia.
  - apply lookup_insert_eq.
Qed.

Lemma stalled_run h F X up crc r got name ms :
  sender_run F up crc r got ms -> (chunk_count F <= rc)%nat ->
  forall ps s d, Forall2 holds ms ps -> stalled F X up name (transfers s) d ->
    exists s' acks, handle_packets object_bytes h ps s = Ok (s', acks) /\
      download_done [] X up ((len X =? len F) && ((crc =? 0) || (computeFileCRC (Some X) =? crc))) name s s'.
Proof.
  intros Hrun HF. pose proof rc_Z as Hrc.
  assert (Hround : forall r p s d, (r * rc < chunk_count F)%nat -> received (C := C) (round_message up F r) p -> stalled F X up name (transfers s) d ->
    exists acks, handleRoundEnd p (transfers s) = Ok (transfers s, acks)).
  { intros r0 p s d Hr Hp Hd. cbn [received round_message] in Hp. unfold handleRoundEnd. rewrite Hp, (sl_active _ _ _ _ _ _ Hd).
    replace (Z.of_nat r0) with 0 by nia. destruct (Z.eqb_spec 0 (ds_currentRound d)) as [E|]; [by destruct (sl_round _ _ _ _ _ _ Hd)|]. by eexists. }
  induction Hrun as [r Hr|r got i ms Hi _ IH|r got ms Hr Hm _ IH|r got ms Hr Hm _ IH]; intros ps s d Hps Hd;
    inversion Hps as [|m p ms' ps' [Hty Hrec] Hps']; subst; cbn [handle_packets]; unfold handleIncomingPacket; rewrite Hty; cbn [message_type chunk_message round_message].
  - inversion Hps'; subst. cbn [received] in Hrec. unfold handleFileEnd. rewrite Hrec. cbn [fst].
    rewrite (sl_active _ _ _ _ _ _ Hd). cbn [fmap option_fmap option_map obind]. eexists _, _. split; [reflexivity|].
    pose proof Hd as [Ha Hro Ho Ht Hn Hdk].
    constructor; cbn [show set_transfers transfers set_downloads cdisk activeDownloads activeUploads user screen]; try done.
    + by rewrite app_nil_r.
    + apply lookup_delete_eq.
    + rewrite Ho, Ht, Hn, Hdk. done.
  - assert (Hchunk : exists t' d', handleFileChunk p (transfers s) = Ok t' /\ stalled F X up name t' d' /\
      activeUploads t' = activeUploads (transfers s) /\ cdisk t' = cdisk (transfers s)).
    { cbn [received chunk_message] in Hrec. unfold handleFileChunk. rewrite Hrec. cbn [obind]. rewrite (sl_active _ _ _ _ _ _ Hd), Z.eqb_refl. cbn [negb].
      destruct (ds_roundBuffer d !! _) as [[|]|]; [|by exists (transfers s), d..].
      match goal with |- context [set_downloads (<[?k := ?x]> ?m) ?t] => exists (set_downloads (<[k := x]> m) t), x end.
      split; [reflexivity|]. destruct Hd. split_and!; try done. constructor; try done. apply lookup_insert_eq. }
    destruct Hchunk as (t' & d' & -> & Hd' & Hu' & Hdk'). cbn [obind].
    destruct (IH ps' (set_transfers t' s) d' Hps' Hd') as (s' & acks & -> & Hdone). cbn [obind].
    eexists _, _. split; [reflexivity|]. apply (done_before _ _ _ _ _ s (set_transfers t' s)); try done. intros q _. cbn [set_transfers transfers]. by rewrite Hdk'.
  - destruct (Hround r p s d Hr Hrec Hd) as [acks0 ->]. cbn [obind].
    destruct (IH ps' (set_transfers (transfers s) s) d Hps' Hd) as (s' & acks & -> & Hdone). cbn [obind].
    eexists _, _. split; [reflexivity|]. by apply (done_before _ _ _ _ _ s (set_transfers (transfers s) s)).
  - destruct (Hround r p s d Hr Hrec Hd) as [acks0 ->]. cbn [obind].
    destruct (IH ps' (set_transfers (transfers s) s) d Hps' Hd) as (s' & acks & -> & Hdone). cbn [obind].
    eexists _, _. split; [reflexivity|]. by apply (done_before _ _ _ _ _ s (set_transfers (transfers s) s)).
Qed.

End Downloads.

(** ** Chat messages on the screen *)

Inductive displays : message -> shown -> Prop :=
| displays_private sender receiver name text ts :
    displays (Chat PKT_PRIVATE_MESSAGE sender receiver name text ts) (Private (bytesToHex sender) text)
| displays_group sender receiver name text ts :
    displays (Chat PKT_GROUP_MESSAGE sender receiver name text ts) (Grouped (bytesToHex receiver) (bytesToHex sender) text).

Definition is_private (x : shown) : bool := match x with Private _ _ => true | _ => false end.
Definition privates (xs : list shown) : Z := len (filter (fun x => is_private x = true) xs).

Section Screen.
Context {C : Checksum} {L : ChecksumLaws C} (object_bytes : bstr -> bstr).

Lemma handle_chat h ms ps xs : forall s,
  Forall2 holds ms ps -> Forall2 displays ms xs -> 0 <= messagesReceived s -> messagesReceived s + len xs < 2 ^ 31 ->
  exists s', handle_packets object_bytes h ps s = Ok (s', []) /\ screen s' = screen s ++ xs /\
    user s' = user s /\ transfers s' = transfers s /\ workers s' = workers s /\ messagesReceived s' = messagesReceived s + privates xs.
Proof.
  intros s Hps. revert xs s. induction Hps as [|m p ms ps [Hty Hrec] _ IH]; intros xs s Hxs Hr Hb;
    inversion Hxs as [|m' x ms' xs' Hm Hxs']; subst; cbn [handle_packets].
  - exists s. split_and!; try done; [by rewrite app_nil_r|unfold privates, len; cbn; lia].
  - unfold len in Hb. cbn [length] in Hb. unfold handleIncomingPacket. rewrite Hty.
    inversion Hm; subst; cbn [message_type received] in *; rewrite Hrec; cbn [obind].
    + match goal with |- context [handle_packets _ _ _ ?s0] => destruct (IH xs' s0 Hxs') as (s' & Hrun & H1 & H2 & H3 & H4 & H5) end;
        [cbn [messagesReceived show]; rewrite to_int32_small by lia; lia|cbn [messagesReceived show]; rewrite to_int32_small by lia; unfold len; lia|].
      rewrite Hrun. cbn [obind]. exists s'. split; [done|]. cbn [screen show user transfers workers messagesReceived] in H1, H2, H3, H4, H5.
      rewrite to_int32_small in H5 by lia. split_and!; try done.
      * by rewrite H1, <- app_assoc.
      * rewrite H5. unfold privates, len. rewrite filter_cons_True by done. cbn [length]. lia.
    + match goal with |- context [handle_packets _ _ _ ?s0] => destruct (IH xs' s0 Hxs') as (s' & Hrun & H1 & H2 & H3 & H4 & H5) end;
        [done|cbn [messagesReceived show]; unfold len; lia|].
      rewrite Hrun. cbn [obind]. exists s'. split; [done|]. cbn [screen show user transfers workers messagesReceived] in H1, H2, H3, H4, H5.
      split_and!; try done.
      * by rewrite H1, <- app_assoc.
Qed.

(** A conversation reaches the screen.  Chat messages that come in over the
    connection, cut in any way, are shown completely and in order, each with the sender's
    id in hexadecimal and its text; the private ones are counted and nothing else in the
    client changes. *)
Theorem chat_stream_shown (raw : Packet) h ms xs chunks s :
  length (data raw) = sizeof_data -> Forall sound ms -> Forall2 displays ms xs -> concat chunks = concat (message_frame <$> ms) ->
  0 <= messagesReceived s -> messagesReceived s + len xs < 2 ^ 31 ->
  exists ps s', framing_loop raw chunks [] = Some (Ok (ps, [])) /\ handle_packets object_bytes h ps s = Ok (s', []) /\
    screen s' = screen s ++ xs /\ user s' = user s /\ transfers s' = transfers s /\ workers s' = workers s /\
    messagesReceived s' = messagesReceived s + privates xs.
Proof.
  intros Hraw Hs Hx Hch Hr Hb. destruct (framing_loop_frames raw Hraw chunks ms [] Hs) as (ps & Hrecv & Hall); [|done|].
  { destruct ms as [|m ms]; [done|]. split; [|by exists (message_frame m)]. unfold message_frame. rewrite length_frame. unfold HEADER_SIZE. cbn [length]. lia. }
  destruct (handle_chat h ms ps xs s Hall Hx Hr Hb) as (s' & H). by exists ps, s'.
Qed.
End Screen.

(** ** Evaluation *)

Definition local_file : bstr := str "hello".
Definition sample_transfers : Transfers := mkTransfers ∅ ∅ {[ str "notes.txt" := local_file ]}.
Definition sample_state : ClientState := mkState (new_client ∅) sample_transfers 0 [] [].
Definition sample_response : Packet := arrived (C := compute_soft) (FileStartResponse (zeros 16) 0) new_packet.

Lemma local_chunks : chunk_count local_file = 1%nat.
Proof. reflexivity. Qed.

Lemma local_messages :
  match HandleFileStartResponse sample_response
          (sendFile (C := compute_soft) true (zeros 16) (str "bob") (str "notes.txt") sample_transfers).1.2 with
  | (Some s, _) => match uploadWorker s (Some local_file) (replicate 1 (Some [])) with Ok (Some ms) => length ms = 3%nat | _ => False end
  | _ => False
  end.
Proof. vm_compute. reflexivity. Qed.

(** The client sends the file and a server that has nothing of it stores it. *)
Lemma client_upload_stored_witness :
  exists t1 m0 s t2 n ms st f' st', sendFile (C := compute_soft) true (zeros 16) (str "bob") (str "notes.txt") sample_transfers = (true, t1, [m0]) /\
    HandleFileStartResponse sample_response t1 = (Some s, t2) /\ uploadWorker s (Some local_file) (replicate n (Some [])) = Ok (Some ms) /\
    serve_upload (C := compute_soft) 0 (str "ada") (m0 :: ms) no_files st = Ok (f', st') /\
    disk f' !! partial_path 0 (str "notes.txt") (zeros 16) = Some (str "hello").
Proof.
  destruct (fresh_chat one_connection 6) as (st & Hok & _); [eapply reg_history_inv, first_connection_history|lia|].
  destruct (client_upload_stored (C := compute_soft) (zeros 16) (str "bob") (str "notes.txt") local_file sample_transfers sample_response 0)
    as (t1 & m0 & s & t2 & n & ms & H1 & H2 & [Hn1 Hn2] & H3 & H4 & _).
  - reflexivity.
  - reflexivity.
  - vm_compute. congruence.
  - apply (bool_decide_unpack _). vm_compute. exact I.
  - cbn [Nat.mul]. lia.
  - vm_compute. reflexivity.
  - assert (n = 1%nat) as ->.
    { rewrite local_chunks in Hn1, Hn2. pose proof rc_Z. destruct n as [|[|n]]; [lia|done|]. specialize (Hn2 ltac:(lia)). nia. }
    pose proof local_messages as Hl. rewrite H1 in Hl. cbn [fst snd] in Hl. rewrite H2 in Hl. rewrite H3 in Hl.
    destruct (H4 0 (str "ada") no_files st ∅ ∅ ∅ 2%nat) as (f' & st' & ptr & s' & H5 & H6 & _).
    + reflexivity.
    + rewrite Hl. exact Hok.
    + rewrite Hl, size_empty. pose proof currentSize_Z. lia.
    + exists t1, m0, s, t2, 1%nat, ms, st, f', st'. split_and!; [exact H1|exact H2|exact H3|exact H5|exact H6].
Defined.

Lemma chat_stream_shown_witness :
  let m := Chat PKT_PRIVATE_MESSAGE (zeros 16) (zeros 16) [] (str "hi") 0 in
  exists ps s', framing_loop (C := compute_soft) new_packet [message_frame (C := compute_soft) m] [] = Some (Ok (ps, [])) /\
    handle_packets (C := compute_soft) (fun s => s) (mkHost 0 true) ps sample_state = Ok (s', []) /\
    screen s' = [Private (bytesToHex (zeros 16)) (str "hi")].
Proof.
  intros m. destruct (chat_stream_shown (C := compute_soft) (fun s => s) new_packet (mkHost 0 true) [m] [Private (bytesToHex (zeros 16)) (str "hi")]
    [message_frame (C := compute_soft) m] sample_state) as (ps & s' & H1 & H2 & H3 & _).
  - apply new_packet_size.
  - constructor; [|constructor]. split_and!; [repeat constructor|exact I|vm_compute; lia].
  - repeat constructor.
  - reflexivity.
  - cbn [sample_state messagesReceived]. lia.
  - vm_compute. reflexivity.
  - exists ps, s'. split; [exact H1|]. split; [exact H2|exact H3].
Defined.

Definition local_run (crc : Z) : list message :=
  [chunk_message (zeros 16) local_file 0; round_message (zeros 16) local_file 0; FileEnd (zeros 16) crc].

Lemma local_sender crc : sender_run local_file (zeros 16) crc 0 ∅ (local_run crc).
Proof.
  pose proof local_chunks as Hc. pose proof rc_Z. assert (Hr : round_count local_file 0 = 1%nat) by (unfold round_count; lia).
  apply (run_chunk local_file (zeros 16) crc 0 ∅ 0); [lia|]. apply run_next; [lia| |].
  - apply missing_none. intros i Hi. assert (i = 0%nat) as -> by lia. by apply elem_of_union_l, elem_of_singleton.
  - apply run_end. lia.
Qed.

Lemma local_sound crc :
  0 <= crc < 2 ^ 32 -> Forall (sound (C := compute_soft)) (FileStart (zeros 16) (zeros 16) (str "copy.txt") (len local_file) crc :: local_run crc).
Proof.
  intros Hcrc. assert (HF : len local_file = 5) by reflexivity. assert (Hz : length (zeros 16) = UUID_SIZE) by reflexivity.
  assert (Hn : (length (str "copy.txt") <= 4000)%nat) by (apply Nat.leb_le; reflexivity).
  pose proof local_chunks as Hc. pose proof rc_Z. rewrite HF. unfold local_run.
  constructor; [apply sound_start; (done || lia)|]. constructor; [apply sound_chunk; (done || lia)|].
  constructor; [apply sound_round; (done || lia)|]. constructor; [by apply sound_end|constructor].
Qed.


(** A stream on which the loop never ends, whatever the client has. *)
Lemma receive_ends_or_hangs_witness :
  zero_size endless /\ forall s fuel, receive_turns (C := compute_soft) (fun s => s) new_packet (mkHost 0 true) fuel endless s = None.
Proof.
  assert (Hz : zero_size endless) by (split_and!; [vm_compute; lia|reflexivity|reflexivity]).
  assert (Ht : receive_turn (C := compute_soft) new_packet endless = Ok (More None endless)) by (vm_compute; reflexivity).
  split; [exact Hz|].
  destruct (receive_ends_or_hangs (C := compute_soft) (fun s => s) new_packet new_packet_size (mkHost 0 true) endless)
    as (ps & b' & Hc & Hcases).
  assert (Hcut : ps = [] /\ b' = endless).
  { clear Hcases. remember endless as b eqn:Eb. induction Hc as [|b p rest ps b' Hp _ IH]; [done|]. subst b.
    rewrite Ht in Hp. injection Hp as <- <-. by apply IH. }
  destruct Hcut as [-> ->]. destruct Hcases as [(rest & Hs & _)|[_ H]]; [rewrite Ht in Hs; discriminate Hs|]. exact H.
Defined.
