(* ===== verification/Threads.v ===== *)
(** Background threads and condition variables: the loops of authentication/SignUp.cpp
    (otpSenderLoop, signupManager) and filetransfer/FIleDownload.cpp (sendDownloadLinkLoop)
    with the writers that wake them up, and the wait for an acknowledgement of
    client/Client.cpp (uploadWorker, handleFileAck), as step relations over all
    interleavings.

    [cv.wait(lk, pred)] evaluates the predicate with the mutex held and, when it is false,
    releases the mutex and blocks in one step.  A writer that takes the mutex cannot come
    between the two; one that does not take it can. *)

From S2P Require Import Prelude Crc32c Packet Serialize FileTransfer ClientFiles.

(** ** Definitions: a loop that waits for work or for the end *)

(** Which writers take the mutex, and whether a turn of the loop empties the queue. *)
Record Discipline := mkDiscipline { push_locked : bool; stop_locked : bool; drains : bool }.

(** [otpRequestHandler] pushes without the mutex, the destructor of [SignUp] sets the flag
    without it. *)
Definition otp_loop : Discipline := mkDiscipline false false false.
(** [signUpRequestHandler] pushes with the mutex. *)
Definition signup_loop : Discipline := mkDiscipline true false false.
(** [handleFileEnd] and [stopAllTransfers] take the mutex. *)
Definition link_loop : Discipline := mkDiscipline true true true.

Inductive Place :=
| Testing      (* about to evaluate the predicate *)
| Deciding     (* it was false; the mutex is still held *)
| Waiting      (* blocked, the mutex is free *)
| Working      (* behind the wait *)
| Draining     (* in the inner loop *)
| Ended.       (* the thread function has returned *)

Record Loop := mkLoop {
  stopFlag : bool;
  work : list nat;
  place : Place;
  owed : nat;               (* writers between their write and their notification *)
  handled : list nat
}.

Definition new_loop : Loop := mkLoop false [] Testing 0 [].

Definition something_to_do (l : Loop) : bool := stopFlag l || negb (bool_decide (work l = [])).

Definition move (p : Place) (l : Loop) : Loop := mkLoop (stopFlag l) (work l) p (owed l) (handled l).

(** A writer that takes the mutex is kept out while the thread holds it. *)
Definition admitted (locked : bool) (l : Loop) : Prop := locked = true -> place l <> Deciding.

(** What the thread does on its own. *)
Inductive thread_step (d : Discipline) : Loop -> Loop -> Prop :=
| step_go l : place l = Testing -> something_to_do l = true -> thread_step d l (move Working l)
| step_decide l : place l = Testing -> something_to_do l = false -> thread_step d l (move Deciding l)
| step_block l : place l = Deciding -> thread_step d l (move Waiting l)
| step_end l : place l = Working -> stopFlag l = true -> work l = [] -> thread_step d l (move Ended l)
| step_nothing l : place l = Working -> stopFlag l = false -> work l = [] -> thread_step d l (move Testing l)
| step_take l x q :
    place l = Working -> work l = x :: q ->
    thread_step d l (mkLoop (stopFlag l) q (if drains d then Draining else Testing) (owed l) (handled l ++ [x]))
| step_drain l x q :
    place l = Draining -> work l = x :: q -> thread_step d l (mkLoop (stopFlag l) q Draining (owed l) (handled l ++ [x]))
| step_drained l : place l = Draining -> work l = [] -> thread_step d l (move Testing l).

(** A notification wakes the thread if it is blocked; otherwise it has no effect. *)
Definition notify (l : Loop) : Loop :=
  mkLoop (stopFlag l) (work l) (match place l with Waiting => Testing | p => p end) (pred (owed l)) (handled l).

(** The end of the owner: it sets the flag, once, and notifies. *)
Inductive finish_step (d : Discipline) : Loop -> Loop -> Prop :=
| step_stop l :
    stopFlag l = false -> admitted (stop_locked d) l ->
    finish_step d l (mkLoop true (work l) (place l) (S (owed l)) (handled l))
| step_notify l : (0 < owed l)%nat -> finish_step d l (notify l).

Definition push_work (x : nat) (l : Loop) : Loop := mkLoop (stopFlag l) (work l ++ [x]) (place l) (S (owed l)) (handled l).

(** All steps: also new work, and wake-ups without a reason, which the standard allows. *)
Inductive loop_step (d : Discipline) : Loop -> Loop -> Prop :=
| loop_thread l l' : thread_step d l l' -> loop_step d l l'
| loop_finish l l' : finish_step d l l' -> loop_step d l l'
| loop_push l x : admitted (push_locked d) l -> loop_step d l (push_work x l)
| loop_spurious l : place l = Waiting -> loop_step d l (move Testing l).

Definition reachable (d : Discipline) : Loop -> Prop := rtc (loop_step d) new_loop.

(** The steps left when no new work comes: the thread's and the owed notifications. *)
Definition quiet_step (d : Discipline) (l l' : Loop) : Prop := thread_step d l l' \/ finish_step d l l'.

(** ** Lemmas *)

Lemma something_to_do_spec l : something_to_do l = true <-> stopFlag l = true \/ work l <> [].
Proof. unfold something_to_do. rewrite orb_true_iff, negb_true_iff, bool_decide_eq_false. done. Qed.

(** With both writers under the mutex, a thread that has decided to block has nothing to do,
    and one that is blocked has nothing to do or a notification under way. *)
Definition attentive (l : Loop) : Prop :=
  match place l with
  | Deciding => something_to_do l = false
  | Waiting => something_to_do l = true -> (0 < owed l)%nat
  | Working => something_to_do l = true
  | _ => True
  end.

Lemma push_something x l : something_to_do (push_work x l) = true.
Proof. apply something_to_do_spec. right. cbn [push_work work]. by destruct (work l). Qed.

Lemma reachable_attentive d l :
  push_locked d = true -> stop_locked d = true -> reachable d l -> attentive l.
Proof.
  intros Hp Hs. revert l. apply (rtc_ind_r attentive); [exact I|]. intros l l' _ Hstep IH.
  destruct Hstep as [l l' Ht|l l' Hf|l x Ha|l Hw].
  - destruct Ht as [l E H|l E H|l E|l E H1 H2|l E H1 H2|l x q E H|l x q E H|l E H]; unfold attentive in *; cbn [move place]; try done.
    + rewrite E in IH. intros H. change (something_to_do l = true) in H. congruence.
    + by destruct (drains d).
  - destruct Hf as [l E Ha|l Ho]; unfold attentive in *; cbn [place notify]; destruct (place l) eqn:Ep; try done.
    + by destruct Ha.
    + intros _. cbn [owed]. lia.
  - unfold attentive. change (place (push_work x l)) with (place l). destruct (place l) eqn:Ep; try done.
    + by destruct (Ha Hp).
    + intros _. cbn [push_work owed]. lia.
    + apply push_something.
  - done.
Qed.

(** Every quiet step uses something up. *)
Definition weight (p : Place) : nat :=
  match p with Testing => 5 | Deciding => 4 | Waiting => 3 | Working => 4 | Draining => 6 | Ended => 0 end.
Definition remaining (l : Loop) : nat :=
  (3 * owed l + 3 * length (work l) + weight (place l) + (if stopFlag l then 0 else 4))%nat.

Lemma quiet_step_decreases d l l' : attentive l -> quiet_step d l l' -> (remaining l' < remaining l)%nat.
Proof.
  intros Ha [Ht|Hf]; unfold remaining.
  - destruct Ht as [l E H|l E H|l E|l E H1 H2|l E H1 H2|l x q E H|l x q E H|l E H]; cbn [move stopFlag work place owed];
      rewrite E; cbn [weight]; rewrite ?H, ?H1, ?H2; cbn [length]; try (destruct (drains d); cbn [weight]); try lia.
    all: unfold attentive in Ha; rewrite E in Ha; apply something_to_do_spec in Ha; rewrite H1, H2 in Ha; naive_solver.
  - destruct Hf as [l E _|l Ho]; cbn [stopFlag work place owed notify]; rewrite ?E; [lia|].
    destruct (place l); cbn [weight]; lia.
Qed.

Lemma quiet_reachable d l l' : reachable d l -> quiet_step d l l' -> reachable d l'.
Proof. intros Hr Hq. eapply rtc_r; [exact Hr|]. destruct Hq; [by apply loop_thread|by apply loop_finish]. Qed.

(** A thread that cannot go on is blocked or has ended. *)
Lemma stuck_places d l : (forall l', ~ thread_step d l l') -> place l = Waiting \/ place l = Ended.
Proof.
  intros Hs. destruct (place l) eqn:E; [exfalso..|by left|exfalso|exfalso|by right].
  - destruct (something_to_do l) eqn:Ed; eapply Hs; [by apply step_go|by apply step_decide].
  - eapply Hs. by apply step_block.
  - destruct (work l) as [|x q] eqn:Ew; [|eapply Hs; by eapply step_take].
    destruct (stopFlag l) eqn:Es; eapply Hs; [by apply step_end|by apply step_nothing].
  - destruct (work l) as [|x q] eqn:Ew; eapply Hs; [by apply step_drained|by eapply step_drain].
Qed.

(** The order of the work is kept. *)
Inductive pushed (d : Discipline) : Loop -> list nat -> Prop :=
| pushed_new : pushed d new_loop []
| pushed_other l l' xs : pushed d l xs -> thread_step d l l' \/ finish_step d l l' -> pushed d l' xs
| pushed_push l x xs : pushed d l xs -> admitted (push_locked d) l -> pushed d (push_work x l) (xs ++ [x])
| pushed_spurious l xs : pushed d l xs -> place l = Waiting -> pushed d (move Testing l) xs.

Lemma pushed_reachable d l xs : pushed d l xs -> reachable d l.
Proof.
  induction 1 as [|l l' xs _ IH Hq|l x xs _ IH Ha|l xs _ IH Hw]; [apply rtc_refl|by eapply quiet_reachable|..]; (eapply rtc_r; [exact IH|]).
  - by apply loop_push.
  - by apply loop_spurious.
Qed.

Lemma pushed_order d l xs : pushed d l xs -> handled l ++ work l = xs.
Proof.
  induction 1 as [|l l' xs _ IH Hq|l x xs _ IH Ha|l xs _ IH Hw]; [done|..|done].
  - destruct Hq as [Ht|Hf].
    + destruct Ht as [| | | | |l x q E H|l x q E H|]; cbn [move handled work] in *; try done; by rewrite H in IH; rewrite <- app_assoc.
    + by destruct Hf.
  - cbn [push_work handled work]. by rewrite app_assoc, IH.
Qed.

(** A quiet run: the thread returns with nothing left. *)
Definition ends_empty (l : Loop) : Prop := place l = Ended -> work l = [] /\ stopFlag l = true.

Lemma quiet_ends_empty d l l' : ends_empty l -> quiet_step d l l' -> ends_empty l'.
Proof.
  intros He [Ht|Hf].
  - destruct Ht as [l E H|l E H|l E|l E H1 H2|l E H1 H2|l x q E H|l x q E H|l E H]; unfold ends_empty in *; cbn [move place work stopFlag]; try done.
    by destruct (drains d).
  - destruct Hf as [l E Ha|l Ho]; unfold ends_empty in *; cbn [notify place work stopFlag]; destruct (place l); naive_solver.
Qed.

Lemma quiet_run d l l' xs :
  pushed d l xs -> ends_empty l -> rtc (quiet_step d) l l' -> pushed d l' xs /\ ends_empty l'.
Proof.
  intros Hp He Hrun. induction Hrun as [l|l l1 l' Hq _ IH]; [done|].
  apply IH; [by eapply pushed_other|by eapply quiet_ends_empty].
Qed.

Lemma quiet_bounded d n : forall l l',
  push_locked d = true -> stop_locked d = true -> reachable d l -> nsteps (quiet_step d) n l l' -> (n <= remaining l)%nat.
Proof.
  induction n as [|n IH]; intros l l' Hp Hs Hr Hrun; [lia|]. inversion Hrun as [|? ? l1 ? Hq Hrest]; subst.
  pose proof (quiet_step_decreases d l l1 (reachable_attentive d l Hp Hs Hr) Hq).
  specialize (IH l1 l' Hp Hs (quiet_reachable _ _ _ Hr Hq) Hrest). lia.
Qed.

Lemma waiting_idle l : attentive l -> place l = Waiting -> owed l = 0%nat -> stopFlag l = false /\ work l = [].
Proof.
  intros Ha Hw Ho. unfold attentive in Ha. rewrite Hw in Ha. destruct (something_to_do l) eqn:Ed; [specialize (Ha eq_refl); lia|].
  unfold something_to_do in Ed. apply orb_false_iff in Ed as [-> Ed]. split; [done|]. by apply negb_false_iff, bool_decide_eq_true in Ed.
Qed.

(** ** Properties *)

(** C23: the download links are all sent, and the thread ends.  Completed uploads are pushed
    and the flag is set with the mutex held.  So, whatever the interleaving, spurious
    wake-ups included: whenever the thread is blocked and no notification is under way,
    every completed upload has been handled, in the order of completion; and when no more
    uploads come, the steps left, of the thread and of [stopAllTransfers], are finitely
    many, and when none is left, all uploads have been handled and the thread has returned,
    so that the join returns. *)
Theorem link_thread_finishes l xs :
  pushed link_loop l xs -> place l <> Ended ->
  (place l = Waiting -> owed l = 0%nat -> handled l = xs) /\
  (forall n l', nsteps (quiet_step link_loop) n l l' -> (n <= remaining l)%nat) /\
  (forall l', rtc (quiet_step link_loop) l l' -> (forall l'', ~ quiet_step link_loop l' l'') ->
     handled l' = xs /\ stopFlag l' = true /\ place l' = Ended).
Proof.
  intros Hp Hne. pose proof (pushed_reachable _ _ _ Hp) as Hr. split_and!.
  - intros Hw Ho. destruct (waiting_idle l (reachable_attentive link_loop _ eq_refl eq_refl Hr) Hw Ho) as [_ E].
    pose proof (pushed_order _ _ _ Hp) as H. by rewrite E, app_nil_r in H.
  - intros n l'. by apply quiet_bounded.
  - intros l' Hrun Hstuck. destruct (quiet_run _ _ _ _ Hp ltac:(done) Hrun) as [Hp' He].
    pose proof (reachable_attentive link_loop _ eq_refl eq_refl (pushed_reachable _ _ _ Hp')) as Ha.
    assert (Ho : owed l' = 0%nat).
    { destruct (owed l') eqn:E; [done|]. destruct (Hstuck (notify l')). right. apply step_notify. lia. }
    destruct (stuck_places link_loop l') as [Hw|Hend]; [intros l'' Ht; by apply (Hstuck l''); left|..].
    + destruct (waiting_idle l' Ha Hw Ho) as [Hs _].
      destruct (Hstuck (mkLoop true (work l') (place l') (S (owed l')) (handled l'))). right. apply step_stop; [done|]. intros _. by rewrite Hw.
    + destruct (He Hend) as [Hw Hs]. split_and!; try done. pose proof (pushed_order _ _ _ Hp') as H. by rewrite Hw, app_nil_r in H.
Qed.

(** Two uploads are completed, the second while the first is handled. *)
Lemma link_thread_finishes_witness :
  exists l, pushed link_loop l [7%nat; 8%nat] /\ place l = Draining /\
    (forall n l', nsteps (quiet_step link_loop) n l l' -> (n <= remaining l)%nat).
Proof.
  set (l := push_work 8 (mkLoop false [] Draining 1 [7%nat])).
  assert (Hp : pushed link_loop l [7%nat; 8%nat]).
  { apply (pushed_push link_loop _ 8 [7%nat]); [|by intros _]. 
    apply (pushed_other _ (mkLoop false [7%nat] Working 1 [])); [|left; by apply (step_take link_loop (mkLoop false [7%nat] Working 1 []) 7 [])].
    apply (pushed_other _ (mkLoop false [7%nat] Testing 1 [])); [|left; by apply (step_go link_loop (mkLoop false [7%nat] Testing 1 []))].
    apply (pushed_push link_loop new_loop 7 []); [apply pushed_new|by intros _]. }
  exists l. split; [exact Hp|]. split; [reflexivity|].
  apply (link_thread_finishes l [7%nat; 8%nat] Hp). discriminate.
Defined.

(** The destructor of [SignUp] can wait for ever.  It sets the flag without the mutex, so
    flag and notification can both fall between the thread's test of the predicate and its
    wait.  Then the flag is set, nothing is queued, no notification is under way, and the
    thread is blocked: no step is left but a spurious wake-up, and the join does not
    return.  The same happens to both threads of the class. *)
Theorem signup_stop_lost d :
  d = otp_loop \/ d = signup_loop ->
  exists l, reachable d l /\ stopFlag l = true /\ work l = [] /\ place l = Waiting /\
    (forall l', ~ quiet_step d l l').
Proof.
  intros Hd. assert (Hs : stop_locked d = false) by (destruct Hd as [-> | ->]; done).
  exists (mkLoop true [] Waiting 0 []). split_and!; try done.
  - unfold reachable, new_loop. eapply rtc_l; [apply loop_thread; by apply step_decide|]. cbn.
    eapply rtc_l; [apply loop_finish, (step_stop d (mkLoop false [] Deciding 0 [])); [done|unfold admitted; by rewrite Hs]|]. cbn.
    eapply rtc_l; [apply loop_finish, (step_notify d (mkLoop true [] Deciding 1 [])); cbn; lia|]. cbn.
    eapply rtc_l; [apply loop_thread; by apply step_block|]. apply rtc_refl.
  - intros l' [Ht|Hf]; [inversion Ht; subst; done|]. inversion Hf; subst; [done|]. cbn in *. lia.
Qed.

Lemma signup_stop_lost_witness :
  (exists l, reachable otp_loop l /\ stopFlag l = true /\ place l = Waiting) /\ (exists l, reachable signup_loop l /\ stopFlag l = true /\ place l = Waiting).
Proof.
  split.
  - destruct (signup_stop_lost otp_loop (or_introl eq_refl)) as (l & H1 & H2 & _ & H3 & _). exists l. split; [exact H1|]. split; [exact H2|exact H3].
  - destruct (signup_stop_lost signup_loop (or_intror eq_refl)) as (l & H1 & H2 & _ & H3 & _). exists l. split; [exact H1|]. split; [exact H2|exact H3].
Defined.

(** A request for a one-time password can be left lying: it is pushed without the mutex, in
    the same gap, and is not handled until another request comes. *)
Theorem otp_request_lost x :
  exists l, pushed otp_loop l [x] /\ handled l = [] /\ work l = [x] /\ place l = Waiting /\ owed l = 0%nat /\ stopFlag l = false /\
    (forall l', ~ thread_step otp_loop l l').
Proof.
  exists (mkLoop false [x] Waiting 0 []). split_and!; try done; [|by intros l' Ht; inversion Ht; subst].
  eapply (pushed_other _ (mkLoop false [x] Deciding 0 [])); [|left; by apply (step_block otp_loop (mkLoop false [x] Deciding 0 []))].
  eapply (pushed_other _ (mkLoop false [x] Deciding 1 [])); [|right; apply (step_notify otp_loop (mkLoop false [x] Deciding 1 [])); cbn; lia].
  apply (pushed_push otp_loop (mkLoop false [] Deciding 0 []) x []); [|by intros [=]].
  eapply (pushed_other _ new_loop); [apply pushed_new|left; by apply (step_decide otp_loop new_loop)].
Qed.

(** ** Definitions: the wait for an acknowledgement *)

(** The sender of a round asks for an acknowledgement, resets the flag and waits for it; the
    handler of the acknowledgement, in another thread, stores the missing chunks and sets
    the flag.  Reset, test and wait happen under the mutex, and so does the handler. *)
Inductive Phase := Asking | Asked | AwaitingAck | Over (result : option (list Z)).

Record Handshake := mkHand {
  phase : Phase;
  flight : list (list Z);        (* acknowledgements under way *)
  ackFlag : bool;
  missing : list Z
}.

Inductive hand_step : Handshake -> Handshake -> Prop :=
| hand_ask h answer : phase h = Asking -> hand_step h (mkHand Asked (flight h ++ [answer]) (ackFlag h) (missing h))
| hand_deliver h m ms : flight h = m :: ms -> hand_step h (mkHand (phase h) ms true m)
| hand_reset h : phase h = Asked -> hand_step h (mkHand AwaitingAck (flight h) false (missing h))
| hand_wake h :
    phase h = AwaitingAck -> ackFlag h = true -> hand_step h (mkHand (Over (Some (missing h))) (flight h) (ackFlag h) (missing h))
| hand_timeout h :
    phase h = AwaitingAck -> ackFlag h = false -> hand_step h (mkHand (Over None) (flight h) (ackFlag h) (missing h)).

(** ** Lemmas *)

(** What a wait can still end with. *)
Definition hopeless (h : Handshake) : Prop :=
  flight h = [] /\ (phase h = AwaitingAck /\ ackFlag h = false \/ phase h = Over None).

Lemma hopeless_step h h' : hopeless h -> hand_step h h' -> hopeless h'.
Proof.
  intros [Hf Hp] Hs. unfold hopeless in *. destruct Hs as [h a E|h m ms E|h E|h E1 E2|h E1 E2]; cbn [phase flight ackFlag]; destruct Hp as [[H1 H2]|H1]; try congruence.
  split; [done|by right].
Qed.

Lemma hopeless_run h h' : hopeless h -> rtc hand_step h h' -> hopeless h'.
Proof. intros Hh Hr. induction Hr as [|h h1 h' Hs _ IH]; [done|]. by apply IH, (hopeless_step h). Qed.

Section Lost.
Context {C : Checksum}.

(** The worker up to the round whose acknowledgement does not come. *)
Lemma upload_rounds_lost F up fuel : forall n r b rest,
  len F <= 5 * 1024 * 1024 -> (n < fuel)%nat -> ((n + r) * rc < chunk_count F)%nat -> b = (r * rc * cs)%nat ->
  exists ms, upload_rounds fuel up F (len F) (Z.of_nat b) (Z.of_nat r) (replicate n (Some []) ++ None :: rest) = Ok (Some (ms, false)) /\
    (forall u crc, FileEnd u crc ∉ ms) /\ RoundEnd up (Z.of_nat (n + r)) (Z.of_nat (round_count F (n + r))) ∈ ms.
Proof.
  assert (Hnot : forall blocks u crc x, FileEnd u crc ∉ chunk_messages up blocks ++ [RoundEnd up x (len blocks)]).
  { intros blocks u crc x [(? & ? & _)%list_elem_of_fmap|Hx%list_elem_of_singleton]%elem_of_app; done. }
  induction fuel as [|fuel IH]; intros n r b rest HF Hn Hc ->; [lia|]. cbn [upload_rounds]. pose proof cs_Z. pose proof rc_Z.
  assert (Hr : (r * rc < chunk_count F)%nat) by nia. pose proof (chunk_count_spec F (r * rc)) as Hcc.
  rewrite (proj2 (Z.ltb_lt _ _)) by (unfold len; lia). rewrite rc_eq.
  destruct (round_blocks F r Hr) as (blocks & b' & -> & Hb' & Hlen & Hne & _). cbn [obind]. rewrite bool_decide_eq_false_2 by done.
  destruct n as [|n]; cbn [replicate app round_loop].
  - eexists. split; [done|]. split; [intros u crc; apply Hnot|]. apply elem_of_app. right. apply list_elem_of_singleton.
    unfold len. by rewrite Hlen.
  - rewrite bool_decide_eq_true_2 by done.
    assert (Hw : wrap 32 (Z.of_nat r + 1) = Z.of_nat (S r)) by (unfold len in HF; rewrite wrap_small by nia; lia). rewrite Hw.
    pose proof (chunk_count_spec F (S r * rc)) as Hcs. destruct Hb' as [->|?]; [|nia].
    destruct (IH n (S r) _ rest HF ltac:(lia) ltac:(nia) eq_refl) as (ms & -> & Hms & Hin). cbn [obind]. eexists. split; [done|]. split.
    + intros u crc [Hx|Hx]%elem_of_app; [by eapply Hnot|by eapply Hms].
    + apply elem_of_app. right. by replace (S n + r)%nat with (n + S r)%nat by lia.
Qed.

(** An acknowledgement can be lost on arrival.  The worker asks for it first and resets
    the flag afterwards.  When the answer, which names the chunks that are missing, is
    handled after the reset, the wait ends with it; when it is handled before, the reset
    erases it: nothing is under way any more, and the wait can end with the time-out only.
    Then the upload is given up after the round, although the server has all of it: no
    FILE_END is sent, and nothing after this round. *)
Theorem acknowledgement_lost s F n answer old :
  us_bytesWritten s = true -> us_totalSize s = len F -> us_startBytes s = 0 -> len F <= 5 * 1024 * 1024 -> (n * rc < chunk_count F)%nat ->
  let up := hexToBytes (us_uploadId s) in
  let start := mkHand Asking [] false old in
  (exists h, rtc hand_step start h /\ phase h = Over (Some answer)) /\
  (exists h, rtc hand_step start h /\ missing h = answer /\ phase h = AwaitingAck /\
     forall h' r, rtc hand_step h h' -> phase h' = Over r -> r = None) /\
  exists ms, uploadWorker s (Some F) (replicate n (Some []) ++ [None]) = Ok (Some ms) /\
    RoundEnd up (Z.of_nat n) (Z.of_nat (round_count F n)) ∈ ms /\ (forall u crc, FileEnd u crc ∉ ms).
Proof.
  intros Hw Ht Hs HF Hc up start. split_and!.
  - exists (mkHand (Over (Some answer)) [] true answer). split; [|done]. unfold start.
    eapply rtc_l; [by apply (hand_ask _ answer)|]. eapply rtc_l; [by apply hand_reset|]. cbn.
    eapply rtc_l; [by apply (hand_deliver _ answer [])|]. eapply rtc_l; [by apply hand_wake|]. apply rtc_refl.
  - exists (mkHand AwaitingAck [] false answer). split_and!; [|done|done|].
    + unfold start. eapply rtc_l; [by apply (hand_ask _ answer)|]. eapply rtc_l; [by apply (hand_deliver _ answer [])|]. cbn.
      eapply rtc_l; [by apply hand_reset|]. apply rtc_refl.
    + intros h' r Hr Hp. destruct (hopeless_run (mkHand AwaitingAck [] false answer) h' (conj eq_refl (or_introl (conj eq_refl eq_refl))) Hr) as [_ [[H _]|H]]; congruence.
  - unfold uploadWorker. rewrite Hw, Ht, Hs. cbn [negb]. rewrite length_app, length_replicate. cbn [length].
    destruct (upload_rounds_lost F up (S (n + 1)) n 0 0 [] HF ltac:(lia) ltac:(by rewrite Nat.add_0_r) eq_refl) as (ms & Hrun & Hno & Hin).
    rewrite Nat.add_0_r in Hin. change (wrap 32 (0 / (MAX_CHUNK_SIZE * MAX_CHUNKS_PER_ROUND))) with (Z.of_nat 0). change 0 with (Z.of_nat 0) at 1.
    unfold up in Hrun. rewrite Hrun. cbn [obind]. exists ms. by split_and!.
Qed.
End Lost.

(** A file of one chunk. *)
Lemma acknowledgement_lost_witness :
  exists ms, uploadWorker (mkUpload (str "00ff") (str "a.txt") (str "bob") 2 0 0 true 0 false []) (Some (str "hi")) [None] = Ok (Some ms) /\
    forall u crc, FileEnd u crc ∉ ms.
Proof.
  destruct (acknowledgement_lost (mkUpload (str "00ff") (str "a.txt") (str "bob") 2 0 0 true 0 false []) (str "hi") 0 [] [])
    as (_ & _ & ms & H1 & _ & H2).
  - reflexivity.
  - reflexivity.
  - reflexivity.
  - vm_compute. congruence.
  - apply chunk_count_spec. vm_compute. lia.
  - exists ms. split; [exact H1|exact H2].
Defined.
