(* ===== verification/Menu.v ===== *)
(** The program of the client: client/main.cpp, with [connectToServer] and [disconnect] of
    client/Client.cpp.

    The loop of [main] reads lines from the standard input and turns each into a call of a
    method of [Client]; the thread of [receiveLoop] handles packets at the same time and
    marks the connection as lost when [recv] fails.  The order of these events is an
    argument, and so is what the system does: whether a call succeeds, how much a call of
    [send] takes, the clock and the random bytes. *)

From S2P Require Import Prelude Crc32c Packet Serialize CircularBuffer Fqueue PacketPool Framing Session Offline Network AuthStore Auth Delivery FileTransfer Rounds Upload Download Client ClientFiles.

(** ** Definitions: lines and words *)

Definition newline : byte := Byte.x0a.
Definition blank : byte := Byte.x20.

(** [isspace] in the classic locale. *)
Definition isspace (b : byte) : bool :=
  let z := byte.unsigned b in (z =? 32) || (9 <=? z) && (z <=? 13).

(** [std::getline]: the characters up to the next newline, and what is left behind it;
    without any character to read it fails. *)
Fixpoint until_newline (s : bstr) : bstr * bstr :=
  match s with
  | [] => ([], [])
  | b :: s => if decide (b = newline) then ([], s) else
              let (line, rest) := until_newline s in (b :: line, rest)
  end.

Definition getline (s : bstr) : option (bstr * bstr) :=
  match s with [] => None | _ => Some (until_newline s) end.

Fixpoint skip_spaces (s : bstr) : bstr :=
  match s with
  | [] => []
  | b :: s' => if isspace b then skip_spaces s' else s
  end.

Fixpoint take_word (s : bstr) : bstr * bstr :=
  match s with
  | [] => ([], [])
  | b :: s' => if isspace b then ([], s) else
               let (w, rest) := take_word s' in (b :: w, rest)
  end.

(** [ss >> word]: the empty word when the extraction fails; the stream is then at its end,
    so that what is read after it is empty as well. *)
Definition next_word (ss : bstr) : bstr * bstr := take_word (skip_spaces ss).

(** [std::getline(ss, msg)] on the rest of the line. *)
Definition rest_of_line (ss : bstr) : bstr := from_option fst [] (getline ss).

(** [if (msg[0] == ' ') msg.erase(0, 1)]. *)
Definition drop_blank (msg : bstr) : bstr :=
  match msg with
  | b :: msg' => if decide (b = blank) then msg' else msg
  | [] => []
  end.

(** ** Definitions: commands *)

(** What the loop does with a line: one constructor for each call of a method of [Client],
    and the lines that call none. *)
Inductive Command :=
| CmdQuit
| CmdHelp
| CmdSignup (email : bstr)
| CmdVerify (email otp : bstr)
| CmdRegister (email number user password : bstr)
| CmdLogin (identifier password : bstr)
| CmdConnect
| CmdMsg (receiver msg : bstr)
| CmdGmsg (groupId msg : bstr)
| CmdCreate (g : bstr)
| CmdJoin (g : bstr)
| CmdLeave (g : bstr)
| CmdSendfile (receiver filepath : bstr)
| CmdDownload (uploadId : bstr)
| CmdUsage (text : bstr)
| CmdNothing
| CmdUnknown.

(** A command with one word and the rest of the line. *)
Definition word_and_text (k : bstr -> bstr -> Command) (ss : bstr) : Command :=
  let (w, ss) := next_word ss in
  let msg := rest_of_line ss in
  if negb (bool_decide (w = [])) && negb (bool_decide (msg = [])) then k w (drop_blank msg) else CmdNothing.

Definition one_word (k : bstr -> Command) (otherwise : Command) (ss : bstr) : Command :=
  let (w, _) := next_word ss in
  if negb (bool_decide (w = [])) then k w else otherwise.

Definition two_words (k : bstr -> bstr -> Command) (otherwise : Command) (ss : bstr) : Command :=
  let (w, ss) := next_word ss in
  let (w', ss) := next_word ss in
  if negb (bool_decide (w = [])) && negb (bool_decide (w' = [])) then k w w' else otherwise.

(** The branches on [cmd], with the rest of the line in [ss]. *)
Definition command_of (cmd ss : bstr) : Command :=
  if decide (cmd = str "/quit") then CmdQuit
  else if decide (cmd = str "/help") then CmdHelp
  else if decide (cmd = str "/signup") then one_word CmdSignup (CmdUsage (str "Usage: /signup <email>")) ss
  else if decide (cmd = str "/verify") then two_words CmdVerify (CmdUsage (str "Usage: /verify <email> <otp>")) ss
  else if decide (cmd = str "/register") then
    let (email, ss) := next_word ss in
    let (number, ss) := next_word ss in
    let (user, ss) := next_word ss in
    let (password, ss) := next_word ss in
    if negb (bool_decide (email = [])) && negb (bool_decide (number = [])) && negb (bool_decide (user = [])) && negb (bool_decide (password = []))
    then CmdRegister email number user password
    else CmdUsage (str "Usage: /register <email> <number> <username> <password>")
  else if decide (cmd = str "/login") then two_words CmdLogin (CmdUsage (str "Usage: /login <identifier> <password>")) ss
  else if decide (cmd = str "/connect") then CmdConnect
  else if decide (cmd = str "/msg") then word_and_text CmdMsg ss
  else if decide (cmd = str "/gmsg") then word_and_text CmdGmsg ss
  else if decide (cmd = str "/create") then one_word CmdCreate CmdNothing ss
  else if decide (cmd = str "/join") then one_word CmdJoin CmdNothing ss
  else if decide (cmd = str "/leave") then one_word CmdLeave CmdNothing ss
  else if decide (cmd = str "/sendfile") then word_and_text CmdSendfile ss
  else if decide (cmd = str "/download") then one_word CmdDownload CmdNothing ss
  else CmdUnknown.

Definition parse_command (line : bstr) : Command :=
  if decide (line = []) then CmdNothing else
  let (cmd, ss) := next_word line in command_of cmd ss.

(** The lines of [printHelp]. *)
Definition help_lines : list bstr := str <$> [
  ""; "Commands:";
  "  /signup <email>                  (Step 1: Request OTP)";
  "  /verify <email> <otp>            (Step 2: Verify OTP)";
  "  /register <email> <number> <username> <password> (Step 3: Complete Signup)";
  "  /login <email_or_username> <password>";
  "/connect";
  "  /msg <receiver> <message>";
  "  /gmsg <groupId> <message>";
  "  /create <groupId>";
  "  /join <groupId>";
  "  /leave <groupId>";
  "  /sendfile <receiver> <filepath>";
  "  /download <uploadId>";
  "  /quit";
  "  /help" ]%string.

(** ** Definitions: the program *)

(** The calls of the system that open and close something. *)
Inductive system_call :=
| Startup | OpenSocket (s : Z) | ConnectSocket (s : Z) | StartReceiver | CloseSocket (s : Z) | JoinReceiver | Cleanup.

(** The state of the program: that of the client, its members [isConnected],
    [clientSocket] and [recvThread] (whether it can be joined), the bytes sent, what
    [main] itself prints, and the calls so far. *)
Record App := mkApp {
  client : ClientState;
  isConnected : bool;
  clientSocket : option Z;
  recvThread : bool;
  sent : bstr;
  console : list bstr;
  calls : list system_call
}.

Definition new_app (files disk : gmap bstr bstr) : App :=
  mkApp (mkState (new_client files) (mkTransfers ∅ ∅ disk) 0 [] []) false None false [] [] [].

Definition set_client v a := mkApp v (isConnected a) (clientSocket a) (recvThread a) (sent a) (console a) (calls a).
Definition set_connected v a := mkApp (client a) v (clientSocket a) (recvThread a) (sent a) (console a) (calls a).
Definition set_clientSocket v a := mkApp (client a) (isConnected a) v (recvThread a) (sent a) (console a) (calls a).
Definition set_recvThread v a := mkApp (client a) (isConnected a) (clientSocket a) v (sent a) (console a) (calls a).
Definition emit (bytes : bstr) a := mkApp (client a) (isConnected a) (clientSocket a) (recvThread a) (sent a ++ bytes) (console a) (calls a).
Definition say (lines : list bstr) a := mkApp (client a) (isConnected a) (clientSocket a) (recvThread a) (sent a) (console a ++ lines) (calls a).
Definition system (c : system_call) a := mkApp (client a) (isConnected a) (clientSocket a) (recvThread a) (sent a) (console a) (calls a ++ [c]).

(** [made] is the handle that [socket] returns, if any, and [accepted] whether [connect]
    succeeds. *)
Definition connectToServer (made : option Z) (accepted : bool) (a : App) : bool * App :=
  match made with
  | None => (false, set_clientSocket None a)
  | Some s =>
      let a := system (OpenSocket s) (set_clientSocket (Some s) a) in
      if negb accepted then (false, set_clientSocket None (system (CloseSocket s) a)) else
      let a := system (ConnectSocket s) a in
      (true, system StartReceiver (set_recvThread true (set_connected true a)))
  end.

(** The uploads are waited for and forgotten, the socket is closed and the receiving thread
    joined. *)
Definition disconnect (a : App) : App :=
  let a := set_connected false a in
  let a := set_client (set_transfers (set_uploads ∅ (transfers (client a))) (client a)) a in
  let a := match clientSocket a with
           | Some s => set_clientSocket None (system (CloseSocket s) a)
           | None => a
           end in
  if recvThread a then set_recvThread false (system JoinReceiver a) else a.

(** What the system does in one turn of the loop. *)
Record Tick := mkTick { now : Z; grants : list Z; grants' : list Z; random : bstr }.

Section Program.
Context {C : Checksum} (object_bytes : bstr -> bstr) (raw : Packet).

(** The packets of [ms] are sent one after the other; [gs] are the grants of each. *)
Fixpoint send_messages (connected : bool) (gs : list (list Z)) (ms : list message) : outcome bstr :=
  match ms with
  | [] => Ok []
  | m :: ms =>
      let! (_, bytes) := request raw connected (default [] (head gs)) m in
      let! bytes' := send_messages connected (tail gs) ms in
      Ok (bytes ++ bytes')
  end.

(** The result of the call of a method that sends; [main] does not look at it. *)
Definition send_from (r : outcome (bool * bstr)) (a : App) : outcome App :=
  let! (_, bytes) := r in Ok (emit bytes a).

(** The call made for a command; the loop ends at [CmdQuit]. *)
Definition execute (t : Tick) (c : Command) (a : App) : outcome App :=
  let b := isConnected a in
  let g := grants t in
  let u := user (client a) in
  match c with
  | CmdQuit | CmdNothing => Ok a
  | CmdHelp => Ok (say help_lines a)
  | CmdSignup email =>
      let! a := send_from (requestOtp raw b g email) a in
      Ok (say [str "OTP requested for " ++ email ++ str "."] a)
  | CmdVerify email otp => send_from (verifyOtp raw b g email otp) a
  | CmdRegister email number user password => send_from (signup raw b g email number user password) a
  | CmdLogin identifier password => send_from (login raw b g identifier password) a
  | CmdConnect => send_from (reconnectWithToken raw (now t) b g (grants' t) u) a
  | CmdMsg receiver msg => send_from (sendPrivateMessage raw b g (now t) receiver msg u) a
  | CmdGmsg groupId msg => send_from (sendGroupMessage raw b g (now t) groupId msg u) a
  | CmdCreate groupId => send_from (createGroup raw b g (now t) groupId u) a
  | CmdJoin groupId => send_from (joinGroup raw b g (now t) groupId u) a
  | CmdLeave groupId => send_from (leaveGroup raw b g (now t) groupId u) a
  | CmdSendfile receiver filepath =>
      let '(_, ts, ms) := sendFile b (random t) receiver filepath (transfers (client a)) in
      let! bytes := send_messages b [g] ms in
      Ok (emit bytes (set_client (set_transfers ts (client a)) a))
  | CmdDownload uploadId => send_from (downloadFile raw b g uploadId u) a
  | CmdUsage text => Ok (say [text] a)
  | CmdUnknown => Ok (say [str "Unknown command. Type /help for help."] a)
  end.

(** What happens next: the loop of [main] takes a line, the receiving thread handles a
    packet, the thread of an upload sends one, or [recv] fails. *)
Inductive event :=
| Typed (t : Tick)
| Incoming (h : Host) (gs : list (list Z)) (p : Packet)
| Uploading (g : list Z) (m : message)
| Lost.

(** The loop of [main] on the standard input, together with the other threads; the
    result says whether the loop has ended.  A thread that has seen its connection end
    handles no more packets. *)
Fixpoint run (es : list event) (input : bstr) (a : App) : outcome (App * bool) :=
  match es with
  | [] => Ok (a, false)
  | Typed t :: es =>
      match getline input with
      | None => Ok (a, true)
      | Some (line, input) =>
          match parse_command line with
          | CmdQuit => Ok (a, true)
          | c => let! a := execute t c a in run es input a
          end
      end
  | Incoming h gs p :: es =>
      if negb (isConnected a) then run es input a else
      let! (s, ms) := handleIncomingPacket object_bytes h p (client a) in
      let! bytes := send_messages (isConnected a) gs ms in
      run es input (emit bytes (set_client s a))
  | Uploading g m :: es => let! a := send_from (request raw (isConnected a) g m) a in run es input a
  | Lost :: es => run es input (set_connected false a)
  end.

(** [main], with the value it returns when it has ended.  The destructor of [client]
    disconnects once more, after [WSACleanup]. *)
Definition main (wsa : bool) (made : option Z) (accepted : bool) (t : Tick) (es : list event) (input : bstr) (a : App) : outcome (option Z * App) :=
  if negb wsa then Ok (Some 1, a) else
  let a := system Startup a in
  let (ok, a) := connectToServer made accepted a in
  if negb ok then Ok (Some 1, disconnect (system Cleanup a)) else
  let! (ok, u) := tokenBuildOnStartUp (user (client a)) in
  let a := set_client (set_user u (client a)) a in
  let! (ok, bytes) := if ok : bool then reconnectWithToken raw (now t) (isConnected a) (grants t) (grants' t) u else Ok (false, []) in
  let a := say [if ok : bool then str "Connected! send messages " else str " login again!"] (emit bytes a) in
  let! (a, ended) := run es input (say help_lines a) in
  Ok (if ended : bool then (Some 0, disconnect (system Cleanup (disconnect a))) else (None, a)).
End Program.

(** ** Lemmas: reading a line *)

Definition is_word (w : bstr) : Prop := w <> [] /\ Forall (fun b => isspace b = false) w.
Definition one_line (t : bstr) : Prop := newline ∉ t.

(** What may follow a word. *)
Definition word_end (rest : bstr) : Prop := match rest with [] => True | b :: _ => isspace b = true end.

Lemma take_word_app w rest : Forall (fun b => isspace b = false) w -> word_end rest -> take_word (w ++ rest) = (w, rest).
Proof.
  intros Hw Hr. induction Hw as [|b w Hb _ IH]; cbn [app take_word].
  - destruct rest as [|b rest]; [done|]. cbn [take_word]. by rewrite Hr.
  - by rewrite Hb, IH.
Qed.

Lemma next_word_app w rest : is_word w -> word_end rest -> next_word (w ++ rest) = (w, rest).
Proof.
  intros [Hne Hw] Hr. unfold next_word. rewrite <- (take_word_app w rest) by done. f_equal.
  destruct w as [|b w]; [done|]. apply Forall_cons_1 in Hw as [Hb _]. cbn [app skip_spaces]. by rewrite Hb.
Qed.

Lemma next_word_blank s : next_word (blank :: s) = next_word s.
Proof. done. Qed.

Lemma next_word_last w : is_word w -> next_word w = (w, []).
Proof. intros Hw. rewrite <- (app_nil_r w) at 1. by apply next_word_app. Qed.

(** A word read is a word or empty, and what follows it comes from the same line. *)
Lemma take_word_spec s w rest : take_word s = (w, rest) -> Forall (fun b => isspace b = false) w /\ s = w ++ rest.
Proof.
  revert w rest. induction s as [|b s IH]; intros w rest; cbn [take_word]; [by intros [= <- <-]|].
  destruct (isspace b) eqn:Hb; [by intros [= <- <-]|]. destruct (take_word s) as [w' r'].
  intros [= <- <-]. destruct (IH w' r' eq_refl) as [Hw ->]. by split; [constructor|].
Qed.

Lemma next_word_spec ss w rest : next_word ss = (w, rest) -> w <> [] -> is_word w.
Proof. intros H Hne. by apply take_word_spec in H as [Hw _]. Qed.

Lemma until_newline_app t rest : one_line t -> until_newline (t ++ newline :: rest) = (t, rest).
Proof.
  unfold one_line. induction t as [|b t IH]; cbn [app until_newline]; intros Ht.
  - by rewrite decide_True.
  - apply not_elem_of_cons in Ht as [Hb Ht]. by rewrite decide_False, IH by congruence.
Qed.

Lemma until_newline_all t : one_line t -> until_newline t = (t, []).
Proof.
  unfold one_line. induction t as [|b t IH]; cbn [until_newline]; intros Ht; [done|].
  apply not_elem_of_cons in Ht as [Hb Ht]. by rewrite decide_False, IH by congruence.
Qed.

Lemma until_newline_line s : one_line (until_newline s).1.
Proof.
  unfold one_line. induction s as [|b s IH]; cbn [until_newline]; [apply not_elem_of_nil|].
  case_decide; [apply not_elem_of_nil|]. destruct (until_newline s) as [l r]. cbn [fst] in *. by apply not_elem_of_cons.
Qed.

Lemma rest_of_line_blank t : one_line t -> rest_of_line (blank :: t) = blank :: t.
Proof.
  intros Ht. unfold rest_of_line, getline. cbn [from_option]. rewrite until_newline_all; [done|].
  unfold one_line in *. apply not_elem_of_cons. by split; [vm_compute|].
Qed.

Lemma rest_of_line_line s : one_line (drop_blank (rest_of_line s)).
Proof.
  assert (H : one_line (rest_of_line s)).
  { unfold rest_of_line, getline. destruct s as [|b s]; [apply not_elem_of_nil|apply until_newline_line]. }
  unfold one_line in *. destruct (rest_of_line s) as [|b l]; cbn [drop_blank]; [done|].
  case_decide; [|done]. apply not_elem_of_cons in H. tauto.
Qed.

(** ** Lemmas: commands *)

(** The line a user types for a command. *)
Definition typed (c : Command) : bstr :=
  match c with
  | CmdQuit => str "/quit"
  | CmdHelp => str "/help"
  | CmdSignup e => str "/signup" ++ blank :: e
  | CmdVerify e o => str "/verify" ++ blank :: e ++ blank :: o
  | CmdRegister e n u p => str "/register" ++ blank :: e ++ blank :: n ++ blank :: u ++ blank :: p
  | CmdLogin i p => str "/login" ++ blank :: i ++ blank :: p
  | CmdConnect => str "/connect"
  | CmdMsg r t => str "/msg" ++ blank :: r ++ blank :: t
  | CmdGmsg g t => str "/gmsg" ++ blank :: g ++ blank :: t
  | CmdCreate g => str "/create" ++ blank :: g
  | CmdJoin g => str "/join" ++ blank :: g
  | CmdLeave g => str "/leave" ++ blank :: g
  | CmdSendfile r f => str "/sendfile" ++ blank :: r ++ blank :: f
  | CmdDownload u => str "/download" ++ blank :: u
  | CmdUsage _ | CmdNothing | CmdUnknown => []
  end.

(** The arguments are words, a text is a line. *)
Definition well_typed (c : Command) : Prop :=
  match c with
  | CmdQuit | CmdHelp | CmdConnect => True
  | CmdSignup w | CmdCreate w | CmdJoin w | CmdLeave w | CmdDownload w => is_word w
  | CmdVerify w w' | CmdLogin w w' => is_word w /\ is_word w'
  | CmdRegister e n u p => is_word e /\ is_word n /\ is_word u /\ is_word p
  | CmdMsg w t | CmdGmsg w t | CmdSendfile w t => is_word w /\ one_line t
  | CmdUsage _ | CmdNothing | CmdUnknown => False
  end.

(** The lines for which the loop calls no method of [Client]. *)
Definition no_call (c : Command) : Prop :=
  match c with CmdUsage _ | CmdNothing | CmdUnknown => True | _ => False end.

Lemma word_ne w : is_word w -> bool_decide (w = []) = false.
Proof. intros [Hw _]. by apply bool_decide_eq_false. Qed.

(** A line that starts with the name of a command. *)
Lemma parse_name (name : string) rest :
  is_word (str name) -> word_end rest ->
  parse_command (str name ++ rest) = command_of (str name) rest.
Proof.
  intros Hw Hr. unfold parse_command. rewrite decide_False by (intros E; apply app_nil in E; apply Hw; tauto).
  by rewrite next_word_app.
Qed.

Lemma one_word_read k otherwise w : is_word w -> one_word k otherwise (blank :: w) = k w.
Proof. intros Hw. unfold one_word. by rewrite next_word_blank, next_word_last, word_ne. Qed.

Lemma two_words_read k otherwise w w' : is_word w -> is_word w' -> two_words k otherwise (blank :: w ++ blank :: w') = k w w'.
Proof.
  intros Hw Hw'. unfold two_words. rewrite next_word_blank, next_word_app by done.
  by rewrite next_word_blank, next_word_last, !word_ne.
Qed.

Lemma word_and_text_read k w t : is_word w -> one_line t -> word_and_text k (blank :: w ++ blank :: t) = k w t.
Proof.
  intros Hw Ht. unfold word_and_text. rewrite next_word_blank, next_word_app by done.
  rewrite rest_of_line_blank, word_ne by done. done.
Qed.

Ltac read_name := lazymatch goal with |- context [str ?n ++ ?r] => rewrite (parse_name n r); [|split; [vm_compute; discriminate|repeat constructor]|done] end.

Lemma parse_typed c : well_typed c -> parse_command (typed c) = c.
Proof.
  destruct c; cbn [well_typed typed]; intros Hc; try done; destruct_and?; read_name.
  - by apply (one_word_read CmdSignup).
  - by apply (two_words_read CmdVerify).
  - change (command_of (str "/register")) with
      (fun ss => let (email, ss) := next_word ss in let (number, ss) := next_word ss in let (user, ss) := next_word ss in
       let (password, ss) := next_word ss in
       if negb (bool_decide (email = [])) && negb (bool_decide (number = [])) && negb (bool_decide (user = [])) && negb (bool_decide (password = []))
       then CmdRegister email number user password
       else CmdUsage (str "Usage: /register <email> <number> <username> <password>")). cbv beta.
    do 3 rewrite next_word_blank, next_word_app by done. rewrite next_word_blank, next_word_last by done. by rewrite !word_ne.
  - by apply (two_words_read CmdLogin).
  - by apply (word_and_text_read CmdMsg).
  - by apply (word_and_text_read CmdGmsg).
  - by apply (one_word_read CmdCreate).
  - by apply (one_word_read CmdJoin).
  - by apply (one_word_read CmdLeave).
  - by apply (word_and_text_read CmdSendfile).
  - by apply (one_word_read CmdDownload).
Qed.

(** What a line is understood as is a well-formed command, or it calls nothing. *)
Definition understood (c : Command) : Prop := well_typed c \/ no_call c.

Lemma one_word_understood k otherwise ss :
  (forall w, is_word w -> well_typed (k w)) -> no_call otherwise -> understood (one_word k otherwise ss).
Proof.
  intros Hk Ho. unfold one_word. destruct (next_word ss) as [w r] eqn:Hw. case_bool_decide; [by right|left].
  eapply Hk, next_word_spec; eauto.
Qed.

Lemma two_words_understood k otherwise ss :
  (forall w w', is_word w -> is_word w' -> well_typed (k w w')) -> no_call otherwise -> understood (two_words k otherwise ss).
Proof.
  intros Hk Ho. unfold two_words. destruct (next_word ss) as [w r] eqn:Hw. destruct (next_word r) as [w' r'] eqn:Hw'.
  case_bool_decide; [by right|]. case_bool_decide; [by right|]. left. apply Hk; eapply next_word_spec; eauto.
Qed.

Lemma word_and_text_understood k ss :
  (forall w t, is_word w -> one_line t -> well_typed (k w t)) -> understood (word_and_text k ss).
Proof.
  intros Hk. unfold word_and_text. destruct (next_word ss) as [w r] eqn:Hw.
  case_bool_decide; [by right|]. case_bool_decide; [by right|]. left.
  apply Hk; [eapply next_word_spec; eauto|apply rest_of_line_line].
Qed.

Lemma command_understood cmd ss : understood (command_of cmd ss).
Proof.
  unfold command_of. repeat (case_decide as Hc; [clear Hc|clear Hc]);
    try (apply one_word_understood || apply two_words_understood || apply word_and_text_understood); try done; try (by left); try (by right).
  destruct (next_word ss) as [e r] eqn:He. destruct (next_word r) as [n r'] eqn:Hn.
  destruct (next_word r') as [u r''] eqn:Hu. destruct (next_word r'') as [p r3] eqn:Hp.
  repeat (case_bool_decide; [by right|]). left. split_and!; eapply next_word_spec; eauto.
Qed.

(** Every command of the help text is one the loop knows, and there is no other. *)
Definition command_names : list bstr := (fun l => (next_word l).1) <$> drop 2 help_lines.

Lemma help_complete cmd ss : command_of cmd ss <> CmdUnknown <-> cmd ∈ command_names.
Proof.
  assert (Hn : command_names = str <$>
    ["/signup"; "/verify"; "/register"; "/login"; "/connect"; "/msg"; "/gmsg"; "/create"; "/join"; "/leave"; "/sendfile"; "/download"; "/quit"; "/help"]%string)
    by (vm_compute; reflexivity).
  rewrite Hn. clear Hn. cbn [fmap list_fmap]. unfold command_of. split.
  - intros H. repeat (case_decide as Hc; [subst; set_solver|clear Hc]). done.
  - intros Hin. repeat (case_decide; [clear; unfold one_word, two_words, word_and_text; repeat case_match; done|]).
    repeat (apply elem_of_cons in Hin as [?|Hin]; [done|]). by apply not_elem_of_nil in Hin.
Qed.

(** ** Theorem: the commands *)

(** C29: the language of the menu.  The line typed for a command, its arguments words and
    its text any line, is read back as this command with the same arguments and the same
    text.  Whatever line is typed, with other blanks or with further words too, the loop
    makes of it one such command with proper arguments, or one for which it calls no method
    of the client (it prints how to use the command, or nothing).  The first word is known
    exactly when the help text lists it. *)
Theorem typed_roundtrip c :
  (well_typed c -> parse_command (typed c) = c) /\
  (forall line, well_typed (parse_command line) \/ no_call (parse_command line)) /\
  (forall cmd ss, command_of cmd ss <> CmdUnknown <-> cmd ∈ command_names).
Proof.
  split_and!; [apply parse_typed| |apply help_complete]. intros line. unfold parse_command.
  case_decide; [by right|]. destruct (next_word line) as [cmd ss]. apply command_understood.
Qed.

(** ** Lemmas: sending *)

Section Sending.
Context {C : Checksum} {L : ChecksumLaws C} (raw : Packet) (raw_size : length (data raw) = sizeof_data).

Definition chat_message (t : PacketType) (s : ClientState) (receiver text : bstr) (stamp : Z) : message :=
  Chat t (hexToBytes (userId (user s))) (hexToBytes receiver) [] text stamp.

(** What a command asks of the server. *)
Definition requests (t : Tick) (c : Command) (s : ClientState) : list message :=
  match c with
  | CmdSignup email => [OtpRequest email]
  | CmdVerify email otp => [OtpVerification email otp]
  | CmdRegister email number user password => [Signup email number user password]
  | CmdLogin identifier password => [Login identifier password]
  | CmdConnect =>
      if isAccessTokenValid (now t) (user s) then [Raw PKT_TOKEN (access (user s))]
      else if isRefreshTokenValid (now t) (user s) then [Raw PKT_REFRESH (refresh (user s))] else []
  | CmdMsg r text => [chat_message PKT_PRIVATE_MESSAGE s r text (now t)]
  | CmdGmsg g text => [chat_message PKT_GROUP_MESSAGE s g text (now t)]
  | CmdCreate g => [chat_message PKT_CREATE_GROUP s g [] (now t)]
  | CmdJoin g => [chat_message PKT_JOIN_GROUP s g [] (now t)]
  | CmdLeave g => [chat_message PKT_LEAVE_GROUP s g [] (now t)]
  | CmdSendfile r f =>
      match cdisk (transfers s) !! f with
      | Some content => [FileStart (hexToBytes r) (hexToBytes (bytesToHex (random t))) (path_filename f) (len content) (computeFileCRC (Some content))]
      | None => []
      end
  | CmdDownload u => [DownloadReq (hexToBytes (userId (user s))) (hexToBytes u) 0]
  | CmdQuit | CmdHelp | CmdUsage _ | CmdNothing | CmdUnknown => []
  end.

Lemma requests_uuids t c s : Forall uuids_ok (requests t c s).
Proof.
  destruct c; cbn [requests]; repeat case_match; unfold uuids_ok, UUID_SIZE; cbn [uuids chat_message];
    repeat (constructor; try apply hexToBytes_length).
Qed.

(** A call that the system serves. *)
Definition serves (t : Tick) : Prop := Forall (fun g => 0 < g) (grants t) /\ Forall (fun g => 0 < g) (grants' t).

(** What a command leaves as it was. *)
Record same_client (a a' : App) : Prop := mkSame {
  same_user : user (client a') = user (client a);
  same_disk : cdisk (transfers (client a')) = cdisk (transfers (client a));
  same_connected : isConnected a' = isConnected a
}.

Lemma requests_same t c a a' : same_client a a' -> requests t c (client a') = requests t c (client a).
Proof. intros [Hu Hd _]. destruct c; cbn [requests]; unfold chat_message; by rewrite ?Hu, ?Hd. Qed.

Lemma execute_sends t c a :
  isConnected a = true -> serves t -> Forall fits (requests t c (client a)) ->
  exists a', execute raw t c a = Ok a' /\ sent a' = sent a ++ concat (message_frame <$> requests t c (client a)) /\ same_client a a'.
Proof.
  intros Hc [Hg Hg'] Hf. pose proof (requests_uuids t c (client a)) as Hu.
  assert (Hone : forall m, Forall uuids_ok [m] -> Forall fits [m] -> send_from (request raw true (grants t) m) a = Ok (emit (message_frame m) a)).
  { intros m Hum Hfm. rewrite Forall_singleton in Hum, Hfm. unfold send_from. rewrite (request_sent raw raw_size m (grants t) Hum Hfm Hg). done. }
  destruct c; cbn [requests execute] in *; rewrite ?Hc in *; cbn [fmap list_fmap concat]; rewrite ?app_nil_r.
  all: try (eexists; split; [done|]; split; [done|]; by constructor).
  all: try (eexists; split; [by apply Hone|]; split; [done|]; by constructor).
  - unfold requestOtp. rewrite Hone by done. eexists. split; [done|]. split; [done|]. by constructor.
  - unfold reconnectWithToken. destruct (isAccessTokenValid (now t) (user (client a))).
    + rewrite Forall_singleton in Hu, Hf. rewrite request_sent by done. eexists. split; [done|].
      cbn [fmap list_fmap concat]. rewrite app_nil_r. split; [done|]. by constructor.
    + destruct (isRefreshTokenValid (now t) (user (client a))).
      * rewrite Forall_singleton in Hu, Hf. cbn [obind]. rewrite request_sent by done. eexists. split; [done|].
        cbn [fmap list_fmap concat]. rewrite app_nil_r. split; [done|]. by constructor.
      * eexists. split; [done|]. split; [done|]. by constructor.
  - unfold sendFile. destruct (cdisk (transfers (client a)) !! filepath) as [content|] eqn:Hd.
    + rewrite Forall_singleton in Hu, Hf. cbn [send_messages us_totalSize us_finalCrc head tail default obind]. rewrite request_sent by done.
      eexists. split; [done|]. cbn [fmap list_fmap concat]. rewrite !app_nil_r. split; [done|]. by constructor.
    + eexists. split; [done|]. split; [by cbn; rewrite app_nil_r|]. by constructor.
Qed.
End Sending.

(** ** Lemmas: lines of commands *)

Lemma one_line_app s t : one_line s -> one_line t -> one_line (s ++ t).
Proof. unfold one_line. set_solver. Qed.

Lemma one_line_blank t : one_line t -> one_line (blank :: t).
Proof. intros Ht. apply not_elem_of_cons. by split; [vm_compute|]. Qed.

Lemma one_line_word w : is_word w -> one_line w.
Proof. intros [_ Hw] Hin. by pose proof (proj1 (list.Forall_forall _ _) Hw _ Hin) as E; vm_compute in E. Qed.

Lemma typed_line c : well_typed c -> one_line (typed c).
Proof.
  destruct c; cbn [well_typed typed]; intros Hc; try done; destruct_and?;
    repeat (apply one_line_app || apply one_line_blank); try (by apply one_line_word); try done;
    by apply (bool_decide_unpack (_ ∉ _)); vm_compute.
Qed.

Lemma typed_ne c : well_typed c -> typed c <> [].
Proof. by destruct c. Qed.

(** The input on which commands were typed. *)
Definition lines (cs : list (Tick * Command)) : bstr := concat ((fun x => typed x.2 ++ [newline]) <$> cs).

Lemma getline_typed c rest : well_typed c -> getline (typed c ++ newline :: rest) = Some (typed c, rest).
Proof.
  intros Hc. unfold getline. destruct (typed c ++ newline :: rest) eqn:E; [by destruct (typed c)|].
  rewrite <- E, until_newline_app by by apply typed_line. done.
Qed.

(** ** Lemmas: a lost connection *)

Section Runs.
Context {C : Checksum} (object_bytes : bstr -> bstr) (raw : Packet).

Lemma client_eta s : set_transfers (transfers s) s = s.
Proof. by destruct s. Qed.

Lemma emit_nil a : emit [] a = a.
Proof. destruct a. unfold emit. cbn. by rewrite app_nil_r. Qed.

Lemma execute_offline t c a a' :
  isConnected a = false -> execute raw t c a = Ok a' ->
  sent a' = sent a /\ client a' = client a /\ isConnected a' = false.
Proof.
  intros Hc. assert (Hs : forall m g, send_from (request raw false g m) a = Ok a) by (intros; unfold send_from; cbn; by rewrite emit_nil).
  destruct c; cbn [execute]; rewrite ?Hc;
    unfold requestOtp, verifyOtp, signup, login, sendPrivateMessage, sendGroupMessage, createGroup, joinGroup, leaveGroup, chat_request; rewrite ?Hs.
  all: cbn [obind]; try by intros [= <-].
  - unfold reconnectWithToken. repeat case_match; cbn [obind send_from request sendRawPacket negb app]; rewrite emit_nil; by intros [= <-].
  - cbn [sendFile send_messages obind]. rewrite emit_nil, client_eta. intros [= <-]. by destruct a.
  - unfold downloadFile. cbn [negb send_from obind]. rewrite emit_nil. by intros [= <-].
Qed.

(** The members that only [connectToServer] and [disconnect] change. *)
Definition same_handles (a a' : App) : Prop :=
  calls a' = calls a /\ clientSocket a' = clientSocket a /\ recvThread a' = recvThread a.

Lemma send_from_handles r a a' : send_from r a = Ok a' -> same_handles a a'.
Proof. unfold send_from. destruct r as [[? ?]| |]; cbn [obind]; [intros [= <-]|done|done]. done. Qed.

Lemma execute_handles t c a a' : execute raw t c a = Ok a' -> same_handles a a'.
Proof.
  destruct c; cbn [execute]; try (by intros [= <-]); try apply send_from_handles.
  - destruct (send_from _ a) as [a1| |] eqn:E; [|done|done]. intros [= <-]. by apply send_from_handles in E.
  - destruct (sendFile _ _ _ _ _) as [[? ?] ?]. destruct (send_messages _ _ _ _) as [?| |]; [|done|done]. by intros [= <-].
Qed.

(** Once the connection is lost, nothing is sent and the client stays as it is. *)
Lemma run_offline es : forall input a a' ended,
  isConnected a = false -> run object_bytes raw es input a = Ok (a', ended) ->
  sent a' = sent a /\ client a' = client a /\ isConnected a' = false.
Proof.
  induction es as [|e es IH]; intros input a a' ended Hc; cbn [run]; [by intros [= <- <-]|].
  destruct e as [t|h gs p|g m|].
  - destruct (getline input) as [[line rest]|]; [|by intros [= <- <-]].
    assert (Hgo : forall c, (let! a := execute raw t c a in run object_bytes raw es rest a) = Ok (a', ended) ->
      sent a' = sent a /\ client a' = client a /\ isConnected a' = false).
    { intros c. destruct (execute raw t c a) as [a1| |] eqn:E; [|done|done]. cbn [obind]. intros Hrun.
      apply execute_offline in E as (Hs & Hcl & Hc1); [|done]. apply IH in Hrun as (? & ? & ?); [|done]. split_and!; congruence. }
    destruct (parse_command line); try apply Hgo. by intros [= <- <-].
  - rewrite Hc. cbn [negb]. by apply IH.
  - rewrite Hc. cbn [request sendRawPacket negb send_from obind]. rewrite emit_nil. by apply IH.
  - intros Hrun. by apply IH in Hrun.
Qed.

Lemma run_handles es : forall input a a' ended, run object_bytes raw es input a = Ok (a', ended) -> same_handles a a'.
Proof.
  assert (Htrans : forall a b c, same_handles a b -> same_handles b c -> same_handles a c)
    by (intros ? ? ? (? & ? & ?) (? & ? & ?); split_and!; congruence).
  induction es as [|e es IH]; intros input a a' ended; cbn [run]; [by intros [= <- <-]|].
  destruct e as [t|h gs p|g m|].
  - destruct (getline input) as [[line rest]|]; [|by intros [= <- <-]].
    assert (Hgo : forall c, (let! a := execute raw t c a in run object_bytes raw es rest a) = Ok (a', ended) -> same_handles a a').
    { intros c. destruct (execute raw t c a) as [a1| |] eqn:E; [|done|done]. intros Hrun.
      apply execute_handles in E. apply IH in Hrun. by eapply Htrans. }
    destruct (parse_command line); try apply Hgo. by intros [= <- <-].
  - destruct (negb (isConnected a)); [by apply IH|].
    destruct (handleIncomingPacket _ _ _ _) as [[s ms]| |]; [|done|done]. cbn [obind].
    destruct (send_messages _ _ _ _) as [bytes| |]; [|done|done]. intros Hrun. by apply IH in Hrun.
  - destruct (send_from _ a) as [a1| |] eqn:E; [|done|done]. intros Hrun.
    apply send_from_handles in E. apply IH in Hrun. by eapply Htrans.
  - intros Hrun. by apply IH in Hrun.
Qed.

(** What is opened is closed.  Whatever the user types, whatever packets arrive and
    whichever calls fail, a run of the client that ends has closed its socket exactly once
    and joined its receiving thread, both before the one [WSACleanup] that matches
    [WSAStartup]; the second [disconnect], of the destructor, does nothing more.  As long as
    it runs it holds its socket. *)
Theorem client_run_calls wsa made accepted t es input files disk ret a :
  main object_bytes raw wsa made accepted t es input (new_app files disk) = Ok (ret, a) ->
  calls a =
    match wsa, made, accepted with
    | false, _, _ => []
    | true, None, _ => [Startup; Cleanup]
    | true, Some s, false => [Startup; OpenSocket s; CloseSocket s; Cleanup]
    | true, Some s, true =>
        [Startup; OpenSocket s; ConnectSocket s; StartReceiver] ++
        (if ret then [CloseSocket s; JoinReceiver; Cleanup] else [])
    end /\
  (ret <> None -> isConnected a = false /\ clientSocket a = None /\ recvThread a = false /\ activeUploads (transfers (client a)) = ∅).
Proof.
  unfold main. destruct wsa; cbn [negb]; [|by intros [= <- <-]].
  destruct made as [s|]; cbn [connectToServer negb]; [|by intros [= <- <-]].
  destruct accepted; cbn [negb]; [|by intros [= <- <-]].
  destruct (tokenBuildOnStartUp _) as [[ok u]| |]; [|done|done]. cbn [obind].
  destruct (if ok then _ else _) as [[ok' bytes]| |]; [|done|done]. cbn [obind].
  destruct (run object_bytes raw es input _) as [[a1 ended]| |] eqn:Hrun; [|done|done]. cbn [obind].
  apply run_handles in Hrun as (Hc & Hs & Hr). cbn [calls clientSocket recvThread] in Hc, Hs, Hr.
  destruct ended; intros [= <- <-]; [|by rewrite Hc].
  destruct a1 as [cl ic so rt se co ca]. cbn [calls clientSocket recvThread] in Hc, Hs, Hr. subst. done.
Qed.
End Runs.

(** ** Theorems: sessions *)

Section Sessions.
Context {C : Checksum} {L : ChecksumLaws C} (object_bytes : bstr -> bstr) (raw : Packet) (raw_size : length (data raw) = sizeof_data).

(** A command that a user may type and whose packets fit. *)
Definition accepted_by (s : ClientState) (x : Tick * Command) : Prop :=
  well_typed x.2 /\ x.2 <> CmdQuit /\ serves x.1 /\ Forall fits (requests x.1 x.2 s).

Definition session_requests (s : ClientState) (cs : list (Tick * Command)) : list message :=
  cs ≫= fun x => requests x.1 x.2 s.

Lemma run_typed cs es rest : forall a,
  isConnected a = true -> Forall (accepted_by (client a)) cs ->
  exists a', run object_bytes raw ((Typed ∘ fst <$> cs) ++ es) (lines cs ++ rest) a = run object_bytes raw es rest a' /\
    sent a' = sent a ++ concat (message_frame <$> session_requests (client a) cs) /\ isConnected a' = true.
Proof.
  induction cs as [|[t c] cs IH]; intros a Hc Hcs.
  - exists a. split; [done|]. split; [|done]. cbn. by rewrite app_nil_r.
  - apply Forall_cons_1 in Hcs as [(Hw & Hq & Ht & Hf) Hcs]. cbn [fst snd] in *.
    destruct (execute_sends raw raw_size t c a Hc Ht Hf) as (a1 & Hex & Hs1 & Hsame).
    destruct (IH a1) as (a2 & Hrun & Hs2 & Hc2).
    { by rewrite (same_connected _ _ Hsame). }
    { eapply list.Forall_impl; [exact Hcs|]. intros x (? & ? & ? & Hfx). split_and!; [done|done|done|]. by rewrite (requests_same _ _ a). }
    exists a2. split_and!; [| |done].
    + unfold lines. cbn [fmap list_fmap concat fst snd]. rewrite <- !app_assoc. cbn [app run compose fst].
      rewrite getline_typed, parse_typed by done. rewrite <- Hrun. by destruct c; try done; rewrite Hex.
    + rewrite Hs2, Hs1. unfold session_requests. cbn [mbind list_bind fst snd]. rewrite fmap_app, concat_app, <- app_assoc.
      do 4 f_equal. apply list_bind_ext; [|done]. intros x. apply requests_same, Hsame.
Qed.

(** What is typed is sent.  While the connection stands, a session of well-formed
    commands whose packets fit sends exactly the frames of the messages they stand for, in
    the order typed, however little each call of [send] takes; the line [/quit] then ends
    the loop, whatever follows it. *)
Theorem typed_session_sent cs t rest a :
  isConnected a = true -> Forall (accepted_by (client a)) cs ->
  exists a', run object_bytes raw ((Typed ∘ fst <$> cs) ++ [Typed t]) (lines cs ++ typed CmdQuit ++ newline :: rest) a = Ok (a', true) /\
    sent a' = sent a ++ concat (message_frame <$> session_requests (client a) cs).
Proof.
  intros Hc Hcs. destruct (run_typed cs [Typed t] (typed CmdQuit ++ newline :: rest) a Hc Hcs) as (a' & Hrun & Hs & _).
  exists a'. split; [|done]. rewrite Hrun. cbn [run]. by rewrite getline_typed, parse_typed.
Qed.
End Sessions.

(** A lost connection stays lost.  After [recv] has failed, nothing is sent any more and
    nothing of the client changes, whatever is typed: [/connect] sends a token over the
    connection there is, and nothing opens another. *)
Theorem lost_connection_silent {C : Checksum} object_bytes raw es input a a' ended :
  run object_bytes raw (Lost :: es) input a = Ok (a', ended) ->
  sent a' = sent a /\ client a' = client a /\ isConnected a' = false.
Proof. cbn [run]. intros Hrun. apply run_offline in Hrun; [done|done]. Qed.

(** ** Evaluation *)

Definition menu_tick : Tick := mkTick 1000 [5; 7] [] (zeros 16).
Definition menu_app : App := set_connected true (new_app ∅ ∅).
Definition menu_session : list (Tick * Command) :=
  [(menu_tick, CmdLogin (str "ada") (str "pw")); (menu_tick, CmdMsg (str "bob") (str " two  blanks "))].

Lemma typed_roundtrip_witness :
  parse_command (str "/msg bob  two  blanks ") = CmdMsg (str "bob") (str " two  blanks ").
Proof.
  destruct (typed_roundtrip (CmdMsg (str "bob") (str " two  blanks "))) as [H _]. apply H.
  split; [split; [discriminate|repeat constructor]|]. apply (bool_decide_unpack (_ ∉ _)). by vm_compute.
Defined.

Lemma typed_session_sent_witness :
  exists a', run (C := compute_soft) (fun _ => zeros 16) new_packet [Typed menu_tick; Typed menu_tick; Typed menu_tick]
    (lines menu_session ++ typed CmdQuit ++ newline :: []) menu_app = Ok (a', true) /\
    sent a' = concat (message_frame (C := compute_soft) <$> session_requests (C := compute_soft) (client menu_app) menu_session).
Proof.
  apply (typed_session_sent (C := compute_soft) (fun _ => zeros 16) new_packet new_packet_size menu_session menu_tick [] menu_app); [done|].
  assert (Hs : serves menu_tick) by (split; repeat constructor).
  unfold menu_session. apply list.Forall_cons; split; [|apply list.Forall_cons; split; [|by apply list.Forall_nil_2]]; unfold accepted_by; cbn [fst snd].
  - split_and!; [split; split; [discriminate|repeat constructor|discriminate|repeat constructor]|done|done|].
    cbn [requests]. apply list.Forall_singleton. vm_compute. lia.
  - split_and!; [split|done|done|].
    + split; [discriminate|repeat constructor].
    + apply (bool_decide_unpack (_ ∉ _)). by vm_compute.
    + cbn [requests]. apply list.Forall_singleton. vm_compute. lia.
Defined.

(** A client whose tokens are valid for a long time. *)
Definition granted_app : App :=
  set_client (set_user (mkClient [] (zeros 16) (replicate sizeof_AccessToken Byte.x01) (replicate sizeof_RefreshToken Byte.x01) true true ∅) (client menu_app)) menu_app.

Lemma granted_sends : requests (C := compute_soft) menu_tick CmdConnect (client granted_app) = [Raw PKT_TOKEN (replicate sizeof_AccessToken Byte.x01)].
Proof. vm_compute. reflexivity. Qed.

Lemma lost_connection_silent_witness :
  exists a', run (C := compute_soft) (fun _ => zeros 16) new_packet [Lost; Typed menu_tick; Typed menu_tick] (typed CmdConnect ++ newline :: []) granted_app = Ok (a', true) /\
    sent a' = [].
Proof.
  destruct (run (C := compute_soft) (fun _ => zeros 16) new_packet [Lost; Typed menu_tick; Typed menu_tick] (typed CmdConnect ++ newline :: []) granted_app)
    as [[a' [|]]| |] eqn:Hrun; [|vm_compute in Hrun; discriminate..].
  exists a'. split; [done|]. apply lost_connection_silent in Hrun as [Hs _]. exact Hs.
Defined.

(** The user quits at once. *)
Lemma client_run_calls_witness :
  exists a, main (C := compute_soft) (fun _ => zeros 16) new_packet true (Some 7) true menu_tick [Typed menu_tick] (str "/quit") (new_app ∅ ∅) = Ok (Some 0, a) /\
    calls a = [Startup; OpenSocket 7; ConnectSocket 7; StartReceiver; CloseSocket 7; JoinReceiver; Cleanup].
Proof.
  destruct (main (C := compute_soft) (fun _ => zeros 16) new_packet true (Some 7) true menu_tick [Typed menu_tick] (str "/quit") (new_app ∅ ∅))
    as [[[[|?|?]|] a]| |] eqn:Hrun; [|vm_compute in Hrun; discriminate..].
  exists a. split; [done|]. apply client_run_calls in Hrun as [Hc _]. exact Hc.
Defined.

(** The menu itself: lines of all kinds. *)
Example menu_lines :
  parse_command <$> (str <$> [""; "   "; " /msg bob"; "/msg bob "; "/leave"; "/login ada"; "quit"; "/create  g1 x"]%string) =
  [CmdNothing; CmdUnknown; CmdNothing; CmdMsg (str "bob") []; CmdNothing; CmdUsage (str "Usage: /login <identifier> <password>"); CmdUnknown; CmdCreate (str "g1")].
Proof. vm_compute. reflexivity. Qed.
