(* ===== verification/EndToEnd.v ===== *)
(** From the menu of one client to the queues of the server: client/main.cpp and
    client/Client.cpp on one end, IOCPManager::workerThread, MessageRouter and
    ManageOffline on the other, over the wire format they share. *)

From S2P Require Import Prelude Crc32c Packet Serialize CircularBuffer Fqueue PacketPool Framing Session Groups Offline Network AuthStore Auth Delivery GroupChat FileTransfer Table SignUp Router Dispatch Worker Client ClientFiles Menu.

(** ** Definitions *)

(** A user types messages: each with its receiver and its text. *)
Abbreviation Typing := (list (Tick * (bstr * bstr))).

Definition msg_commands (xs : Typing) : list (Tick * Command) := (fun x => (x.1, CmdMsg x.2.1 x.2.2)) <$> xs.

(** The messages as the server is to see them, from the user with id [uid]. *)
Definition typed_note (uid : bstr) (x : Tick * (bstr * bstr)) : Note :=
  mkNote (hexToBytes uid) (hexToBytes x.2.1) [] x.2.2 (now x.1).

Section EndToEnd.
Context {C : Checksum} {L : ChecksumLaws C} {N : Sodium} (hash : bstr -> Z) (object_bytes : bstr -> bstr).
Context (raw : Packet) (raw_size : length (data raw) = sizeof_data).

(** A receiver is a word, a text is a line, the packet has room for it, and the system
    takes what the client sends. *)
Definition sendable (uid : bstr) (x : Tick * (bstr * bstr)) : Prop :=
  is_word x.2.1 /\ one_line x.2.2 /\ serves x.1 /\ fits (note_message (typed_note uid x)).

Lemma typed_note_sound uid x : sendable uid x -> sound (note_message (typed_note uid x)).
Proof.
  intros (_ & _ & _ & Hf). split_and!; [|exact I|exact Hf]. cbn [note_message typed_note n_claimed n_recv n_user n_text n_ts].
  unfold uuids_ok, UUID_SIZE. cbn [uuids]. repeat constructor; apply hexToBytes_length.
Qed.

Lemma msg_commands_accepted s xs :
  Forall (sendable (userId (user s))) xs -> Forall (accepted_by s) (msg_commands xs).
Proof.
  intros Hxs. unfold msg_commands. rewrite Forall_fmap. eapply list.Forall_impl; [exact Hxs|].
  intros [t [r text]] (Hw & Ht & Hs & Hf). cbn [fst snd] in *. unfold accepted_by. cbn [compose fst snd well_typed requests].
  split_and!; [done|done|done|done|]. by apply list.Forall_singleton.
Qed.

Lemma msg_commands_requests s xs : session_requests s (msg_commands xs) = note_message <$> (typed_note (userId (user s)) <$> xs).
Proof. unfold session_requests, msg_commands. induction xs as [|x xs IH]; [done|]. cbn [fmap list_fmap mbind list_bind app] in *. by rewrite IH. Qed.

(** A user is addressed by the hexadecimal form of the id: the queue is that of the name
    under which a login registers the user. *)
Lemma typed_note_to uid t u text :
  length (user_id u) = UUID_SIZE -> note_to (typed_note uid (t, (bytesToHex (user_id u), text))) = UserIdToHexString (user_id u).
Proof. intros Hb. unfold note_to, typed_note. cbn [n_recv fst snd]. by rewrite hexToBytes_bytesToHex. Qed.

(** ** Property *)

(** C5: from the keyboard to the queue.  A user who is connected and authenticated types
    messages at the menu and then quits.  The bytes that the client sends, arriving at the
    server in one receive, take a worker thread through one turn that ends well: the queue
    of every user is the old one followed by packets of its own for exactly the messages
    typed for this user, in the order typed, each the frame of the message with the
    sender's id and the text as it was typed. *)
Theorem typed_messages_queued xs t a input clock c i d b cb tid ptr se s B E D k :
  isConnected a = true -> sent a = [] -> xs <> [] -> Forall (sendable (userId (user (client a)))) xs ->
  chat_ok (chat s) B E D (S (length xs + S k)) ->
  success c = true -> lpOverlapped c = Some i -> completionKey c = socket se ->
  i ∈ D -> io_pool (io (net s)) !! i = Some d -> operationType d = 2 ->
  socketBuffers (conns s) !! socket se = Some b -> heap (conns s) !! b = Some cb -> settled cb -> contents (cbuf cb) = [] ->
  let notes := typed_note (userId (user (client a))) <$> xs in
  len (concat (message_frame <$> (note_message <$> notes))) <= bufs_total (getWriteBuffers (cbuf cb)) ->
  (base.size B + length xs <= currentSize)%nat ->
  registered (registry (net s)) tid ptr se -> (forall j, ValidateSessionHotPath se (t_gate (clock j)) = true) ->
  exists a' s' ps,
    run object_bytes raw ((Typed ∘ fst <$> xs) ++ [Typed t]) (lines (msg_commands xs) ++ typed CmdQuit ++ newline :: input) a = Ok (a', true) /\
    worker_iteration hash clock c (RecvBytes (sent a')) s = Some (Ok (true, s')) /\
    (forall id, queued id (chat s') = queued id (chat s) ++ addressed id notes ps) /\
    Forall2 (fun p m => exists pkt, pool (packets (net s')) !! p = Some pkt /\
               take (length (message_frame (note_message m))) (data pkt) = message_frame (note_message m)) ps notes.
Proof.
  intros Hc H0 Hne Hxs Hok Hsuc Hov Hkey HiD Hd Hop Hsb Hh Hset Hemp notes Hlen Hroom Hse Hval.
  destruct (run_typed object_bytes raw raw_size (msg_commands xs) [Typed t] (typed CmdQuit ++ newline :: input) a Hc
    (msg_commands_accepted _ _ Hxs)) as (a' & Hrun & Hsent & _).
  rewrite H0, msg_commands_requests in Hsent. cbn [app] in Hsent. fold notes in Hsent.
  assert (Hln : length notes = length xs) by apply length_fmap.
  destruct (on_receive_notes hash clock (sent a') notes [] i b cb tid ptr se s B E D k)
    as (s' & ps & cb' & E' & D' & Hon & _ & _ & _ & Hdata & Hq & _); try done.
  - by rewrite Hln.
  - rewrite Hsent. unfold notes. destruct xs as [|x xs]; [done|]. cbn [fmap list_fmap concat]. unfold message_frame at 1.
    intros Hnil. apply (f_equal length) in Hnil. rewrite length_app, length_frame in Hnil. unfold HEADER_SIZE in Hnil. cbn [length] in Hnil. lia.
  - by rewrite Hsent.
  - rewrite Hemp, Hsent. by rewrite app_nil_r.
  - unfold notes. rewrite !Forall_fmap. eapply list.Forall_impl; [exact Hxs|]. intros x Hx. exact (typed_note_sound _ x Hx).
  - by rewrite Hln.
  - exists a', s', ps. split_and!; [|eapply worker_receives; try done; by rewrite Hkey|done|done].
    replace (Typed ∘ fst <$> xs) with (Typed ∘ fst <$> msg_commands xs) by (unfold msg_commands; by rewrite <- list_fmap_compose).
    rewrite Hrun. cbn [run]. by rewrite getline_typed, parse_typed.
Qed.
End EndToEnd.

(** ** Evaluation *)

Definition two_typed : list (Tick * (bstr * bstr)) :=
  [(menu_tick, (str "bob", str "hi")); (menu_tick, (str "eve", str "hello  there"))].
Definition two_notes : list Note := typed_note [] <$> two_typed.

Lemma two_typed_sendable : Forall (sendable (C := compute_soft) []) two_typed.
Proof.
  assert (Hs : serves menu_tick) by (split; repeat constructor).
  assert (Hl : forall w, bool_decide (newline ∉ w) = true -> one_line w) by (intros w Hb; by apply bool_decide_eq_true in Hb).
  unfold two_typed. apply list.Forall_cons; split; [|apply list.Forall_cons; split; [|by apply list.Forall_nil_2]].
  all: split_and!; [split; [discriminate|repeat constructor]|apply Hl; reflexivity|apply Hs|vm_compute; lia].
Qed.

(** Two messages typed by a user whose client is connected, for two receivers. *)
Lemma typed_messages_queued_witness :
  exists a' c s s' p q,
    run (C := compute_soft) (fun _ => zeros 16) new_packet [Typed menu_tick; Typed menu_tick; Typed menu_tick]
      (lines (msg_commands two_typed) ++ typed CmdQuit ++ newline :: []) menu_app = Ok (a', true) /\
    worker_iteration (C := compute_soft) (N := sample_sodium) sample_hash (fun _ => sample_env) c (RecvBytes (sent a')) s = Some (Ok (true, s')) /\
    (forall id, queued id (chat s') = @addressed sample_sodium id two_notes [p; q]).
Proof.
  destruct (prepared_session (set_auth AUTHENTICATED [] 2000)) as [Hr [se Hse]]; [done|].
  pose proof (prepared_socket (set_auth AUTHENTICATED [] 2000) se ltac:(done) Hse) as Hsk.
  destruct (fresh_chat _ 9 Hr) as (st & Hok & H0 & Hreg & Hans & _); [lia|].
  destruct (accept_pending 100 (sample_server st) ∅ ∅ ∅ 8 Hok) as (s & i & d & _ & _ & Hok1 & Hq1 & Hr1 & _ & Hcs & _ & Hd & Ht & _ & _).
  { unfold answer, net. cbn [sample_server chat]. by rewrite Hans. }
  destruct (typed_messages_queued (C := compute_soft) (N := sample_sodium) sample_hash (fun _ => zeros 16) new_packet new_packet_size
    two_typed menu_tick menu_app [] (fun _ => sample_env) (mkCompletion true 0 100 (Some i)) i d 0 new_connection (str "100id") 0
    (set_auth AUTHENTICATED [] 2000 se) s ∅ ∅ ({[i]} ∪ ∅) 4) as (a' & s' & ps & Hrun & Hw & Hq & Hps).
  - reflexivity.
  - reflexivity.
  - discriminate.
  - exact two_typed_sendable.
  - exact Hok1.
  - reflexivity.
  - reflexivity.
  - symmetry. exact Hsk.
  - apply elem_of_union_l. by apply elem_of_singleton.
  - exact Hd.
  - exact Ht.
  - rewrite Hcs, Hsk. reflexivity.
  - rewrite Hcs. reflexivity.
  - apply new_connection_settled.
  - apply new_connection_contents.
  - vm_compute. congruence.
  - rewrite size_empty. pose proof currentSize_Z. cbn [length two_typed]. lia.
  - rewrite Hr1. unfold net. cbn [sample_server chat]. rewrite Hreg. exact Hse.
  - reflexivity.
  - destruct ps as [|p [|q [|]]]; try (apply Forall2_length in Hps; discriminate Hps).
    exists a', (mkCompletion true 0 100 (Some i)), s, s', p, q. split; [exact Hrun|]. split; [exact Hw|].
    intros id. rewrite Hq. unfold queued. rewrite Hq1. cbn [sample_server chat]. rewrite H0, lookup_empty. reflexivity.
Defined.
